(** * The xv6 priority-queue process scheduler (kernel/proc.c)

    A shallow embedding of the scheduler of kernel/proc.c: the binary heap
    of runnable processes ([heapify_up], [heapify_down_i], [rearrange_heap]),
    the queue operations [put] and [get], the reconfiguration entry point
    [change_sched], the timer routine, and the state transitions of the
    process life cycle ([allocproc], [yield], [sleep], [wakeup], [exit],
    [kill], [wait], the per-CPU [scheduler] loop).

    Kernel memory is an explicit record [kernel]; a [struct proc *] is the
    index of the entry in the process table ([None] is the null pointer), so
    that the heap holds aliases of the table entries exactly as in C.  A
    function that dereferences a null pointer, indexes outside an array,
    panics, or would spin on a taken spinlock has no result ([None]). *)

From Stdlib Require Import ZArith Lia Bool.
From stdpp Require Import base option list strings.

Local Open Scope Z_scope.

(** ** C integers *)

Module C.

Definition INT_HALF : Z := 2147483648.
Definition UINT_MOD : Z := 4294967296.

(** Conversion of a mathematical integer to [int] and to [uint]. *)
Definition to_int (z : Z) : Z := (z + INT_HALF) mod UINT_MOD - INT_HALF.
Definition to_uint (z : Z) : Z := z mod UINT_MOD.

Definition add (x y : Z) : Z := to_int (x + y).
Definition sub (x y : Z) : Z := to_int (x - y).
Definition mul (x y : Z) : Z := to_int (x * y).

(** [int / int] truncates toward zero; dividing by zero traps. *)
Definition div (x y : Z) : option Z :=
  if y =? 0 then None else Some (to_int (Z.quot x y)).

(** [uint / uint]. *)
Definition udiv (x y : Z) : option Z :=
  if y =? 0 then None else Some (x / y).

(** [x && y] and [x || y]: the right operand is evaluated only when the
    left one does not decide, so a fault in it is then not reached. *)
Definition and (x : bool) (y : option bool) : option bool :=
  if x then y else Some false.
Definition or (x y : option bool) : option bool :=
  match x with
  | Some true => Some true
  | Some false => y
  | None => None
  end.

Definition in_int (z : Z) : Prop := - INT_HALF <= z < INT_HALF.

End C.

(** ** Arrays indexed by an [int] *)

Definition arr_get {A} (arr : list A) (i : Z) : option A :=
  if i <? 0 then None else arr !! Z.to_nat i.

Definition arr_set {A} (arr : list A) (i : Z) (x : A) : option (list A) :=
  if (0 <=? i) && (i <? Z.of_nat (length arr))
  then Some (<[Z.to_nat i := x]> arr) else None.

(** ** Data *)

(** Modelled from the spec: param.h is not among the sources; NPROC and NCPU
    are the sizes of the process table and of the CPU table (xv6 uses 64 and
    8). *)
Definition NPROC : nat := 64.
Definition NCPU : nat := 8.

(** Modelled from the spec: spinlock.h and spinlock.c are not among the
    sources.  A spinlock records the CPU that holds it: [acquire] by a CPU
    needs the lock to be free (otherwise the CPU spins, or panics when it is
    the holder itself), [release] panics unless the caller holds it. *)
Abbreviation spinlock := (option nat).

Definition holding (c : nat) (lk : spinlock) : bool :=
  match lk with Some c' => Nat.eqb c c' | None => false end.

Definition acquire (c : nat) (lk : spinlock) : option spinlock :=
  match lk with None => Some (Some c) | Some _ => None end.

Definition release (c : nat) (lk : spinlock) : option spinlock :=
  if holding c lk then Some None else None.

(** [enum procstate] *)
Inductive procstate : Set :=
  UNUSED | USED | SLEEPING | RUNNABLE | RUNNING | ZOMBIE.

Definition procstate_eqb (x y : procstate) : bool :=
  match x, y with
  | UNUSED, UNUSED | USED, USED | SLEEPING, SLEEPING
  | RUNNABLE, RUNNABLE | RUNNING, RUNNING | ZOMBIE, ZOMBIE => true
  | _, _ => false
  end.

(** The saved [context.ra] of a process: where its kernel thread continues
    when the scheduler switches to it. *)
Inductive kcontext : Set :=
  | CtxZero       (* zeroed memory *)
  | CtxForkret    (* set by allocproc *)
  | CtxYield      (* saved by sched() called from yield() *)
  | CtxSleep      (* saved by sched() called from sleep() *)
  | CtxExit.      (* saved by sched() called from exit() *)

(** Modelled from the spec: proc.h is not among the sources.  [struct proc]
    with the fields proc.c reads and writes; the scheduling statistics are
    [int]s.  A process handle ([struct proc *]) is an index in the table. *)
Record proc : Set := mkproc {
  lock : spinlock;
  state : procstate;
  chan : Z;
  killed : Z;
  xstate : Z;
  pid : Z;
  parent : option nat;
  context : kcontext;
  cpu_burst : Z;
  cpu_burst_aprox : Z;
  exe_time : Z;
  put_timestamp : Z;
  timeslice : Z
}.

Definition set_lock v (p : proc) : proc :=
  mkproc v (state p) (chan p) (killed p) (xstate p) (pid p) (parent p)
    (context p) (cpu_burst p) (cpu_burst_aprox p) (exe_time p)
    (put_timestamp p) (timeslice p).
Definition set_state v (p : proc) : proc :=
  mkproc (lock p) v (chan p) (killed p) (xstate p) (pid p) (parent p)
    (context p) (cpu_burst p) (cpu_burst_aprox p) (exe_time p)
    (put_timestamp p) (timeslice p).
Definition set_chan v (p : proc) : proc :=
  mkproc (lock p) (state p) v (killed p) (xstate p) (pid p) (parent p)
    (context p) (cpu_burst p) (cpu_burst_aprox p) (exe_time p)
    (put_timestamp p) (timeslice p).
Definition set_killed v (p : proc) : proc :=
  mkproc (lock p) (state p) (chan p) v (xstate p) (pid p) (parent p)
    (context p) (cpu_burst p) (cpu_burst_aprox p) (exe_time p)
    (put_timestamp p) (timeslice p).
Definition set_xstate v (p : proc) : proc :=
  mkproc (lock p) (state p) (chan p) (killed p) v (pid p) (parent p)
    (context p) (cpu_burst p) (cpu_burst_aprox p) (exe_time p)
    (put_timestamp p) (timeslice p).
Definition set_pid v (p : proc) : proc :=
  mkproc (lock p) (state p) (chan p) (killed p) (xstate p) v (parent p)
    (context p) (cpu_burst p) (cpu_burst_aprox p) (exe_time p)
    (put_timestamp p) (timeslice p).
Definition set_parent v (p : proc) : proc :=
  mkproc (lock p) (state p) (chan p) (killed p) (xstate p) (pid p) v
    (context p) (cpu_burst p) (cpu_burst_aprox p) (exe_time p)
    (put_timestamp p) (timeslice p).
Definition set_context v (p : proc) : proc :=
  mkproc (lock p) (state p) (chan p) (killed p) (xstate p) (pid p) (parent p)
    v (cpu_burst p) (cpu_burst_aprox p) (exe_time p)
    (put_timestamp p) (timeslice p).
Definition set_cpu_burst v (p : proc) : proc :=
  mkproc (lock p) (state p) (chan p) (killed p) (xstate p) (pid p) (parent p)
    (context p) v (cpu_burst_aprox p) (exe_time p)
    (put_timestamp p) (timeslice p).
Definition set_cpu_burst_aprox v (p : proc) : proc :=
  mkproc (lock p) (state p) (chan p) (killed p) (xstate p) (pid p) (parent p)
    (context p) (cpu_burst p) v (exe_time p)
    (put_timestamp p) (timeslice p).
Definition set_exe_time v (p : proc) : proc :=
  mkproc (lock p) (state p) (chan p) (killed p) (xstate p) (pid p) (parent p)
    (context p) (cpu_burst p) (cpu_burst_aprox p) v
    (put_timestamp p) (timeslice p).
Definition set_put_timestamp v (p : proc) : proc :=
  mkproc (lock p) (state p) (chan p) (killed p) (xstate p) (pid p) (parent p)
    (context p) (cpu_burst p) (cpu_burst_aprox p) (exe_time p)
    v (timeslice p).
Definition set_timeslice v (p : proc) : proc :=
  mkproc (lock p) (state p) (chan p) (killed p) (xstate p) (pid p) (parent p)
    (context p) (cpu_burst p) (cpu_burst_aprox p) (exe_time p)
    (put_timestamp p) v.

(** Modelled from the spec: proc.h is not among the sources.
    [struct sched_policy]: the heap of process handles (an array of NPROC
    pointers), its size, the policy triple and the lock guarding them. *)
Record sched_policy : Set := mksched {
  sp_lock : spinlock;
  heap : list (option nat);
  heap_size : Z;
  algorithm : Z;
  is_preemptive : Z;
  a : Z
}.

Definition set_sp_lock v (sp : sched_policy) : sched_policy :=
  mksched v (heap sp) (heap_size sp) (algorithm sp) (is_preemptive sp) (a sp).
Definition set_heap v (sp : sched_policy) : sched_policy :=
  mksched (sp_lock sp) v (heap_size sp) (algorithm sp) (is_preemptive sp)
    (a sp).
Definition set_heap_size v (sp : sched_policy) : sched_policy :=
  mksched (sp_lock sp) (heap sp) v (algorithm sp) (is_preemptive sp) (a sp).
Definition set_algorithm v (sp : sched_policy) : sched_policy :=
  mksched (sp_lock sp) (heap sp) (heap_size sp) v (is_preemptive sp) (a sp).
Definition set_is_preemptive v (sp : sched_policy) : sched_policy :=
  mksched (sp_lock sp) (heap sp) (heap_size sp) (algorithm sp) v (a sp).
Definition set_a v (sp : sched_policy) : sched_policy :=
  mksched (sp_lock sp) (heap sp) (heap_size sp) (algorithm sp)
    (is_preemptive sp) v.

(** Where the scheduler thread of a CPU stands in [scheduler()]; the local
    variable [p] of the loop lives in its saved registers. *)
Inductive sched_point : Set :=
  | SchedTop                 (* about to call get() *)
  | SchedGot (p : nat)       (* get() returned p, about to acquire p->lock *)
  | SchedSwitched (p : nat)  (* inside swtch: the CPU runs the process *)
  | SchedResumed (p : nat).  (* swtch returned: the process called sched() *)

(** Modelled from the spec: proc.h is not among the sources.  [struct cpu]:
    the process running on the CPU and the saved scheduler context. *)
Record cpu : Set := mkcpu {
  cproc : option nat;
  sched_at : sched_point
}.

(** Global kernel data of proc.c, and the tick counter of trap.c
    ([uint ticks]). *)
Record kernel : Set := mkkernel {
  proc_table : list proc;
  cpus : list cpu;
  proc_sched : sched_policy;
  initproc : option nat;
  nextpid : Z;
  ticks : Z
}.

Definition set_proc_table v (k : kernel) : kernel :=
  mkkernel v (cpus k) (proc_sched k) (initproc k) (nextpid k) (ticks k).
Definition set_cpus v (k : kernel) : kernel :=
  mkkernel (proc_table k) v (proc_sched k) (initproc k) (nextpid k) (ticks k).
Definition set_proc_sched v (k : kernel) : kernel :=
  mkkernel (proc_table k) (cpus k) v (initproc k) (nextpid k) (ticks k).
Definition set_initproc v (k : kernel) : kernel :=
  mkkernel (proc_table k) (cpus k) (proc_sched k) v (nextpid k) (ticks k).
Definition set_nextpid v (k : kernel) : kernel :=
  mkkernel (proc_table k) (cpus k) (proc_sched k) (initproc k) v (ticks k).
Definition set_ticks v (k : kernel) : kernel :=
  mkkernel (proc_table k) (cpus k) (proc_sched k) (initproc k) (nextpid k) v.

(** [*p = pr] for a handle [p], and [cpus[c] = cp]. *)
Definition store (p : nat) (pr : proc) (k : kernel) : kernel :=
  set_proc_table (<[p := pr]> (proc_table k)) k.
Definition set_cpu (c : nat) (cp : cpu) (k : kernel) : kernel :=
  set_cpus (<[c := cp]> (cpus k)) k.

(** ** The heap *)

Section Heap.

(** The process table the handles point into; the heap routines only
    read it. *)
Variable tbl : list proc.

(** [arr[i]->f] *)
Definition field_at (arr : list (option nat)) (f : proc -> Z) (i : Z)
  : option Z :=
  p ← arr_get arr i; h ← p; pr ← tbl !! h; Some (f pr).

(** [arr[i]->f < arr[j]->f] *)
Definition lt_at arr (f : proc -> Z) (i j : Z) : option bool :=
  x ← field_at arr f i; y ← field_at arr f j; Some (x <? y).

(** [arr[i]->f > arr[j]->f] *)
Definition gt_at arr (f : proc -> Z) (i j : Z) : option bool :=
  x ← field_at arr f i; y ← field_at arr f j; Some (x >? y).

(** [tmp = arr[i]; arr[i] = arr[j]; arr[j] = tmp;] *)
Definition swap (arr : list (option nat)) (i j : Z)
  : option (list (option nat)) :=
  tmp ← arr_get arr i;
  x ← arr_get arr j;
  arr ← arr_set arr i x;
  arr_set arr j tmp.

(** The [while (1)] loop of [heapify_up]. *)
Fixpoint heapify_up_loop (fuel : nat) (arr : list (option nat))
    (algo curr parent : Z) : option (list (option nat)) :=
  match fuel with
  | O => None
  | S fuel =>
    c ← C.or (C.and (algo =? 0) (lt_at arr cpu_burst_aprox curr parent))
             (C.and (negb (algo =? 0)) (lt_at arr exe_time curr parent));
    if c : bool then
      arr ← swap arr curr parent;
      if parent =? 0 then Some arr
      else heapify_up_loop fuel arr algo parent (Z.quot (parent - 1) 2)
    else Some arr
  end.

Definition heapify_up (arr : list (option nat)) (n algo : Z)
  : option (list (option nat)) :=
  if n =? 1 then Some arr
  else heapify_up_loop (Z.to_nat n) arr algo (n - 1) (Z.quot (n - 1) 2).

(** The [while (1)] loop of [heapify_down_i]; [left_child] and
    [right_child] are recomputed from [curr] at the end of each round. *)
Fixpoint heapify_down_loop (fuel : nat) (arr : list (option nat))
    (n algo curr : Z) : option (list (option nat)) :=
  match fuel with
  | O => None
  | S fuel =>
    let left_child := curr * 2 + 1 in
    let right_child := curr * 2 + 2 in
    c1 ← C.or
           (C.and (algo =? 0) (C.and (left_child <? n)
              (gt_at arr cpu_burst_aprox curr left_child)))
           (C.and (negb (algo =? 0)) (C.and (left_child <? n)
              (gt_at arr exe_time curr left_child)));
    if c1 : bool then
      arr ← swap arr curr left_child;
      heapify_down_loop fuel arr n algo left_child
    else
      c2 ← C.or
             (C.and (algo =? 0) (C.and (right_child <? n)
                (gt_at arr cpu_burst_aprox curr right_child)))
             (C.and (negb (algo =? 0)) (C.and (right_child <? n)
                (gt_at arr cpu_burst_aprox curr right_child)));
      if c2 : bool then
        arr ← swap arr curr right_child;
        heapify_down_loop fuel arr n algo right_child
      else Some arr
  end.

Definition heapify_down_i (arr : list (option nat)) (n i algo : Z)
  : option (list (option nat)) :=
  if n =? 1 then Some arr
  else heapify_down_loop (S (Z.to_nat n)) arr n algo i.

Definition heapify_down (arr : list (option nat)) (n algo : Z)
  : option (list (option nat)) :=
  heapify_down_i arr n 0 algo.

(** The [for (i = i_init; i >= 0; i--)] loop of [rearrange_heap]; [cnt]
    is its trip count. *)
Fixpoint rearrange_loop (cnt : nat) (arr : list (option nat))
    (n algo i : Z) : option (list (option nat)) :=
  match cnt with
  | O => Some arr
  | S cnt =>
    if i >=? 0 then
      arr ← heapify_down_i arr n i algo;
      rearrange_loop cnt arr n algo (i - 1)
    else Some arr
  end.

Definition rearrange_heap (arr : list (option nat)) (n algo : Z)
  : option (list (option nat)) :=
  let i_init := Z.quot n 2 - 1 in
  rearrange_loop (Z.to_nat (i_init + 1)) arr n algo i_init.

End Heap.

(** ** Locks and the current process *)

(** [acquire(&p->lock)] and [release(&p->lock)] on CPU [c]. *)
Definition acquire_proc (c p : nat) (k : kernel) : option kernel :=
  pr ← proc_table k !! p;
  lk ← acquire c (lock pr);
  Some (store p (set_lock lk pr) k).

Definition release_proc (c p : nat) (k : kernel) : option kernel :=
  pr ← proc_table k !! p;
  lk ← release c (lock pr);
  Some (store p (set_lock lk pr) k).

(** [acquire(&proc_sched.lock)] and [release(&proc_sched.lock)]. *)
Definition acquire_sched (c : nat) (k : kernel) : option kernel :=
  lk ← acquire c (sp_lock (proc_sched k));
  Some (set_proc_sched (set_sp_lock lk (proc_sched k)) k).

Definition release_sched (c : nat) (k : kernel) : option kernel :=
  lk ← release c (sp_lock (proc_sched k));
  Some (set_proc_sched (set_sp_lock lk (proc_sched k)) k).

(** [myproc()] on CPU [c]: [c->proc]. *)
Definition myproc (c : nat) (k : kernel) : option (option nat) :=
  cp ← cpus k !! c; Some (cproc cp).

(** ** The queue: put and get *)

Definition put (c : nat) (p : option nat) (k : kernel) : option kernel :=
  match p with
  | None => Some k
  | Some p =>
    pr ← proc_table k !! p;
    let cpu_already_locked_the_lock := holding c (lock pr) in
    k ← (if cpu_already_locked_the_lock then Some k else acquire_proc c p k);
    k ← acquire_sched c k;
    let sp := proc_sched k in
    (* proc->state: the state of the first entry of the process table *)
    head ← proc_table k !! 0%nat;
    pr ← proc_table k !! p;
    pr ← (if negb (procstate_eqb (state head) RUNNING) then
            v ← C.div (C.add (C.mul (a sp) (cpu_burst pr))
                             (C.mul (C.sub 100 (a sp)) (cpu_burst_aprox pr)))
                      100;
            Some (set_cpu_burst_aprox v pr)
          else Some pr);
    let pr := if procstate_eqb (state pr) RUNNING
              then set_exe_time (C.add (exe_time pr) (cpu_burst pr)) pr
              else set_exe_time 0 pr in
    let pr := set_put_timestamp (C.to_int (ticks k)) pr in
    let pr := set_state RUNNABLE pr in
    let k := store p pr k in
    arr ← arr_set (heap sp) (heap_size sp) (Some p);
    let n := C.add (heap_size sp) 1 in
    arr ← heapify_up (proc_table k) arr n (algorithm sp);
    let k := set_proc_sched (set_heap_size n (set_heap arr sp)) k in
    k ← release_sched c k;
    if cpu_already_locked_the_lock then Some k else release_proc c p k
  end.

Definition get (c : nat) (k : kernel) : option (option nat * kernel) :=
  k ← acquire_sched c k;
  let sp := proc_sched k in
  if heap_size sp =? 0 then
    k ← release_sched c k; Some (None, k)
  else
    ret ← arr_get (heap sp) 0;
    r ← ret;
    pr ← proc_table k !! r;
    let k := store r (set_cpu_burst 0 pr) k in
    last ← arr_get (heap sp) (C.sub (heap_size sp) 1);
    arr ← arr_set (heap sp) 0 last;
    arr ← arr_set arr (C.sub (heap_size sp) 1) None;
    let n := C.sub (heap_size sp) 1 in
    arr ← heapify_down (proc_table k) arr n (algorithm sp);
    let k := set_proc_sched (set_heap_size n (set_heap arr sp)) k in
    k ← (if algorithm sp =? 1 then
           pr ← proc_table k !! r;
           q ← C.udiv (C.to_uint (ticks k - C.to_uint (put_timestamp pr)))
                      (C.to_uint (C.add n 1));
           let cfs_timeslice := C.to_int q in
           let cfs_timeslice := if cfs_timeslice =? 0
                                then C.add cfs_timeslice 1
                                else cfs_timeslice in
           Some (store r (set_timeslice cfs_timeslice pr) k)
         else Some k);
    k ← release_sched c k;
    Some (ret, k).

(** ** Reconfiguration *)

Definition change_sched (c : nat) (algo is_preemptive_arg a_arg : Z)
    (k : kernel) : option (Z * kernel) :=
  if (algo <? 0) || (algo >? 1) || (is_preemptive_arg <? 0) then Some (-2, k)
  else if (algo =? 0) && ((a_arg <? 0) || (a_arg >? 100)) then Some (-3, k)
  else
    k ← acquire_sched c k;
    let sp := set_a a_arg (set_is_preemptive is_preemptive_arg
                (set_algorithm algo (proc_sched k))) in
    arr ← rearrange_heap (proc_table k) (heap sp) (heap_size sp) algo;
    let k := set_proc_sched (set_heap arr sp) k in
    k ← release_sched c k;
    Some (0, k).

(** ** Process life cycle *)

Definition ptr_eqb (p q : option nat) : bool :=
  match p, q with
  | Some x, Some y => Nat.eqb x y
  | None, None => true
  | _, _ => false
  end.

(** [freeproc(p)], with [p->lock] held; the lock and the saved context are
    not touched. *)
Definition freeproc (p : nat) (k : kernel) : option kernel :=
  pr ← proc_table k !! p;
  Some (store p (mkproc (lock pr) UNUSED 0 0 0 0 None (context pr) 0 0 0 0 0)
          k).

(** [allocproc()] from the label [found:], with [p->lock] held; [mem_ok]
    tells whether the trapframe and the page table could be allocated. *)
Definition allocproc_found (c p : nat) (mem_ok : bool) (k : kernel)
    : option (option nat * kernel) :=
  let new_pid := nextpid k in
  let k := set_nextpid (C.add (nextpid k) 1) k in
  pr ← proc_table k !! p;
  let pr := set_pid new_pid pr in
  let pr := set_state USED pr in
  let pr := set_cpu_burst_aprox 0 pr in
  let pr := set_cpu_burst 0 pr in
  let pr := set_timeslice 0 pr in
  let pr := set_put_timestamp 0 pr in
  let pr := set_exe_time 0 pr in
  let k := store p pr k in
  if mem_ok then
    Some (Some p, store p (set_context CtxForkret pr) k)
  else
    k ← freeproc p k;
    k ← release_proc c p k;
    Some (None, k).

(** The search loop of [allocproc()] over the entries [ps]. *)
Fixpoint allocproc_scan (c : nat) (mem_ok : bool) (ps : list nat)
    (k : kernel) : option (option nat * kernel) :=
  match ps with
  | [] => Some (None, k)
  | p :: ps =>
    k ← acquire_proc c p k;
    pr ← proc_table k !! p;
    if procstate_eqb (state pr) UNUSED then allocproc_found c p mem_ok k
    else k ← release_proc c p k; allocproc_scan c mem_ok ps k
  end.

Definition allocproc (c : nat) (mem_ok : bool) (k : kernel)
    : option (option nat * kernel) :=
  allocproc_scan c mem_ok (seq 0 NPROC) k.

(** [userinit()], run once at boot on CPU [c]. *)
Definition userinit (c : nat) (k : kernel) : option kernel :=
  '(p, k) ← allocproc c true k;
  let k := set_initproc p k in
  h ← p;
  k ← put c p k;
  release_proc c h k.

(** [sched()]: the process on CPU [c] switches to the scheduler thread of
    the CPU; [from] is the return address that swtch saves in
    [p->context].  The checks of [noff] and of the interrupt flag are not
    modelled. *)
Definition sched (from : kcontext) (c : nat) (k : kernel) : option kernel :=
  p ← myproc c k;
  h ← p;
  pr ← proc_table k !! h;
  if negb (holding c (lock pr)) then None          (* panic("sched p->lock") *)
  else if procstate_eqb (state pr) RUNNING then None (* panic("sched running") *)
  else
    cp ← cpus k !! c;
    match sched_at cp with
    | SchedSwitched q =>
      Some (set_cpu c (mkcpu (cproc cp) (SchedResumed q))
              (store h (set_context from pr) k))
    | _ => None
    end.

(** [yield()] up to the switch; the [release(&p->lock)] after [sched()]
    runs when the process is next dispatched (see [resume]). *)
Definition yield (c : nat) (k : kernel) : option kernel :=
  p ← myproc c k;
  h ← p;
  k ← acquire_proc c h k;
  k ← put c p k;
  sched CtxYield c k.

(** [sleep(chan, lk)] up to the switch; [lk] belongs to the caller and is
    not part of the scheduler state. *)
Definition sleep (c : nat) (ch : Z) (k : kernel) : option kernel :=
  p ← myproc c k;
  h ← p;
  k ← acquire_proc c h k;
  pr ← proc_table k !! h;
  let k := store h (set_state SLEEPING (set_chan ch pr)) k in
  sched CtxSleep c k.

(** What the kernel thread of [p] does when swtch returns into it. *)
Definition resume (c p : nat) (k : kernel) : option kernel :=
  pr ← proc_table k !! p;
  match context pr with
  | CtxForkret => release_proc c p k   (* forkret: release(&myproc()->lock) *)
  | CtxYield => release_proc c p k     (* yield: release(&p->lock) *)
  | CtxSleep =>                        (* sleep: p->chan = 0; release(&p->lock) *)
    release_proc c p (store p (set_chan 0 pr) k)
  | CtxExit => None                    (* panic("zombie exit") *)
  | CtxZero => None
  end.

(** One round of the loop of [wakeup(chan)], for the table entry [p]. *)
Definition wakeup_at (c : nat) (ch : Z) (p : nat) (k : kernel)
    : option kernel :=
  me ← myproc c k;
  if ptr_eqb (Some p) me then Some k
  else
    k ← acquire_proc c p k;
    pr ← proc_table k !! p;
    k ← (if procstate_eqb (state pr) SLEEPING && (chan pr =? ch)
         then put c (Some p) k else Some k);
    release_proc c p k.

Fixpoint wakeup_loop (c : nat) (ch : Z) (ps : list nat) (k : kernel)
    : option kernel :=
  match ps with
  | [] => Some k
  | p :: ps => k ← wakeup_at c ch p k; wakeup_loop c ch ps k
  end.

Definition wakeup (c : nat) (ch : Z) (k : kernel) : option kernel :=
  wakeup_loop c ch (seq 0 NPROC) k.

(** One round of the loop of [kill(pid)], for the table entry [p]; the
    flag tells whether the round returned 0. *)
Definition kill_at (c : nat) (target : Z) (p : nat) (k : kernel)
    : option (bool * kernel) :=
  k ← acquire_proc c p k;
  pr ← proc_table k !! p;
  if pid pr =? target then
    let k := store p (set_killed 1 pr) k in
    k ← (if procstate_eqb (state pr) SLEEPING
         then put c (Some p) k else Some k);
    k ← release_proc c p k;
    Some (true, k)
  else
    k ← release_proc c p k;
    Some (false, k).

Fixpoint kill_scan (c : nat) (target : Z) (ps : list nat) (k : kernel)
    : option (Z * kernel) :=
  match ps with
  | [] => Some (-1, k)
  | p :: ps =>
    '(found, k) ← kill_at c target p k;
    if found : bool then Some (0, k) else kill_scan c target ps k
  end.

Definition kill (c : nat) (target : Z) (k : kernel) : option (Z * kernel) :=
  kill_scan c target (seq 0 NPROC) k.

(** The pointer updates of [reparent(p)] alone.  Its calls of
    [wakeup(initproc)] are not in this definition: in a run they are events
    [EvWakeup]; the loop with the calls is [reparent_loop]. *)
Definition reparent (p : nat) (k : kernel) : kernel :=
  set_proc_table
    (map (fun pp => if ptr_eqb (parent pp) (Some p)
                    then set_parent (initproc k) pp else pp)
         (proc_table k)) k.

(** The event [EvExit]: what [exit(status)] does from
    [acquire(&wait_lock)] to the switch apart from waking processes.  The
    calls [wakeup(initproc)] of [reparent] and [wakeup(p->parent)] are not
    in this definition: in a run they are events [EvWakeup], and the state
    this definition returns is not the one the whole function leaves when a
    process sleeps on one of these channels.  The whole function, wakeups
    included, is [exit_call]. *)
Definition exit (c : nat) (status : Z) (k : kernel) : option kernel :=
  p ← myproc c k;
  h ← p;
  if ptr_eqb p (initproc k) then None              (* panic("init exiting") *)
  else
    let k := reparent h k in
    k ← acquire_proc c h k;
    pr ← proc_table k !! h;
    let k := store h (set_state ZOMBIE (set_xstate status pr)) k in
    sched CtxExit c k.

(** One round of the scan of [wait(addr)], for the table entry [np];
    [copy_ok] tells whether copyout succeeded.  The result is the value
    [wait] returns in this round, if it returns. *)
Definition wait_at (c np : nat) (copy_ok : bool) (k : kernel)
    : option (option Z * kernel) :=
  p ← myproc c k;
  pr ← proc_table k !! np;
  if ptr_eqb (parent pr) p then
    k ← acquire_proc c np k;
    pr ← proc_table k !! np;
    if procstate_eqb (state pr) ZOMBIE then
      let child_pid := pid pr in
      if copy_ok then
        k ← freeproc np k;
        k ← release_proc c np k;
        Some (Some child_pid, k)
      else
        k ← release_proc c np k;
        Some (Some (-1), k)
    else
      k ← release_proc c np k;
      Some (None, k)
  else Some (None, k).

(** [fork()] up to [release(&np->lock)], when the search of [allocproc]
    stops at the entry [np]; [copy_ok] tells whether uvmcopy succeeded. *)
Definition fork_alloc (c np : nat) (mem_ok copy_ok : bool) (k : kernel)
    : option kernel :=
  k ← acquire_proc c np k;
  pr ← proc_table k !! np;
  if procstate_eqb (state pr) UNUSED then
    '(r, k) ← allocproc_found c np mem_ok k;
    match r with
    | None => Some k
    | Some np =>
      if copy_ok then release_proc c np k
      else k ← freeproc np k; release_proc c np k
    end
  else None.

(** The rest of [fork()]: [np->parent = p; put(np);] for the entry [np]
    that [fork_alloc] left in state USED. *)
Definition fork_put (c np : nat) (k : kernel) : option kernel :=
  p ← myproc c k;
  pr ← proc_table k !! np;
  if procstate_eqb (state pr) USED then
    put c (Some np) (store np (set_parent p pr) k)
  else None.

(** ** Timer *)

Definition timer_routine (c : nat) (p : option nat) (k : kernel)
    : option kernel :=
  h ← p;
  pr ← proc_table k !! h;
  let pr := set_cpu_burst (C.add (cpu_burst pr) 1) pr in
  let k := store h pr k in
  if (negb (timeslice pr =? 0) && (cpu_burst pr =? timeslice pr))
     || ((algorithm (proc_sched k) =? 0)
         && (is_preemptive (proc_sched k) =? 1))
  then yield c k
  else Some k.

(** ** The scheduler loop, in its three lock-delimited parts *)

(** [intr_on(); p = get();] *)
Definition scheduler_get (c : nat) (k : kernel) : option kernel :=
  cp ← cpus k !! c;
  match sched_at cp with
  | SchedTop =>
    '(p, k) ← get c k;
    match p with
    | None => Some k
    | Some p => Some (set_cpu c (mkcpu (cproc cp) (SchedGot p)) k)
    end
  | _ => None
  end.

(** [acquire(&p->lock); if (p->state == RUNNABLE) { p->state = RUNNING;
    c->proc = p; swtch(...)] and the process side of the switch, or
    [release(&p->lock)]. *)
Definition scheduler_run (c : nat) (k : kernel) : option kernel :=
  cp ← cpus k !! c;
  match sched_at cp with
  | SchedGot p =>
    k ← acquire_proc c p k;
    pr ← proc_table k !! p;
    if procstate_eqb (state pr) RUNNABLE then
      let k := store p (set_state RUNNING pr) k in
      let k := set_cpu c (mkcpu (Some p) (SchedSwitched p)) k in
      resume c p k
    else
      k ← release_proc c p k;
      Some (set_cpu c (mkcpu (cproc cp) SchedTop) k)
  | _ => None
  end.

(** After swtch returns: [if (c->proc != 0 && c->proc->state == RUNNABLE)
    put(c->proc); c->proc = 0; } release(&p->lock);] *)
Definition scheduler_back (c : nat) (k : kernel) : option kernel :=
  cp ← cpus k !! c;
  match sched_at cp with
  | SchedResumed p =>
    k ← match cproc cp with
        | Some q =>
          pr ← proc_table k !! q;
          if procstate_eqb (state pr) RUNNABLE then put c (Some q) k
          else Some k
        | None => Some k
        end;
    let k := set_cpu c (mkcpu None SchedTop) k in
    release_proc c p k
  | _ => None
  end.

(** ** The kernel as a transition system

    An event is one lock-delimited part of a kernel function, run by one
    CPU.  Parts of different CPUs interleave freely; a part that needs a
    taken lock is not enabled.  A system call is made by a CPU that runs a
    process; [wakeup] may also run in an interrupt handler, whenever the
    CPU holds no process lock. *)

Inductive event : Set :=
  | EvSchedGet (c : nat)
  | EvSchedRun (c : nat)
  | EvSchedBack (c : nat)
  | EvYield (c : nat)
  | EvSleep (c : nat) (ch : Z)
  | EvExit (c : nat) (status : Z)
  | EvWakeup (c : nat) (ch : Z) (p : nat)
  | EvKill (c : nat) (target : Z) (p : nat)
  | EvForkAlloc (c np : nat) (mem_ok copy_ok : bool)
  | EvForkPut (c np : nat)
  | EvWait (c np : nat) (copy_ok : bool)
  | EvTimer (c : nat)
  | EvTick
  | EvChangeSched (c : nat) (algo is_preemptive_arg a_arg : Z).

(** The CPU runs a process (its scheduler thread is inside swtch). *)
Definition in_process (c : nat) (k : kernel) : bool :=
  match cpus k !! c with
  | Some cp => match sched_at cp with SchedSwitched _ => true | _ => false end
  | None => false
  end.

(** The CPU is not between a process's [sched()] and the scheduler's
    release of that process's lock. *)
Definition interruptible (c : nat) (k : kernel) : bool :=
  match cpus k !! c with
  | Some cp => match sched_at cp with SchedResumed _ => false | _ => true end
  | None => false
  end.

Definition step (ev : event) (k : kernel) : option kernel :=
  match ev with
  | EvSchedGet c => scheduler_get c k
  | EvSchedRun c => scheduler_run c k
  | EvSchedBack c => scheduler_back c k
  | EvYield c => if in_process c k then yield c k else None
  | EvSleep c ch => if in_process c k then sleep c ch k else None
  | EvExit c status => if in_process c k then exit c status k else None
  | EvWakeup c ch p =>
    if interruptible c k then wakeup_at c ch p k else None
  | EvKill c target p =>
    if in_process c k then snd <$> kill_at c target p k else None
  | EvForkAlloc c np mem_ok copy_ok =>
    if in_process c k then fork_alloc c np mem_ok copy_ok k else None
  | EvForkPut c np =>
    if in_process c k then fork_put c np k else None
  | EvWait c np copy_ok =>
    if in_process c k then snd <$> wait_at c np copy_ok k else None
  | EvTimer c =>
    if in_process c k then p ← myproc c k; timer_routine c p k else None
  | EvTick => Some (set_ticks (C.to_uint (ticks k + 1)) k)
  | EvChangeSched c algo is_preemptive_arg a_arg =>
    if in_process c k
    then snd <$> change_sched c algo is_preemptive_arg a_arg k else None
  end.

Fixpoint run (evs : list event) (k : kernel) : option kernel :=
  match evs with
  | [] => Some k
  | ev :: evs => k ← step ev k; run evs k
  end.

(** Memory at boot: zeroed globals, the initializer of [proc_sched],
    [nextpid = 1], every CPU about to enter [scheduler()]. *)
Definition proc_zero : proc :=
  mkproc None UNUSED 0 0 0 0 None CtxZero 0 0 0 0 0.

Definition kernel_init : kernel :=
  mkkernel (replicate NPROC proc_zero)
           (replicate NCPU (mkcpu None SchedTop))
           (mksched None (replicate NPROC None) 0 0 0 50)
           None 1 0.

(** The states the kernel can be in: after [userinit] at boot, and after
    any event from there. *)
Inductive reachable : kernel -> Prop :=
  | reachable_boot k :
      userinit 0 kernel_init = Some k -> reachable k
  | reachable_step ev k k' :
      reachable k -> step ev k = Some k' -> reachable k'.

(** ** Properties the statements below are about *)

(** The key the heap is ordered by: [cpu_burst_aprox] under algorithm 0
    (SJF), [exe_time] otherwise (CFS), as in the comparisons of
    [heapify_up] and in the left-child comparison of [heapify_down_i]. *)
Definition key (algo : Z) (pr : proc) : Z :=
  if algo =? 0 then cpu_burst_aprox pr else exe_time pr.

(** The first [n] entries of [arr] are a min-heap under [key algo]: no
    entry has a smaller key than its parent, the entry at [(i - 1) / 2]. *)
Definition min_heapb (tbl : list proc) (arr : list (option nat))
    (n algo : Z) : bool :=
  forallb
    (fun i : nat =>
       match field_at tbl arr (key algo) ((Z.of_nat i - 1) / 2),
             field_at tbl arr (key algo) (Z.of_nat i) with
       | Some kp, Some ki => kp <=? ki
       | _, _ => false
       end)
    (seq 1 (Z.to_nat n - 1)).

(** The first [n] entries of [arr] are handles of table entries. *)
Definition heap_ok (tbl : list proc) (arr : list (option nat)) (n : Z)
    : Prop :=
  0 <= n <= Z.of_nat (length arr) /\
  forall i, 0 <= i < n ->
    exists h, arr !! Z.to_nat i = Some (Some h) /\ (h < length tbl)%nat.

Definition valid_handle (tbl : list proc) (p : option nat) : bool :=
  match p with Some h => Nat.ltb h (length tbl) | None => false end.

Definition heap_okb (tbl : list proc) (arr : list (option nat)) (n : Z)
    : bool :=
  (0 <=? n) && (n <=? Z.of_nat (length arr))
  && forallb (valid_handle tbl) (take (Z.to_nat n) arr).

(** The scheduler record between two operations: its lock is free, the
    heap array has NPROC slots and the first [heap_size] of them hold
    handles. *)
Definition sched_wf (k : kernel) : Prop :=
  sp_lock (proc_sched k) = None /\
  length (heap (proc_sched k)) = NPROC /\
  heap_ok (proc_table k) (heap (proc_sched k)) (heap_size (proc_sched k)).

Definition sched_wfb (k : kernel) : bool :=
  match sp_lock (proc_sched k) with None => true | Some _ => false end
  && Nat.eqb (length (heap (proc_sched k))) NPROC
  && heap_okb (proc_table k) (heap (proc_sched k))
       (heap_size (proc_sched k)).

(** The policy fields as the specification bounds them, and as
    [change_sched] validates them. *)
Definition policy_strict (k : kernel) : Prop :=
  0 <= a (proc_sched k) <= 100 /\
  (algorithm (proc_sched k) = 0 \/ algorithm (proc_sched k) = 1) /\
  (is_preemptive (proc_sched k) = 0 \/ is_preemptive (proc_sched k) = 1).

Definition policy_inv (k : kernel) : Prop :=
  (algorithm (proc_sched k) = 0 \/ algorithm (proc_sched k) = 1) /\
  0 <= is_preemptive (proc_sched k) /\
  (algorithm (proc_sched k) = 0 -> 0 <= a (proc_sched k) <= 100).

(** CPU [c] has switched from process [h] to its scheduler thread and has
    not yet released the lock of [h]. *)
Definition resumed_with (c h : nat) (k : kernel) : Prop :=
  exists cp q, cpus k !! c = Some cp /\ cproc cp = Some h /\
               sched_at cp = SchedResumed q.

(** A process with a nonzero [exe_time] is RUNNABLE and its lock is held
    by a CPU that is taking it off the processor. *)
Definition exe_time_inv (k : kernel) : Prop :=
  forall h pr, proc_table k !! h = Some pr -> exe_time pr <> 0 ->
    state pr = RUNNABLE /\
    exists c, lock pr = Some c /\ resumed_with c h k.

(** The same while CPU [c] is inside an event: every such process, the
    entry [ex] apart, is held by another CPU. *)
Definition exe_time_inv_at (c : nat) (ex : option nat) (k : kernel) : Prop :=
  forall h pr, proc_table k !! h = Some pr -> Some h <> ex ->
    exe_time pr <> 0 ->
    state pr = RUNNABLE /\
    exists c', lock pr = Some c' /\ c' <> c /\ resumed_with c' h k.

(** The time slice [get] computes under algorithm 1. *)
Definition cfs_slice (k : kernel) (pr : proc) : Z :=
  let q := C.to_int (C.to_uint (ticks k - C.to_uint (put_timestamp pr))
                     / C.to_uint (C.add (C.sub (heap_size (proc_sched k)) 1) 1)) in
  if q =? 0 then C.add q 1 else q.

(** What one CPU may do to a process inside an event.  [same3]: the lock,
    the state and [exe_time] are as before.  [touched]: the lock was free
    or held by CPU [c] and is so afterwards, and [exe_time] is zero or
    unchanged, the entry [ex] apart. *)
Definition same3 (pr pr' : proc) : Prop :=
  lock pr' = lock pr /\ state pr' = state pr /\ exe_time pr' = exe_time pr.

Definition touched (c : nat) (ex : option nat) (h : nat) (pr pr' : proc)
    : Prop :=
  (lock pr = None \/ lock pr = Some c) /\
  (lock pr' = None \/ lock pr' = Some c) /\
  (Some h = ex \/ exe_time pr' = 0 \/ exe_time pr' = exe_time pr).

Definition moves (c : nat) (ex : option nat) (k k' : kernel) : Prop :=
  (forall c', c' <> c -> cpus k' !! c' = cpus k !! c') /\
  forall h pr', proc_table k' !! h = Some pr' ->
    exists pr, proc_table k !! h = Some pr /\
               (same3 pr pr' \/ touched c ex h pr pr').

(** The outcome of [yield] on CPU [c]: the yielding process is RUNNABLE,
    its lock is held by [c], and [c] is back in its scheduler thread. *)
Definition yielded (c : nat) (k k' : kernel) : Prop :=
  exists h, moves c (Some h) k k' /\ resumed_with c h k' /\
    exists pr', proc_table k' !! h = Some pr' /\
                lock pr' = Some c /\ state pr' = RUNNABLE.

(** The policy triple is as before. *)
Definition same_policy (k k' : kernel) : Prop :=
  algorithm (proc_sched k') = algorithm (proc_sched k) /\
  is_preemptive (proc_sched k') = is_preemptive (proc_sched k) /\
  a (proc_sched k') = a (proc_sched k).

(** ** Example states *)

Definition runnable_proc (aprox exe : Z) : proc :=
  mkproc None RUNNABLE 0 0 0 0 None CtxYield 0 aprox exe 0 0.

Definition table_of (ps : list proc) : list proc :=
  ps ++ replicate (NPROC - length ps) proc_zero.

Definition heap_of (hs : list nat) : list (option nat) :=
  (Some <$> hs) ++ replicate (NPROC - length hs) None.

Definition kernel_of (ps : list proc) (hs : list nat) (algo : Z) : kernel :=
  mkkernel (table_of ps)
           (replicate NCPU (mkcpu None SchedTop))
           (mksched None (heap_of hs) (Z.of_nat (length hs)) algo 0 50)
           (Some 0%nat) 1 0.

(** The state after [userinit]. *)
Definition boot : kernel := default kernel_init (userinit 0 kernel_init).


(** The state reached from [boot] by a list of events; [kernel_init] when
    some event of the list is not enabled. *)
Definition state_after (evs : list event) : kernel :=
  default kernel_init (run evs boot).

(** CPU 0 dispatches init, which forks process 1; CPU 1 dispatches
    process 1, which runs for ten ticks and sleeps on channel 7; init is
    still running on CPU 0. *)
Definition trace_sleeper : list event :=
  [EvSchedGet 0; EvSchedRun 0; EvForkAlloc 0 1 true true; EvForkPut 0 1;
   EvSchedGet 1; EvSchedRun 1]%nat
  ++ concat (replicate 10 [EvTick; EvTimer 1%nat])
  ++ [EvSleep 1%nat 7; EvSchedBack 1%nat].

(** Init switches to CFS and forks process 1; CPU 1 dispatches process 1
    with a time slice of one tick, the tick preempts it, and init switches
    back to SJF while process 1 is queued. *)
Definition trace_stale_slice : list event :=
  [EvSchedGet 0; EvSchedRun 0; EvChangeSched 0 1 0 50;
   EvForkAlloc 0 1 true true; EvForkPut 0 1;
   EvSchedGet 1; EvSchedRun 1; EvTick; EvTimer 1; EvSchedBack 1;
   EvChangeSched 0 0 0 50]%nat.

(** Init selects a policy that [change_sched] accepts. *)
Definition trace_loose_policy : list event :=
  [EvSchedGet 0; EvSchedRun 0; EvChangeSched 0 1 5 500]%nat.

(** Init selects preemptive SJF, is preempted by the next tick after
    running for one tick, is dispatched again and sleeps on channel 7. *)
Definition trace_yield_then_sleep : list event :=
  [EvSchedGet 0; EvSchedRun 0; EvChangeSched 0 0 1 50; EvTick; EvTimer 0;
   EvSchedBack 0; EvSchedGet 0; EvSchedRun 0; EvSleep 0 7; EvSchedBack 0]%nat.

(** Init switches to CFS and forks process 1, which waits in the queue
    for three ticks. *)
Definition trace_cfs_queued : list event :=
  [EvSchedGet 0; EvSchedRun 0; EvChangeSched 0 1 0 50;
   EvForkAlloc 0 1 true true; EvForkPut 0 1; EvTick; EvTick; EvTick]%nat.

(** The table entry of process [h], zeroed memory if there is none. *)
Definition proc_of (k : kernel) (h : nat) : proc :=
  default proc_zero (proc_table k !! h).

(** The state [get] leaves on CPU [c]. *)
Definition after_get (c : nat) (k : kernel) : kernel :=
  default k (snd <$> get c k).

(** CPU 0 dispatches init. *)
Definition trace_running : list event := [EvSchedGet 0; EvSchedRun 0]%nat.

(** Init selects preemptive SJF and the next tick preempts it: CPU 0 is
    between [sched()] and the scheduler's second [put]. *)
Definition trace_mid_yield : list event :=
  [EvSchedGet 0; EvSchedRun 0; EvChangeSched 0 0 1 50; EvTick; EvTimer 0]%nat.

(** Process 1 was queued under CFS at tick 0 and is still alone in the
    heap when the tick counter reaches 2^31. *)
Definition late_state : kernel :=
  set_ticks 2147483648 (state_after trace_cfs_queued).

(** ** Further properties of the queue *)

(** The queued handles: the first [heap_size] entries of the heap, in
    heap order. *)
Definition queue (k : kernel) : list (option nat) :=
  take (Z.to_nat (heap_size (proc_sched k))) (heap (proc_sched k)).

(** The min-heap property as a proposition: every entry below [n] but the
    root has a key that is not smaller than the key of its parent. *)
Definition min_heap (tbl : list proc) (arr : list (option nat))
    (n algo : Z) : Prop :=
  forall i, 1 <= i < n ->
    exists kp ki,
      field_at tbl arr (key algo) ((i - 1) / 2) = Some kp /\
      field_at tbl arr (key algo) i = Some ki /\ kp <= ki.

(** The key of the process queued at index [i], 0 where there is none. *)
Definition key_at (tbl : list proc) (arr : list (option nat)) (algo i : Z)
    : Z :=
  default 0 (field_at tbl arr (key algo) i).

(** The heap order on a key function, and the same with the edge above
    [curr] left open: the state of [heapify_up] before a round, when the
    entry at [curr] may still be smaller than its parent. *)
Definition heap_order (K : Z -> Z) (n : Z) : Prop :=
  forall i, 1 <= i < n -> K ((i - 1) / 2) <= K i.

Definition sift_inv (K : Z -> Z) (n curr : Z) : Prop :=
  (forall i, 1 <= i < n -> i <> curr -> K ((i - 1) / 2) <= K i) /\
  (forall i, 1 <= i < n -> (i - 1) / 2 = curr ->
             K ((curr - 1) / 2) <= K i).

(** Exchange of the indices [i] and [j]. *)
Definition transpose (i j x : Z) : Z :=
  if x =? j then i else if x =? i then j else x.

(** Two process tables give every handle the same keys. *)
Definition same_keys (t1 t2 : list proc) : Prop :=
  forall q,
    (cpu_burst_aprox <$> t1 !! q) = (cpu_burst_aprox <$> t2 !! q) /\
    (exe_time <$> t1 !! q) = (exe_time <$> t2 !! q).

(** A state with three queued processes of estimates 1, 10 and 2 and a
    sleeping process whose last burst was 10 ticks and whose estimate
    is 4. *)
Definition sleeper_example : kernel :=
  kernel_of [runnable_proc 1 0; runnable_proc 10 0; runnable_proc 2 0;
             mkproc None SLEEPING 7 0 0 4 None CtxSleep 10 4 0 0 0]
            [0; 1; 2]%nat 0.

(** The state [put] leaves on CPU [c], the state itself if [put] has no
    result. *)
Definition after_put (c h : nat) (k : kernel) : kernel :=
  default k (put c (Some h) k).

(** The [state] column of the process table. *)
Definition states (k : kernel) : list procstate := state <$> proc_table k.

(** The edges of the process state diagram. *)
Inductive edge : procstate -> procstate -> Prop :=
  | edge_alloc : edge UNUSED USED
  | edge_fork : edge USED RUNNABLE
  | edge_dispatch : edge RUNNABLE RUNNING
  | edge_yield : edge RUNNING RUNNABLE
  | edge_sleep : edge RUNNING SLEEPING
  | edge_exit : edge RUNNING ZOMBIE
  | edge_wakeup : edge SLEEPING RUNNABLE
  | edge_reap : edge ZOMBIE UNUSED.

(** What one event on CPU [c] does to the CPUs and to the process states:
    nothing; one step of a process that is not running; a move of the
    scheduler thread of [c]; the dispatch of a process on [c]; the process
    of [c] leaving the CPU. *)
Inductive effect (c : nat) (k k' : kernel) : Prop :=
  | eff_none :
      cpus k' = cpus k -> states k' = states k -> effect c k k'
  | eff_other h s s' :
      cpus k' = cpus k -> states k !! h = Some s ->
      s <> RUNNING -> s' <> RUNNING -> edge s s' ->
      states k' = <[h := s']> (states k) -> effect c k k'
  | eff_sched cp cp' :
      cpus k !! c = Some cp -> cpus k' = <[c := cp']> (cpus k) ->
      (forall p, sched_at cp <> SchedSwitched p) ->
      (forall p, sched_at cp' <> SchedSwitched p) ->
      states k' = states k -> effect c k k'
  | eff_run cp p :
      cpus k !! c = Some cp -> sched_at cp = SchedGot p ->
      cpus k' = <[c := mkcpu (Some p) (SchedSwitched p)]> (cpus k) ->
      states k !! p = Some RUNNABLE ->
      states k' = <[p := RUNNING]> (states k) -> effect c k k'
  | eff_leave cp q h s' :
      cpus k !! c = Some cp -> sched_at cp = SchedSwitched q ->
      cproc cp = Some h ->
      cpus k' = <[c := mkcpu (Some h) (SchedResumed q)]> (cpus k) ->
      edge RUNNING s' ->
      states k' = <[h := s']> (states k) -> effect c k k'.

(** A CPU that runs a process has it in [c->proc], the process is RUNNING,
    and no other CPU runs it; a RUNNING process is run by some CPU. *)
Definition running_inv (k : kernel) : Prop :=
  (forall c cp p, cpus k !! c = Some cp -> sched_at cp = SchedSwitched p ->
     cproc cp = Some p /\ states k !! p = Some RUNNING) /\
  (forall c1 c2 cp1 cp2 p,
     cpus k !! c1 = Some cp1 -> cpus k !! c2 = Some cp2 ->
     sched_at cp1 = SchedSwitched p -> sched_at cp2 = SchedSwitched p ->
     c1 = c2) /\
  (forall p, states k !! p = Some RUNNING ->
     exists c cp, cpus k !! c = Some cp /\ sched_at cp = SchedSwitched p).

(** One round of a process that is preempted and dispatched again on the
    same CPU. *)
Definition yield_round (c : nat) : list event :=
  [EvYield c; EvSchedBack c; EvSchedGet c; EvSchedRun c].

(** CPU [c] runs process [p], and the [m] occupied slots of the heap all
    point to [p]. *)
Definition lone (c p : nat) (m : nat) (k : kernel) : Prop :=
  sched_wf k /\
  cpus k !! c = Some (mkcpu (Some p) (SchedSwitched p)) /\
  (exists pr, proc_table k !! p = Some pr /\ lock pr = None /\
              state pr = RUNNING) /\
  queue k = replicate m (Some p) /\
  heap_size (proc_sched k) = Z.of_nat m.

(** Init selects preemptive SJF on CPU 0; then, [n] times, a tick
    preempts it and CPU 0 dispatches it again. *)
Definition trace_preempted (n : nat) : list event :=
  [EvSchedGet 0; EvSchedRun 0; EvChangeSched 0 0 1 50]%nat
  ++ concat (replicate n [EvTick; EvTimer 0; EvSchedBack 0; EvSchedGet 0;
                          EvSchedRun 0]%nat).

(** Init has been preempted 63 times and the 64th tick has just made it
    yield: CPU 0 is about to run the scheduler's own [put]. *)
Definition full_state : kernel :=
  state_after (trace_preempted 63 ++ [EvTick; EvTimer 0%nat]).

(** [wakeup(chan)], called with [myproc() = me], wakes the process in
    the table entry [p]. *)
Definition wakes (ch : Z) (me : option nat) (p : nat) (pr : proc) : bool :=
  negb (ptr_eqb (Some p) me) && procstate_eqb (state pr) SLEEPING
  && (chan pr =? ch).

(** [n] timer interrupts in a row on CPU [c] while it runs process [h],
    with nothing in between. *)
Fixpoint timer_ticks (n : nat) (c h : nat) (k : kernel) : option kernel :=
  match n with
  | O => Some k
  | S n => k ← timer_ticks n c h k; timer_routine c (Some h) k
  end.

(** The entry [freeproc] leaves, after the lock has been released. *)
Definition free_entry (pr : proc) : proc :=
  mkproc None UNUSED 0 0 0 0 None (context pr) 0 0 0 0 0.

(** ** The user program chsched (user/chsched.c) *)

(** A call of [printf]: the format string as written in the source, and
    its argument. *)
Inductive printf_arg : Set :=
  | ArgStr (s : string)
  | ArgInt (z : Z).

Definition printf_call : Set := (string * printf_arg)%type.

(** Modelled from the spec: the system call [chsched] returns the status
    code of [change_sched] (the user stub and the kernel wrapper are not
    among the sources). *)
Definition sys_chsched (c : nat) (algo is_preemptive_arg a_arg : Z)
    (k : kernel) : option (Z * kernel) :=
  change_sched c algo is_preemptive_arg a_arg k.

(** [main] from the call of [chsched] on, run by the process on CPU [c];
    [algo], [is_preemptive] and [a] are the results of the three calls of
    [atoi] (ulib.c is not among the sources).  The result is the list of
    the calls of [printf], and the kernel state at [exit(0)]. *)
Definition chsched_main (c : nat) (algo is_preemptive_arg a_arg : Z)
    (k : kernel) : option (list printf_call * kernel) :=
  '(ret, k) ← sys_chsched c algo is_preemptive_arg a_arg k;
  let policy :=
    if ret =? 0 then
      ("algorithm: %s\n"%string,
       ArgStr (if algo =? 0 then "SJF"%string else "CFS"%string))
      :: (if algo =? 0
          then [("is_preemptive: %d\n"%string, ArgInt is_preemptive_arg);
                ("a: %d\n"%string, ArgInt a_arg)]
          else [])
    else [] in
  Some (policy ++ [("return code: %d\n"%string, ArgInt ret)], k).

(** The states [wakeup] and [kill] leave, the state itself if the call
    has no result. *)
Definition after_wakeup (c : nat) (ch : Z) (k : kernel) : kernel :=
  default k (wakeup c ch k).

Definition after_kill (c : nat) (target : Z) (k : kernel) : kernel :=
  default k (snd <$> kill c target k).


(** Init forks process 1 and CPU 1 dispatches it; both are running. *)
Definition trace_child : list event :=
  [EvSchedGet 0; EvSchedRun 0; EvForkAlloc 0 1 true true; EvForkPut 0 1;
   EvSchedGet 1; EvSchedRun 1]%nat.

(** Init switches to CFS and forks process 1, which waits in the queue
    for three ticks and is then dispatched by CPU 1. *)
Definition trace_cfs_dispatched : list event :=
  trace_cfs_queued ++ [EvSchedGet 1; EvSchedRun 1]%nat.

(** Init yields once and is dispatched again on CPU 0, which leaves one
    duplicate of init in the heap; CPU 1 takes the duplicate out. *)
Definition trace_stale_entry : list event :=
  [EvSchedGet 0; EvSchedRun 0; EvYield 0; EvSchedBack 0; EvSchedGet 0;
   EvSchedRun 0; EvSchedGet 1]%nat.

(** The child of [trace_child] has called [exit(5)] and CPU 1 has
    released its lock. *)
Definition trace_zombie : list event :=
  trace_child ++ [EvExit 1 5; EvSchedBack 1]%nat.

(** ** The whole of [exit] *)

Section ExitCall.

(** The address of [proc[i]]: what [sleep] and [wakeup] get as channel
    when they are called with a [struct proc *]. *)
Variable proc_addr : nat -> Z.

(** A process pointer cast to a channel; the null pointer is 0. *)
Definition chan_of (p : option nat) : Z :=
  match p with Some h => proc_addr h | None => 0 end.

(** The loop of [reparent(p)] over the table entries [ps], with its calls
    of [wakeup(initproc)]. *)
Fixpoint reparent_loop (c p : nat) (ps : list nat) (k : kernel)
    : option kernel :=
  match ps with
  | [] => Some k
  | pp :: ps =>
    ppr ← proc_table k !! pp;
    k ← (if ptr_eqb (parent ppr) (Some p)
         then wakeup c (chan_of (initproc k))
                (store pp (set_parent (initproc k) ppr) k)
         else Some k);
    reparent_loop c p ps k
  end.

Definition reparent_call (c p : nat) (k : kernel) : option kernel :=
  reparent_loop c p (seq 0 NPROC) k.

(** [exit(status)] from [acquire(&wait_lock)] to the switch, with the
    wakeups of [reparent] and the [wakeup(p->parent)]; the open files and
    [wait_lock] itself are not part of the scheduler state. *)
Definition exit_call (c : nat) (status : Z) (k : kernel) : option kernel :=
  p ← myproc c k;
  h ← p;
  if ptr_eqb p (initproc k) then None              (* panic("init exiting") *)
  else
    k ← reparent_call c h k;
    pr ← proc_table k !! h;
    k ← wakeup c (chan_of (parent pr)) k;
    k ← acquire_proc c h k;
    pr ← proc_table k !! h;
    let k := store h (set_state ZOMBIE (set_xstate status pr)) k in
    sched CtxExit c k.

End ExitCall.

(** No process but [me] sleeps on the channel [ch]. *)
Definition no_sleeper (ch : Z) (me : option nat) (k : kernel) : Prop :=
  forall q pq, (q < NPROC)%nat -> Some q <> me ->
    proc_table k !! q = Some pq -> ~ (state pq = SLEEPING /\ chan pq = ch).

(** From [k] to [k'] no process went to sleep or changed its channel,
    and the only parent pointers that changed went from [p] to
    [initproc]; the CPUs and [initproc] are as before. *)
Definition settles (p : nat) (k k' : kernel) : Prop :=
  cpus k' = cpus k /\ initproc k' = initproc k /\
  (length (heap (proc_sched k)) = NPROC ->
   length (heap (proc_sched k')) = NPROC) /\
  length (proc_table k') = length (proc_table k) /\
  forall q pq pq',
    proc_table k !! q = Some pq -> proc_table k' !! q = Some pq' ->
    chan pq' = chan pq /\
    (state pq' = SLEEPING -> state pq = SLEEPING) /\
    (parent pq' = parent pq \/
     (parent pq = Some p /\ parent pq' = initproc k)).

(** The address of [proc[i]] in the examples. *)
Definition example_addr (i : nat) : Z := 4096 * (Z.of_nat i + 1).

(** Init has forked process 1, which runs on CPU 1, and sleeps in [wait]
    on its own address. *)
Definition trace_waiting_parent : list event :=
  trace_child ++ [EvSleep 0%nat 4096; EvSchedBack 0%nat].

(** The state [exit] leaves, the state itself if the call has no
    result. *)
Definition after_exit (c : nat) (status : Z) (k : kernel) : kernel :=
  default k (exit_call example_addr c status k).
(** ** The heap routines return on a well-formed heap *)

Section HeapTotal.

Variable tbl : list proc.

Lemma arr_get_lookup {A} (arr : list A) (i : Z) :
  0 <= i -> arr_get arr i = arr !! Z.to_nat i.
Proof.
  intros Hi. unfold arr_get.
  destruct (Z.ltb_spec i 0); [lia|reflexivity].
Qed.

Lemma arr_set_insert {A} (arr : list A) (i : Z) (x : A) :
  0 <= i < Z.of_nat (length arr) ->
  arr_set arr i x = Some (<[Z.to_nat i := x]> arr).
Proof.
  intros Hi. unfold arr_set.
  destruct (Z.leb_spec 0 i); [|lia].
  destruct (Z.ltb_spec i (Z.of_nat (length arr))); [reflexivity|lia].
Qed.

Lemma heap_ok_entry arr n i :
  heap_ok tbl arr n -> 0 <= i < n ->
  exists h pr, arr_get arr i = Some (Some h) /\ tbl !! h = Some pr.
Proof.
  intros [_ Hok] Hi. destruct (Hok i Hi) as (h & Hh & Hlt).
  destruct (lookup_lt_is_Some_2 tbl h Hlt) as [pr Hpr].
  exists h, pr. split; [|exact Hpr].
  rewrite arr_get_lookup by lia. exact Hh.
Qed.

Lemma field_at_total arr n f i :
  heap_ok tbl arr n -> 0 <= i < n -> is_Some (field_at tbl arr f i).
Proof.
  intros Hok Hi. destruct (heap_ok_entry arr n i Hok Hi) as (h & pr & Hh & Hpr).
  unfold field_at. rewrite Hh. simpl. rewrite Hpr. simpl. eauto.
Qed.

Lemma gt_at_total arr n f i j :
  heap_ok tbl arr n -> 0 <= i < n -> 0 <= j < n ->
  is_Some (gt_at tbl arr f i j).
Proof.
  intros Hok Hi Hj. unfold gt_at.
  destruct (field_at_total arr n f i Hok Hi) as [x ->].
  destruct (field_at_total arr n f j Hok Hj) as [y ->].
  simpl. eauto.
Qed.

Lemma swap_total arr n i j :
  heap_ok tbl arr n -> 0 <= i < n -> 0 <= j < n ->
  exists arr', swap arr i j = Some arr' /\ heap_ok tbl arr' n /\
               length arr' = length arr.
Proof.
  intros Hok Hi Hj.
  destruct (heap_ok_entry arr n i Hok Hi) as (hi & pi & Hgi & Hpi).
  destruct (heap_ok_entry arr n j Hok Hj) as (hj & pj & Hgj & Hpj).
  destruct Hok as [Hn Hok].
  unfold swap. rewrite Hgi, Hgj. simpl.
  rewrite arr_set_insert by lia. simpl.
  rewrite arr_set_insert by (rewrite length_insert; lia).
  eexists. split; [reflexivity|]. split.
  - split; [rewrite !length_insert; lia|].
    intros x Hx.
    destruct (decide (Z.to_nat j = Z.to_nat x)) as [Hjx|Hjx].
    + exists hi. rewrite <- Hjx.
      rewrite list_lookup_insert_eq by (rewrite length_insert; lia).
      split; [reflexivity|]. apply lookup_lt_is_Some_1; eauto.
    + rewrite list_lookup_insert_ne by exact Hjx.
      destruct (decide (Z.to_nat i = Z.to_nat x)) as [Hix|Hix].
      * exists hj. rewrite <- Hix.
        rewrite list_lookup_insert_eq by lia.
        split; [reflexivity|]. apply lookup_lt_is_Some_1; eauto.
      * rewrite list_lookup_insert_ne by exact Hix. apply Hok, Hx.
  - rewrite !length_insert. reflexivity.
Qed.

(** A comparison of [heapify_down_i] has a value whenever the child is
    only read below [n]. *)
Lemma down_cond_total arr n algo curr child f g :
  heap_ok tbl arr n -> 0 <= curr < child ->
  exists b,
    C.or (C.and (algo =? 0) (C.and (child <? n) (gt_at tbl arr f curr child)))
         (C.and (negb (algo =? 0))
            (C.and (child <? n) (gt_at tbl arr g curr child))) = Some b
    /\ (b = true -> child < n).
Proof.
  intros Hok Hc.
  destruct (Z.ltb_spec child n) as [Hlt|Hge].
  - destruct (gt_at_total arr n f curr child Hok) as [x Hx]; [lia..|].
    destruct (gt_at_total arr n g curr child Hok) as [y Hy]; [lia..|].
    rewrite Hx, Hy.
    destruct (algo =? 0); simpl.
    + destruct x; eexists; (split; [reflexivity|lia]).
    + exists y. split; [reflexivity|lia].
  - exists false. destruct (algo =? 0); simpl; (split; [reflexivity|discriminate]).
Qed.

Lemma heapify_down_loop_total fuel arr n algo curr :
  heap_ok tbl arr n -> 0 <= curr ->
  (Z.to_nat (n - curr) < fuel)%nat ->
  exists arr', heapify_down_loop tbl fuel arr n algo curr = Some arr' /\
               heap_ok tbl arr' n /\ length arr' = length arr.
Proof.
  revert arr curr.
  induction fuel as [|fuel IH]; intros arr curr Hok Hcurr Hfuel; [lia|].
  simpl.
  destruct (down_cond_total arr n algo curr (curr * 2 + 1)
              cpu_burst_aprox exe_time Hok) as (b1 & -> & Hb1); [lia|].
  simpl. destruct b1.
  - specialize (Hb1 eq_refl).
    destruct (swap_total arr n curr (curr * 2 + 1) Hok)
      as (arr1 & -> & Hok1 & Hlen1); [lia..|].
    simpl.
    destruct (IH arr1 (curr * 2 + 1) Hok1) as (arr2 & -> & Hok2 & Hlen2);
      [lia..|].
    exists arr2. repeat split; [apply Hok2..|congruence].
  - destruct (down_cond_total arr n algo curr (curr * 2 + 2)
                cpu_burst_aprox cpu_burst_aprox Hok) as (b2 & -> & Hb2);
      [lia|].
    simpl. destruct b2.
    + specialize (Hb2 eq_refl).
      destruct (swap_total arr n curr (curr * 2 + 2) Hok)
        as (arr1 & -> & Hok1 & Hlen1); [lia..|].
      simpl.
      destruct (IH arr1 (curr * 2 + 2) Hok1) as (arr2 & -> & Hok2 & Hlen2);
        [lia..|].
      exists arr2. repeat split; [apply Hok2..|congruence].
    + exists arr. repeat split; apply Hok.
Qed.

Lemma heapify_down_i_total arr n i algo :
  heap_ok tbl arr n -> 0 <= i ->
  exists arr', heapify_down_i tbl arr n i algo = Some arr' /\
               heap_ok tbl arr' n /\ length arr' = length arr.
Proof.
  intros Hok Hi. unfold heapify_down_i.
  destruct (n =? 1).
  - exists arr. repeat split; apply Hok.
  - apply heapify_down_loop_total; [exact Hok|exact Hi|lia].
Qed.

Lemma rearrange_loop_total cnt arr n algo i :
  heap_ok tbl arr n ->
  exists arr', rearrange_loop tbl cnt arr n algo i = Some arr' /\
               heap_ok tbl arr' n /\ length arr' = length arr.
Proof.
  revert arr i. induction cnt as [|cnt IH]; intros arr i Hok; simpl.
  - exists arr. repeat split; apply Hok.
  - destruct (Z.geb_spec i 0) as [Hi|Hi].
    + destruct (heapify_down_i_total arr n i algo Hok)
        as (arr1 & -> & Hok1 & Hlen1); [lia|].
      simpl. destruct (IH arr1 (i - 1) Hok1) as (arr2 & -> & Hok2 & Hlen2).
      exists arr2. repeat split; [apply Hok2..|congruence].
    + exists arr. repeat split; apply Hok.
Qed.

Lemma rearrange_heap_total arr n algo :
  heap_ok tbl arr n ->
  exists arr', rearrange_heap tbl arr n algo = Some arr' /\
               heap_ok tbl arr' n /\ length arr' = length arr.
Proof. intros Hok. apply rearrange_loop_total, Hok. Qed.

End HeapTotal.

Lemma heap_okb_sound tbl arr n : heap_okb tbl arr n = true -> heap_ok tbl arr n.
Proof.
  unfold heap_okb. rewrite !andb_true_iff, Z.leb_le, Z.leb_le, forallb_forall.
  intros [[H0 Hn] Hall]. split; [lia|].
  intros i Hi.
  destruct (lookup_lt_is_Some_2 arr (Z.to_nat i)) as [p Hp]; [lia|].
  assert (Hin : In p (take (Z.to_nat n) arr)).
  { apply list_elem_of_In, list_elem_of_lookup. exists (Z.to_nat i).
    rewrite lookup_take_lt by lia. exact Hp. }
  specialize (Hall p Hin). destruct p as [h|]; [|discriminate].
  exists h. split; [exact Hp|]. apply Nat.ltb_lt, Hall.
Qed.

Lemma sched_wfb_sound k : sched_wfb k = true -> sched_wf k.
Proof.
  unfold sched_wfb, sched_wf. rewrite !andb_true_iff.
  intros [[Hl Hlen] Hok]. split; [|split].
  - destruct (sp_lock (proc_sched k)); [discriminate|reflexivity].
  - apply Nat.eqb_eq, Hlen.
  - apply heap_okb_sound, Hok.
Qed.

(** ** C integers in range *)

Lemma to_int_small z : C.in_int z -> C.to_int z = z.
Proof.
  unfold C.in_int, C.to_int, C.INT_HALF, C.UINT_MOD. intros Hz.
  rewrite Z.mod_small by lia. lia.
Qed.

Lemma to_uint_small z : 0 <= z < C.UINT_MOD -> C.to_uint z = z.
Proof. unfold C.to_uint. intros Hz. apply Z.mod_small, Hz. Qed.

Lemma to_uint_sub_to_uint x y : C.to_uint (x - C.to_uint y) = C.to_uint (x - y).
Proof.
  unfold C.to_uint, C.UINT_MOD. rewrite Zminus_mod_idemp_r. reflexivity.
Qed.

Lemma holding_self c : holding c (Some c) = true.
Proof. simpl. apply Nat.eqb_refl. Qed.

(** ** get on a nonempty heap *)

Lemma get_dequeue c k r pr :
  sched_wf k -> 0 < heap_size (proc_sched k) ->
  heap (proc_sched k) !! 0%nat = Some (Some r) ->
  proc_table k !! r = Some pr ->
  exists k',
    get c k = Some (Some r, k') /\
    heap_size (proc_sched k') = heap_size (proc_sched k) - 1 /\
    algorithm (proc_sched k') = algorithm (proc_sched k) /\
    proc_table k' =
      <[r := if algorithm (proc_sched k) =? 1
             then set_timeslice (cfs_slice k pr) (set_cpu_burst 0 pr)
             else set_cpu_burst 0 pr]> (proc_table k).
Proof.
  intros (Hlk & Hlen & Hok) Hpos Hroot Hpr.
  assert (Hsz : heap_size (proc_sched k) <= 64).
  { destruct Hok as [Hn _]. rewrite Hlen in Hn. unfold NPROC in Hn. lia. }
  assert (Hsub : C.sub (heap_size (proc_sched k)) 1
                 = heap_size (proc_sched k) - 1).
  { apply to_int_small. unfold C.in_int, C.INT_HALF. lia. }
  destruct (heap_ok_entry _ _ _ (heap_size (proc_sched k) - 1) Hok)
    as (hl & prl & Hlast & _); [lia|].
  set (tbl1 := <[r := set_cpu_burst 0 pr]> (proc_table k)).
  set (arr1 := <[Z.to_nat (heap_size (proc_sched k) - 1) := None]>
                 (<[0%nat := Some hl]> (heap (proc_sched k)))).
  assert (Hok1 : heap_ok tbl1 arr1 (heap_size (proc_sched k) - 1)).
  { destruct Hok as [Hn Hent]. split.
    - unfold arr1. rewrite !length_insert. lia.
    - intros i Hi. unfold arr1, tbl1. rewrite length_insert.
      rewrite list_lookup_insert_ne by lia.
      destruct (decide (i = 0)) as [->|Hi0].
      + exists hl. rewrite list_lookup_insert_eq by (simpl; lia).
        split; [reflexivity|].
        destruct (Hent (heap_size (proc_sched k) - 1)) as (h' & Hh' & Hlt);
          [lia|].
        rewrite arr_get_lookup in Hlast by lia. congruence.
      + rewrite list_lookup_insert_ne by lia. apply Hent. lia. }
  destruct (heapify_down_i_total tbl1 arr1 (heap_size (proc_sched k) - 1) 0
              (algorithm (proc_sched k)) Hok1) as (arr2 & Hdown & _ & _);
    [lia|].
  unfold get, acquire_sched. rewrite Hlk. cbn [acquire mbind option_bind].
  cbn [proc_sched set_proc_sched set_sp_lock heap heap_size algorithm
       proc_table store set_proc_table ticks].
  destruct (Z.eqb_spec (heap_size (proc_sched k)) 0) as [|_]; [lia|].
  rewrite (arr_get_lookup _ 0) by lia. change (Z.to_nat 0) with 0%nat.
  rewrite Hroot. cbn [mbind option_bind].
  rewrite Hpr. cbn [mbind option_bind]. rewrite Hsub, Hlast.
  cbn [mbind option_bind].
  rewrite arr_set_insert by (rewrite Hlen; unfold NPROC; lia).
  cbn [mbind option_bind].
  rewrite arr_set_insert
    by (rewrite length_insert, Hlen; unfold NPROC; lia).
  cbn [mbind option_bind]. change (Z.to_nat 0) with 0%nat.
  unfold heapify_down. fold tbl1. fold arr1. rewrite Hdown.
  cbn [mbind option_bind].
  cbn [proc_sched set_proc_sched set_sp_lock heap heap_size algorithm
       proc_table store set_proc_table ticks set_heap set_heap_size].
  destruct (algorithm (proc_sched k) =? 1) eqn:Halg.
  - fold tbl1. unfold tbl1 at 1.
    rewrite list_lookup_insert_eq by (eapply lookup_lt_Some; eauto).
    cbn [mbind option_bind]. unfold C.udiv.
    assert (Hd : C.to_uint (C.add (heap_size (proc_sched k) - 1) 1)
                 = heap_size (proc_sched k)).
    { unfold C.add. replace (heap_size (proc_sched k) - 1 + 1)
        with (heap_size (proc_sched k)) by lia.
      rewrite to_int_small by (unfold C.in_int, C.INT_HALF; lia).
      apply to_uint_small. unfold C.UINT_MOD. lia. }
    rewrite Hd.
    destruct (Z.eqb_spec (heap_size (proc_sched k)) 0) as [|_]; [lia|].
    cbn [mbind option_bind]. unfold release_sched, release.
    cbn [proc_sched set_proc_sched set_sp_lock sp_lock store set_proc_table].
    rewrite holding_self. cbn [mbind option_bind].
    eexists. split; [reflexivity|].
    cbn [proc_sched set_proc_sched set_sp_lock heap_size algorithm
         proc_table set_proc_table].
    split; [reflexivity|]. split; [reflexivity|].
    unfold store, set_proc_sched, set_proc_table. simpl.
    rewrite list_insert_insert_eq.
    unfold cfs_slice. rewrite Hsub, Hd. reflexivity.
  - cbn [mbind option_bind]. unfold release_sched, release.
    cbn [proc_sched set_proc_sched set_sp_lock sp_lock store set_proc_table].
    rewrite holding_self. cbn [mbind option_bind].
    eexists. split; [reflexivity|].
    cbn [proc_sched set_proc_sched set_sp_lock heap_size algorithm
         proc_table set_proc_table].
    split; [reflexivity|]. split; reflexivity.
Qed.

(** ** What the kernel functions change *)

Ltac inv_opt H :=
  lazymatch type of H with
  | Some _ = Some _ => injection H as H; try subst
  | None = Some _ => discriminate H
  | _ ≫= _ = Some _ =>
    let x := fresh "x" in
    let Hx := fresh "Hx" in
    apply bind_Some in H as (x & Hx & H); inv_opt H
  | (if ?b then _ else _) = Some _ =>
    let E := fresh "E" in destruct b eqn:E; inv_opt H
  | _ => idtac
  end.

Lemma same3_refl pr : same3 pr pr.
Proof. repeat split. Qed.

Lemma lookup_store h pr' k h0 x :
  proc_table (store h pr' k) !! h0 = Some x <->
  (h0 = h /\ x = pr' /\ (h < length (proc_table k))%nat) \/
  (h0 <> h /\ proc_table k !! h0 = Some x).
Proof.
  unfold store. simpl. rewrite list_lookup_insert_Some. intuition congruence.
Qed.

Lemma lookup_store_eq h pr pr' k :
  proc_table k !! h = Some pr -> proc_table (store h pr' k) !! h = Some pr'.
Proof.
  intros H. apply lookup_store. left. repeat split.
  eapply lookup_lt_Some; eauto.
Qed.

Lemma moves_refl c ex k : moves c ex k k.
Proof.
  split; [reflexivity|]. intros h pr' H. exists pr'.
  split; [exact H|]. left. apply same3_refl.
Qed.

Lemma moves_trans c ex k1 k2 k3 :
  moves c ex k1 k2 -> moves c ex k2 k3 -> moves c ex k1 k3.
Proof.
  intros [Hc12 Hp12] [Hc23 Hp23]. split.
  - intros c' Hc'. rewrite Hc23, Hc12 by exact Hc'. reflexivity.
  - intros h pr3 H3.
    destruct (Hp23 h pr3 H3) as (pr2 & H2 & H23).
    destruct (Hp12 h pr2 H2) as (pr1 & H1 & H12).
    exists pr1. split; [exact H1|].
    unfold same3, touched in *.
    destruct H12 as [(Hl & Hs & He)|(Hl & Hl' & He)];
      destruct H23 as [(Gl & Gs & Ge)|(Gl & Gl' & Ge)].
    + left. repeat split; congruence.
    + right. rewrite <- Hl, <- He. auto.
    + right. rewrite Gl, Ge. auto.
    + right. repeat split; [assumption..|].
      destruct Ge as [?|[?|Ge]]; [auto..|]. rewrite Ge.
      destruct He as [?|[?|He]]; auto.
Qed.

Lemma moves_weaken c ex k k' : moves c None k k' -> moves c ex k k'.
Proof.
  intros [Hc Hp]. split; [exact Hc|]. intros h pr' H.
  destruct (Hp h pr' H) as (pr & Hpr & [Hs|(Hl & Hl' & He)]).
  - exists pr. auto.
  - exists pr. split; [exact Hpr|]. right. repeat split; [assumption..|].
    destruct He as [?|?]; [discriminate|auto].
Qed.

Lemma moves_ext c ex k k' :
  cpus k' = cpus k -> proc_table k' = proc_table k -> moves c ex k k'.
Proof.
  intros Hc Hp. split.
  - intros. rewrite Hc. reflexivity.
  - intros h pr' H. rewrite Hp in H. exists pr'. split; [exact H|].
    left. apply same3_refl.
Qed.

Lemma moves_set_cpu c ex cp k : moves c ex k (set_cpu c cp k).
Proof.
  split.
  - intros c' Hc'. unfold set_cpu. simpl.
    apply list_lookup_insert_ne. congruence.
  - intros h pr' H. exists pr'. split; [exact H|]. left. apply same3_refl.
Qed.

Lemma moves_store c ex k h pr pr' :
  proc_table k !! h = Some pr ->
  same3 pr pr' \/ touched c ex h pr pr' ->
  moves c ex k (store h pr' k).
Proof.
  intros Hpr Hrel. split; [reflexivity|].
  intros h0 x Hx. apply lookup_store in Hx as [(-> & -> & _)|(Hne & Hx)].
  - exists pr. auto.
  - exists x. split; [exact Hx|]. left. apply same3_refl.
Qed.

Lemma moves_map c ex f k :
  (forall pr, same3 pr (f pr)) ->
  moves c ex k (set_proc_table (map f (proc_table k)) k).
Proof.
  intros Hf. split; [reflexivity|].
  intros h pr' H. simpl in H.
  change (map f (proc_table k)) with (f <$> proc_table k) in H.
  rewrite list_lookup_fmap in H.
  destruct (proc_table k !! h) as [pr|]; [|discriminate].
  injection H as <-. exists pr. auto.
Qed.

(** *** Locks *)

Lemma holding_true c lk : holding c lk = true -> lk = Some c.
Proof.
  destruct lk as [c'|]; simpl; [|discriminate].
  intros H. apply Nat.eqb_eq in H. congruence.
Qed.

Lemma acquire_proc_spec c h k k' :
  acquire_proc c h k = Some k' ->
  exists pr, proc_table k !! h = Some pr /\ lock pr = None /\
             k' = store h (set_lock (Some c) pr) k.
Proof.
  unfold acquire_proc. intros H. inv_opt H.
  exists x. split; [exact Hx|].
  unfold acquire in Hx0. destruct (lock x); [discriminate|].
  injection Hx0 as <-. auto.
Qed.

Lemma release_proc_spec c h k k' :
  release_proc c h k = Some k' ->
  exists pr, proc_table k !! h = Some pr /\ lock pr = Some c /\
             k' = store h (set_lock None pr) k.
Proof.
  unfold release_proc. intros H. inv_opt H.
  exists x. split; [exact Hx|].
  unfold release in Hx0. destruct (holding c (lock x)) eqn:Hh; [|discriminate].
  injection Hx0 as <-. split; [|reflexivity]. apply holding_true, Hh.
Qed.

Lemma acquire_proc_moves c ex h k k' :
  acquire_proc c h k = Some k' -> moves c ex k k'.
Proof.
  intros H. apply acquire_proc_spec in H as (pr & Hpr & Hl & ->).
  eapply moves_store; [exact Hpr|]. right. unfold touched. simpl. auto.
Qed.

Lemma release_proc_moves c ex h k k' :
  release_proc c h k = Some k' -> moves c ex k k'.
Proof.
  intros H. apply release_proc_spec in H as (pr & Hpr & Hl & ->).
  eapply moves_store; [exact Hpr|]. right. unfold touched. simpl. auto.
Qed.

Lemma acquire_sched_spec c k k' :
  acquire_sched c k = Some k' ->
  sp_lock (proc_sched k) = None /\
  k' = set_proc_sched (set_sp_lock (Some c) (proc_sched k)) k.
Proof.
  unfold acquire_sched, acquire. intros H.
  destruct (sp_lock (proc_sched k)); [discriminate|].
  simpl in H. injection H as <-. auto.
Qed.

Lemma release_sched_spec c k k' :
  release_sched c k = Some k' ->
  k' = set_proc_sched (set_sp_lock None (proc_sched k)) k.
Proof.
  unfold release_sched, release. intros H.
  destruct (holding c (sp_lock (proc_sched k))); [|discriminate].
  simpl in H. injection H as <-. reflexivity.
Qed.

Lemma moves_insert c ex k k' h pr pr' :
  cpus k' = cpus k ->
  proc_table k !! h = Some pr ->
  proc_table k' = <[h := pr']> (proc_table k) ->
  same3 pr pr' \/ touched c ex h pr pr' ->
  moves c ex k k'.
Proof.
  intros Hc Hpr Htbl Hrel.
  apply (moves_trans _ _ _ (store h pr' k)).
  - eapply moves_store; eauto.
  - apply moves_ext; [exact Hc|]. rewrite Htbl. reflexivity.
Qed.

(** *** put *)

Lemma put_spec c h k k' :
  put c (Some h) k = Some k' ->
  exists pr pr',
    proc_table k !! h = Some pr /\
    (lock pr = None \/ lock pr = Some c) /\
    proc_table k' = <[h := pr']> (proc_table k) /\
    lock pr' = lock pr /\ state pr' = RUNNABLE /\
    (state pr <> RUNNING -> exe_time pr' = 0) /\
    cpus k' = cpus k /\ same_policy k k'.
Proof.
  unfold put. intros H.
  apply bind_Some in H as (pr0 & Hpr0 & H).
  apply bind_Some in H as (k1 & Hk1 & H).
  apply bind_Some in H as (k2 & Hk2 & H).
  apply bind_Some in H as (head & Hhead & H).
  apply bind_Some in H as (pr & Hpr & H).
  apply bind_Some in H as (pra & Hpra & H).
  apply bind_Some in H as (arr1 & Harr1 & H).
  apply bind_Some in H as (arr2 & Harr2 & H).
  apply bind_Some in H as (k3 & Hk3 & H).
  apply acquire_sched_spec in Hk2 as [_ ->].
  apply release_sched_spec in Hk3 as ->.
  cbn [proc_table set_proc_sched store set_proc_table cpus] in *.
  assert (Hpra' : lock pra = lock pr /\ state pra = state pr /\
                  exe_time pra = exe_time pr).
  { destruct (negb (procstate_eqb (state head) RUNNING)).
    - apply bind_Some in Hpra as (v & _ & Hpra). injection Hpra as <-.
      repeat split.
    - injection Hpra as <-. repeat split. }
  destruct Hpra' as (Hl & Hs & He).
  set (prf := set_state RUNNABLE
                (set_put_timestamp (C.to_int (ticks k1))
                   (if procstate_eqb (state pra) RUNNING
                    then set_exe_time (C.add (exe_time pra) (cpu_burst pra)) pra
                    else set_exe_time 0 pra))) in *.
  assert (Hprf : lock prf = lock pr /\ state prf = RUNNABLE /\
                 (state pr <> RUNNING -> exe_time prf = 0)).
  { unfold prf. rewrite Hs.
    destruct (state pr) eqn:Hst; simpl; repeat split; auto; congruence. }
  destruct Hprf as (Hfl & Hfs & Hfe).
  destruct (holding c (lock pr0)) eqn:Hhold.
  - injection Hk1 as <-. injection H as <-.
    assert (pr = pr0) by congruence. subst pr0.
    exists pr, prf. simpl. repeat split; auto.
    right. apply holding_true, Hhold.
  - apply acquire_proc_spec in Hk1 as (pr1 & Hpr1 & Hlk1 & ->).
    assert (pr1 = pr0) by congruence. subst pr1.
    rewrite lookup_store_eq with (pr := pr0) in Hpr by exact Hpr0.
    injection Hpr as <-.
    apply release_proc_spec in H as (pr2 & Hpr2 & Hlk2 & ->).
    cbn [proc_table set_proc_sched store set_proc_table cpus] in *.
    rewrite list_insert_insert_eq in Hpr2.
    rewrite list_lookup_insert_eq in Hpr2 by (eapply lookup_lt_Some; eauto).
    injection Hpr2 as <-.
    exists pr0, (set_lock None prf). simpl in *.
    rewrite !list_insert_insert_eq.
    repeat split; auto.
Qed.

Lemma put_moves c ex h k k' :
  put c (Some h) k = Some k' ->
  ex = Some h \/
  (exists pr, proc_table k !! h = Some pr /\ state pr <> RUNNING) ->
  moves c ex k k'.
Proof.
  intros H Hex.
  apply put_spec in H
    as (pr & pr' & Hpr & Hlk & Htbl & Hl & Hs & He & Hc & _).
  eapply moves_insert; [exact Hc|exact Hpr|exact Htbl|].
  right. unfold touched. rewrite Hl. repeat split; [assumption..|].
  destruct Hex as [->|(pr0 & Hpr0 & Hst)]; [auto|].
  right. left. apply He. congruence.
Qed.

Lemma same_policy_refl k : same_policy k k.
Proof. repeat split. Qed.

Lemma same_policy_trans k1 k2 k3 :
  same_policy k1 k2 -> same_policy k2 k3 -> same_policy k1 k3.
Proof. unfold same_policy. intros (?&?&?) (?&?&?). repeat split; congruence. Qed.

(** *** get *)

Lemma get_spec c ex k r k' :
  get c k = Some (r, k') ->
  cpus k' = cpus k /\ same_policy k k' /\ moves c ex k k'.
Proof.
  unfold get. intros H.
  apply bind_Some in H as (k1 & Hk1 & H).
  apply acquire_sched_spec in Hk1 as [_ ->].
  cbn [proc_sched set_proc_sched set_sp_lock heap heap_size algorithm
       proc_table ticks] in H.
  destruct (heap_size (proc_sched k) =? 0).
  - apply bind_Some in H as (k2 & Hk2 & H).
    apply release_sched_spec in Hk2 as ->. injection H as _ <-.
    split; [reflexivity|]. split; [repeat split|].
    apply moves_ext; reflexivity.
  - apply bind_Some in H as (ret & _ & H).
    apply bind_Some in H as (h & _ & H).
    apply bind_Some in H as (pr & Hpr & H).
    apply bind_Some in H as (last & _ & H).
    apply bind_Some in H as (arr1 & _ & H).
    apply bind_Some in H as (arr2 & _ & H).
    apply bind_Some in H as (arr3 & _ & H).
    apply bind_Some in H as (k2 & Hk2 & H).
    apply bind_Some in H as (k3 & Hk3 & H).
    apply release_sched_spec in Hk3 as ->. injection H as _ <-.
    cbn [proc_sched set_proc_sched set_sp_lock heap heap_size algorithm
         proc_table ticks set_heap set_heap_size store set_proc_table]
      in Hk2.
    destruct (algorithm (proc_sched k) =? 1).
    + apply bind_Some in Hk2 as (pr1 & Hpr1 & Hk2).
      apply bind_Some in Hk2 as (q & _ & Hk2). injection Hk2 as <-.
      rewrite list_lookup_insert_eq in Hpr1 by (eapply lookup_lt_Some; eauto).
      injection Hpr1 as <-.
      split; [reflexivity|]. split; [repeat split|].
      eapply moves_insert; [reflexivity|exact Hpr| |].
      * simpl. rewrite list_insert_insert_eq. reflexivity.
      * left. repeat split.
    + injection Hk2 as <-.
      split; [reflexivity|]. split; [repeat split|].
      eapply moves_insert; [reflexivity|exact Hpr|reflexivity|].
      left. repeat split.
Qed.

(** *** sched and the functions that end in it *)

Lemma sched_spec from c k k' :
  sched from c k = Some k' ->
  exists h pr cp q,
    cpus k !! c = Some cp /\ cproc cp = Some h /\
    sched_at cp = SchedSwitched q /\
    proc_table k !! h = Some pr /\ lock pr = Some c /\
    state pr <> RUNNING /\
    k' = set_cpu c (mkcpu (Some h) (SchedResumed q))
           (store h (set_context from pr) k).
Proof.
  unfold sched, myproc. intros H.
  apply bind_Some in H as (p & Hp & H).
  apply bind_Some in Hp as (cp & Hcp & Hp). injection Hp as <-.
  apply bind_Some in H as (h & Hh & H).
  apply bind_Some in H as (pr & Hpr & H).
  destruct (holding c (lock pr)) eqn:Hhold; [|discriminate]. simpl in H.
  destruct (procstate_eqb (state pr) RUNNING) eqn:Hst; [discriminate|].
  apply bind_Some in H as (cp' & Hcp' & H).
  assert (cp' = cp) by congruence. subst cp'.
  destruct (sched_at cp) as [| | q |] eqn:Hat; try discriminate.
  injection H as <-.
  exists h, pr, cp, q. rewrite Hh.
  repeat split; auto.
  - apply holding_true, Hhold.
  - intros Hr. rewrite Hr in Hst. discriminate.
Qed.

Lemma sched_moves from c ex k k' : sched from c k = Some k' -> moves c ex k k'.
Proof.
  intros H. apply sched_spec in H
    as (h & pr & cp & q & _ & _ & _ & Hpr & _ & _ & ->).
  eapply moves_trans; [|apply moves_set_cpu].
  eapply moves_store; [exact Hpr|]. left. repeat split.
Qed.

Lemma same_policy_store h pr k : same_policy k (store h pr k).
Proof. repeat split. Qed.

Lemma same_policy_set_cpu c cp k : same_policy k (set_cpu c cp k).
Proof. repeat split. Qed.

Lemma acquire_proc_same_policy c h k k' :
  acquire_proc c h k = Some k' -> same_policy k k'.
Proof.
  intros H. apply acquire_proc_spec in H as (pr & _ & _ & ->).
  apply same_policy_store.
Qed.

Lemma release_proc_same_policy c h k k' :
  release_proc c h k = Some k' -> same_policy k k'.
Proof.
  intros H. apply release_proc_spec in H as (pr & _ & _ & ->).
  apply same_policy_store.
Qed.

Lemma sched_same_policy from c k k' : sched from c k = Some k' -> same_policy k k'.
Proof.
  intros H. apply sched_spec in H
    as (h & pr & cp & q & _ & _ & _ & _ & _ & _ & ->).
  repeat split.
Qed.

Lemma put_same_policy c p k k' : put c p k = Some k' -> same_policy k k'.
Proof.
  destruct p as [h|].
  - intros H. apply put_spec in H as (pr & pr' & H). apply H.
  - simpl. intros H. injection H as <-. apply same_policy_refl.
Qed.

(** *** Process life cycle *)

Lemma freeproc_moves c ex p k k' :
  freeproc p k = Some k' ->
  (forall pr, proc_table k !! p = Some pr -> lock pr = Some c) ->
  same_policy k k' /\ moves c ex k k'.
Proof.
  unfold freeproc. intros H Hheld.
  apply bind_Some in H as (pr & Hpr & H). injection H as <-.
  split; [apply same_policy_store|].
  eapply moves_store; [exact Hpr|]. right.
  unfold touched. simpl. rewrite (Hheld pr Hpr). auto.
Qed.

Lemma allocproc_found_moves c ex p mem_ok k r k' :
  allocproc_found c p mem_ok k = Some (r, k') ->
  (forall pr, proc_table k !! p = Some pr -> lock pr = Some c) ->
  same_policy k k' /\ moves c ex k k' /\
  (forall np pr', r = Some np -> proc_table k' !! np = Some pr' ->
                  lock pr' = Some c).
Proof.
  unfold allocproc_found. intros H Hheld.
  apply bind_Some in H as (pr & Hpr & H).
  cbn [proc_table set_nextpid] in Hpr.
  set (pr1 := set_exe_time 0 _) in H.
  set (k0 := set_nextpid _ k) in H.
  assert (Hm1 : moves c ex k (store p pr1 k0)).
  { eapply moves_trans; [apply (moves_ext _ _ k k0); reflexivity|].
    eapply moves_store; [exact Hpr|]. right.
    unfold touched. simpl. rewrite (Hheld pr Hpr). auto. }
  assert (Hl1 : lock pr1 = Some c) by (simpl; apply Hheld, Hpr).
  assert (Hp1 : proc_table (store p pr1 k0) !! p = Some pr1)
    by (eapply lookup_store_eq; exact Hpr).
  destruct mem_ok.
  - injection H as <- <-. split; [repeat split|]. split.
    + eapply moves_trans; [exact Hm1|].
      eapply moves_store; [exact Hp1|]. left. repeat split.
    + intros np pr' Hnp Hpr'. injection Hnp as <-.
      erewrite lookup_store_eq in Hpr' by exact Hp1.
      injection Hpr' as <-. exact Hl1.
  - apply bind_Some in H as (k1 & Hk1 & H).
    apply bind_Some in H as (k2 & Hk2 & H). injection H as <- <-.
    apply (freeproc_moves c ex) in Hk1 as [Hs1 Hk1].
    2:{ intros pr2 Hpr2. rewrite Hp1 in Hpr2. injection Hpr2 as <-. exact Hl1. }
    split.
    { eapply same_policy_trans; [|eapply release_proc_same_policy; exact Hk2].
      eapply same_policy_trans; [|exact Hs1]. repeat split. }
    split; [|discriminate].
    eapply moves_trans; [exact Hm1|].
    eapply moves_trans; [exact Hk1|].
    eapply release_proc_moves; exact Hk2.
Qed.

Lemma acquired_lock c h k k' pr :
  acquire_proc c h k = Some k' -> proc_table k' !! h = Some pr ->
  lock pr = Some c.
Proof.
  intros H Hpr. apply acquire_proc_spec in H as (pr0 & Hpr0 & _ & ->).
  erewrite lookup_store_eq in Hpr by exact Hpr0. injection Hpr as <-.
  reflexivity.
Qed.

Lemma acquired_state c h k k' pr pr' :
  acquire_proc c h k = Some k' -> proc_table k !! h = Some pr ->
  proc_table k' !! h = Some pr' ->
  state pr' = state pr /\ exe_time pr' = exe_time pr.
Proof.
  intros H Hpr Hpr'. apply acquire_proc_spec in H as (pr0 & Hpr0 & _ & ->).
  erewrite lookup_store_eq in Hpr' by exact Hpr0. injection Hpr' as <-.
  assert (pr0 = pr) by congruence. subst. split; reflexivity.
Qed.

Lemma procstate_eqb_eq x y : procstate_eqb x y = true <-> x = y.
Proof. destruct x, y; simpl; split; congruence. Qed.

Lemma fork_alloc_moves c ex np mem_ok copy_ok k k' :
  fork_alloc c np mem_ok copy_ok k = Some k' ->
  same_policy k k' /\ moves c ex k k'.
Proof.
  unfold fork_alloc. intros H.
  apply bind_Some in H as (k1 & Hk1 & H).
  apply bind_Some in H as (pr & Hpr & H).
  destruct (procstate_eqb (state pr) UNUSED); [|discriminate].
  apply bind_Some in H as ([r k2] & Hk2 & H).
  apply (allocproc_found_moves c ex) in Hk2 as (Hs2 & Hm2 & Hl2).
  2:{ intros pr1 Hpr1. eapply acquired_lock; eauto. }
  pose proof (acquire_proc_same_policy _ _ _ _ Hk1) as Hs1.
  pose proof (acquire_proc_moves _ ex _ _ _ Hk1) as Hm1.
  destruct r as [np'|].
  - destruct copy_ok.
    + split.
      * eapply same_policy_trans; [exact Hs1|].
        eapply same_policy_trans; [exact Hs2|].
        eapply release_proc_same_policy; exact H.
      * eapply moves_trans; [exact Hm1|].
        eapply moves_trans; [exact Hm2|].
        eapply release_proc_moves; exact H.
    + apply bind_Some in H as (k3 & Hk3 & H).
      apply (freeproc_moves c ex) in Hk3 as [Hs3 Hm3].
      2:{ intros pr1 Hpr1. eapply Hl2; eauto. }
      split.
      * eapply same_policy_trans; [exact Hs1|].
        eapply same_policy_trans; [exact Hs2|].
        eapply same_policy_trans; [exact Hs3|].
        eapply release_proc_same_policy; exact H.
      * eapply moves_trans; [exact Hm1|].
        eapply moves_trans; [exact Hm2|].
        eapply moves_trans; [exact Hm3|].
        eapply release_proc_moves; exact H.
  - injection H as <-. split.
    + eapply same_policy_trans; eauto.
    + eapply moves_trans; eauto.
Qed.

Lemma fork_put_moves c ex np k k' :
  fork_put c np k = Some k' -> same_policy k k' /\ moves c ex k k'.
Proof.
  unfold fork_put. intros H.
  apply bind_Some in H as (p & _ & H).
  apply bind_Some in H as (pr & Hpr & H).
  destruct (procstate_eqb (state pr) USED) eqn:Hst; [|discriminate].
  apply procstate_eqb_eq in Hst.
  split.
  - eapply same_policy_trans; [|eapply put_same_policy; exact H].
    apply same_policy_store.
  - apply (moves_trans _ _ _ (store np (set_parent p pr) k)).
    + eapply moves_store; [exact Hpr|]. left. repeat split.
    + eapply put_moves; [exact H|]. right.
      exists (set_parent p pr). split.
      * eapply lookup_store_eq; exact Hpr.
      * simpl. rewrite Hst. discriminate.
Qed.

Lemma wakeup_at_moves c ex ch p k k' :
  wakeup_at c ch p k = Some k' -> same_policy k k' /\ moves c ex k k'.
Proof.
  unfold wakeup_at. intros H.
  apply bind_Some in H as (me & _ & H).
  destruct (ptr_eqb (Some p) me).
  { injection H as <-. split; [apply same_policy_refl|apply moves_refl]. }
  apply bind_Some in H as (k1 & Hk1 & H).
  apply bind_Some in H as (pr & Hpr & H).
  apply bind_Some in H as (k2 & Hk2 & H).
  pose proof (acquire_proc_same_policy _ _ _ _ Hk1) as Hs1.
  pose proof (acquire_proc_moves _ ex _ _ _ Hk1) as Hm1.
  pose proof (release_proc_same_policy _ _ _ _ H) as Hs3.
  pose proof (release_proc_moves _ ex _ _ _ H) as Hm3.
  destruct (procstate_eqb (state pr) SLEEPING && (chan pr =? ch)) eqn:Hc.
  - apply andb_true_iff in Hc as [Hst _]. apply procstate_eqb_eq in Hst.
    split.
    + eapply same_policy_trans; [exact Hs1|].
      eapply same_policy_trans; [eapply put_same_policy; exact Hk2|exact Hs3].
    + eapply moves_trans; [exact Hm1|].
      eapply moves_trans; [|exact Hm3].
      eapply put_moves; [exact Hk2|]. right. exists pr.
      split; [exact Hpr|]. rewrite Hst. discriminate.
  - injection Hk2 as <-. split.
    + eapply same_policy_trans; eauto.
    + eapply moves_trans; eauto.
Qed.

Lemma kill_at_moves c ex target p k r k' :
  kill_at c target p k = Some (r, k') ->
  same_policy k k' /\ moves c ex k k'.
Proof.
  unfold kill_at. intros H.
  apply bind_Some in H as (k1 & Hk1 & H).
  apply bind_Some in H as (pr & Hpr & H).
  pose proof (acquire_proc_same_policy _ _ _ _ Hk1) as Hs1.
  pose proof (acquire_proc_moves _ ex _ _ _ Hk1) as Hm1.
  destruct (pid pr =? target).
  - apply bind_Some in H as (k2 & Hk2 & H).
    apply bind_Some in H as (k3 & Hk3 & H). injection H as _ <-.
    pose proof (release_proc_same_policy _ _ _ _ Hk3) as Hs3.
    pose proof (release_proc_moves _ ex _ _ _ Hk3) as Hm3.
    assert (Hm2 : moves c ex k1 (store p (set_killed 1 pr) k1)).
    { eapply moves_store; [exact Hpr|]. left. repeat split. }
    destruct (procstate_eqb (state pr) SLEEPING) eqn:Hst.
    + apply procstate_eqb_eq in Hst. split.
      * eapply same_policy_trans; [exact Hs1|].
        eapply same_policy_trans; [|exact Hs3].
        eapply same_policy_trans; [|eapply put_same_policy; exact Hk2].
        apply same_policy_store.
      * eapply moves_trans; [exact Hm1|].
        eapply moves_trans; [exact Hm2|].
        eapply moves_trans; [|exact Hm3].
        eapply put_moves; [exact Hk2|]. right.
        exists (set_killed 1 pr). split.
        -- eapply lookup_store_eq; exact Hpr.
        -- simpl. rewrite Hst. discriminate.
    + injection Hk2 as <-. split.
      * eapply same_policy_trans; [exact Hs1|].
        eapply same_policy_trans; [|exact Hs3]. apply same_policy_store.
      * eapply moves_trans; [exact Hm1|].
        eapply moves_trans; [exact Hm2|exact Hm3].
  - apply bind_Some in H as (k3 & Hk3 & H). injection H as _ <-.
    split.
    + eapply same_policy_trans; [exact Hs1|].
      eapply release_proc_same_policy; exact Hk3.
    + eapply moves_trans; [exact Hm1|].
      eapply release_proc_moves; exact Hk3.
Qed.

Lemma wait_at_moves c ex np copy_ok k r k' :
  wait_at c np copy_ok k = Some (r, k') ->
  same_policy k k' /\ moves c ex k k'.
Proof.
  unfold wait_at. intros H.
  apply bind_Some in H as (p & _ & H).
  apply bind_Some in H as (pr0 & Hpr0 & H).
  destruct (ptr_eqb (parent pr0) p).
  2:{ injection H as _ <-. split; [apply same_policy_refl|apply moves_refl]. }
  apply bind_Some in H as (k1 & Hk1 & H).
  apply bind_Some in H as (pr & Hpr & H).
  pose proof (acquire_proc_same_policy _ _ _ _ Hk1) as Hs1.
  pose proof (acquire_proc_moves _ ex _ _ _ Hk1) as Hm1.
  assert (Hrel : forall k2 k3, k2 = k1 -> release_proc c np k2 = Some k3 ->
                   same_policy k k3 /\ moves c ex k k3).
  { intros k2 k3 -> Hk3. split.
    - eapply same_policy_trans; [exact Hs1|].
      eapply release_proc_same_policy; exact Hk3.
    - eapply moves_trans; [exact Hm1|].
      eapply release_proc_moves; exact Hk3. }
  destruct (procstate_eqb (state pr) ZOMBIE).
  - destruct copy_ok.
    + apply bind_Some in H as (k2 & Hk2 & H).
      apply bind_Some in H as (k3 & Hk3 & H). injection H as _ <-.
      apply (freeproc_moves c ex) in Hk2 as [Hs2 Hm2].
      2:{ intros pr1 Hpr1. eapply acquired_lock; eauto. }
      split.
      * eapply same_policy_trans; [exact Hs1|].
        eapply same_policy_trans; [exact Hs2|].
        eapply release_proc_same_policy; exact Hk3.
      * eapply moves_trans; [exact Hm1|].
        eapply moves_trans; [exact Hm2|].
        eapply release_proc_moves; exact Hk3.
    + apply bind_Some in H as (k3 & Hk3 & H). injection H as _ <-.
      eapply Hrel; eauto.
  - apply bind_Some in H as (k3 & Hk3 & H). injection H as _ <-.
    eapply Hrel; eauto.
Qed.

Lemma sleep_moves c ex ch k k' :
  sleep c ch k = Some k' -> same_policy k k' /\ moves c ex k k'.
Proof.
  unfold sleep. intros H.
  apply bind_Some in H as (p & _ & H).
  apply bind_Some in H as (h & _ & H).
  apply bind_Some in H as (k1 & Hk1 & H).
  apply bind_Some in H as (pr & Hpr & H).
  split.
  - eapply same_policy_trans; [eapply acquire_proc_same_policy; exact Hk1|].
    eapply same_policy_trans; [|eapply sched_same_policy; exact H].
    apply same_policy_store.
  - eapply moves_trans; [eapply acquire_proc_moves; exact Hk1|].
    eapply moves_trans; [|eapply sched_moves; exact H].
    eapply moves_store; [exact Hpr|]. right.
    unfold touched. simpl. rewrite (acquired_lock _ _ _ _ _ Hk1 Hpr). auto.
Qed.

Lemma exit_moves c ex status k k' :
  exit c status k = Some k' -> same_policy k k' /\ moves c ex k k'.
Proof.
  unfold exit. intros H.
  apply bind_Some in H as (p & _ & H).
  apply bind_Some in H as (h & _ & H).
  destruct (ptr_eqb p (initproc k)); [discriminate|].
  apply bind_Some in H as (k1 & Hk1 & H).
  apply bind_Some in H as (pr & Hpr & H).
  split.
  - eapply same_policy_trans;
      [|eapply same_policy_trans;
        [eapply acquire_proc_same_policy; exact Hk1|]].
    + repeat split.
    + eapply same_policy_trans; [|eapply sched_same_policy; exact H].
      apply same_policy_store.
  - apply (moves_trans _ _ _ (reparent h k)).
    { apply moves_map. intros x. destruct (ptr_eqb (parent x) (Some h));
        repeat split. }
    eapply moves_trans; [eapply acquire_proc_moves; exact Hk1|].
    eapply moves_trans; [|eapply sched_moves; exact H].
    eapply moves_store; [exact Hpr|]. right.
    unfold touched. simpl. rewrite (acquired_lock _ _ _ _ _ Hk1 Hpr). auto.
Qed.

Lemma yield_spec c k k' :
  yield c k = Some k' -> same_policy k k' /\ yielded c k k'.
Proof.
  unfold yield. intros H.
  apply bind_Some in H as (p & Hp & H).
  apply bind_Some in H as (h & Hh & H). subst p.
  apply bind_Some in H as (k1 & Hk1 & H).
  apply bind_Some in H as (k2 & Hk2 & H).
  pose proof (acquire_proc_same_policy _ _ _ _ Hk1) as Hs1.
  pose proof (acquire_proc_moves _ (Some h) _ _ _ Hk1) as Hm1.
  pose proof (put_same_policy _ _ _ _ Hk2) as Hs2.
  pose proof (put_moves c (Some h) h _ _ Hk2 (or_introl eq_refl)) as Hm2.
  pose proof (sched_same_policy _ _ _ _ H) as Hs3.
  pose proof (sched_moves _ _ (Some h) _ _ H) as Hm3.
  split.
  { eapply same_policy_trans; [exact Hs1|].
    eapply same_policy_trans; [exact Hs2|exact Hs3]. }
  exists h. split.
  { eapply moves_trans; [exact Hm1|]. eapply moves_trans; eauto. }
  apply put_spec in Hk2
    as (pr1 & pr2 & Hpr1 & _ & Htbl2 & Hl2 & Hst2 & _ & Hc2 & _).
  pose proof (acquired_lock _ _ _ _ _ Hk1 Hpr1) as Hl1.
  assert (Hc1 : cpus k1 = cpus k).
  { apply acquire_proc_spec in Hk1 as (? & _ & _ & ->). reflexivity. }
  apply sched_spec in H
    as (h' & pr & cp & q & Hcp & Hcproc & Hat & Hpr & Hl & _ & ->).
  unfold myproc in Hp. rewrite Hc2, Hc1 in Hcp. rewrite Hcp in Hp.
  simpl in Hp. injection Hp as Hp. rewrite Hcproc in Hp. injection Hp as ->.
  assert (pr = pr2).
  { rewrite Htbl2 in Hpr.
    rewrite list_lookup_insert_eq in Hpr by (eapply lookup_lt_Some; eauto).
    congruence. }
  subst pr. split.
  - exists (mkcpu (Some h) (SchedResumed q)), q. simpl.
    split; [|split; reflexivity].
    apply list_lookup_insert_eq. rewrite Hc2, Hc1.
    eapply lookup_lt_Some; eauto.
  - exists (set_context CtxYield pr2). simpl. split; [|split; congruence].
    rewrite Htbl2. rewrite list_insert_insert_eq.
    apply list_lookup_insert_eq. eapply lookup_lt_Some; eauto.
Qed.

Lemma timer_routine_spec c p k k' :
  timer_routine c p k = Some k' ->
  same_policy k k' /\ (moves c None k k' \/ yielded c k k').
Proof.
  unfold timer_routine. intros H.
  apply bind_Some in H as (h & _ & H).
  apply bind_Some in H as (pr & Hpr & H).
  set (pr1 := set_cpu_burst _ pr) in H.
  assert (Hm : forall ex, moves c ex k (store h pr1 k)).
  { intros ex. eapply moves_store; [exact Hpr|]. left. repeat split. }
  match type of H with (if ?b then _ else _) = _ => destruct b end.
  - apply yield_spec in H as (Hs & h' & Hm' & Hres & Hfin). split.
    + eapply same_policy_trans; [apply same_policy_store|exact Hs].
    + right. exists h'. split; [|split; assumption].
      eapply moves_trans; [apply Hm|exact Hm'].
  - injection H as <-. split; [apply same_policy_store|]. left. apply Hm.
Qed.

(** *** The scheduler loop *)

Lemma scheduler_get_moves c ex k k' :
  scheduler_get c k = Some k' -> same_policy k k' /\ moves c ex k k'.
Proof.
  unfold scheduler_get. intros H.
  apply bind_Some in H as (cp & _ & H).
  destruct (sched_at cp); try discriminate.
  apply bind_Some in H as ([r k1] & Hk1 & H).
  apply (get_spec c ex) in Hk1 as (_ & Hs & Hm).
  destruct r as [p|]; injection H as <-.
  - split; [exact Hs|]. eapply moves_trans; [exact Hm|apply moves_set_cpu].
  - auto.
Qed.

Lemma resume_moves c ex p k k' :
  resume c p k = Some k' -> same_policy k k' /\ moves c ex k k'.
Proof.
  unfold resume. intros H.
  apply bind_Some in H as (pr & Hpr & H).
  destruct (context pr); try discriminate.
  - split; [eapply release_proc_same_policy|eapply release_proc_moves]; eauto.
  - split; [eapply release_proc_same_policy|eapply release_proc_moves]; eauto.
  - split.
    + eapply same_policy_trans; [|eapply release_proc_same_policy; exact H].
      apply same_policy_store.
    + eapply moves_trans; [|eapply release_proc_moves; exact H].
      eapply moves_store; [exact Hpr|]. left. repeat split.
Qed.

Lemma scheduler_run_moves c ex k k' :
  scheduler_run c k = Some k' -> same_policy k k' /\ moves c ex k k'.
Proof.
  unfold scheduler_run. intros H.
  apply bind_Some in H as (cp & _ & H).
  destruct (sched_at cp) as [|p| |]; try discriminate.
  apply bind_Some in H as (k1 & Hk1 & H).
  apply bind_Some in H as (pr & Hpr & H).
  pose proof (acquire_proc_same_policy _ _ _ _ Hk1) as Hs1.
  pose proof (acquire_proc_moves _ ex _ _ _ Hk1) as Hm1.
  destruct (procstate_eqb (state pr) RUNNABLE).
  - apply (resume_moves c ex) in H as [Hs Hm]. split.
    + eapply same_policy_trans; [exact Hs1|].
      eapply same_policy_trans; [|exact Hs]. repeat split.
    + eapply moves_trans; [exact Hm1|].
      eapply moves_trans; [|exact Hm].
      eapply moves_trans; [|apply moves_set_cpu].
      eapply moves_store; [exact Hpr|]. right.
      unfold touched. simpl.
      rewrite (acquired_lock _ _ _ _ _ Hk1 Hpr). auto.
  - apply bind_Some in H as (k2 & Hk2 & H). injection H as <-. split.
    + eapply same_policy_trans; [exact Hs1|].
      eapply same_policy_trans;
        [eapply release_proc_same_policy; exact Hk2|]. repeat split.
    + eapply moves_trans; [exact Hm1|].
      eapply moves_trans; [eapply release_proc_moves; exact Hk2|].
      apply moves_set_cpu.
Qed.

Lemma change_sched_moves c ex algo ip a0 k r k' :
  change_sched c algo ip a0 k = Some (r, k') -> moves c ex k k'.
Proof.
  unfold change_sched. intros H.
  destruct ((algo <? 0) || (algo >? 1) || (ip <? 0)).
  { injection H as _ <-. apply moves_refl. }
  destruct ((algo =? 0) && ((a0 <? 0) || (a0 >? 100))).
  { injection H as _ <-. apply moves_refl. }
  apply bind_Some in H as (k1 & Hk1 & H).
  apply bind_Some in H as (arr & _ & H).
  apply bind_Some in H as (k2 & Hk2 & H). injection H as _ <-.
  apply acquire_sched_spec in Hk1 as [_ ->].
  apply release_sched_spec in Hk2 as ->.
  apply moves_ext; reflexivity.
Qed.

Lemma change_sched_policy_inv c algo ip a0 k r k' :
  policy_inv k -> change_sched c algo ip a0 k = Some (r, k') ->
  policy_inv k'.
Proof.
  unfold change_sched. intros Hinv H.
  destruct (Z.ltb_spec algo 0).
  { injection H as _ <-. exact Hinv. }
  destruct (Z.gtb_spec algo 1).
  { injection H as _ <-. exact Hinv. }
  destruct (Z.ltb_spec ip 0).
  { injection H as _ <-. exact Hinv. }
  simpl in H.
  destruct (Z.eqb_spec algo 0) as [Ha|Ha]; simpl in H.
  - destruct (Z.ltb_spec a0 0).
    { injection H as _ <-. exact Hinv. }
    destruct (Z.gtb_spec a0 100).
    { injection H as _ <-. exact Hinv. }
    simpl in H.
    apply bind_Some in H as (k1 & Hk1 & H).
    apply bind_Some in H as (arr & _ & H).
    apply bind_Some in H as (k2 & Hk2 & H). injection H as _ <-.
    apply acquire_sched_spec in Hk1 as [_ ->].
    apply release_sched_spec in Hk2 as ->.
    unfold policy_inv. simpl. repeat split; auto; lia.
  - apply bind_Some in H as (k1 & Hk1 & H).
    apply bind_Some in H as (arr & _ & H).
    apply bind_Some in H as (k2 & Hk2 & H). injection H as _ <-.
    apply acquire_sched_spec in Hk1 as [_ ->].
    apply release_sched_spec in Hk2 as ->.
    unfold policy_inv. simpl. repeat split; try lia.
Qed.

(** ** The invariant on exe_time *)

Lemma resumed_with_cpus c h k k' :
  cpus k' !! c = cpus k !! c -> resumed_with c h k -> resumed_with c h k'.
Proof.
  intros Hc (cp & q & Hcp & Hh & Hat). exists cp, q.
  rewrite Hc. auto.
Qed.

Lemma inv_at_moves c ex k k' :
  exe_time_inv_at c ex k -> moves c ex k k' -> exe_time_inv_at c ex k'.
Proof.
  intros Hinv [Hc Hp] h pr' Hpr' Hex Hne.
  destruct (Hp h pr' Hpr') as (pr & Hpr & [(Hl & Hs & He)|(Hl & Hl' & He)]).
  - rewrite He in Hne.
    destruct (Hinv h pr Hpr Hex Hne) as (Hst & c' & Hlk & Hc' & Hres).
    split; [congruence|]. exists c'. split; [congruence|].
    split; [exact Hc'|]. eapply resumed_with_cpus; [|exact Hres].
    apply Hc, Hc'.
  - destruct He as [He|[He|He]]; [congruence..|].
    rewrite He in Hne.
    destruct (Hinv h pr Hpr Hex Hne) as (_ & c' & Hlk & Hc' & _).
    destruct Hl; congruence.
Qed.

Lemma inv_at_weaken c ex k :
  exe_time_inv_at c None k -> exe_time_inv_at c ex k.
Proof. intros Hinv h pr Hpr _ Hne. apply Hinv; [exact Hpr|discriminate|exact Hne]. Qed.

Lemma inv_enter c k :
  exe_time_inv k -> (forall h, ~ resumed_with c h k) ->
  exe_time_inv_at c None k.
Proof.
  intros Hinv Hc h pr Hpr _ Hne.
  destruct (Hinv h pr Hpr Hne) as (Hst & c' & Hlk & Hres).
  split; [exact Hst|]. exists c'. split; [exact Hlk|]. split; [|exact Hres].
  intros ->. eapply Hc; eauto.
Qed.

Lemma inv_leave c k : exe_time_inv_at c None k -> exe_time_inv k.
Proof.
  intros Hinv h pr Hpr Hne.
  destruct (Hinv h pr Hpr) as (Hst & c' & Hlk & _ & Hres);
    [discriminate|exact Hne|].
  split; [exact Hst|]. exists c'. auto.
Qed.

Lemma inv_leave_yield c h k :
  exe_time_inv_at c (Some h) k -> resumed_with c h k ->
  (exists pr, proc_table k !! h = Some pr /\ lock pr = Some c /\
              state pr = RUNNABLE) ->
  exe_time_inv k.
Proof.
  intros Hinv Hres (pr & Hpr & Hlk & Hst) h0 pr0 Hpr0 Hne.
  destruct (decide (h0 = h)) as [->|Hh].
  - assert (pr0 = pr) by congruence. subst pr0.
    split; [exact Hst|]. exists c. auto.
  - destruct (Hinv h0 pr0 Hpr0) as (Hst0 & c' & Hlk0 & _ & Hres0);
      [congruence|exact Hne|].
    split; [exact Hst0|]. exists c'. auto.
Qed.

Lemma inv_enter_back c cp k :
  exe_time_inv k -> cpus k !! c = Some cp ->
  exe_time_inv_at c (cproc cp) k.
Proof.
  intros Hinv Hcp h pr Hpr Hex Hne.
  destruct (Hinv h pr Hpr Hne) as (Hst & c' & Hlk & Hres).
  split; [exact Hst|]. exists c'. split; [exact Hlk|]. split; [|exact Hres].
  intros ->. destruct Hres as (cp' & q & Hcp' & Hh & _).
  congruence.
Qed.

Lemma inv_at_drop c h k :
  exe_time_inv_at c (Some h) k ->
  (forall pr, proc_table k !! h = Some pr -> exe_time pr = 0) ->
  exe_time_inv_at c None k.
Proof.
  intros Hinv Hz h0 pr0 Hpr0 _ Hne.
  apply Hinv; [exact Hpr0| |exact Hne].
  intros Heq. injection Heq as ->. apply Hne, Hz, Hpr0.
Qed.

Lemma in_process_not_resumed c k :
  in_process c k = true -> forall h, ~ resumed_with c h k.
Proof.
  unfold in_process. intros H h (cp & q & Hcp & _ & Hat).
  rewrite Hcp, Hat in H. discriminate.
Qed.

Lemma interruptible_not_resumed c k :
  interruptible c k = true -> forall h, ~ resumed_with c h k.
Proof.
  unfold interruptible. intros H h (cp & q & Hcp & _ & Hat).
  rewrite Hcp, Hat in H. discriminate.
Qed.

(** An event that starts outside the window between [sched()] and the
    release, and only [moves], keeps the invariant. *)
Lemma inv_by_moves c k k' :
  exe_time_inv k -> (forall h, ~ resumed_with c h k) ->
  moves c None k k' -> exe_time_inv k'.
Proof.
  intros Hinv Hc Hm. apply (inv_leave c).
  eapply inv_at_moves; [|exact Hm]. apply inv_enter; assumption.
Qed.

Lemma inv_by_yield c k k' :
  exe_time_inv k -> (forall h, ~ resumed_with c h k) ->
  yielded c k k' -> exe_time_inv k'.
Proof.
  intros Hinv Hc (h & Hm & Hres & Hfin).
  apply (inv_leave_yield c h); [|exact Hres|exact Hfin].
  eapply inv_at_moves; [|exact Hm].
  apply inv_at_weaken, inv_enter; assumption.
Qed.

Lemma scheduler_back_spec c k k' :
  scheduler_back c k = Some k' ->
  same_policy k k' /\ (exe_time_inv k -> exe_time_inv k').
Proof.
  unfold scheduler_back. intros H.
  apply bind_Some in H as (cp & Hcp & H).
  destruct (sched_at cp) as [| | |p]; try discriminate.
  apply bind_Some in H as (k1 & Hk1 & H).
  assert (Hmid : same_policy k k1 /\
                 (exe_time_inv k -> exe_time_inv_at c None k1)).
  { destruct (cproc cp) as [q|] eqn:Hq.
    - apply bind_Some in Hk1 as (pr & Hpr & Hk1).
      destruct (procstate_eqb (state pr) RUNNABLE) eqn:Hst.
      + apply procstate_eqb_eq in Hst.
        split; [eapply put_same_policy; exact Hk1|]. intros Hinv.
        apply (inv_at_drop c q).
        * eapply inv_at_moves;
            [|eapply put_moves; [exact Hk1|left; reflexivity]].
          rewrite <- Hq. apply inv_enter_back; assumption.
        * apply put_spec in Hk1
            as (pr0 & pr' & Hpr0 & _ & Htbl & _ & _ & He & _).
          intros pr1 Hpr1. rewrite Htbl in Hpr1.
          rewrite list_lookup_insert_eq in Hpr1
            by (eapply lookup_lt_Some; eauto).
          injection Hpr1 as <-. apply He.
          assert (pr0 = pr) by congruence. subst pr0.
          rewrite Hst. discriminate.
      + injection Hk1 as <-. split; [apply same_policy_refl|]. intros Hinv.
        apply (inv_at_drop c q).
        * rewrite <- Hq. apply inv_enter_back; assumption.
        * intros pr1 Hpr1. assert (pr1 = pr) by congruence. subst pr1.
          destruct (decide (exe_time pr = 0)) as [Hz|Hnz]; [exact Hz|].
          destruct (Hinv q pr Hpr Hnz) as [Hrun _].
          rewrite Hrun in Hst. discriminate.
    - injection Hk1 as <-. split; [apply same_policy_refl|]. intros Hinv.
      rewrite <- Hq. apply inv_enter_back; assumption. }
  destruct Hmid as [Hs Hi]. split.
  - eapply same_policy_trans; [exact Hs|].
    eapply same_policy_trans; [|eapply release_proc_same_policy; exact H].
    apply same_policy_set_cpu.
  - intros Hinv. apply (inv_leave c).
    eapply inv_at_moves; [apply Hi, Hinv|].
    eapply moves_trans; [apply moves_set_cpu|].
    eapply release_proc_moves; exact H.
Qed.

Lemma scheduler_get_not_resumed c k k' :
  scheduler_get c k = Some k' -> forall h, ~ resumed_with c h k.
Proof.
  unfold scheduler_get. intros H h (cp & q & Hcp & _ & Hat).
  rewrite Hcp in H. simpl in H. rewrite Hat in H. discriminate.
Qed.

Lemma scheduler_run_not_resumed c k k' :
  scheduler_run c k = Some k' -> forall h, ~ resumed_with c h k.
Proof.
  unfold scheduler_run. intros H h (cp & q & Hcp & _ & Hat).
  rewrite Hcp in H. simpl in H. rewrite Hat in H. discriminate.
Qed.

(** Every event keeps the policy triple, [change_sched] apart. *)
Lemma step_same_policy ev k k' :
  step ev k = Some k' ->
  (forall c algo ip a0, ev <> EvChangeSched c algo ip a0) ->
  same_policy k k'.
Proof.
  intros H Hev. destruct ev; simpl in H.
  - eapply scheduler_get_moves with (ex := None); exact H.
  - eapply scheduler_run_moves with (ex := None); exact H.
  - eapply scheduler_back_spec; exact H.
  - destruct (in_process c k); [|discriminate].
    eapply yield_spec; exact H.
  - destruct (in_process c k); [|discriminate].
    eapply sleep_moves with (ex := None); exact H.
  - destruct (in_process c k); [|discriminate].
    eapply exit_moves with (ex := None); exact H.
  - destruct (interruptible c k); [|discriminate].
    eapply wakeup_at_moves with (ex := None); exact H.
  - destruct (in_process c k); [|discriminate].
    apply fmap_Some in H as ([r k1] & H & ->).
    eapply kill_at_moves with (ex := None); exact H.
  - destruct (in_process c k); [|discriminate].
    eapply fork_alloc_moves with (ex := None); exact H.
  - destruct (in_process c k); [|discriminate].
    eapply fork_put_moves with (ex := None); exact H.
  - destruct (in_process c k); [|discriminate].
    apply fmap_Some in H as ([r k1] & H & ->).
    eapply wait_at_moves with (ex := None); exact H.
  - destruct (in_process c k); [|discriminate].
    apply bind_Some in H as (p & _ & H).
    eapply timer_routine_spec; exact H.
  - injection H as <-. repeat split.
  - exfalso. eapply Hev. reflexivity.
Qed.

Lemma step_policy_inv ev k k' :
  policy_inv k -> step ev k = Some k' -> policy_inv k'.
Proof.
  intros Hinv H.
  assert (Hsame : same_policy k k' -> policy_inv k').
  { unfold policy_inv, same_policy in *. intros (-> & -> & ->). exact Hinv. }
  destruct ev; try (apply Hsame; eapply step_same_policy;
                    [exact H|discriminate]).
  simpl in H. destruct (in_process c k); [|discriminate].
  apply fmap_Some in H as ([r k1] & H & ->).
  eapply change_sched_policy_inv; eauto.
Qed.

Lemma step_exe_time_inv ev k k' :
  exe_time_inv k -> step ev k = Some k' -> exe_time_inv k'.
Proof.
  intros Hinv H. destruct ev; simpl in H.
  - eapply (inv_by_moves c); [exact Hinv| |].
    + eapply scheduler_get_not_resumed; exact H.
    + eapply scheduler_get_moves; exact H.
  - eapply (inv_by_moves c); [exact Hinv| |].
    + eapply scheduler_run_not_resumed; exact H.
    + eapply scheduler_run_moves; exact H.
  - eapply scheduler_back_spec; eauto.
  - destruct (in_process c k) eqn:Hc; [|discriminate].
    eapply (inv_by_yield c);
      [exact Hinv|apply in_process_not_resumed, Hc|].
    eapply yield_spec; exact H.
  - destruct (in_process c k) eqn:Hc; [|discriminate].
    eapply (inv_by_moves c);
      [exact Hinv|apply in_process_not_resumed, Hc|].
    eapply sleep_moves; exact H.
  - destruct (in_process c k) eqn:Hc; [|discriminate].
    eapply (inv_by_moves c);
      [exact Hinv|apply in_process_not_resumed, Hc|].
    eapply exit_moves; exact H.
  - destruct (interruptible c k) eqn:Hc; [|discriminate].
    eapply (inv_by_moves c);
      [exact Hinv|apply interruptible_not_resumed, Hc|].
    eapply wakeup_at_moves; exact H.
  - destruct (in_process c k) eqn:Hc; [|discriminate].
    apply fmap_Some in H as ([r k1] & H & ->).
    eapply (inv_by_moves c);
      [exact Hinv|apply in_process_not_resumed, Hc|].
    eapply kill_at_moves; exact H.
  - destruct (in_process c k) eqn:Hc; [|discriminate].
    eapply (inv_by_moves c);
      [exact Hinv|apply in_process_not_resumed, Hc|].
    eapply fork_alloc_moves; exact H.
  - destruct (in_process c k) eqn:Hc; [|discriminate].
    eapply (inv_by_moves c);
      [exact Hinv|apply in_process_not_resumed, Hc|].
    eapply fork_put_moves; exact H.
  - destruct (in_process c k) eqn:Hc; [|discriminate].
    apply fmap_Some in H as ([r k1] & H & ->).
    eapply (inv_by_moves c);
      [exact Hinv|apply in_process_not_resumed, Hc|].
    eapply wait_at_moves; exact H.
  - destruct (in_process c k) eqn:Hc; [|discriminate].
    apply bind_Some in H as (p & _ & H).
    apply timer_routine_spec in H as (_ & [Hm|Hy]).
    + eapply (inv_by_moves c); eauto using in_process_not_resumed.
    + eapply (inv_by_yield c); eauto using in_process_not_resumed.
  - injection H as <-. exact Hinv.
  - destruct (in_process c k) eqn:Hc; [|discriminate].
    apply fmap_Some in H as ([r k1] & H & ->).
    eapply (inv_by_moves c);
      [exact Hinv|apply in_process_not_resumed, Hc|].
    eapply change_sched_moves; exact H.
Qed.

(** ** The loops of wakeup and kill are runs of events *)

Lemma acquire_proc_cpus c h k k' :
  acquire_proc c h k = Some k' -> cpus k' = cpus k.
Proof.
  intros H. apply acquire_proc_spec in H as (pr & _ & _ & ->). reflexivity.
Qed.

Lemma release_proc_cpus c h k k' :
  release_proc c h k = Some k' -> cpus k' = cpus k.
Proof.
  intros H. apply release_proc_spec in H as (pr & _ & _ & ->). reflexivity.
Qed.

Lemma put_cpus c p k k' : put c p k = Some k' -> cpus k' = cpus k.
Proof.
  destruct p as [h|].
  - intros H. apply put_spec in H as (pr & pr' & H). apply H.
  - simpl. intros H. injection H as <-. reflexivity.
Qed.

Lemma wakeup_at_cpus c ch p k k' :
  wakeup_at c ch p k = Some k' -> cpus k' = cpus k.
Proof.
  unfold wakeup_at. intros H.
  apply bind_Some in H as (me & _ & H).
  destruct (ptr_eqb (Some p) me).
  { injection H as <-. reflexivity. }
  apply bind_Some in H as (k1 & Hk1 & H).
  apply bind_Some in H as (pr & _ & H).
  apply bind_Some in H as (k2 & Hk2 & H).
  apply acquire_proc_cpus in Hk1. apply release_proc_cpus in H.
  destruct (procstate_eqb (state pr) SLEEPING && (chan pr =? ch)).
  - apply put_cpus in Hk2. congruence.
  - injection Hk2 as <-. congruence.
Qed.

Lemma kill_at_cpus c target p k r k' :
  kill_at c target p k = Some (r, k') -> cpus k' = cpus k.
Proof.
  unfold kill_at. intros H.
  apply bind_Some in H as (k1 & Hk1 & H).
  apply bind_Some in H as (pr & _ & H).
  apply acquire_proc_cpus in Hk1.
  destruct (pid pr =? target).
  - apply bind_Some in H as (k2 & Hk2 & H).
    apply bind_Some in H as (k3 & Hk3 & H). injection H as _ <-.
    apply release_proc_cpus in Hk3.
    destruct (procstate_eqb (state pr) SLEEPING).
    + apply put_cpus in Hk2. simpl in Hk2. congruence.
    + injection Hk2 as <-. simpl in Hk3. congruence.
  - apply bind_Some in H as (k3 & Hk3 & H). injection H as _ <-.
    apply release_proc_cpus in Hk3. congruence.
Qed.

(** A whole call of [wakeup] from a reachable state, with no other CPU
    acting meanwhile, ends in a reachable state. *)
Lemma wakeup_reachable c ch k k' :
  reachable k -> interruptible c k = true ->
  wakeup c ch k = Some k' -> reachable k'.
Proof.
  unfold wakeup. generalize (seq 0 NPROC). intros ps. revert k.
  induction ps as [|p ps IH]; intros k Hr Hc H; simpl in H.
  - injection H as <-. exact Hr.
  - apply bind_Some in H as (k1 & Hk1 & H).
    apply (IH k1); [| |exact H].
    + apply (reachable_step (EvWakeup c ch p) k); [exact Hr|].
      simpl. rewrite Hc. exact Hk1.
    + unfold interruptible in *.
      rewrite (wakeup_at_cpus _ _ _ _ _ Hk1). exact Hc.
Qed.

(** The same for a whole call of [kill]. *)
Lemma kill_reachable c target k r k' :
  reachable k -> in_process c k = true ->
  kill c target k = Some (r, k') -> reachable k'.
Proof.
  unfold kill. generalize (seq 0 NPROC). intros ps. revert k.
  induction ps as [|p ps IH]; intros k Hr Hc H; simpl in H.
  - injection H as _ <-. exact Hr.
  - apply bind_Some in H as ([found k1] & Hk1 & H).
    assert (Hr1 : reachable k1).
    { apply (reachable_step (EvKill c target p) k); [exact Hr|].
      simpl. rewrite Hc, Hk1. reflexivity. }
    destruct found.
    + injection H as _ <-. exact Hr1.
    + apply (IH k1); [exact Hr1| |exact H].
      unfold in_process in *.
      rewrite (kill_at_cpus _ _ _ _ _ _ Hk1). exact Hc.
Qed.

(** ** Runs of the transition system *)

Lemma reachable_run evs k0 k :
  reachable k0 -> run evs k0 = Some k -> reachable k.
Proof.
  revert k0. induction evs as [|ev evs IH]; intros k0 Hk0 Hrun; simpl in Hrun.
  - congruence.
  - destruct (step ev k0) as [k1|] eqn:Hstep; [|discriminate].
    apply (IH k1); [|exact Hrun]. eapply reachable_step; eauto.
Qed.

Lemma reachable_state_after evs :
  userinit 0 kernel_init = Some boot ->
  run evs boot = Some (state_after evs) ->
  reachable (state_after evs).
Proof.
  intros Hboot Hrun. eapply reachable_run; [|exact Hrun].
  apply reachable_boot. exact Hboot.
Qed.

(** ** Return codes of change_sched *)

Lemma change_sched_accepts c algo ip a0 k :
  sched_wf k -> 0 <= algo <= 1 -> 0 <= ip ->
  ~ (algo = 0 /\ (a0 < 0 \/ a0 > 100)) ->
  exists arr,
    rearrange_heap (proc_table k) (heap (proc_sched k))
      (heap_size (proc_sched k)) algo = Some arr /\
    change_sched c algo ip a0 k =
      Some (0, set_proc_sched
                 (mksched None arr (heap_size (proc_sched k)) algo ip a0) k).
Proof.
  intros (Hlk & Hlen & Hok) Halgo Hip Ha.
  destruct (rearrange_heap_total _ _ _ algo Hok) as (arr & Harr & _ & _).
  exists arr. split; [exact Harr|].
  unfold change_sched.
  destruct (Z.ltb_spec algo 0); [lia|].
  destruct (Z.gtb_spec algo 1); [lia|].
  destruct (Z.ltb_spec ip 0); [lia|]. simpl.
  assert (Hv : (algo =? 0) && ((a0 <? 0) || (a0 >? 100)) = false).
  { destruct (Z.eqb_spec algo 0); [|reflexivity].
    destruct (Z.ltb_spec a0 0); [lia|].
    destruct (Z.gtb_spec a0 100); [lia|]. reflexivity. }
  rewrite Hv. unfold acquire_sched. rewrite Hlk.
  cbn [acquire mbind option_bind].
  cbn [proc_sched set_proc_sched set_sp_lock set_algorithm set_is_preemptive
       set_a heap heap_size proc_table].
  rewrite Harr. cbn [mbind option_bind].
  unfold release_sched, release.
  cbn [proc_sched set_proc_sched set_sp_lock set_heap sp_lock].
  rewrite holding_self. reflexivity.
Qed.

(** C4.  [change_sched] returns -2 when [algo] is not 0 or 1 or
    [is_preemptive] is negative; otherwise -3 when [algo] is 0 and [a] is
    outside 0..100; otherwise 0.  The three calls of scenario S5 return
    -2, -3 and -2. *)
Theorem change_sched_status c algo ip a0 k :
  sched_wf k ->
  (algo < 0 \/ algo > 1 \/ ip < 0 ->
   change_sched c algo ip a0 k = Some (-2, k)) /\
  (0 <= algo <= 1 -> 0 <= ip -> algo = 0 /\ (a0 < 0 \/ a0 > 100) ->
   change_sched c algo ip a0 k = Some (-3, k)) /\
  (0 <= algo <= 1 -> 0 <= ip -> ~ (algo = 0 /\ (a0 < 0 \/ a0 > 100)) ->
   exists k', change_sched c algo ip a0 k = Some (0, k')) /\
  change_sched c 2 0 50 k = Some (-2, k) /\
  change_sched c 0 0 101 k = Some (-3, k) /\
  change_sched c 0 (-1) 50 k = Some (-2, k).
Proof.
  intros Hwf. split; [|split; [|split]].
  - intros Hbad. unfold change_sched.
    destruct (Z.ltb_spec algo 0); [reflexivity|].
    destruct (Z.gtb_spec algo 1); [reflexivity|].
    destruct (Z.ltb_spec ip 0); [reflexivity|]. lia.
  - intros Halgo Hip [-> Ha]. unfold change_sched.
    destruct (Z.ltb_spec ip 0); [lia|]. simpl.
    destruct (Z.ltb_spec a0 0); [reflexivity|].
    destruct (Z.gtb_spec a0 100); [reflexivity|]. lia.
  - intros Halgo Hip Ha.
    destruct (change_sched_accepts c algo ip a0 k Hwf Halgo Hip Ha)
      as (arr & _ & ->).
    eexists. reflexivity.
  - repeat split; reflexivity.
Qed.

(** C10.  A call of [change_sched] that returns -2 or -3 leaves the whole
    kernel state as it was, and returns the same code whatever the state
    of the scheduler lock: the arguments are checked before the lock is
    taken. *)
Theorem change_sched_error_unchanged c algo ip a0 k r k' :
  change_sched c algo ip a0 k = Some (r, k') -> r = -2 \/ r = -3 ->
  k' = k /\
  forall c' lk,
    let held := set_proc_sched (set_sp_lock lk (proc_sched k)) k in
    change_sched c' algo ip a0 held = Some (r, held).
Proof.
  unfold change_sched. intros H Hr.
  destruct ((algo <? 0) || (algo >? 1) || (ip <? 0)).
  { injection H as <- <-. split; [reflexivity|]. intros; reflexivity. }
  destruct ((algo =? 0) && ((a0 <? 0) || (a0 >? 100))).
  { injection H as <- <-. split; [reflexivity|]. intros; reflexivity. }
  exfalso.
  apply bind_Some in H as (k1 & _ & H).
  apply bind_Some in H as (arr & _ & H).
  apply bind_Some in H as (k2 & _ & H).
  injection H as <- _. lia.
Qed.

Lemma change_sched_error_unchanged_witness :
  change_sched 0 2 0 50 kernel_init = Some (-2, kernel_init) /\
  forall c' lk,
    let held := set_proc_sched (set_sp_lock lk (proc_sched kernel_init))
                  kernel_init in
    change_sched c' 2 0 50 held = Some (-2, held).
Proof.
  split; [reflexivity|].
  apply (change_sched_error_unchanged 0 2 0 50 kernel_init (-2) kernel_init).
  - reflexivity.
  - left. reflexivity.
Defined.

Lemma change_sched_status_witness :
  change_sched 0 0 7 101 (state_after trace_sleeper)
    = Some (-3, state_after trace_sleeper) /\
  exists k', change_sched 0 1 7 101 (state_after trace_sleeper) = Some (0, k').
Proof.
  assert (Hwf : sched_wf (state_after trace_sleeper))
    by (apply sched_wfb_sound; vm_compute; reflexivity).
  destruct (change_sched_status 0 0 7 101 _ Hwf) as (_ & H3 & _).
  destruct (change_sched_status 0 1 7 101 _ Hwf) as (_ & _ & H0 & _).
  split.
  - apply H3; lia.
  - apply H0; lia.
Defined.

(** ** Time slices *)

(** The tick counter can take any value: [n] more ticks from a reachable
    state lead to a reachable state. *)
Lemma reachable_ticks n k :
  reachable k ->
  reachable (set_ticks (C.to_uint (ticks k + Z.of_nat (S n))) k).
Proof.
  intros Hr. induction n as [|n IH].
  - apply (reachable_step EvTick k); [exact Hr|reflexivity].
  - assert (Heq : set_ticks (C.to_uint (ticks k + Z.of_nat (S (S n)))) k
                  = set_ticks
                      (C.to_uint (C.to_uint (ticks k + Z.of_nat (S n)) + 1))
                      (set_ticks (C.to_uint (ticks k + Z.of_nat (S n))) k)).
    { unfold set_ticks. cbn [proc_table cpus proc_sched initproc nextpid].
      f_equal. unfold C.to_uint. rewrite Zplus_mod_idemp_l.
      f_equal. lia. }
    rewrite Heq.
    apply (reachable_step EvTick _ _ IH). reflexivity.
Qed.

(** The time slice [get] computes, in mathematical integers: the quotient
    of the ticks elapsed since [put_timestamp], counted modulo 2^32, by
    the heap size before the removal, converted to [int], and 1 in place
    of 0. *)
Lemma cfs_slice_value k pr :
  0 < heap_size (proc_sched k) <= Z.of_nat NPROC ->
  cfs_slice k pr
  = (let q := C.to_int ((ticks k - put_timestamp pr) mod C.UINT_MOD
                        / heap_size (proc_sched k)) in
     if q =? 0 then 1 else q).
Proof.
  intros Hn. unfold NPROC in Hn. unfold cfs_slice.
  rewrite to_uint_sub_to_uint. unfold C.sub, C.add.
  rewrite (to_int_small (heap_size (proc_sched k) - 1))
    by (unfold C.in_int, C.INT_HALF; lia).
  replace (heap_size (proc_sched k) - 1 + 1)
    with (heap_size (proc_sched k)) by lia.
  rewrite (to_int_small (heap_size (proc_sched k)))
    by (unfold C.in_int, C.INT_HALF; lia).
  rewrite (to_uint_small (heap_size (proc_sched k)))
    by (unfold C.UINT_MOD; lia).
  unfold C.to_uint. cbv zeta.
  destruct (C.to_int ((ticks k - put_timestamp pr) mod C.UINT_MOD
                      / heap_size (proc_sched k)) =? 0) eqn:E;
    [|reflexivity].
  apply Z.eqb_eq in E. rewrite E. reflexivity.
Qed.

(** C7, as the code has it.  Under algorithm 1, [get] on a nonempty heap
    returns the root process and sets its [timeslice] from the quotient
    of E by (heap_size + 1), where E is the number of ticks since
    [put_timestamp] counted modulo 2^32 and heap_size is the size after
    the removal: [timeslice] is max(1, E / (heap_size + 1)) when that
    quotient is below 2^31, and the quotient less 2^32, a negative
    number, otherwise. *)
Theorem get_cfs_timeslice c k r pr :
  sched_wf k -> algorithm (proc_sched k) = 1 ->
  0 < heap_size (proc_sched k) ->
  heap (proc_sched k) !! 0%nat = Some (Some r) ->
  proc_table k !! r = Some pr ->
  exists k' pr',
    get c k = Some (Some r, k') /\
    proc_table k' !! r = Some pr' /\
    heap_size (proc_sched k') = heap_size (proc_sched k) - 1 /\
    ((ticks k - put_timestamp pr) mod C.UINT_MOD
     / (heap_size (proc_sched k') + 1) < C.INT_HALF ->
     timeslice pr' =
       Z.max 1 ((ticks k - put_timestamp pr) mod C.UINT_MOD
                / (heap_size (proc_sched k') + 1))) /\
    (C.INT_HALF <= (ticks k - put_timestamp pr) mod C.UINT_MOD
                   / (heap_size (proc_sched k') + 1) ->
     timeslice pr' =
       (ticks k - put_timestamp pr) mod C.UINT_MOD
       / (heap_size (proc_sched k') + 1) - C.UINT_MOD).
Proof.
  intros Hwf Halg Hpos Hroot Hpr.
  destruct (get_dequeue c k r pr Hwf Hpos Hroot Hpr)
    as (k' & Hget & Hsz & _ & Htbl).
  rewrite Halg in Htbl. simpl in Htbl.
  exists k', (set_timeslice (cfs_slice k pr) (set_cpu_burst 0 pr)).
  split; [exact Hget|]. split.
  { rewrite Htbl. apply list_lookup_insert_eq. eapply lookup_lt_Some; eauto. }
  split; [exact Hsz|].
  destruct Hwf as (_ & Hlen & [Hn _]). rewrite Hlen in Hn.
  rewrite Hsz. replace (heap_size (proc_sched k) - 1 + 1)
    with (heap_size (proc_sched k)) by lia.
  cbn [timeslice set_timeslice].
  rewrite cfs_slice_value by lia. cbv zeta.
  set (q := (ticks k - put_timestamp pr) mod C.UINT_MOD
            / heap_size (proc_sched k)).
  assert (Hq : 0 <= q < C.UINT_MOD).
  { assert (Hm : 0 <= (ticks k - put_timestamp pr) mod C.UINT_MOD
                 < C.UINT_MOD)
      by (apply Z.mod_pos_bound; unfold C.UINT_MOD; lia).
    unfold q. split.
    - apply Z.div_pos; lia.
    - apply Z.div_lt_upper_bound; [lia|]. nia. }
  unfold C.INT_HALF, C.UINT_MOD in *. split.
  - intros Hlt.
    rewrite (to_int_small q) by (unfold C.in_int, C.INT_HALF; lia).
    destruct (Z.eqb_spec q 0) as [Hq0|Hq0]; lia.
  - intros Hge.
    assert (Hto : C.to_int q = q - 4294967296).
    { unfold C.to_int, C.INT_HALF, C.UINT_MOD.
      replace (q + 2147483648)
        with (q - 2147483648 + 1 * 4294967296) by lia.
      rewrite Z.mod_add by lia. rewrite Z.mod_small by lia. lia. }
    rewrite Hto.
    destruct (Z.eqb_spec (q - 4294967296) 0) as [Hq0|Hq0]; lia.
Qed.

Lemma get_cfs_timeslice_witness :
  exists k' pr',
    get 1 (state_after trace_cfs_queued) = Some (Some 1%nat, k') /\
    proc_table k' !! 1%nat = Some pr' /\
    heap_size (proc_sched k') = 0 /\
    timeslice pr' = 3.
Proof.
  assert (Ht : ticks (state_after trace_cfs_queued) = 3)
    by (vm_compute; reflexivity).
  assert (Hs : put_timestamp (proc_of (state_after trace_cfs_queued) 1) = 0)
    by (vm_compute; reflexivity).
  assert (Hn : heap_size (proc_sched (state_after trace_cfs_queued)) = 1)
    by (vm_compute; reflexivity).
  destruct (get_cfs_timeslice 1 (state_after trace_cfs_queued) 1
              (proc_of (state_after trace_cfs_queued) 1))
    as (k' & pr' & Hget & Hpr & Hsz & Hts & _).
  - apply sched_wfb_sound. vm_compute. reflexivity.
  - vm_compute. reflexivity.
  - rewrite Hn. lia.
  - vm_compute. reflexivity.
  - vm_compute. reflexivity.
  - exists k', pr'. split; [exact Hget|]. split; [exact Hpr|].
    rewrite Hsz, Hn, Ht, Hs in *.
    split; [reflexivity|]. apply Hts. vm_compute. reflexivity.
Defined.

(** C7, as stated, fails: process 1, queued at tick 0 and dequeued alone
    when the tick counter is 2^31, gets the time slice -2^31, where the
    formula in mathematical integers gives 2^31. *)
Lemma get_cfs_timeslice_wraps :
  ~ (forall k c r pr k' pr',
       reachable k -> algorithm (proc_sched k) = 1 ->
       proc_table k !! r = Some pr ->
       get c k = Some (Some r, k') -> proc_table k' !! r = Some pr' ->
       timeslice pr' =
         Z.max 1 ((ticks k - put_timestamp pr)
                  / (heap_size (proc_sched k') + 1))).
Proof.
  intros H.
  assert (Hr0 : reachable (state_after trace_cfs_queued))
    by (apply reachable_state_after; vm_compute; reflexivity).
  assert (Ht : ticks (state_after trace_cfs_queued) = 3)
    by (vm_compute; reflexivity).
  assert (Hr : reachable late_state).
  { assert (HN : exists N : nat, Z.of_nat (S N) = 2147483645)
      by (exists (Z.to_nat 2147483644); lia).
    destruct HN as [N HN].
    pose proof (reachable_ticks N _ Hr0) as Hr.
    rewrite HN, Ht in Hr.
    change (C.to_uint (3 + 2147483645)) with 2147483648 in Hr.
    exact Hr. }
  assert (Halg : algorithm (proc_sched late_state) = 1)
    by (vm_compute; reflexivity).
  assert (Hpr : proc_table late_state !! 1%nat
                = Some (proc_of late_state 1))
    by (vm_compute; reflexivity).
  assert (Hget : get 1 late_state = Some (Some 1%nat, after_get 1 late_state))
    by (vm_compute; reflexivity).
  assert (Hpr' : proc_table (after_get 1 late_state) !! 1%nat
                 = Some (proc_of (after_get 1 late_state) 1))
    by (vm_compute; reflexivity).
  specialize (H _ _ _ _ _ _ Hr Halg Hpr Hget Hpr').
  vm_compute in H. discriminate H.
Qed.




(** ** Invariants of the reachable states *)

Lemma boot_eq : userinit 0 kernel_init = Some boot.
Proof. vm_compute. reflexivity. Qed.

Lemma boot_policy_inv : policy_inv boot.
Proof.
  assert (Ha : algorithm (proc_sched boot) = 0) by (vm_compute; reflexivity).
  assert (Hp : is_preemptive (proc_sched boot) = 0)
    by (vm_compute; reflexivity).
  assert (Hs : a (proc_sched boot) = 50) by (vm_compute; reflexivity).
  unfold policy_inv. rewrite Ha, Hp, Hs. lia.
Qed.

Lemma boot_exe_time_inv : exe_time_inv boot.
Proof.
  assert (Hall : forallb (fun pr => exe_time pr =? 0) (proc_table boot) = true)
    by (vm_compute; reflexivity).
  intros h pr Hpr Hne. exfalso. apply Hne.
  rewrite forallb_forall in Hall. apply Z.eqb_eq, Hall.
  apply list_elem_of_In, list_elem_of_lookup. eauto.
Qed.

Lemma reachable_policy_inv k : reachable k -> policy_inv k.
Proof.
  induction 1 as [k Hk|ev k k' _ IH Hstep].
  - rewrite boot_eq in Hk. injection Hk as <-. apply boot_policy_inv.
  - eapply step_policy_inv; eauto.
Qed.

Lemma reachable_exe_time_inv k : reachable k -> exe_time_inv k.
Proof.
  induction 1 as [k Hk|ev k k' _ IH Hstep].
  - rewrite boot_eq in Hk. injection Hk as <-. apply boot_exe_time_inv.
  - eapply step_exe_time_inv; eauto.
Qed.

(** C6, as the code has it.  In every state the kernel reaches from boot,
    [algorithm] is 0 or 1, [is_preemptive] is not negative, and [a] is
    within 0..100 whenever [algorithm] is 0; every event, and every call of
    [change_sched] that returns 0, leads to such a state again. *)
Theorem policy_fields_invariant k :
  reachable k ->
  policy_inv k /\
  (forall ev k', step ev k = Some k' -> policy_inv k') /\
  (forall c algo ip a0 k',
     change_sched c algo ip a0 k = Some (0, k') -> policy_inv k').
Proof.
  intros Hr. pose proof (reachable_policy_inv k Hr) as Hinv.
  split; [exact Hinv|]. split.
  - intros ev k' Hstep. eapply step_policy_inv; eauto.
  - intros c algo ip a0 k' H. eapply change_sched_policy_inv; eauto.
Qed.

Lemma policy_fields_invariant_witness :
  reachable (state_after trace_loose_policy) /\
  policy_inv (state_after trace_loose_policy) /\
  a (proc_sched (state_after trace_loose_policy)) = 500.
Proof.
  assert (Hr : reachable (state_after trace_loose_policy)).
  { apply reachable_state_after.
    - vm_compute. reflexivity.
    - vm_compute. reflexivity. }
  split; [exact Hr|]. split.
  - apply (policy_fields_invariant _ Hr).
  - vm_compute. reflexivity.
Defined.

(** C6, as stated, fails: init, running on CPU 0 under the boot policy,
    calls [change_sched(1, 5, 500)]; the call returns 0 and leaves
    [is_preemptive] = 5 and [a] = 500. *)
Lemma policy_strict_not_preserved :
  ~ (forall k ev k',
       reachable k -> policy_strict k -> step ev k = Some k' ->
       policy_strict k').
Proof.
  intros H.
  assert (Hr : reachable (state_after trace_running)).
  { apply reachable_state_after.
    - vm_compute. reflexivity.
    - vm_compute. reflexivity. }
  assert (Hs : policy_strict (state_after trace_running)).
  { assert (Ha : algorithm (proc_sched (state_after trace_running)) = 0)
      by (vm_compute; reflexivity).
    assert (Hp : is_preemptive (proc_sched (state_after trace_running)) = 0)
      by (vm_compute; reflexivity).
    assert (Hv : a (proc_sched (state_after trace_running)) = 50)
      by (vm_compute; reflexivity).
    unfold policy_strict. rewrite Ha, Hp, Hv. lia. }
  assert (Hstep : step (EvChangeSched 0 1 5 500) (state_after trace_running)
                  = Some (state_after trace_loose_policy))
    by (vm_compute; reflexivity).
  destruct (H _ _ _ Hr Hs Hstep) as ([_ Ha] & _).
  assert (Hv : a (proc_sched (state_after trace_loose_policy)) = 500)
    by (vm_compute; reflexivity).
  rewrite Hv in Ha. lia.
Qed.

(** C9.  In every state the kernel reaches from boot, a process that is
    SLEEPING, ZOMBIE or freshly allocated (USED) has [exe_time] = 0, and so
    has every process that an event leaves in one of these states: the
    count is nonzero only between the [put] of [yield] and the second [put]
    the scheduler makes for the same process, while the process is
    RUNNABLE and its lock is held. *)
Theorem exe_time_zero_off_queue k :
  reachable k ->
  (forall h pr,
     proc_table k !! h = Some pr ->
     state pr = SLEEPING \/ state pr = ZOMBIE \/ state pr = USED ->
     exe_time pr = 0) /\
  (forall ev k' h pr',
     step ev k = Some k' -> proc_table k' !! h = Some pr' ->
     state pr' = SLEEPING \/ state pr' = ZOMBIE \/ state pr' = USED ->
     exe_time pr' = 0).
Proof.
  assert (Hoff : forall k0, exe_time_inv k0 -> forall h pr,
            proc_table k0 !! h = Some pr ->
            state pr = SLEEPING \/ state pr = ZOMBIE \/ state pr = USED ->
            exe_time pr = 0).
  { intros k0 Hinv h pr Hpr Hst.
    destruct (decide (exe_time pr = 0)) as [Hz|Hnz]; [exact Hz|].
    destruct (Hinv h pr Hpr Hnz) as [Hrun _].
    rewrite Hrun in Hst. destruct Hst as [?|[?|?]]; discriminate. }
  intros Hr. pose proof (reachable_exe_time_inv k Hr) as Hinv. split.
  - apply Hoff, Hinv.
  - intros ev k' h pr' Hstep. apply Hoff.
    eapply step_exe_time_inv; eauto.
Qed.

Lemma exe_time_zero_off_queue_witness :
  state (proc_of (state_after trace_yield_then_sleep) 0) = SLEEPING /\
  exe_time (proc_of (state_after trace_yield_then_sleep) 0) = 0.
Proof.
  assert (Hst : state (proc_of (state_after trace_yield_then_sleep) 0)
                = SLEEPING) by (vm_compute; reflexivity).
  split; [exact Hst|].
  assert (Hr : reachable (state_after trace_yield_then_sleep)).
  { apply reachable_state_after.
    - vm_compute. reflexivity.
    - vm_compute. reflexivity. }
  apply (proj1 (exe_time_zero_off_queue _ Hr) 0%nat).
  - vm_compute. reflexivity.
  - left. exact Hst.
Defined.

(** The window in which [exe_time] is nonzero is reached: after the
    [put] of [yield], before the scheduler's own [put]. *)
Example exe_time_nonzero_in_yield :
  reachable (state_after trace_mid_yield) /\
  state (proc_of (state_after trace_mid_yield) 0) = RUNNABLE /\
  exe_time (proc_of (state_after trace_mid_yield) 0) = 1 /\
  lock (proc_of (state_after trace_mid_yield) 0) = Some 0%nat.
Proof.
  split.
  - apply reachable_state_after.
    + vm_compute. reflexivity.
    + vm_compute. reflexivity.
  - vm_compute. repeat split; reflexivity.
Qed.
(** ** The heap routines on failing inputs *)

(** C1.  Under algorithm 1 (CFS) [heapify_down_i] compares the right child
    on [cpu_burst_aprox], not on [exe_time].  With [exe_time] 5 at the
    root, 6 at the left child and 1 at the right child (all estimates 0)
    the root is left in place although the right child's key is smaller;
    with [exe_time] 1, 2, 3 (a heap) and estimates 9, 0, 2 the root is
    swapped with the right child, whose key is larger. *)
Theorem heapify_down_i_right_child_key :
  let t1 := table_of [runnable_proc 0 5; runnable_proc 0 6;
                      runnable_proc 0 1] in
  let t2 := table_of [runnable_proc 9 1; runnable_proc 0 2;
                      runnable_proc 2 3] in
  let arr := heap_of [0; 1; 2]%nat in
  heapify_down_i t1 arr 3 0 1 = Some arr /\
  min_heapb t1 arr 3 1 = false /\
  min_heapb t1 (heap_of [2; 1; 0]%nat) 3 1 = true /\
  min_heapb t2 arr 3 1 = true /\
  heapify_down_i t2 arr 3 0 1 = Some (heap_of [2; 1; 0]%nat) /\
  min_heapb t2 (heap_of [2; 1; 0]%nat) 3 1 = false.
Proof. vm_compute. repeat split; reflexivity. Qed.

(** C3.  [heapify_up] starts from the parent index [curr / 2]: entry 4 is
    first compared with entry 2 instead of its parent, entry 1.  Four
    queued processes with estimates 1, 10, 2, 11 are a heap under
    algorithm 0; [put] of a process whose estimate becomes 5 leaves it at
    index 4 below the entry with estimate 10. *)
Theorem put_breaks_heap_at_even_index :
  let k := kernel_of [runnable_proc 1 0; runnable_proc 10 0;
                      runnable_proc 2 0; runnable_proc 11 0;
                      mkproc None SLEEPING 7 0 0 5 None CtxSleep 5 5 0 0 0]
             [0; 1; 2; 3]%nat 0 in
  min_heapb (proc_table k) (heap (proc_sched k)) 4 0 = true /\
  exists k',
    put 0 (Some 4%nat) k = Some k' /\
    heap_size (proc_sched k') = 5 /\
    heap (proc_sched k') = heap_of [0; 1; 2; 3; 4]%nat /\
    (cpu_burst_aprox <$> proc_table k' !! 4%nat) = Some 5 /\
    (cpu_burst_aprox <$> proc_table k' !! 1%nat) = Some 10 /\
    min_heapb (proc_table k') (heap (proc_sched k')) 5 0 = false.
Proof.
  intros k. split; [reflexivity|].
  eexists. split; [vm_compute; reflexivity|].
  vm_compute. repeat split; reflexivity.
Qed.

(** C5.  [change_sched] can return 0 and leave a heap that is not a
    min-heap under the new key.  Switching to algorithm 1 with [exe_time]
    5, 6, 1 nothing moves (the right child is compared on the estimate);
    switching to algorithm 0 with estimates 5, 4, 1 the root is swapped
    with the left child and 4 ends above 1. *)
Theorem change_sched_leaves_no_heap :
  let k1 := kernel_of [runnable_proc 0 5; runnable_proc 0 6;
                       runnable_proc 0 1] [0; 1; 2]%nat 0 in
  let k2 := kernel_of [runnable_proc 5 0; runnable_proc 4 0;
                       runnable_proc 1 0] [0; 1; 2]%nat 1 in
  (exists k',
     change_sched 0 1 0 50 k1 = Some (0, k') /\
     algorithm (proc_sched k') = 1 /\
     heap (proc_sched k') = heap_of [0; 1; 2]%nat /\
     min_heapb (proc_table k') (heap (proc_sched k'))
       (heap_size (proc_sched k')) 1 = false) /\
  (min_heapb (proc_table k2) (heap (proc_sched k2)) 3 1 = true /\
   exists k',
     change_sched 0 0 0 50 k2 = Some (0, k') /\
     algorithm (proc_sched k') = 0 /\
     heap (proc_sched k') = heap_of [1; 0; 2]%nat /\
     min_heapb (proc_table k') (heap (proc_sched k'))
       (heap_size (proc_sched k')) 0 = false).
Proof.
  intros k1 k2. split; [|split; [reflexivity|]].
  - eexists. split; [vm_compute; reflexivity|].
    vm_compute. repeat split; reflexivity.
  - eexists. split; [vm_compute; reflexivity|].
    vm_compute. repeat split; reflexivity.
Qed.


(** C2.  [put] decides whether to update the estimate on the state of the
    first entry of the process table, not on the state of [p].  Process 1
    sleeps after a burst of 10 ticks with estimate 0 and [a] = 50, while
    init (entry 0) is RUNNING on another CPU: [put] leaves the estimate 0,
    where the smoothing law gives 5.  With entry 0 not RUNNING the same
    call gives 5. *)
Theorem put_estimate_follows_table_head :
  let k := state_after trace_sleeper in
  userinit 0 kernel_init = Some boot /\
  run trace_sleeper boot = Some k /\
  (state <$> proc_table k !! 0%nat) = Some RUNNING /\
  (state <$> proc_table k !! 1%nat) = Some SLEEPING /\
  (cpu_burst <$> proc_table k !! 1%nat) = Some 10 /\
  (cpu_burst_aprox <$> proc_table k !! 1%nat) = Some 0 /\
  a (proc_sched k) = 50 /\
  (50 * 10 + (100 - 50) * 0) / 100 = 5 /\
  (exists k', put 0 (Some 1%nat) k = Some k' /\
     (state <$> proc_table k' !! 1%nat) = Some RUNNABLE /\
     (cpu_burst_aprox <$> proc_table k' !! 1%nat) = Some 0) /\
  (exists k', put 0 (Some 1%nat)
                (store 0 (set_state SLEEPING (proc_of k 0)) k) = Some k' /\
     (cpu_burst_aprox <$> proc_table k' !! 1%nat) = Some 5).
Proof.
  intros k. unfold k. repeat (split; [vm_compute; reflexivity|]). split.
  - exists (default kernel_init
              (put 0 (Some 1%nat) (state_after trace_sleeper))).
    repeat (split; [vm_compute; reflexivity|]). vm_compute. reflexivity.
  - eexists. split; [vm_compute; reflexivity|].
    vm_compute. reflexivity.
Qed.

(** ** The heap routines permute the queue *)

Lemma insert_Permutation_cons {A} (l : list A) i x y :
  l !! i = Some x -> y :: l ≡ₚ x :: <[i := y]> l.
Proof.
  intros Hi.
  assert (Hlt : (i < length l)%nat) by (eapply lookup_lt_Some; eauto).
  rewrite (delete_Permutation l i x Hi) at 1.
  rewrite (delete_Permutation (<[i := y]> l) i y)
    by (apply list_lookup_insert_eq, Hlt).
  rewrite !delete_take_drop.
  rewrite take_insert_ge by lia. rewrite drop_insert_lt by lia.
  apply perm_swap.
Qed.

Lemma swap_inv (arr arr' : list (option nat)) i j :
  swap arr i j = Some arr' ->
  exists x y,
    0 <= i /\ 0 <= j /\
    arr !! Z.to_nat i = Some x /\ arr !! Z.to_nat j = Some y /\
    arr' = <[Z.to_nat j := x]> (<[Z.to_nat i := y]> arr).
Proof.
  unfold swap. intros H.
  apply bind_Some in H as (x & Hx & H).
  apply bind_Some in H as (y & Hy & H).
  apply bind_Some in H as (arr1 & H1 & H).
  unfold arr_get in Hx, Hy. unfold arr_set in H1, H.
  destruct (Z.ltb_spec i 0); [discriminate|].
  destruct (Z.ltb_spec j 0); [discriminate|].
  destruct ((0 <=? i) && (i <? Z.of_nat (length arr))); [|discriminate].
  injection H1 as <-.
  destruct ((0 <=? j) &&
            (j <? Z.of_nat (length (<[Z.to_nat i:=y]> arr)))); [|discriminate].
  injection H as <-. exists x, y. auto.
Qed.

Lemma swap_length (arr arr' : list (option nat)) i j :
  swap arr i j = Some arr' -> length arr' = length arr.
Proof.
  intros H. apply swap_inv in H as (x & y & _ & _ & _ & _ & ->).
  rewrite !length_insert. reflexivity.
Qed.

Lemma swap_queue (arr arr' : list (option nat)) i j n :
  swap arr i j = Some arr' -> i < n -> j < n ->
  take (Z.to_nat n) arr' ≡ₚ take (Z.to_nat n) arr /\
  drop (Z.to_nat n) arr' = drop (Z.to_nat n) arr.
Proof.
  intros H Hi Hj. apply swap_inv in H as (x & y & Hi0 & Hj0 & Hx & Hy & ->).
  split.
  - rewrite !take_insert_lt by lia.
    set (l := take (Z.to_nat n) arr).
    assert (Hlx : l !! Z.to_nat i = Some x)
      by (unfold l; rewrite lookup_take_lt by lia; exact Hx).
    assert (Hly : l !! Z.to_nat j = Some y)
      by (unfold l; rewrite lookup_take_lt by lia; exact Hy).
    assert (Hl1 : <[Z.to_nat i := y]> l !! Z.to_nat j = Some y).
    { destruct (decide (Z.to_nat i = Z.to_nat j)) as [<-|Hne].
      - apply list_lookup_insert_eq. eapply lookup_lt_Some; eauto.
      - rewrite list_lookup_insert_ne by exact Hne. exact Hly. }
    apply (Permutation_cons_inv (a := y)).
    rewrite (insert_Permutation_cons l (Z.to_nat i) x y Hlx).
    rewrite <- (insert_Permutation_cons _ (Z.to_nat j) y x Hl1).
    reflexivity.
  - rewrite !drop_insert_lt by lia. reflexivity.
Qed.

Lemma down_cond_true a child n x y :
  C.or (C.and a (C.and (child <? n) x))
       (C.and (negb a) (C.and (child <? n) y)) = Some true ->
  child < n.
Proof.
  destruct (Z.ltb_spec child n); [lia|].
  destruct a; simpl; discriminate.
Qed.

Section HeapPerm.

Variable tbl : list proc.

Lemma heapify_down_loop_queue fuel arr n algo curr arr' :
  heapify_down_loop tbl fuel arr n algo curr = Some arr' -> 0 <= curr ->
  take (Z.to_nat n) arr' ≡ₚ take (Z.to_nat n) arr /\
  drop (Z.to_nat n) arr' = drop (Z.to_nat n) arr /\
  length arr' = length arr.
Proof.
  revert arr curr. induction fuel as [|fuel IH]; intros arr curr H Hc;
    [discriminate|].
  simpl in H.
  apply bind_Some in H as (c1 & Hc1 & H). destruct c1.
  - apply down_cond_true in Hc1.
    apply bind_Some in H as (arr1 & Hsw & H).
    destruct (swap_queue _ _ _ _ n Hsw) as [Hp Hd]; [lia..|].
    apply swap_length in Hsw.
    destruct (IH _ _ H) as (Hp' & Hd' & Hl'); [lia|].
    split; [rewrite Hp'; exact Hp|]. split; congruence.
  - apply bind_Some in H as (c2 & Hc2 & H). destruct c2.
    + apply down_cond_true in Hc2.
      apply bind_Some in H as (arr1 & Hsw & H).
      destruct (swap_queue _ _ _ _ n Hsw) as [Hp Hd]; [lia..|].
      apply swap_length in Hsw.
      destruct (IH _ _ H) as (Hp' & Hd' & Hl'); [lia|].
      split; [rewrite Hp'; exact Hp|]. split; congruence.
    + injection H as <-. auto.
Qed.

Lemma heapify_down_i_queue arr n i algo arr' :
  heapify_down_i tbl arr n i algo = Some arr' -> 0 <= i ->
  take (Z.to_nat n) arr' ≡ₚ take (Z.to_nat n) arr /\
  drop (Z.to_nat n) arr' = drop (Z.to_nat n) arr /\
  length arr' = length arr.
Proof.
  unfold heapify_down_i. intros H Hi. destruct (n =? 1).
  - injection H as <-. auto.
  - eapply heapify_down_loop_queue; eauto.
Qed.

Lemma rearrange_loop_queue cnt arr n algo i arr' :
  rearrange_loop tbl cnt arr n algo i = Some arr' ->
  take (Z.to_nat n) arr' ≡ₚ take (Z.to_nat n) arr /\
  drop (Z.to_nat n) arr' = drop (Z.to_nat n) arr /\
  length arr' = length arr.
Proof.
  revert arr i. induction cnt as [|cnt IH]; intros arr i H; simpl in H.
  - injection H as <-. auto.
  - destruct (Z.geb_spec i 0).
    + apply bind_Some in H as (arr1 & H1 & H).
      apply heapify_down_i_queue in H1 as (Hp & Hd & Hl); [|lia].
      destruct (IH _ _ H) as (Hp' & Hd' & Hl').
      split; [rewrite Hp'; exact Hp|]. split; congruence.
    + injection H as <-. auto.
Qed.

Lemma heapify_up_loop_queue fuel arr n algo curr parent arr' :
  heapify_up_loop tbl fuel arr algo curr parent = Some arr' ->
  0 <= parent <= curr -> curr < n ->
  take (Z.to_nat n) arr' ≡ₚ take (Z.to_nat n) arr /\
  drop (Z.to_nat n) arr' = drop (Z.to_nat n) arr /\
  length arr' = length arr.
Proof.
  revert arr curr parent.
  induction fuel as [|fuel IH]; intros arr curr parent H Hp Hc;
    [discriminate|].
  simpl in H.
  apply bind_Some in H as (c & _ & H). destruct c.
  - apply bind_Some in H as (arr1 & Hsw & H).
    destruct (swap_queue _ _ _ _ n Hsw) as [Hq Hd]; [lia..|].
    apply swap_length in Hsw.
    destruct (Z.eqb_spec parent 0).
    + injection H as <-. auto.
    + destruct (IH _ _ _ H) as (Hq' & Hd' & Hl').
      * split; [apply Z.quot_pos; lia|].
        apply Z.quot_le_upper_bound; lia.
      * lia.
      * split; [rewrite Hq'; exact Hq|]. split; congruence.
  - injection H as <-. auto.
Qed.

Lemma heapify_up_queue arr n algo arr' :
  heapify_up tbl arr n algo = Some arr' -> 1 <= n ->
  take (Z.to_nat n) arr' ≡ₚ take (Z.to_nat n) arr /\
  drop (Z.to_nat n) arr' = drop (Z.to_nat n) arr /\
  length arr' = length arr.
Proof.
  unfold heapify_up. intros H Hn. destruct (n =? 1).
  - injection H as <-. auto.
  - eapply heapify_up_loop_queue; [exact H| |lia].
    split; [apply Z.quot_pos; lia|].
    apply Z.quot_le_upper_bound; lia.
Qed.

Lemma lt_at_total arr n f i j :
  heap_ok tbl arr n -> 0 <= i < n -> 0 <= j < n ->
  is_Some (lt_at tbl arr f i j).
Proof.
  intros Hok Hi Hj. unfold lt_at.
  destruct (field_at_total tbl arr n f i Hok Hi) as [x ->].
  destruct (field_at_total tbl arr n f j Hok Hj) as [y ->].
  simpl. eauto.
Qed.

Lemma heapify_up_loop_total fuel arr n algo curr parent :
  heap_ok tbl arr n -> 0 <= parent <= curr -> curr < n ->
  (Z.to_nat parent < fuel)%nat ->
  exists arr', heapify_up_loop tbl fuel arr algo curr parent = Some arr' /\
               heap_ok tbl arr' n.
Proof.
  revert arr curr parent.
  induction fuel as [|fuel IH]; intros arr curr parent Hok Hp Hc Hfuel;
    [lia|].
  simpl.
  destruct (lt_at_total arr n cpu_burst_aprox curr parent Hok) as [x Hx];
    [lia..|].
  destruct (lt_at_total arr n exe_time curr parent Hok) as [y Hy]; [lia..|].
  rewrite Hx, Hy.
  assert (Hcond : exists b,
            C.or (C.and (algo =? 0) (Some x))
                 (C.and (negb (algo =? 0)) (Some y)) = Some b).
  { destruct (algo =? 0); simpl; [destruct x|]; eauto. }
  destruct Hcond as [b ->]. simpl. destruct b.
  - destruct (swap_total tbl arr n curr parent Hok)
      as (arr1 & -> & Hok1 & _); [lia..|].
    simpl. destruct (Z.eqb_spec parent 0).
    + eauto.
    + apply IH; [exact Hok1| |lia|].
      * split; [apply Z.quot_pos; lia|].
        apply Z.quot_le_upper_bound; lia.
      * assert (Z.quot (parent - 1) 2 < parent)
          by (apply Z.quot_lt_upper_bound; lia).
        assert (0 <= Z.quot (parent - 1) 2) by (apply Z.quot_pos; lia).
        lia.
  - eauto.
Qed.

Lemma heapify_up_total arr n algo :
  heap_ok tbl arr n -> 1 <= n ->
  exists arr', heapify_up tbl arr n algo = Some arr' /\ heap_ok tbl arr' n.
Proof.
  intros Hok Hn. unfold heapify_up. destruct (Z.eqb_spec n 1).
  - eauto.
  - assert (0 <= Z.quot (n - 1) 2) by (apply Z.quot_pos; lia).
    assert (Z.quot (n - 1) 2 <= n - 1)
      by (apply Z.quot_le_upper_bound; lia).
    apply heapify_up_loop_total; [exact Hok|lia|lia|lia].
Qed.

End HeapPerm.

(** ** put and get on the queue *)

Lemma heap_ok_Forall tbl arr n :
  heap_ok tbl arr n <->
  0 <= n <= Z.of_nat (length arr) /\
  Forall (fun p => valid_handle tbl p = true) (take (Z.to_nat n) arr).
Proof.
  unfold heap_ok. split; intros [Hn H]; (split; [exact Hn|]).
  - apply Forall_lookup. intros i p Hp.
    apply lookup_take_Some in Hp as [Hp Hi].
    destruct (H (Z.of_nat i)) as (h & Hh & Hlt); [lia|].
    rewrite Nat2Z.id in Hh. assert (p = Some h) by congruence. subst p.
    simpl. apply Nat.ltb_lt, Hlt.
  - intros i Hi. rewrite Forall_lookup in H.
    destruct (lookup_lt_is_Some_2 arr (Z.to_nat i)) as [p Hp]; [lia|].
    assert (Hv : valid_handle tbl p = true).
    { apply (H (Z.to_nat i)). rewrite lookup_take_lt by lia. exact Hp. }
    destruct p as [h|]; [|discriminate].
    exists h. split; [exact Hp|]. apply Nat.ltb_lt, Hv.
Qed.

Lemma valid_handle_length tbl tbl' p :
  length tbl' = length tbl -> valid_handle tbl' p = valid_handle tbl p.
Proof. intros H. destruct p; simpl; [rewrite H|]; reflexivity. Qed.

Lemma heap_ok_perm tbl tbl' arr arr' n :
  heap_ok tbl arr n -> length tbl' = length tbl ->
  length arr' = length arr ->
  take (Z.to_nat n) arr' ≡ₚ take (Z.to_nat n) arr ->
  heap_ok tbl' arr' n.
Proof.
  rewrite !heap_ok_Forall. intros [Hn H] Ht Hl Hp.
  split; [lia|]. rewrite Hp.
  eapply Forall_impl; [exact H|]. intros p Hv. simpl in Hv.
  rewrite (valid_handle_length _ _ _ Ht). exact Hv.
Qed.

(** What a successful [put] does to the scheduler record. *)
Lemma put_heap c h k k' :
  put c (Some h) k = Some k' ->
  length (heap (proc_sched k)) = NPROC ->
  sp_lock (proc_sched k) = None /\ sp_lock (proc_sched k') = None /\
  0 <= heap_size (proc_sched k) < Z.of_nat NPROC /\
  heap_size (proc_sched k') = heap_size (proc_sched k) + 1 /\
  length (heap (proc_sched k')) = NPROC /\
  queue k' ≡ₚ queue k ++ [Some h] /\
  drop (Z.to_nat (heap_size (proc_sched k'))) (heap (proc_sched k'))
  = drop (Z.to_nat (heap_size (proc_sched k'))) (heap (proc_sched k)).
Proof.
  unfold put. intros H Hlen.
  apply bind_Some in H as (pr0 & Hpr0 & H).
  apply bind_Some in H as (k1 & Hk1 & H).
  apply bind_Some in H as (k2 & Hk2 & H).
  apply bind_Some in H as (head & Hhead & H).
  apply bind_Some in H as (pr & Hpr & H).
  apply bind_Some in H as (pra & Hpra & H).
  apply bind_Some in H as (arr1 & Harr1 & H).
  apply bind_Some in H as (arr2 & Harr2 & H).
  apply bind_Some in H as (k3 & Hk3 & H).
  assert (Hs1 : proc_sched k1 = proc_sched k).
  { destruct (holding c (lock pr0)).
    - injection Hk1 as <-. reflexivity.
    - apply acquire_proc_spec in Hk1 as (? & _ & _ & ->). reflexivity. }
  apply acquire_sched_spec in Hk2 as [Hfree ->].
  apply release_sched_spec in Hk3 as ->.
  rewrite Hs1 in *.
  cbn [proc_sched set_proc_sched set_sp_lock heap heap_size algorithm
       store set_proc_table set_heap set_heap_size sp_lock] in *.
  assert (Hs' : proc_sched k'
                = set_sp_lock None
                    (set_heap_size (C.add (heap_size (proc_sched k)) 1)
                       (set_heap arr2 (set_sp_lock (Some c) (proc_sched k))))).
  { destruct (holding c (lock pr0)).
    - injection H as <-. reflexivity.
    - apply release_proc_spec in H as (? & _ & _ & ->). reflexivity. }
  clear H.
  unfold arr_set in Harr1.
  destruct (Z.leb_spec 0 (heap_size (proc_sched k))); [|discriminate].
  destruct (Z.ltb_spec (heap_size (proc_sched k))
              (Z.of_nat (length (heap (proc_sched k))))); [|discriminate].
  simpl in Harr1. injection Harr1 as <-.
  rewrite Hlen in *. unfold NPROC in *.
  assert (Hadd : C.add (heap_size (proc_sched k)) 1
                 = heap_size (proc_sched k) + 1).
  { apply to_int_small. unfold C.in_int, C.INT_HALF. lia. }
  rewrite Hadd in *.
  apply heapify_up_queue in Harr2 as (Hq & Hd & Hl); [|lia].
  unfold queue. rewrite Hs'. simpl.
  rewrite length_insert in Hl.
  split; [exact Hfree|]. split; [reflexivity|]. split; [lia|].
  split; [reflexivity|]. split; [congruence|]. split.
  - rewrite Hq.
    replace (Z.to_nat (heap_size (proc_sched k) + 1))
      with (S (Z.to_nat (heap_size (proc_sched k)))) by lia.
    erewrite take_S_r by (apply list_lookup_insert_eq; lia).
    rewrite take_insert_ge by lia. reflexivity.
  - rewrite Hd. apply drop_insert_lt. lia.
Qed.

Lemma put_table_length c p k k' :
  put c p k = Some k' -> length (proc_table k') = length (proc_table k).
Proof.
  destruct p as [h|].
  - intros H. apply put_spec in H as (pr & pr' & _ & _ & -> & _).
    apply length_insert.
  - simpl. intros H. injection H as <-. reflexivity.
Qed.

Lemma put_sched_wf c p k k' :
  sched_wf k -> put c p k = Some k' -> sched_wf k'.
Proof.
  destruct p as [h|]; [|simpl; intros ? H; injection H as <-; assumption].
  intros (Hlk & Hlen & Hok) H.
  pose proof (put_table_length _ _ _ _ H) as Ht.
  pose proof H as H'. apply put_spec in H' as (pr & _ & Hpr & _).
  apply put_heap in H as (_ & Hlk' & Hn & Hsz & Hlen' & Hq & _);
    [|exact Hlen].
  split; [exact Hlk'|]. split; [exact Hlen'|].
  apply heap_ok_Forall. split; [rewrite Hlen'; lia|].
  fold (queue k'). rewrite Hq. apply Forall_app. split.
  - apply heap_ok_Forall in Hok as [_ Hok].
    eapply Forall_impl; [exact Hok|]. intros p Hv. simpl in Hv.
    rewrite (valid_handle_length _ _ _ Ht). exact Hv.
  - apply Forall_singleton. simpl. apply Nat.ltb_lt. rewrite Ht.
    eapply lookup_lt_Some; eauto.
Qed.

Lemma set_sp_lock_id sp : set_sp_lock (sp_lock sp) sp = sp.
Proof. destruct sp. reflexivity. Qed.

Lemma set_proc_sched_id k : set_proc_sched (proc_sched k) k = k.
Proof. destruct k. reflexivity. Qed.

Lemma get_empty_inv c k r k' :
  get c k = Some (r, k') -> heap_size (proc_sched k) = 0 ->
  r = None /\ k' = k.
Proof.
  unfold get. intros H Hz.
  apply bind_Some in H as (k1 & Hk1 & H).
  apply acquire_sched_spec in Hk1 as [Hfree ->].
  cbn [proc_sched set_proc_sched set_sp_lock heap_size] in H.
  rewrite Hz in H. simpl in H.
  apply bind_Some in H as (k2 & Hk2 & H).
  apply release_sched_spec in Hk2 as ->. injection H as <- <-.
  split; [reflexivity|]. destruct k as [t cs sp ip np tk].
  destruct sp. simpl in *. subst. reflexivity.
Qed.

(** What a successful [get] on a nonempty heap does to the scheduler
    record and to the dequeued process. *)
Lemma get_heap c k r k' :
  get c k = Some (r, k') -> sched_wf k ->
  heap_size (proc_sched k) <> 0 ->
  exists h pr,
    r = Some h /\ heap (proc_sched k) !! 0%nat = Some (Some h) /\
    proc_table k !! h = Some pr /\
    sp_lock (proc_sched k') = None /\
    heap_size (proc_sched k') = heap_size (proc_sched k) - 1 /\
    length (heap (proc_sched k')) = NPROC /\
    Some h :: queue k' ≡ₚ queue k /\
    proc_table k' =
      <[h := if algorithm (proc_sched k) =? 1
             then set_timeslice (cfs_slice k pr) (set_cpu_burst 0 pr)
             else set_cpu_burst 0 pr]> (proc_table k).
Proof.
  intros H (Hlk & Hlen & Hok) Hnz.
  assert (Hpos : 0 < heap_size (proc_sched k)) by (destruct Hok; lia).
  destruct (heap_ok_entry _ _ _ 0 Hok) as (h & pr & Hroot & Hpr); [lia|].
  rewrite arr_get_lookup in Hroot by lia. change (Z.to_nat 0) with 0%nat in Hroot.
  destruct (get_dequeue c k h pr (conj Hlk (conj Hlen Hok)) Hpos Hroot Hpr)
    as (k'' & Hget & Hsz & _ & Htbl).
  rewrite Hget in H. injection H as <- <-.
  exists h, pr. split; [reflexivity|]. split; [exact Hroot|].
  split; [exact Hpr|].
  (* the heap of the result, read off the code *)
  unfold get in Hget.
  apply bind_Some in Hget as (k1 & Hk1 & H).
  apply acquire_sched_spec in Hk1 as [_ ->].
  cbn [proc_sched set_proc_sched set_sp_lock heap heap_size algorithm
       proc_table ticks] in H.
  destruct (Z.eqb_spec (heap_size (proc_sched k)) 0); [lia|].
  apply bind_Some in H as (ret & Hret & H).
  apply bind_Some in H as (h' & _ & H).
  apply bind_Some in H as (pr1 & _ & H).
  apply bind_Some in H as (last & Hlast & H).
  apply bind_Some in H as (arr1 & Harr1 & H).
  apply bind_Some in H as (arr2 & Harr2 & H).
  apply bind_Some in H as (arr3 & Harr3 & H).
  apply bind_Some in H as (k2 & Hk2 & H).
  apply bind_Some in H as (k3 & Hk3 & H).
  apply release_sched_spec in Hk3 as ->. injection H as _ <-.
  assert (Hs2 : proc_sched k2
                = set_heap_size (C.sub (heap_size (proc_sched k)) 1)
                    (set_heap arr3 (set_sp_lock (Some c) (proc_sched k)))).
  { destruct (algorithm (proc_sched k) =? 1).
    - apply bind_Some in Hk2 as (? & _ & Hk2).
      apply bind_Some in Hk2 as (? & _ & Hk2). injection Hk2 as <-.
      reflexivity.
    - injection Hk2 as <-. reflexivity. }
  assert (Hsz64 : heap_size (proc_sched k) <= 64).
  { destruct Hok as [Hn _]. rewrite Hlen in Hn. unfold NPROC in Hn. lia. }
  assert (Hsub : C.sub (heap_size (proc_sched k)) 1
                 = heap_size (proc_sched k) - 1).
  { apply to_int_small. unfold C.in_int, C.INT_HALF. lia. }
  rewrite Hsub in *.
  rewrite arr_get_lookup in Hlast by lia.
  unfold arr_set in Harr1, Harr2.
  destruct ((0 <=? 0) && (0 <? Z.of_nat (length (heap (proc_sched k)))));
    [|discriminate].
  injection Harr1 as <-.
  destruct ((0 <=? heap_size (proc_sched k) - 1) && _); [|discriminate].
  injection Harr2 as <-.
  apply heapify_down_i_queue in Harr3 as (Hq & _ & Hl); [|lia].
  rewrite !length_insert in Hl.
  unfold queue. simpl. rewrite Hs2. simpl.
  split; [reflexivity|]. split; [reflexivity|].
  split; [rewrite Hl; exact Hlen|].
  split; [|exact Htbl].
  rewrite Hq. rewrite take_insert_ge by lia.
  set (m := Z.to_nat (heap_size (proc_sched k) - 1)) in *.
  replace (Z.to_nat (heap_size (proc_sched k))) with (S m) by lia.
  rewrite (take_S_r _ m last) by exact Hlast.
  change (Z.to_nat 0) with 0%nat.
  destruct m as [|m'] eqn:Hm.
  - simpl. assert (last = Some h) by congruence. subst last. reflexivity.
  - rewrite take_insert_lt by lia.
    rewrite <- (insert_Permutation_cons _ 0 (Some h) last)
      by (rewrite lookup_take_lt by lia; exact Hroot).
    rewrite <- Permutation_cons_append. reflexivity.
Qed.

Lemma get_sched_wf c k r k' :
  sched_wf k -> get c k = Some (r, k') -> sched_wf k'.
Proof.
  intros Hwf H.
  destruct (Z.eq_dec (heap_size (proc_sched k)) 0) as [Hz|Hnz].
  - apply get_empty_inv in H as [_ ->]; assumption.
  - destruct (get_heap _ _ _ _ H Hwf Hnz)
      as (h & pr & _ & _ & Hpr & Hlk & Hsz & Hlen & Hq & Htbl).
    destruct Hwf as (_ & Hlen0 & Hok).
    split; [exact Hlk|]. split; [exact Hlen|].
    apply heap_ok_Forall in Hok as [Hn Hall].
    apply heap_ok_Forall. split; [lia|].
    fold (queue k'). fold (queue k) in Hall. rewrite <- Hq in Hall.
    apply Forall_cons in Hall as [_ Hall].
    eapply Forall_impl; [exact Hall|]. intros p Hv. simpl in Hv.
    rewrite <- Hv. apply valid_handle_length.
    rewrite Htbl. apply length_insert.
Qed.

Lemma change_sched_inv c algo ip a0 k k' :
  change_sched c algo ip a0 k = Some (0, k') ->
  exists arr,
    rearrange_heap (proc_table k) (heap (proc_sched k))
      (heap_size (proc_sched k)) algo = Some arr /\
    sp_lock (proc_sched k) = None /\
    k' = set_proc_sched
           (mksched None arr (heap_size (proc_sched k)) algo ip a0) k.
Proof.
  unfold change_sched. intros H.
  destruct ((algo <? 0) || (algo >? 1) || (ip <? 0)); [discriminate|].
  destruct ((algo =? 0) && ((a0 <? 0) || (a0 >? 100))); [discriminate|].
  apply bind_Some in H as (k1 & Hk1 & H).
  apply bind_Some in H as (arr & Harr & H).
  apply bind_Some in H as (k2 & Hk2 & H). injection H as <-.
  apply acquire_sched_spec in Hk1 as [Hfree ->].
  apply release_sched_spec in Hk2 as ->.
  exists arr. split; [exact Harr|]. split; [exact Hfree|]. reflexivity.
Qed.

Lemma change_sched_sched_wf c algo ip a0 k r k' :
  sched_wf k -> change_sched c algo ip a0 k = Some (r, k') -> sched_wf k'.
Proof.
  intros Hwf H.
  destruct (Z.eq_dec r 0) as [->|Hr].
  - apply change_sched_inv in H as (arr & Harr & _ & ->).
    destruct Hwf as (_ & Hlen & Hok).
    apply rearrange_loop_queue in Harr as (Hq & _ & Hl).
    split; [reflexivity|]. split; [simpl; congruence|]. simpl.
    eapply heap_ok_perm; eauto.
  - unfold change_sched in H.
    destruct ((algo <? 0) || (algo >? 1) || (ip <? 0)).
    { injection H as _ <-. exact Hwf. }
    destruct ((algo =? 0) && ((a0 <? 0) || (a0 >? 100))).
    { injection H as _ <-. exact Hwf. }
    apply bind_Some in H as (k1 & _ & H).
    apply bind_Some in H as (arr & _ & H).
    apply bind_Some in H as (k2 & _ & H). injection H as <- _. lia.
Qed.

(** ** The scheduler record stays well-formed *)

Create HintDb wf discriminated.

Ltac unbind H :=
  repeat (lazymatch type of H with
          | _ ≫= _ = Some _ => apply bind_Some in H as (? & ? & H)
          | _ <$> _ = Some _ => apply fmap_Some in H as (? & H & ?)
          | match ?x with _ => _ end = Some _ => destruct x eqn:?
          end);
  try discriminate H.

Lemma sched_wf_ext k k' :
  proc_sched k' = proc_sched k ->
  length (proc_table k') = length (proc_table k) ->
  sched_wf k -> sched_wf k'.
Proof.
  unfold sched_wf. intros -> Hl (Hlk & Hlen & Hok).
  split; [exact Hlk|]. split; [exact Hlen|].
  eapply heap_ok_perm; eauto.
Qed.

Lemma sched_wf_store h pr k : sched_wf k -> sched_wf (store h pr k).
Proof. apply sched_wf_ext; [reflexivity|]. apply length_insert. Qed.

Lemma sched_wf_set_cpu c cp k : sched_wf k -> sched_wf (set_cpu c cp k).
Proof. apply sched_wf_ext; reflexivity. Qed.

Lemma sched_wf_set_nextpid v k : sched_wf k -> sched_wf (set_nextpid v k).
Proof. apply sched_wf_ext; reflexivity. Qed.

Lemma sched_wf_set_initproc v k : sched_wf k -> sched_wf (set_initproc v k).
Proof. apply sched_wf_ext; reflexivity. Qed.

Lemma sched_wf_set_ticks v k : sched_wf k -> sched_wf (set_ticks v k).
Proof. apply sched_wf_ext; reflexivity. Qed.

Lemma sched_wf_reparent p k : sched_wf k -> sched_wf (reparent p k).
Proof. apply sched_wf_ext; [reflexivity|]. apply length_map. Qed.

Lemma acquire_proc_sched_wf c h k k' :
  acquire_proc c h k = Some k' -> sched_wf k -> sched_wf k'.
Proof.
  intros H. apply acquire_proc_spec in H as (pr & _ & _ & ->).
  apply sched_wf_store.
Qed.

Lemma release_proc_sched_wf c h k k' :
  release_proc c h k = Some k' -> sched_wf k -> sched_wf k'.
Proof.
  intros H. apply release_proc_spec in H as (pr & _ & _ & ->).
  apply sched_wf_store.
Qed.

Lemma put_sched_wf' c p k k' :
  put c p k = Some k' -> sched_wf k -> sched_wf k'.
Proof. intros H Hwf. eapply put_sched_wf; eauto. Qed.

Lemma get_sched_wf' c k r k' :
  get c k = Some (r, k') -> sched_wf k -> sched_wf k'.
Proof. intros H Hwf. eapply get_sched_wf; eauto. Qed.

Lemma change_sched_sched_wf' c algo ip a0 k r k' :
  change_sched c algo ip a0 k = Some (r, k') -> sched_wf k -> sched_wf k'.
Proof. intros H Hwf. eapply change_sched_sched_wf; eauto. Qed.

#[local] Hint Resolve sched_wf_store sched_wf_set_cpu sched_wf_set_nextpid
  sched_wf_set_initproc sched_wf_set_ticks sched_wf_reparent
  acquire_proc_sched_wf release_proc_sched_wf put_sched_wf' get_sched_wf'
  change_sched_sched_wf' : wf.

Lemma sched_sched_wf from c k k' :
  sched from c k = Some k' -> sched_wf k -> sched_wf k'.
Proof.
  intros H. apply sched_spec in H
    as (h & pr & cp & q & _ & _ & _ & _ & _ & _ & ->).
  auto with wf.
Qed.

Lemma freeproc_sched_wf p k k' :
  freeproc p k = Some k' -> sched_wf k -> sched_wf k'.
Proof.
  unfold freeproc. intros H Hwf. unbind H. injection H as <-. auto with wf.
Qed.

#[local] Hint Resolve sched_sched_wf freeproc_sched_wf : wf.

Lemma allocproc_found_sched_wf c p mem_ok k r k' :
  allocproc_found c p mem_ok k = Some (r, k') -> sched_wf k -> sched_wf k'.
Proof.
  unfold allocproc_found. intros H Hwf. unbind H; injection H as <- <-;
    eauto 10 with wf.
Qed.

Lemma resume_sched_wf c p k k' :
  resume c p k = Some k' -> sched_wf k -> sched_wf k'.
Proof. unfold resume. intros H Hwf. unbind H; eauto 10 with wf. Qed.

Lemma yield_sched_wf c k k' :
  yield c k = Some k' -> sched_wf k -> sched_wf k'.
Proof. unfold yield. intros H Hwf. unbind H. eauto 10 with wf. Qed.

#[local] Hint Resolve allocproc_found_sched_wf resume_sched_wf
  yield_sched_wf : wf.

Ltac unbind_hyps :=
  repeat first
    [ match goal with
      | H : _ ≫= _ = Some _ |- _ => apply bind_Some in H as (? & ? & H)
      | H : _ <$> _ = Some _ |- _ => apply fmap_Some in H as (? & H & ?)
      | H : match ?x with _ => _ end = Some _ |- _ => destruct x eqn:?
      end
    | progress simplify_eq ].

Lemma step_sched_wf ev k k' :
  step ev k = Some k' -> sched_wf k -> sched_wf k'.
Proof.
  intros H Hwf. destruct ev; cbn [step] in H.
  - unfold scheduler_get in H. unbind_hyps; eauto 10 with wf.
  - unfold scheduler_run in H. unbind_hyps; eauto 10 with wf.
  - unfold scheduler_back in H. unbind_hyps; eauto 10 with wf.
  - unbind_hyps. eauto 10 with wf.
  - unfold sleep in H. unbind_hyps. eauto 10 with wf.
  - unfold exit in H. unbind_hyps. eauto 10 with wf.
  - unfold wakeup_at in H. unbind_hyps; eauto 10 with wf.
  - unfold kill_at in H. unbind_hyps; simpl; eauto 10 with wf.
  - unfold fork_alloc in H. unbind_hyps; eauto 10 with wf.
  - unfold fork_put in H. unbind_hyps. eauto 10 with wf.
  - unfold wait_at in H. unbind_hyps; simpl; eauto 10 with wf.
  - unfold timer_routine in H. unbind_hyps; eauto 10 with wf.
  - unbind_hyps. auto with wf.
  - unbind_hyps. destruct x as [r k1]. simpl. eauto 10 with wf.
Qed.

(** ** put returns *)

Lemma acquire_proc_free c h k pr :
  proc_table k !! h = Some pr -> lock pr = None ->
  acquire_proc c h k = Some (store h (set_lock (Some c) pr) k).
Proof. intros Hpr Hl. unfold acquire_proc. rewrite Hpr. simpl. rewrite Hl. reflexivity. Qed.

Lemma release_proc_held c h k pr :
  proc_table k !! h = Some pr -> lock pr = Some c ->
  release_proc c h k = Some (store h (set_lock None pr) k).
Proof.
  intros Hpr Hl. unfold release_proc, release. rewrite Hpr. simpl.
  rewrite Hl, holding_self. reflexivity.
Qed.

Lemma put_total c h k pr :
  sched_wf k -> proc_table k !! h = Some pr ->
  lock pr = None \/ lock pr = Some c ->
  heap_size (proc_sched k) < Z.of_nat NPROC ->
  is_Some (put c (Some h) k).
Proof.
  intros (Hlk & Hlen & Hok) Hpr Hl Hn.
  assert (Hh : (h < length (proc_table k))%nat)
    by (eapply lookup_lt_Some; eauto).
  unfold put. rewrite Hpr. cbn [mbind option_bind].
  assert (Hk1 : exists k1 pr1,
             (if holding c (lock pr) then Some k else acquire_proc c h k)
             = Some k1 /\
             proc_sched k1 = proc_sched k /\
             length (proc_table k1) = length (proc_table k) /\
             proc_table k1 !! h = Some pr1 /\ lock pr1 = Some c).
  { destruct (holding c (lock pr)) eqn:Hhold.
    - exists k, pr. repeat split; auto using holding_true.
    - destruct Hl as [Hl|Hl];
        [|rewrite Hl, holding_self in Hhold; discriminate].
      rewrite (acquire_proc_free _ _ _ _ Hpr Hl).
      eexists _, _. split; [reflexivity|]. simpl.
      rewrite length_insert, list_lookup_insert_eq by exact Hh.
      repeat split. }
  destruct Hk1 as (k1 & pr1 & -> & Hs1 & Hlen1 & Hpr1 & Hl1).
  cbn [mbind option_bind].
  unfold acquire_sched. rewrite Hs1, Hlk. cbn [acquire mbind option_bind].
  cbn [proc_table set_proc_sched proc_sched set_sp_lock heap heap_size
       algorithm a ticks].
  destruct (lookup_lt_is_Some_2 (proc_table k1) 0) as [head Hhead]; [lia|].
  rewrite Hhead, Hpr1. cbn [mbind option_bind].
  match goal with
  | |- is_Some (?e ≫= _) =>
    assert (Hpra : exists pra, e = Some pra /\ lock pra = lock pr1)
  end.
  { destruct (negb (procstate_eqb (state head) RUNNING)).
    - unfold C.div. simpl. eexists. split; reflexivity.
    - eexists. split; reflexivity. }
  destruct Hpra as (pra & -> & Hla). cbn [mbind option_bind].
  rewrite arr_set_insert by (destruct Hok; lia). cbn [mbind option_bind].
  cbn [proc_table store set_proc_table set_proc_sched].
  assert (Hadd : C.add (heap_size (proc_sched k)) 1
                 = heap_size (proc_sched k) + 1).
  { apply to_int_small. destruct Hok as [? _].
    unfold C.in_int, C.INT_HALF, NPROC in *. lia. }
  rewrite Hadd.
  match goal with
  | |- is_Some (heapify_up ?t ?arr ?n ?al ≫= _) =>
    destruct (heapify_up_total t arr n al) as (arr2 & -> & _)
  end.
  { apply heap_ok_Forall. rewrite length_insert. destruct Hok as [Hn0 Hent].
    split; [lia|].
    replace (Z.to_nat (heap_size (proc_sched k) + 1))
      with (S (Z.to_nat (heap_size (proc_sched k)))) by lia.
    erewrite take_S_r by (apply list_lookup_insert_eq; lia).
    rewrite take_insert_ge by lia. apply Forall_app. split.
    - assert (Hok' : heap_ok (proc_table k) (heap (proc_sched k))
                       (heap_size (proc_sched k))) by (split; assumption).
      apply heap_ok_Forall in Hok' as [_ Hall].
      eapply Forall_impl; [exact Hall|]. intros p Hv. simpl in Hv.
      rewrite <- Hv. apply valid_handle_length.
      rewrite length_insert. exact Hlen1.
    - apply Forall_singleton. simpl. apply Nat.ltb_lt.
      rewrite length_insert. lia. }
  { destruct Hok. lia. }
  cbn [mbind option_bind].
  unfold release_sched, release.
  cbn [proc_sched set_proc_sched set_sp_lock sp_lock set_heap set_heap_size].
  rewrite holding_self. cbn [mbind option_bind].
  destruct (holding c (lock pr)); [eauto|].
  erewrite release_proc_held; [eauto| |].
  - simpl. apply list_lookup_insert_eq. lia.
  - simpl. destruct (procstate_eqb (state pra) RUNNING); simpl; congruence.
Qed.

(** ** What put writes *)

Lemma put_fields c h k k' pr head :
  put c (Some h) k = Some k' ->
  proc_table k !! h = Some pr -> proc_table k !! 0%nat = Some head ->
  exists pr',
    proc_table k' = <[h := pr']> (proc_table k) /\
    cpu_burst_aprox pr' =
      (if procstate_eqb (state head) RUNNING then cpu_burst_aprox pr
       else C.to_int
              (Z.quot
                 (C.add (C.mul (a (proc_sched k)) (cpu_burst pr))
                    (C.mul (C.sub 100 (a (proc_sched k)))
                       (cpu_burst_aprox pr)))
                 100)) /\
    exe_time pr' =
      (if procstate_eqb (state pr) RUNNING
       then C.add (exe_time pr) (cpu_burst pr) else 0) /\
    put_timestamp pr' = C.to_int (ticks k) /\
    state pr' = RUNNABLE /\
    lock pr' = lock pr /\ chan pr' = chan pr /\ killed pr' = killed pr /\
    xstate pr' = xstate pr /\ pid pr' = pid pr /\ parent pr' = parent pr /\
    context pr' = context pr /\ cpu_burst pr' = cpu_burst pr /\
    timeslice pr' = timeslice pr.
Proof.
  unfold put. intros H Hpr0 Hhead0.
  rewrite Hpr0 in H. cbn [mbind option_bind] in H.
  apply bind_Some in H as (k1 & Hk1 & H).
  apply bind_Some in H as (k2 & Hk2 & H).
  apply bind_Some in H as (head' & Hhead & H).
  apply bind_Some in H as (pr1 & Hpr & H).
  apply bind_Some in H as (pra & Hpra & H).
  apply bind_Some in H as (arr1 & Harr1 & H).
  apply bind_Some in H as (arr2 & Harr2 & H).
  apply bind_Some in H as (k3 & Hk3 & H).
  apply acquire_sched_spec in Hk2 as [_ ->].
  apply release_sched_spec in Hk3 as ->.
  cbn [proc_table set_proc_sched store set_proc_table proc_sched
       set_sp_lock a ticks heap heap_size algorithm] in *.
  assert (Hk1' : proc_sched k1 = proc_sched k /\ ticks k1 = ticks k /\
                 state head' = state head /\
                 exists lk, pr1 = set_lock lk pr /\
                   proc_table k1 = <[h := pr1]> (proc_table k) /\
                   (holding c (lock pr) = true -> lk = lock pr) /\
                   (holding c (lock pr) = false -> lock pr = None)).
  { destruct (holding c (lock pr)) eqn:Hhold.
    - injection Hk1 as <-. repeat split.
      + congruence.
      + exists (lock pr). assert (pr1 = pr) by congruence. subst pr1.
        split; [destruct pr; reflexivity|].
        split; [symmetry; apply list_insert_id; exact Hpr0|].
        split; [reflexivity|discriminate].
    - apply acquire_proc_spec in Hk1 as (pr0 & Hpr0' & Hl0 & ->).
      assert (pr0 = pr) by congruence. subst pr0.
      cbn [proc_table store set_proc_table proc_sched ticks] in *.
      rewrite list_lookup_insert_eq in Hpr by (eapply lookup_lt_Some; eauto).
      injection Hpr as <-.
      repeat split.
      + destruct (decide (h = 0%nat)) as [->|Hne].
        * rewrite list_lookup_insert_eq in Hhead
            by (eapply lookup_lt_Some; eauto).
          injection Hhead as <-. simpl. congruence.
        * rewrite list_lookup_insert_ne in Hhead by exact Hne. congruence.
      + exists (Some c). repeat split; [discriminate|intros _; exact Hl0]. }
  destruct Hk1' as (Hs1 & Hticks & Hsthead & lk & -> & Htbl1 & Hlk1 & Hlk2).
  rewrite Hs1, Hticks, Hsthead in *. clear Hhead Hpr.
  set (prf := set_state RUNNABLE _) in H.
  assert (Hprf : cpu_burst_aprox prf =
      (if procstate_eqb (state head) RUNNING then cpu_burst_aprox pr
       else C.to_int
              (Z.quot
                 (C.add (C.mul (a (proc_sched k)) (cpu_burst pr))
                    (C.mul (C.sub 100 (a (proc_sched k)))
                       (cpu_burst_aprox pr)))
                 100)) /\
      exe_time prf =
        (if procstate_eqb (state pr) RUNNING
         then C.add (exe_time pr) (cpu_burst pr) else 0) /\
      put_timestamp prf = C.to_int (ticks k) /\
      state prf = RUNNABLE /\
      lock prf = lk /\ chan prf = chan pr /\ killed prf = killed pr /\
      xstate prf = xstate pr /\ pid prf = pid pr /\ parent prf = parent pr /\
      context prf = context pr /\ cpu_burst prf = cpu_burst pr /\
      timeslice prf = timeslice pr).
  { unfold prf.
    destruct (procstate_eqb (state head) RUNNING); simpl in Hpra.
    - injection Hpra as <-. simpl.
      destruct (procstate_eqb (state pr) RUNNING); repeat split.
    - injection Hpra as <-. simpl.
      destruct (procstate_eqb (state pr) RUNNING); repeat split. }
  destruct (holding c (lock pr)) eqn:Hhold.
  - injection H as <-. exists prf.
    cbn [proc_table set_proc_sched store set_proc_table].
    split; [rewrite Htbl1; apply list_insert_insert_eq|].
    rewrite (Hlk1 eq_refl) in Hprf. exact Hprf.
  - apply release_proc_spec in H as (pr2 & Hpr2 & Hl2 & ->).
    cbn [proc_table set_proc_sched store set_proc_table] in *.
    rewrite list_lookup_insert_eq in Hpr2
      by (rewrite Htbl1, length_insert; eapply lookup_lt_Some; eauto).
    injection Hpr2 as <-.
    exists (set_lock None prf).
    split; [rewrite Htbl1, !list_insert_insert_eq; reflexivity|].
    rewrite (Hlk2 eq_refl). simpl.
    destruct Hprf as (? & ? & ? & ? & ? & ?). repeat split; tauto.
Qed.

Lemma exp_average_between a0 cb ap :
  0 <= a0 <= 100 -> 0 <= cb <= 16777216 -> 0 <= ap <= 16777216 ->
  let v := C.to_int (Z.quot (C.add (C.mul a0 cb) (C.mul (C.sub 100 a0) ap))
                       100) in
  v = (a0 * cb + (100 - a0) * ap) / 100 /\
  Z.min cb ap <= v <= Z.max cb ap.
Proof.
  intros Ha Hcb Hap.
  assert (H1 : C.mul a0 cb = a0 * cb).
  { apply to_int_small. unfold C.in_int, C.INT_HALF. nia. }
  assert (H2 : C.sub 100 a0 = 100 - a0).
  { apply to_int_small. unfold C.in_int, C.INT_HALF. lia. }
  assert (H3 : C.mul (100 - a0) ap = (100 - a0) * ap).
  { apply to_int_small. unfold C.in_int, C.INT_HALF. nia. }
  assert (H4 : C.add (a0 * cb) ((100 - a0) * ap) = a0 * cb + (100 - a0) * ap).
  { apply to_int_small. unfold C.in_int, C.INT_HALF. nia. }
  cbv zeta. rewrite H1, H2, H3, H4.
  set (s := a0 * cb + (100 - a0) * ap).
  assert (Hs : 100 * Z.min cb ap <= s <= 100 * Z.max cb ap)
    by (unfold s; nia).
  rewrite Z.quot_div_nonneg by (unfold s; nia).
  assert (Hq : Z.min cb ap <= s / 100 <= Z.max cb ap).
  { split.
    - apply Z.div_le_lower_bound; lia.
    - apply Z.div_le_upper_bound; lia. }
  rewrite to_int_small by (unfold C.in_int, C.INT_HALF; lia).
  split; [reflexivity|exact Hq].
Qed.

(** ** Heap order *)

Lemma sift_inv_stop K n curr :
  1 <= curr < n -> sift_inv K n curr ->
  K ((curr - 1) / 2) <= K curr -> heap_order K n.
Proof.
  intros Hc [Hord _] Hle i Hi.
  destruct (Z.eq_dec i curr) as [->|Hne]; [exact Hle|].
  apply Hord; assumption.
Qed.

Lemma sift_inv_swap K K1 n curr p :
  1 <= curr < n -> p = (curr - 1) / 2 ->
  (forall x, K1 x = K (transpose curr p x)) ->
  sift_inv K n curr -> K curr < K p ->
  (p = 0 -> heap_order K1 n) /\ (p <> 0 -> sift_inv K1 n p).
Proof.
  intros Hc Hp HK1 [Hord Hgrand] Hlt.
  assert (Hp0 : 0 <= p < curr) by (subst p; Z.div_mod_to_equations; lia).
  assert (Hedge : forall i, 1 <= i < n -> i <> p ->
                    K1 ((i - 1) / 2) <= K1 i).
  { intros i Hi Hip. rewrite !HK1. unfold transpose.
    destruct (Z.eqb_spec i p); [lia|].
    destruct (Z.eqb_spec i curr) as [->|Hic].
    - rewrite <- Hp. rewrite Z.eqb_refl. lia.
    - pose proof (Hord i Hi Hic) as Ho.
      destruct (Z.eqb_spec ((i - 1) / 2) p) as [Hq|Hq].
      + rewrite Hq in Ho. lia.
      + destruct (Z.eqb_spec ((i - 1) / 2) curr) as [Hq'|Hq'].
        * pose proof (Hgrand i Hi Hq') as Hg. rewrite <- Hp in Hg. exact Hg.
        * exact Ho. }
  split.
  - intros Hz i Hi. apply Hedge; [exact Hi|lia].
  - intros Hnz. split; [exact Hedge|].
    intros i Hi Hq. rewrite !HK1. unfold transpose.
    assert (Hpp : 0 <= (p - 1) / 2 < p) by (Z.div_mod_to_equations; lia).
    destruct (Z.eqb_spec ((p - 1) / 2) p); [lia|].
    destruct (Z.eqb_spec ((p - 1) / 2) curr); [lia|].
    assert (Hop : K ((p - 1) / 2) <= K p) by (apply Hord; lia).
    destruct (Z.eqb_spec i p); [subst i; Z.div_mod_to_equations; lia|].
    destruct (Z.eqb_spec i curr) as [->|Hic]; [lia|].
    pose proof (Hord i Hi Hic) as Ho. rewrite Hq in Ho. lia.
Qed.

Lemma heap_order_root K n :
  heap_order K n -> forall i, 0 <= i < n -> K 0 <= K i.
Proof.
  intros Hord i Hi.
  assert (Hgen : forall m : nat, forall j, 0 <= j < n -> j <= Z.of_nat m ->
                   K 0 <= K j).
  { induction m as [|m IH]; intros j Hj Hm.
    - assert (j = 0) by lia. subst j. lia.
    - destruct (Z.eq_dec j 0) as [->|Hj0]; [lia|].
      pose proof (Hord j ltac:(lia)) as Ho.
      assert (K 0 <= K ((j - 1) / 2)).
      { apply IH; Z.div_mod_to_equations; lia. }
      lia. }
  apply (Hgen (Z.to_nat i)); lia.
Qed.

Section HeapOrder.

Variable tbl : list proc.

Lemma field_at_key arr algo i :
  field_at tbl arr (key algo) i =
  if algo =? 0 then field_at tbl arr cpu_burst_aprox i
  else field_at tbl arr exe_time i.
Proof.
  unfold field_at, key.
  destruct (arr_get arr i) as [[h|]|]; simpl; [|destruct (algo =? 0)..];
    try reflexivity.
  destruct (tbl !! h); simpl; destruct (algo =? 0); reflexivity.
Qed.

(** The comparison of [heapify_up] is a comparison of keys. *)
Lemma up_cond_key arr algo curr parent :
  C.or (C.and (algo =? 0) (lt_at tbl arr cpu_burst_aprox curr parent))
       (C.and (negb (algo =? 0)) (lt_at tbl arr exe_time curr parent))
  = lt_at tbl arr (key algo) curr parent.
Proof.
  unfold lt_at. rewrite !field_at_key.
  destruct (algo =? 0); simpl.
  - destruct (field_at tbl arr cpu_burst_aprox curr); simpl; [|reflexivity].
    destruct (field_at tbl arr cpu_burst_aprox parent); simpl;
      [|reflexivity].
    destruct (_ <? _); reflexivity.
  - reflexivity.
Qed.

Lemma key_at_field arr n algo i :
  heap_ok tbl arr n -> 0 <= i < n ->
  field_at tbl arr (key algo) i = Some (key_at tbl arr algo i).
Proof.
  intros Hok Hi. unfold key_at.
  destruct (field_at_total tbl arr n (key algo) i Hok Hi) as [v ->].
  reflexivity.
Qed.

Lemma min_heap_order arr n algo :
  heap_ok tbl arr n ->
  (min_heap tbl arr n algo <-> heap_order (key_at tbl arr algo) n).
Proof.
  intros Hok. split.
  - intros H i Hi. destruct (H i Hi) as (kp & ki & Hp & Hk & Hle).
    unfold key_at. rewrite Hp, Hk. exact Hle.
  - intros H i Hi. exists (key_at tbl arr algo ((i - 1) / 2)),
      (key_at tbl arr algo i).
    split; [|split; [|apply H, Hi]].
    + apply (key_at_field arr n); [exact Hok|].
      Z.div_mod_to_equations; lia.
    + apply (key_at_field arr n); [exact Hok|lia].
Qed.

Lemma swap_key_at arr arr' algo i j x :
  swap arr i j = Some arr' -> 0 <= x ->
  key_at tbl arr' algo x = key_at tbl arr algo (transpose i j x).
Proof.
  intros H Hx. apply swap_inv in H as (a & b & Hi & Hj & Ha & Hb & ->).
  unfold key_at, field_at, transpose. f_equal.
  assert (Hget : arr_get (<[Z.to_nat j:=a]> (<[Z.to_nat i:=b]> arr)) x
                 = arr_get arr (if x =? j then i else if x =? i then j else x)).
  { rewrite arr_get_lookup by lia.
    destruct (Z.eqb_spec x j) as [->|Hxj].
    - rewrite arr_get_lookup by lia. rewrite Ha.
      apply list_lookup_insert_eq. rewrite length_insert.
      eapply lookup_lt_Some; eauto.
    - rewrite list_lookup_insert_ne by lia.
      destruct (Z.eqb_spec x i) as [->|Hxi].
      + rewrite arr_get_lookup by lia. rewrite Hb.
        apply list_lookup_insert_eq. eapply lookup_lt_Some; eauto.
      + rewrite list_lookup_insert_ne by lia.
        rewrite arr_get_lookup by lia. reflexivity. }
  rewrite Hget. reflexivity.
Qed.

(** A round of [heapify_up] that starts from the true parent restores the
    heap order. *)
Lemma heapify_up_loop_order fuel arr n algo curr :
  heap_ok tbl arr n -> 1 <= curr < n ->
  sift_inv (key_at tbl arr algo) n curr ->
  (Z.to_nat ((curr - 1) / 2) < fuel)%nat ->
  exists arr',
    heapify_up_loop tbl fuel arr algo curr ((curr - 1) / 2) = Some arr' /\
    heap_ok tbl arr' n /\ min_heap tbl arr' n algo.
Proof.
  revert arr curr.
  induction fuel as [|fuel IH]; intros arr curr Hok Hc Hinv Hfuel; [lia|].
  set (p := (curr - 1) / 2) in *.
  assert (Hp : 0 <= p < curr) by (unfold p; Z.div_mod_to_equations; lia).
  simpl. rewrite up_cond_key. unfold lt_at.
  rewrite (key_at_field arr n algo curr Hok) by lia.
  rewrite (key_at_field arr n algo p Hok) by lia.
  cbn [mbind option_bind].
  destruct (Z.ltb_spec (key_at tbl arr algo curr) (key_at tbl arr algo p))
    as [Hlt|Hge].
  - destruct (swap_total tbl arr n curr p Hok) as (arr1 & Hsw & Hok1 & _);
      [lia..|].
    rewrite Hsw. cbn [mbind option_bind].
    destruct (sift_inv_swap (key_at tbl arr algo) (key_at tbl arr1 algo)
                n curr p Hc eq_refl) as [Hroot Hnext];
      [|exact Hinv|exact Hlt|].
    { intros x. destruct (Z.le_gt_cases 0 x) as [Hx|Hx].
      - apply (swap_key_at _ _ _ _ _ _ Hsw Hx).
      - unfold transpose.
        destruct (Z.eqb_spec x p); [lia|].
        destruct (Z.eqb_spec x curr); [lia|].
        unfold key_at, field_at, arr_get.
        destruct (Z.ltb_spec x 0); [reflexivity|lia]. }
    destruct (Z.eqb_spec p 0) as [Hp0|Hp0].
    + exists arr1. split; [reflexivity|]. split; [exact Hok1|].
      apply min_heap_order; [exact Hok1|]. apply Hroot, Hp0.
    + rewrite Z.quot_div_nonneg by lia.
      apply IH; [exact Hok1|lia|apply Hnext, Hp0|].
      assert (0 <= (p - 1) / 2 < p) by (Z.div_mod_to_equations; lia).
      lia.
  - exists arr. split; [reflexivity|]. split; [exact Hok|].
    apply min_heap_order; [exact Hok|].
    apply (sift_inv_stop _ n curr); [exact Hc|exact Hinv|]. fold p. lia.
Qed.

End HeapOrder.

Lemma field_at_same_keys t1 t2 arr algo i :
  same_keys t1 t2 ->
  field_at t1 arr (key algo) i = field_at t2 arr (key algo) i.
Proof.
  intros Hk. unfold field_at, key.
  destruct (arr_get arr i) as [[q|]|]; simpl; try reflexivity.
  destruct (Hk q) as [Ha He].
  destruct (t1 !! q), (t2 !! q); simpl in *; try congruence.
  destruct (algo =? 0); congruence.
Qed.

Lemma min_heap_same_keys t1 t2 arr n algo :
  same_keys t1 t2 -> min_heap t1 arr n algo -> min_heap t2 arr n algo.
Proof.
  intros Hk H i Hi. destruct (H i Hi) as (kp & ki & Hp & Hki & Hle).
  exists kp, ki. rewrite <- !(field_at_same_keys t1 t2) by exact Hk. auto.
Qed.

Lemma same_keys_sym t1 t2 : same_keys t1 t2 -> same_keys t2 t1.
Proof. intros H q. destruct (H q). split; congruence. Qed.

(** The heap order of a prefix does not depend on later entries, nor on
    table entries that are not queued. *)
Lemma min_heap_prefix t1 t2 arr1 arr2 n algo :
  (forall i, 0 <= i < n ->
     field_at t2 arr2 (key algo) i = field_at t1 arr1 (key algo) i) ->
  min_heap t1 arr1 n algo -> min_heap t2 arr2 n algo.
Proof.
  intros Heq H i Hi. destruct (H i Hi) as (kp & ki & Hp & Hki & Hle).
  exists kp, ki. rewrite !Heq by (Z.div_mod_to_equations; lia). auto.
Qed.

(** [heapify_up] restores the min-heap when the appended index [n - 1] is
    odd, and for [n] up to 3. *)
Lemma heapify_up_order tbl arr n algo :
  heap_ok tbl arr n -> 1 <= n ->
  Z.odd (n - 1) = true \/ n <= 3 ->
  min_heap tbl arr (n - 1) algo ->
  exists arr',
    heapify_up tbl arr n algo = Some arr' /\
    heap_ok tbl arr' n /\ min_heap tbl arr' n algo.
Proof.
  intros Hok Hn Hodd Hheap.
  assert (Hok' : heap_ok tbl arr (n - 1)).
  { destruct Hok as [Hl He]. split; [lia|]. intros i Hi. apply He. lia. }
  apply (min_heap_order tbl arr (n - 1) algo Hok') in Hheap.
  unfold heapify_up. destruct (Z.eqb_spec n 1) as [->|Hn1].
  { exists arr. split; [reflexivity|]. split; [exact Hok|].
    intros i Hi. lia. }
  assert (Hinit : sift_inv (key_at tbl arr algo) n (n - 1)).
  { split.
    - intros i Hi Hne. apply Hheap. lia.
    - intros i Hi Hq. exfalso. revert Hq. Z.div_mod_to_equations. lia. }
  destruct (Z.odd (n - 1)) eqn:Ho.
  - (* the first parent index is the true one *)
    assert (Hq : Z.quot (n - 1) 2 = (n - 1 - 1) / 2).
    { rewrite Z.quot_div_nonneg by lia.
      apply Z.odd_spec in Ho as [m Hm]. Z.div_mod_to_equations. lia. }
    rewrite Hq.
    apply (heapify_up_loop_order tbl (Z.to_nat n) arr n algo (n - 1));
      [exact Hok|lia|exact Hinit|].
    assert (0 <= (n - 1 - 1) / 2 < n) by (Z.div_mod_to_equations; lia).
    lia.
  - (* n = 3: the first comparison is with the sibling *)
    assert (n = 3).
    { destruct Hodd as [?|?]; [discriminate|].
      assert (n <> 2) by (intros ->; discriminate Ho). lia. }
    subst n. change (Z.to_nat 3) with 3%nat.
    change (Z.quot (3 - 1) 2) with 1. change (3 - 1) with 2 in *.
    assert (H01 : key_at tbl arr algo 0 <= key_at tbl arr algo 1)
      by (apply (Hheap 1); lia).
    cbn [heapify_up_loop]. rewrite up_cond_key. unfold lt_at.
    rewrite (key_at_field tbl arr 3 algo 2 Hok) by lia.
    rewrite (key_at_field tbl arr 3 algo 1 Hok) by lia.
    cbn [mbind option_bind].
    destruct (Z.ltb_spec (key_at tbl arr algo 2) (key_at tbl arr algo 1))
      as [Hlt|Hge].
    + destruct (swap_total tbl arr 3 2 1 Hok) as (arr1 & Hsw & Hok1 & _);
        [lia..|].
      rewrite Hsw. cbn [mbind option_bind].
      change (1 =? 0) with false. cbv iota.
      change (Z.quot (1 - 1) 2) with ((1 - 1) / 2).
      apply (heapify_up_loop_order tbl 2 arr1 3 algo 1);
        [exact Hok1|lia| |cbv; lia].
      split.
      * intros i Hi Hne. assert (i = 2) by lia. subst i.
        change ((2 - 1) / 2) with 0.
        rewrite !(swap_key_at tbl _ _ _ _ _ _ Hsw) by lia.
        unfold transpose. simpl. exact H01.
      * intros i Hi Hq. exfalso. revert Hq. Z.div_mod_to_equations. lia.
    + exists arr. split; [reflexivity|]. split; [exact Hok|].
      apply min_heap_order; [exact Hok|].
      intros i Hi. assert (i = 1 \/ i = 2) as [->| ->] by lia.
      * exact H01.
      * change ((2 - 1) / 2) with 0. lia.
Qed.
(** ** The ready heap in the reachable states *)

Lemma boot_sched_wf : sched_wf boot.
Proof. apply sched_wfb_sound. vm_compute. reflexivity. Qed.

Lemma reachable_sched_wf k : reachable k -> sched_wf k.
Proof.
  induction 1 as [k Hk|ev k k' _ IH Hstep].
  - rewrite boot_eq in Hk. injection Hk as <-. apply boot_sched_wf.
  - eapply step_sched_wf; eauto.
Qed.

Lemma sched_wf_root k :
  sched_wf k -> heap_size (proc_sched k) <> 0 ->
  0 < heap_size (proc_sched k) /\
  exists h pr, heap (proc_sched k) !! 0%nat = Some (Some h) /\
               proc_table k !! h = Some pr.
Proof.
  intros (_ & _ & Hr & He) Hne. split; [lia|].
  destruct (He 0) as (h & Hh & Hlt); [lia|].
  destruct (lookup_lt_is_Some_2 (proc_table k) h Hlt) as [pr Hpr].
  exists h, pr. split; [exact Hh|exact Hpr].
Qed.

Lemma queue_lookup k q :
  Some q ∈ queue k ->
  exists i, 0 <= i < heap_size (proc_sched k) /\
            heap (proc_sched k) !! Z.to_nat i = Some (Some q).
Proof.
  unfold queue. intros Hin.
  apply list_elem_of_lookup in Hin as [i Hi].
  apply lookup_take_Some in Hi as [Hi Hlt].
  exists (Z.of_nat i). rewrite Nat2Z.id. split; [lia|exact Hi].
Qed.

Lemma key_at_lookup tbl arr algo i h pr :
  0 <= i -> arr !! Z.to_nat i = Some (Some h) -> tbl !! h = Some pr ->
  key_at tbl arr algo i = key algo pr.
Proof.
  intros Hi Ha Hp. unfold key_at, field_at.
  rewrite arr_get_lookup by lia. rewrite Ha. simpl. rewrite Hp. reflexivity.
Qed.

Lemma min_heapb_sound tbl arr n algo :
  min_heapb tbl arr n algo = true -> min_heap tbl arr n algo.
Proof.
  unfold min_heapb. rewrite forallb_forall. intros H i Hi.
  specialize (H (Z.to_nat i)).
  rewrite Z2Nat.id in H by lia.
  destruct (field_at tbl arr (key algo) ((i - 1) / 2)) as [kp|];
    destruct (field_at tbl arr (key algo) i) as [ki|];
    try (exfalso; assert (false = true); [apply H|discriminate];
         apply in_seq; lia).
  exists kp, ki. split; [reflexivity|]. split; [reflexivity|].
  apply Z.leb_le, H, in_seq. lia.
Qed.

Lemma same_keys_insert_lock t h x l :
  t !! h = Some x -> same_keys t (<[h := set_lock l x]> t).
Proof.
  intros Hx q. destruct (decide (q = h)) as [->|Hne].
  - rewrite list_lookup_insert_eq by (eapply lookup_lt_Some; eauto).
    rewrite Hx. destruct x; split; reflexivity.
  - rewrite list_lookup_insert_ne by congruence. split; reflexivity.
Qed.

Lemma same_keys_refl t : same_keys t t.
Proof. intros q. split; reflexivity. Qed.

(** The call of [heapify_up] inside [put]: the table it reads differs
    from the table before [put] only in the entry of [p], and gives every
    process the keys it has after [put]. *)
Lemma put_heapify c h k k' :
  put c (Some h) k = Some k' ->
  exists tblx,
    same_keys tblx (proc_table k') /\
    length tblx = length (proc_table k) /\
    (forall q, q <> h -> tblx !! q = proc_table k !! q) /\
    heapify_up tblx
      (<[Z.to_nat (heap_size (proc_sched k)) := Some h]>
         (heap (proc_sched k)))
      (C.add (heap_size (proc_sched k)) 1) (algorithm (proc_sched k))
    = Some (heap (proc_sched k')).
Proof.
  unfold put. intros H.
  apply bind_Some in H as (pr0 & Hpr0 & H).
  apply bind_Some in H as (k1 & Hk1 & H).
  apply bind_Some in H as (k2 & Hk2 & H).
  apply bind_Some in H as (head & Hhead & H).
  apply bind_Some in H as (pr & Hpr & H).
  apply bind_Some in H as (pra & Hpra & H).
  apply bind_Some in H as (arr1 & Harr1 & H).
  apply bind_Some in H as (arr2 & Harr2 & H).
  apply bind_Some in H as (k3 & Hk3 & H).
  assert (Hk1' : proc_sched k1 = proc_sched k /\
                 length (proc_table k1) = length (proc_table k) /\
                 forall q, q <> h -> proc_table k1 !! q = proc_table k !! q).
  { destruct (holding c (lock pr0)).
    - injection Hk1 as <-. auto.
    - apply acquire_proc_spec in Hk1 as (? & _ & _ & ->).
      cbn [proc_sched store set_proc_table proc_table].
      split; [reflexivity|]. split; [apply length_insert|].
      intros q Hq. apply list_lookup_insert_ne. congruence. }
  destruct Hk1' as (Hs1 & Hlen1 & Hother1).
  apply acquire_sched_spec in Hk2 as [_ ->].
  apply release_sched_spec in Hk3 as ->.
  cbn [proc_table set_proc_sched store set_proc_table proc_sched
       set_sp_lock a ticks heap heap_size algorithm set_heap
       set_heap_size] in *.
  rewrite Hs1 in *.
  set (prf := set_state RUNNABLE _) in *.
  set (tblx := <[h := prf]> (proc_table k1)) in *.
  unfold arr_set in Harr1.
  destruct ((0 <=? heap_size (proc_sched k))
            && (heap_size (proc_sched k)
                <? Z.of_nat (length (heap (proc_sched k)))));
    [|discriminate].
  injection Harr1 as <-.
  assert (Hx : tblx !! h = Some prf).
  { unfold tblx. apply list_lookup_insert_eq.
    eapply lookup_lt_Some; eauto. }
  exists tblx. split; [|split; [|split]].
  - destruct (holding c (lock pr0)).
    + injection H as <-. apply same_keys_refl.
    + apply release_proc_spec in H as (pr2 & Hpr2 & _ & ->).
      cbn [proc_table set_proc_sched store set_proc_table] in *.
      fold tblx in Hpr2. rewrite Hx in Hpr2. injection Hpr2 as <-.
      apply same_keys_insert_lock, Hx.
  - unfold tblx. rewrite length_insert. exact Hlen1.
  - intros q Hq. unfold tblx.
    rewrite list_lookup_insert_ne by congruence. apply Hother1, Hq.
  - assert (Hh' : heap (proc_sched k') = arr2).
    { destruct (holding c (lock pr0)).
      - injection H as <-. reflexivity.
      - apply release_proc_spec in H as (? & _ & _ & ->). reflexivity. }
    rewrite Hh'. exact Harr2.
Qed.

(** [put] on a well-formed heap that is not full. *)
Lemma put_ok c h k pr :
  sched_wf k -> proc_table k !! h = Some pr ->
  lock pr = None \/ lock pr = Some c ->
  heap_size (proc_sched k) < Z.of_nat NPROC ->
  exists k' pr',
    put c (Some h) k = Some k' /\
    heap_size (proc_sched k') = heap_size (proc_sched k) + 1 /\
    queue k' ≡ₚ queue k ++ [Some h] /\
    sched_wf k' /\
    proc_table k' = <[h := pr']> (proc_table k) /\
    state pr' = RUNNABLE /\ lock pr' = lock pr /\
    (state pr <> RUNNING -> exe_time pr' = 0) /\
    cpus k' = cpus k /\ same_policy k k'.
Proof.
  intros Hwf Hpr Hlk Hn.
  destruct (put_total c h k pr Hwf Hpr Hlk Hn) as [k' Hput].
  pose proof (put_sched_wf _ _ _ _ Hwf Hput) as Hwf'.
  destruct (put_heap _ _ _ _ Hput (proj1 (proj2 Hwf)))
    as (_ & _ & _ & Hsz & _ & Hq & _).
  destruct (put_spec _ _ _ _ Hput)
    as (pr0 & pr' & Hpr0 & _ & Htbl & Hl' & Hst & Hexe & Hcpus & Hpol).
  assert (pr0 = pr) by congruence. subst pr0.
  exists k', pr'. auto 12.
Qed.

(** [get] on a well-formed, nonempty heap. *)
Lemma get_ok c k :
  sched_wf k -> heap_size (proc_sched k) <> 0 ->
  exists h pr k',
    heap (proc_sched k) !! 0%nat = Some (Some h) /\
    proc_table k !! h = Some pr /\
    get c k = Some (Some h, k') /\
    heap_size (proc_sched k') = heap_size (proc_sched k) - 1 /\
    Some h :: queue k' ≡ₚ queue k /\
    sched_wf k' /\
    proc_table k' =
      <[h := if algorithm (proc_sched k) =? 1
             then set_timeslice (cfs_slice k pr) (set_cpu_burst 0 pr)
             else set_cpu_burst 0 pr]> (proc_table k) /\
    cpus k' = cpus k /\ same_policy k k'.
Proof.
  intros Hwf Hne.
  destruct (sched_wf_root k Hwf Hne) as (Hpos & h & pr & Hroot & Hpr).
  destruct (get_dequeue c k h pr Hwf Hpos Hroot Hpr)
    as (k' & Hget & Hsz & _ & Htbl).
  destruct (get_heap _ _ _ _ Hget Hwf Hne)
    as (h' & pr' & Hr & _ & _ & _ & _ & _ & Hq & _).
  injection Hr as <-.
  destruct (get_spec c None _ _ _ Hget) as (Hcpus & Hpol & _).
  exists h, pr, k'. pose proof (get_sched_wf _ _ _ _ Hwf Hget). auto 10.
Qed.
(** ** Process states and CPUs under each kernel function *)

Lemma states_lookup k h pr :
  proc_table k !! h = Some pr -> states k !! h = Some (state pr).
Proof. unfold states. rewrite list_lookup_fmap. intros ->. reflexivity. Qed.

Lemma states_store h pr k :
  states (store h pr k) = <[h := state pr]> (states k).
Proof. unfold states, store. simpl. apply list_fmap_insert. Qed.

Lemma states_store_same h pr pr0 k :
  proc_table k !! h = Some pr0 -> state pr = state pr0 ->
  states (store h pr k) = states k.
Proof.
  intros H E. rewrite states_store, E. apply list_insert_id, states_lookup, H.
Qed.

Lemma acquire_proc_view c h k k' :
  acquire_proc c h k = Some k' -> cpus k' = cpus k /\ states k' = states k.
Proof.
  intros H. apply acquire_proc_spec in H as (pr & Hpr & _ & ->).
  split; [reflexivity|]. eapply states_store_same; eauto.
Qed.

Lemma release_proc_view c h k k' :
  release_proc c h k = Some k' -> cpus k' = cpus k /\ states k' = states k.
Proof.
  intros H. apply release_proc_spec in H as (pr & Hpr & _ & ->).
  split; [reflexivity|]. eapply states_store_same; eauto.
Qed.

Lemma put_view c h k k' :
  put c (Some h) k = Some k' ->
  cpus k' = cpus k /\ states k' = <[h := RUNNABLE]> (states k).
Proof.
  intros H. apply put_spec in H
    as (pr & pr' & _ & _ & Htbl & _ & Hst & _ & Hc & _).
  split; [exact Hc|]. unfold states. rewrite Htbl, list_fmap_insert, Hst.
  reflexivity.
Qed.

Lemma get_view c k r k' :
  get c k = Some (r, k') -> cpus k' = cpus k /\ states k' = states k.
Proof.
  unfold get. intros H.
  apply bind_Some in H as (k1 & Hk1 & H).
  apply acquire_sched_spec in Hk1 as [_ ->].
  cbn [proc_sched set_proc_sched heap_size set_sp_lock] in H.
  destruct (heap_size (proc_sched k) =? 0).
  { apply bind_Some in H as (k2 & Hk2 & H). injection H as _ <-.
    apply release_sched_spec in Hk2 as ->. auto. }
  apply bind_Some in H as (ret & _ & H).
  apply bind_Some in H as (h & _ & H).
  apply bind_Some in H as (pr & Hpr & H).
  apply bind_Some in H as (last & _ & H).
  apply bind_Some in H as (arr1 & _ & H).
  apply bind_Some in H as (arr2 & _ & H).
  apply bind_Some in H as (arr3 & _ & H).
  apply bind_Some in H as (k2 & Hk2 & H).
  apply bind_Some in H as (k3 & Hk3 & H). injection H as _ <-.
  apply release_sched_spec in Hk3 as ->.
  cbn [proc_table set_proc_sched] in Hpr.
  set (k1 := set_proc_sched _ (store h _ _)) in Hk2.
  assert (Hv : cpus k1 = cpus k /\ states k1 = states k).
  { split; [reflexivity|].
    exact (states_store_same h (set_cpu_burst 0 pr) pr
             (set_proc_sched (set_sp_lock (Some c) (proc_sched k)) k)
             Hpr eq_refl). }
  cbn [algorithm set_sp_lock] in Hk2.
  destruct (algorithm (proc_sched k) =? 1).
  - apply bind_Some in Hk2 as (pr2 & Hpr2 & Hk2).
    apply bind_Some in Hk2 as (q & _ & Hk2). injection Hk2 as <-.
    split; [apply Hv|].
    transitivity (states k1); [|apply Hv].
    exact (states_store_same h (set_timeslice _ pr2) pr2 k1 Hpr2 eq_refl).
  - injection Hk2 as <-. exact Hv.
Qed.

Lemma change_sched_view c algo ip a0 k r k' :
  change_sched c algo ip a0 k = Some (r, k') ->
  cpus k' = cpus k /\ states k' = states k.
Proof.
  unfold change_sched. intros H.
  destruct ((algo <? 0) || (algo >? 1) || (ip <? 0)).
  { injection H as _ <-. auto. }
  destruct ((algo =? 0) && ((a0 <? 0) || (a0 >? 100))).
  { injection H as _ <-. auto. }
  apply bind_Some in H as (k1 & Hk1 & H).
  apply bind_Some in H as (arr & _ & H).
  apply bind_Some in H as (k2 & Hk2 & H). injection H as _ <-.
  apply acquire_sched_spec in Hk1 as [_ ->].
  apply release_sched_spec in Hk2 as ->. auto.
Qed.

Lemma sched_view from c k k' :
  sched from c k = Some k' ->
  exists cp q h,
    cpus k !! c = Some cp /\ sched_at cp = SchedSwitched q /\
    cproc cp = Some h /\
    cpus k' = <[c := mkcpu (Some h) (SchedResumed q)]> (cpus k) /\
    states k' = states k.
Proof.
  intros H. apply sched_spec in H
    as (h & pr & cp & q & Hcp & Hh & Hq & Hpr & _ & _ & ->).
  exists cp, q, h. split; [exact Hcp|]. split; [exact Hq|].
  split; [exact Hh|]. split; [reflexivity|].
  exact (states_store_same h (set_context from pr) pr k Hpr eq_refl).
Qed.

Lemma resume_view c p k k' :
  resume c p k = Some k' -> cpus k' = cpus k /\ states k' = states k.
Proof.
  unfold resume. intros H.
  apply bind_Some in H as (pr & Hpr & H).
  destruct (context pr); try discriminate H;
    try (apply release_proc_view in H; exact H).
  apply release_proc_view in H as [-> ->].
  split; [reflexivity|]. eapply states_store_same; [exact Hpr|reflexivity].
Qed.

Lemma freeproc_view p k k' :
  freeproc p k = Some k' ->
  cpus k' = cpus k /\ states k' = <[p := UNUSED]> (states k).
Proof.
  unfold freeproc. intros H. apply bind_Some in H as (pr & _ & H).
  injection H as <-. split; [reflexivity|]. apply states_store.
Qed.

Lemma allocproc_found_view c p mem_ok k r k' :
  allocproc_found c p mem_ok k = Some (r, k') ->
  cpus k' = cpus k /\
  ((r = Some p /\ states k' = <[p := USED]> (states k)) \/
   (r = None /\ states k' = <[p := UNUSED]> (states k))).
Proof.
  unfold allocproc_found. intros H.
  apply bind_Some in H as (pr & Hpr & H).
  destruct mem_ok.
  - injection H as <- <-. split; [reflexivity|]. left.
    split; [reflexivity|].
    rewrite !states_store. simpl. rewrite list_insert_insert_eq. reflexivity.
  - apply bind_Some in H as (k1 & Hk1 & H).
    apply bind_Some in H as (k2 & Hk2 & H). injection H as <- <-.
    apply freeproc_view in Hk1 as [Hc1 Hs1].
    apply release_proc_view in Hk2 as [-> ->].
    rewrite Hc1, Hs1. split; [reflexivity|]. right. split; [reflexivity|].
    rewrite states_store, list_insert_insert_eq. reflexivity.
Qed.

Lemma states_reparent p k : states (reparent p k) = states k.
Proof.
  unfold states, reparent. simpl. rewrite <- list_fmap_compose.
  apply list_fmap_ext. intros i pp _. simpl.
  destruct (ptr_eqb (parent pp) (Some p)); reflexivity.
Qed.

(** ** The effect of one event *)

Lemma not_switched_top p : SchedTop <> SchedSwitched p.
Proof. discriminate. Qed.

Lemma not_switched_got q p : SchedGot q <> SchedSwitched p.
Proof. discriminate. Qed.

Lemma not_switched_resumed q p : SchedResumed q <> SchedSwitched p.
Proof. discriminate. Qed.

Lemma in_process_switched c k :
  in_process c k = true ->
  exists cp q, cpus k !! c = Some cp /\ sched_at cp = SchedSwitched q.
Proof.
  unfold in_process. destruct (cpus k !! c) as [cp|]; [|discriminate].
  destruct (sched_at cp) eqn:E; try discriminate. eauto.
Qed.

Lemma set_cpu_same c cp k :
  cpus k !! c = Some cp -> cpus (set_cpu c cp k) = cpus k.
Proof. intros H. unfold set_cpu. simpl. apply list_insert_id, H. Qed.

Lemma scheduler_get_effect c k k' :
  scheduler_get c k = Some k' -> effect c k k'.
Proof.
  unfold scheduler_get. intros H.
  apply bind_Some in H as (cp & Hcp & H).
  destruct (sched_at cp) eqn:Hat; try discriminate H.
  apply bind_Some in H as ([p k1] & Hget & H).
  apply get_view in Hget as [Hc Hs]. destruct p as [p|].
  - injection H as <-.
    apply (eff_sched c k _ cp (mkcpu (cproc cp) (SchedGot p)));
      [exact Hcp| | | |exact Hs].
    + unfold set_cpu. simpl. rewrite Hc. reflexivity.
    + intros q. rewrite Hat. discriminate.
    + intros q. discriminate.
  - injection H as <-. apply eff_none; assumption.
Qed.

Lemma scheduler_run_effect c k k' :
  scheduler_run c k = Some k' -> effect c k k'.
Proof.
  unfold scheduler_run. intros H.
  apply bind_Some in H as (cp & Hcp & H).
  destruct (sched_at cp) eqn:Hat; try discriminate H.
  apply bind_Some in H as (k1 & Hk1 & H).
  apply bind_Some in H as (pr & Hpr & H).
  apply acquire_proc_view in Hk1 as [Hc1 Hs1].
  destruct (procstate_eqb (state pr) RUNNABLE) eqn:Hst.
  - apply resume_view in H as [Hc Hs].
    apply procstate_eqb_eq in Hst.
    apply (eff_run c k k' cp p); [exact Hcp|exact Hat| | |].
    + rewrite Hc. unfold set_cpu. simpl. rewrite Hc1. reflexivity.
    + rewrite <- Hs1, <- Hst. apply states_lookup, Hpr.
    + rewrite Hs.
      change (states (set_cpu ?a ?b ?x)) with (states x).
      rewrite states_store, Hs1. reflexivity.
  - apply bind_Some in H as (k2 & Hk2 & H). injection H as <-.
    apply release_proc_view in Hk2 as [Hc2 Hs2].
    apply (eff_sched c k _ cp (mkcpu (cproc cp) SchedTop)); [exact Hcp| | | |].
    + unfold set_cpu. simpl. congruence.
    + intros q. rewrite Hat. discriminate.
    + intros q. discriminate.
    + change (states (set_cpu ?a ?b ?x)) with (states x). congruence.
Qed.

Lemma scheduler_back_effect c k k' :
  scheduler_back c k = Some k' -> effect c k k'.
Proof.
  unfold scheduler_back. intros H.
  apply bind_Some in H as (cp & Hcp & H).
  destruct (sched_at cp) eqn:Hat; try discriminate H.
  apply bind_Some in H as (k1 & Hk1 & H).
  apply release_proc_view in H as [Hc Hs].
  assert (Hv : cpus k1 = cpus k /\ states k1 = states k).
  { destruct (cproc cp) as [q|]; [|injection Hk1 as <-; auto].
    apply bind_Some in Hk1 as (pr & Hpr & Hk1).
    destruct (procstate_eqb (state pr) RUNNABLE) eqn:Hst;
      [|injection Hk1 as <-; auto].
    apply procstate_eqb_eq in Hst.
    apply put_view in Hk1 as [Hc1 Hs1]. split; [exact Hc1|].
    rewrite Hs1. apply list_insert_id. rewrite <- Hst.
    apply states_lookup, Hpr. }
  destruct Hv as [Hc1 Hs1].
  apply (eff_sched c k _ cp (mkcpu None SchedTop)); [exact Hcp| | | |].
  - rewrite Hc. unfold set_cpu. simpl. rewrite Hc1. reflexivity.
  - intros q. rewrite Hat. discriminate.
  - intros q. discriminate.
  - rewrite Hs. change (states (set_cpu ?a ?b ?x)) with (states x).
    exact Hs1.
Qed.

Lemma yield_effect c k k' : yield c k = Some k' -> effect c k k'.
Proof.
  unfold yield, myproc. intros H.
  apply bind_Some in H as (p & Hp & H).
  apply bind_Some in Hp as (cp & Hcp & Hp). injection Hp as <-.
  apply bind_Some in H as (h & Hh & H).
  apply bind_Some in H as (k1 & Hk1 & H).
  apply bind_Some in H as (k2 & Hk2 & H).
  apply acquire_proc_view in Hk1 as [Hc1 Hs1].
  rewrite Hh in Hk2. apply put_view in Hk2 as [Hc2 Hs2].
  apply sched_view in H
    as (cp' & q & h' & Hcp' & Hq & Hh' & Hc & Hs).
  assert (cp' = cp) by congruence. subst cp'.
  assert (h' = h) by congruence. subst h'.
  apply (eff_leave c k k' cp q h RUNNABLE);
    [exact Hcp|exact Hq|exact Hh|congruence|constructor|congruence].
Qed.

Lemma sleep_effect c ch k k' : sleep c ch k = Some k' -> effect c k k'.
Proof.
  unfold sleep, myproc. intros H.
  apply bind_Some in H as (p & Hp & H).
  apply bind_Some in Hp as (cp & Hcp & Hp). injection Hp as <-.
  apply bind_Some in H as (h & Hh & H).
  apply bind_Some in H as (k1 & Hk1 & H).
  apply bind_Some in H as (pr & Hpr & H).
  apply acquire_proc_view in Hk1 as [Hc1 Hs1].
  apply sched_view in H
    as (cp' & q & h' & Hcp' & Hq & Hh' & Hc & Hs).
  change (cpus (store ?a ?b ?x)) with (cpus x) in *.
  rewrite states_store in Hs. simpl in Hs.
  assert (cp' = cp) by congruence. subst cp'.
  assert (h' = h) by congruence. subst h'.
  apply (eff_leave c k k' cp q h SLEEPING);
    [exact Hcp|exact Hq|exact Hh|congruence|constructor|congruence].
Qed.

Lemma exit_effect c status k k' : exit c status k = Some k' -> effect c k k'.
Proof.
  unfold exit, myproc. intros H.
  apply bind_Some in H as (p & Hp & H).
  apply bind_Some in Hp as (cp & Hcp & Hp). injection Hp as <-.
  apply bind_Some in H as (h & Hh & H).
  destruct (ptr_eqb (cproc cp) (initproc k)); [discriminate|].
  apply bind_Some in H as (k1 & Hk1 & H).
  apply bind_Some in H as (pr & Hpr & H).
  apply acquire_proc_view in Hk1 as [Hc1 Hs1].
  rewrite states_reparent in Hs1.
  change (cpus (reparent ?a ?x)) with (cpus x) in Hc1.
  apply sched_view in H
    as (cp' & q & h' & Hcp' & Hq & Hh' & Hc & Hs).
  change (cpus (store ?a ?b ?x)) with (cpus x) in *.
  rewrite states_store in Hs. simpl in Hs.
  assert (cp' = cp) by congruence. subst cp'.
  assert (h' = h) by congruence. subst h'.
  apply (eff_leave c k k' cp q h ZOMBIE);
    [exact Hcp|exact Hq|exact Hh|congruence|constructor|congruence].
Qed.

Lemma wakeup_at_effect c ch p k k' :
  wakeup_at c ch p k = Some k' -> effect c k k'.
Proof.
  unfold wakeup_at. intros H.
  apply bind_Some in H as (me & _ & H).
  destruct (ptr_eqb (Some p) me).
  { injection H as <-. apply eff_none; reflexivity. }
  apply bind_Some in H as (k1 & Hk1 & H).
  apply bind_Some in H as (pr & Hpr & H).
  apply bind_Some in H as (k2 & Hk2 & H).
  apply acquire_proc_view in Hk1 as [Hc1 Hs1].
  apply release_proc_view in H as [Hc Hs].
  apply states_lookup in Hpr. rewrite Hs1 in Hpr.
  destruct (procstate_eqb (state pr) SLEEPING) eqn:Hst; simpl in Hk2.
  - apply procstate_eqb_eq in Hst. rewrite Hst in Hpr.
    destruct (chan pr =? ch).
    + apply put_view in Hk2 as [Hc2 Hs2].
      apply (eff_other c k k' p SLEEPING RUNNABLE);
        [congruence|exact Hpr|discriminate|discriminate|constructor
        |congruence].
    + injection Hk2 as <-. apply eff_none; congruence.
  - injection Hk2 as <-. apply eff_none; congruence.
Qed.

Lemma kill_at_effect c target p k r k' :
  kill_at c target p k = Some (r, k') -> effect c k k'.
Proof.
  unfold kill_at. intros H.
  apply bind_Some in H as (k1 & Hk1 & H).
  apply bind_Some in H as (pr & Hpr & H).
  apply acquire_proc_view in Hk1 as [Hc1 Hs1].
  pose proof (states_lookup _ _ _ Hpr) as Hsp. rewrite Hs1 in Hsp.
  destruct (pid pr =? target).
  - apply bind_Some in H as (k2 & Hk2 & H).
    apply bind_Some in H as (k3 & Hk3 & H). injection H as _ <-.
    apply release_proc_view in Hk3 as [Hc3 Hs3].
    assert (Hs0 : states (store p (set_killed 1 pr) k1) = states k)
      by (rewrite <- Hs1;
          exact (states_store_same p (set_killed 1 pr) pr k1 Hpr eq_refl)).
    change (cpus (store ?a ?b ?x)) with (cpus x) in *.
    destruct (procstate_eqb (state pr) SLEEPING) eqn:Hst.
    + apply procstate_eqb_eq in Hst. rewrite Hst in Hsp.
      apply put_view in Hk2 as [Hc2 Hs2].
      change (cpus (store ?a ?b ?x)) with (cpus x) in *.
      apply (eff_other c k k3 p SLEEPING RUNNABLE);
        [congruence|exact Hsp|discriminate|discriminate|constructor
        |congruence].
    + injection Hk2 as <-.
      change (cpus (store ?a ?b ?x)) with (cpus x) in *.
      apply eff_none; congruence.
  - apply bind_Some in H as (k3 & Hk3 & H). injection H as _ <-.
    apply release_proc_view in Hk3 as [Hc3 Hs3].
    apply eff_none; congruence.
Qed.

Lemma fork_alloc_effect c np mem_ok copy_ok k k' :
  fork_alloc c np mem_ok copy_ok k = Some k' -> effect c k k'.
Proof.
  unfold fork_alloc. intros H.
  apply bind_Some in H as (k1 & Hk1 & H).
  apply bind_Some in H as (pr & Hpr & H).
  apply acquire_proc_view in Hk1 as [Hc1 Hs1].
  apply states_lookup in Hpr. rewrite Hs1 in Hpr.
  destruct (procstate_eqb (state pr) UNUSED) eqn:Hst; [|discriminate].
  apply procstate_eqb_eq in Hst. rewrite Hst in Hpr.
  apply bind_Some in H as ([r k2] & Hk2 & H).
  apply allocproc_found_view in Hk2 as [Hc2 [[-> Hs2]|[-> Hs2]]].
  - destruct copy_ok.
    + apply release_proc_view in H as [Hc Hs].
      apply (eff_other c k k' np UNUSED USED);
        [congruence|exact Hpr|discriminate|discriminate|constructor
        |congruence].
    + apply bind_Some in H as (k3 & Hk3 & H).
      apply freeproc_view in Hk3 as [Hc3 Hs3].
      apply release_proc_view in H as [Hc Hs].
      apply eff_none; [congruence|].
      rewrite Hs, Hs3, Hs2, Hs1, list_insert_insert_eq.
      apply list_insert_id, Hpr.
  - injection H as <-. apply eff_none; [congruence|].
    rewrite Hs2, Hs1. apply list_insert_id, Hpr.
Qed.

Lemma fork_put_effect c np k k' : fork_put c np k = Some k' -> effect c k k'.
Proof.
  unfold fork_put. intros H.
  apply bind_Some in H as (me & _ & H).
  apply bind_Some in H as (pr & Hpr & H).
  destruct (procstate_eqb (state pr) USED) eqn:Hst; [|discriminate].
  apply procstate_eqb_eq in Hst.
  apply put_view in H as [Hc Hs].
  change (cpus (store ?a ?b ?x)) with (cpus x) in *.
  rewrite (states_store_same np (set_parent me pr) pr k Hpr eq_refl) in Hs.
  apply states_lookup in Hpr. rewrite Hst in Hpr.
  apply (eff_other c k k' np USED RUNNABLE);
    [exact Hc|exact Hpr|discriminate|discriminate|constructor|exact Hs].
Qed.

Lemma wait_at_effect c np copy_ok k r k' :
  wait_at c np copy_ok k = Some (r, k') -> effect c k k'.
Proof.
  unfold wait_at. intros H.
  apply bind_Some in H as (me & _ & H).
  apply bind_Some in H as (pr0 & _ & H).
  destruct (ptr_eqb (parent pr0) me);
    [|injection H as _ <-; apply eff_none; reflexivity].
  apply bind_Some in H as (k1 & Hk1 & H).
  apply bind_Some in H as (pr & Hpr & H).
  apply acquire_proc_view in Hk1 as [Hc1 Hs1].
  apply states_lookup in Hpr. rewrite Hs1 in Hpr.
  destruct (procstate_eqb (state pr) ZOMBIE) eqn:Hst.
  - apply procstate_eqb_eq in Hst. rewrite Hst in Hpr.
    destruct copy_ok.
    + apply bind_Some in H as (k2 & Hk2 & H).
      apply bind_Some in H as (k3 & Hk3 & H). injection H as _ <-.
      apply freeproc_view in Hk2 as [Hc2 Hs2].
      apply release_proc_view in Hk3 as [Hc3 Hs3].
      apply (eff_other c k k3 np ZOMBIE UNUSED);
        [congruence|exact Hpr|discriminate|discriminate|constructor
        |congruence].
    + apply bind_Some in H as (k3 & Hk3 & H). injection H as _ <-.
      apply release_proc_view in Hk3 as [Hc3 Hs3].
      apply eff_none; congruence.
  - apply bind_Some in H as (k3 & Hk3 & H). injection H as _ <-.
    apply release_proc_view in Hk3 as [Hc3 Hs3].
    apply eff_none; congruence.
Qed.

Lemma effect_ext c k0 k k' :
  cpus k0 = cpus k -> states k0 = states k ->
  effect c k0 k' -> effect c k k'.
Proof.
  intros Hc Hs H.
  destruct H as [H1 H2|h s s' H1 H2 H3 H4 H5 H6|cp cp' H1 H2 H3 H4 H5
                |cp p H1 H2 H3 H4 H5|cp q h s' H1 H2 H3 H4 H5 H6];
    rewrite ?Hc, ?Hs in *.
  - apply eff_none; assumption.
  - apply (eff_other c k k' h s s'); assumption.
  - apply (eff_sched c k k' cp cp'); assumption.
  - apply (eff_run c k k' cp p); assumption.
  - apply (eff_leave c k k' cp q h s'); assumption.
Qed.

Lemma timer_routine_effect c h k k' :
  timer_routine c (Some h) k = Some k' -> effect c k k'.
Proof.
  unfold timer_routine. intros H. cbn [mbind option_bind] in H.
  apply bind_Some in H as (pr & Hpr & H).
  pose proof (states_store_same h (set_cpu_burst (C.add (cpu_burst pr) 1) pr)
                pr k Hpr eq_refl) as Hs0.
  match type of H with
  | (if ?b then _ else _) = _ => destruct b
  end.
  - apply yield_effect in H. eapply effect_ext; [| |exact H].
    + reflexivity.
    + exact Hs0.
  - injection H as <-. apply eff_none; [reflexivity|exact Hs0].
Qed.

Lemma step_effect ev k k' :
  step ev k = Some k' -> exists c, effect c k k'.
Proof.
  intros H. destruct ev; cbn [step] in H;
    try (destruct (in_process c k); [|discriminate H]).
  - exists c. eapply scheduler_get_effect; eauto.
  - exists c. eapply scheduler_run_effect; eauto.
  - exists c. eapply scheduler_back_effect; eauto.
  - exists c. eapply yield_effect; eauto.
  - exists c. eapply sleep_effect; eauto.
  - exists c. eapply exit_effect; eauto.
  - exists c. destruct (interruptible c k); [|discriminate H].
    eapply wakeup_at_effect; eauto.
  - exists c. apply fmap_Some in H as ([r k1] & H & ->).
    eapply kill_at_effect; eauto.
  - exists c. eapply fork_alloc_effect; eauto.
  - exists c. eapply fork_put_effect; eauto.
  - exists c. apply fmap_Some in H as ([r k1] & H & ->).
    eapply wait_at_effect; eauto.
  - exists c. apply bind_Some in H as (p & Hp & H).
    destruct p as [h|]; [|discriminate H].
    eapply timer_routine_effect; eauto.
  - exists 0%nat. injection H as <-. apply eff_none; reflexivity.
  - exists c. apply fmap_Some in H as ([r k1] & H & ->).
    apply change_sched_view in H as [Hc Hs]. apply eff_none; assumption.
Qed.

(** ** Running processes and CPUs *)

Lemma lookup_insert_Some_eq {A} (l : list A) i x y :
  l !! i = Some y -> <[i := x]> l !! i = Some x.
Proof. intros H. apply list_lookup_insert_eq. eapply lookup_lt_Some, H. Qed.

Lemma edge_from_running s : edge RUNNING s -> s <> RUNNING.
Proof. inversion 1; discriminate. Qed.

Lemma effect_running_inv c k k' :
  effect c k k' -> running_inv k -> running_inv k'.
Proof.
  intros H (HA & HD & HE).
  destruct H as [Hc Hs|h s s' Hc Hh Hs Hs' _ Hst|cp cp' Hcp Hc Hn Hn' Hst
                |cp p Hcp Hat Hc Hp Hst|cp q h s' Hcp Hat Hh Hc He Hst].
  - unfold running_inv. rewrite Hc, Hs. auto.
  - unfold running_inv. rewrite Hc, Hst. split; [|split; [exact HD|]].
    + intros c' cp p Hcp Hat. destruct (HA c' cp p Hcp Hat) as [Hcp' Hr].
      split; [exact Hcp'|].
      rewrite list_lookup_insert_ne; [exact Hr|]. congruence.
    + intros p Hr. apply HE.
      destruct (decide (h = p)) as [->|Hne].
      * rewrite (lookup_insert_Some_eq _ _ _ _ Hh) in Hr. congruence.
      * rewrite list_lookup_insert_ne in Hr by exact Hne. exact Hr.
  - unfold running_inv. rewrite Hc, Hst. split; [|split].
    + intros c' cp0 p Hcp0 Hat. destruct (decide (c' = c)) as [->|Hne].
      * rewrite (lookup_insert_Some_eq _ _ _ _ Hcp) in Hcp0.
        injection Hcp0 as <-. destruct (Hn' p Hat).
      * rewrite list_lookup_insert_ne in Hcp0 by congruence. eauto.
    + intros c1 c2 cp1 cp2 p H1 H2 Hat1 Hat2.
      destruct (decide (c1 = c)) as [->|Hne1].
      { rewrite (lookup_insert_Some_eq _ _ _ _ Hcp) in H1.
        injection H1 as <-. destruct (Hn' p Hat1). }
      destruct (decide (c2 = c)) as [->|Hne2].
      { rewrite (lookup_insert_Some_eq _ _ _ _ Hcp) in H2.
        injection H2 as <-. destruct (Hn' p Hat2). }
      rewrite list_lookup_insert_ne in H1, H2 by congruence. eauto.
    + intros p Hr. destruct (HE p Hr) as (c0 & cp0 & Hcp0 & Hat0).
      exists c0, cp0. split; [|exact Hat0].
      rewrite list_lookup_insert_ne; [exact Hcp0|].
      intros <-. assert (cp0 = cp) by congruence. subst cp0.
      destruct (Hn p Hat0).
  - unfold running_inv. rewrite Hc, Hst. split; [|split].
    + intros c' cp0 p' Hcp0 Hat0. destruct (decide (c' = c)) as [->|Hne].
      * rewrite (lookup_insert_Some_eq _ _ _ _ Hcp) in Hcp0.
        injection Hcp0 as <-. simpl in Hat0. injection Hat0 as <-.
        split; [reflexivity|]. eapply lookup_insert_Some_eq; eauto.
      * rewrite list_lookup_insert_ne in Hcp0 by congruence.
        destruct (HA c' cp0 p' Hcp0 Hat0) as [Hcp' Hr].
        split; [exact Hcp'|].
        rewrite list_lookup_insert_ne; [exact Hr|]. congruence.
    + intros c1 c2 cp1 cp2 p' H1 H2 Hat1 Hat2.
      destruct (decide (c1 = c)) as [->|Hne1];
        destruct (decide (c2 = c)) as [->|Hne2]; try reflexivity.
      * rewrite (lookup_insert_Some_eq _ _ _ _ Hcp) in H1.
        injection H1 as <-. simpl in Hat1. injection Hat1 as <-.
        rewrite list_lookup_insert_ne in H2 by congruence.
        destruct (HA c2 cp2 p H2 Hat2) as [_ Hr]. congruence.
      * rewrite (lookup_insert_Some_eq _ _ _ _ Hcp) in H2.
        injection H2 as <-. simpl in Hat2. injection Hat2 as <-.
        rewrite list_lookup_insert_ne in H1 by congruence.
        destruct (HA c1 cp1 p H1 Hat1) as [_ Hr]. congruence.
      * rewrite list_lookup_insert_ne in H1, H2 by congruence. eauto.
    + intros p' Hr. destruct (decide (p' = p)) as [->|Hne].
      * exists c, (mkcpu (Some p) (SchedSwitched p)).
        split; [eapply lookup_insert_Some_eq; eauto|reflexivity].
      * rewrite list_lookup_insert_ne in Hr by congruence.
        destruct (HE p' Hr) as (c0 & cp0 & Hcp0 & Hat0).
        exists c0, cp0. split; [|exact Hat0].
        rewrite list_lookup_insert_ne; [exact Hcp0|].
        intros <-. assert (cp0 = cp) by congruence. subst cp0. congruence.
  - destruct (HA c cp q Hcp Hat) as [Hq Hrun].
    assert (q = h) by congruence. subst q.
    pose proof (edge_from_running _ He) as Hs'.
    unfold running_inv. rewrite Hc, Hst. split; [|split].
    + intros c' cp0 p Hcp0 Hat0. destruct (decide (c' = c)) as [->|Hne].
      * rewrite (lookup_insert_Some_eq _ _ _ _ Hcp) in Hcp0.
        injection Hcp0 as <-. discriminate Hat0.
      * rewrite list_lookup_insert_ne in Hcp0 by congruence.
        destruct (HA c' cp0 p Hcp0 Hat0) as [Hcp' Hr].
        split; [exact Hcp'|].
        rewrite list_lookup_insert_ne; [exact Hr|].
        intros <-. apply Hne. eapply HD; eauto.
    + intros c1 c2 cp1 cp2 p H1 H2 Hat1 Hat2.
      destruct (decide (c1 = c)) as [->|Hne1].
      { rewrite (lookup_insert_Some_eq _ _ _ _ Hcp) in H1.
        injection H1 as <-. discriminate Hat1. }
      destruct (decide (c2 = c)) as [->|Hne2].
      { rewrite (lookup_insert_Some_eq _ _ _ _ Hcp) in H2.
        injection H2 as <-. discriminate Hat2. }
      rewrite list_lookup_insert_ne in H1, H2 by congruence. eauto.
    + intros p Hr. destruct (decide (h = p)) as [->|Hne].
      { rewrite (lookup_insert_Some_eq _ _ _ _ Hrun) in Hr. congruence. }
      rewrite list_lookup_insert_ne in Hr by exact Hne.
      destruct (HE p Hr) as (c0 & cp0 & Hcp0 & Hat0).
      exists c0, cp0. split; [|exact Hat0].
      rewrite list_lookup_insert_ne; [exact Hcp0|].
      intros <-. assert (cp0 = cp) by congruence. subst cp0. congruence.
Qed.

Lemma boot_running_inv : running_inv boot.
Proof.
  assert (Hc : forallb (fun cp => match sched_at cp with
                                  | SchedSwitched _ => false
                                  | _ => true
                                  end) (cpus boot) = true)
    by (vm_compute; reflexivity).
  assert (Hs : forallb (fun s => negb (procstate_eqb s RUNNING))
                 (states boot) = true) by (vm_compute; reflexivity).
  rewrite forallb_forall in Hc, Hs.
  assert (Hno : forall c cp p, cpus boot !! c = Some cp ->
                               sched_at cp = SchedSwitched p -> False).
  { intros c cp p Hcp Hat.
    assert (Hin : In cp (cpus boot))
      by (apply list_elem_of_In, list_elem_of_lookup; eauto).
    specialize (Hc cp Hin). rewrite Hat in Hc. discriminate. }
  split; [|split].
  - intros c cp p Hcp Hat. destruct (Hno c cp p Hcp Hat).
  - intros c1 c2 cp1 cp2 p H1 _ Hat1 _. destruct (Hno c1 cp1 p H1 Hat1).
  - intros p Hp. exfalso.
    assert (Hin : In RUNNING (states boot))
      by (apply list_elem_of_In, list_elem_of_lookup; eauto).
    specialize (Hs RUNNING Hin). discriminate.
Qed.

Lemma reachable_running_inv k : reachable k -> running_inv k.
Proof.
  induction 1 as [k Hk|ev k k' _ IH Hstep].
  - rewrite boot_eq in Hk. injection Hk as <-. apply boot_running_inv.
  - destruct (step_effect _ _ _ Hstep) as [c He].
    eapply effect_running_inv; eauto.
Qed.
(** ** A process leaving the CPU through [yield] *)

Lemma sched_ok from c k cp q h pr :
  cpus k !! c = Some cp -> sched_at cp = SchedSwitched q ->
  cproc cp = Some h -> proc_table k !! h = Some pr ->
  lock pr = Some c -> state pr <> RUNNING ->
  sched from c k
  = Some (set_cpu c (mkcpu (Some h) (SchedResumed q))
            (store h (set_context from pr) k)).
Proof.
  intros Hcp Hat Hh Hpr Hl Hst. unfold sched, myproc.
  rewrite Hcp. cbn [mbind option_bind]. rewrite Hh. cbn [mbind option_bind].
  rewrite Hpr. cbn [mbind option_bind]. rewrite Hl, holding_self.
  cbn [negb]. cbv iota.
  assert (Hne : procstate_eqb (state pr) RUNNING = false)
    by (destruct (state pr); try reflexivity; congruence).
  rewrite Hne, Hat. reflexivity.
Qed.

Lemma yield_ok c k cp p q pr :
  sched_wf k -> cpus k !! c = Some cp ->
  sched_at cp = SchedSwitched q -> cproc cp = Some p ->
  proc_table k !! p = Some pr -> lock pr = None ->
  heap_size (proc_sched k) < Z.of_nat NPROC ->
  exists k' pr',
    yield c k = Some k' /\ sched_wf k' /\
    heap_size (proc_sched k') = heap_size (proc_sched k) + 1 /\
    queue k' ≡ₚ queue k ++ [Some p] /\
    proc_table k' = <[p := pr']> (proc_table k) /\
    state pr' = RUNNABLE /\ lock pr' = Some c /\
    context pr' = CtxYield /\
    cpus k' = <[c := mkcpu (Some p) (SchedResumed q)]> (cpus k) /\
    same_policy k k'.
Proof.
  intros Hwf Hcp Hat Hp Hpr Hl Hn.
  set (k0 := store p (set_lock (Some c) pr) k).
  assert (Hwf0 : sched_wf k0) by (apply sched_wf_store, Hwf).
  assert (Hpr0 : proc_table k0 !! p = Some (set_lock (Some c) pr))
    by (eapply lookup_store_eq; eauto).
  destruct (put_ok c p k0 _ Hwf0 Hpr0 (or_intror eq_refl) Hn)
    as (k1 & pr1 & Hput & Hsz & Hq & Hwf1 & Htbl & Hst & Hl1 & _ & Hc1
        & Hpol).
  assert (Hpr1 : proc_table k1 !! p = Some pr1).
  { rewrite Htbl. eapply lookup_insert_Some_eq; eauto. }
  exists (set_cpu c (mkcpu (Some p) (SchedResumed q))
            (store p (set_context CtxYield pr1) k1)),
         (set_context CtxYield pr1).
  split.
  { unfold yield, myproc. rewrite Hcp. cbn [mbind option_bind].
    rewrite Hp. cbn [mbind option_bind].
    rewrite (acquire_proc_free c p k pr Hpr Hl). cbn [mbind option_bind].
    fold k0. rewrite Hput. cbn [mbind option_bind].
    apply (sched_ok CtxYield c k1 cp q p pr1);
      [rewrite Hc1; exact Hcp|exact Hat|exact Hp|exact Hpr1|exact Hl1|].
    rewrite Hst. discriminate. }
  split; [apply sched_wf_set_cpu, sched_wf_store, Hwf1|].
  split; [exact Hsz|]. split; [exact Hq|].
  split.
  { cbn [proc_table set_cpu set_cpus store set_proc_table].
    rewrite Htbl. unfold k0. cbn [proc_table store set_proc_table].
    rewrite !list_insert_insert_eq. reflexivity. }
  split; [exact Hst|]. split; [exact Hl1|]. split; [reflexivity|].
  split; [|exact Hpol].
  cbn [cpus set_cpu set_cpus store set_proc_table]. rewrite Hc1. reflexivity.
Qed.

Lemma put_head c h k k' :
  put c (Some h) k = Some k' -> is_Some (proc_table k !! 0%nat).
Proof.
  unfold put. intros H.
  apply bind_Some in H as (pr0 & Hpr0 & H).
  apply bind_Some in H as (k1 & Hk1 & H).
  apply bind_Some in H as (k2 & Hk2 & H).
  apply bind_Some in H as (head & Hhead & _).
  apply acquire_sched_spec in Hk2 as [_ ->].
  cbn [proc_table set_proc_sched] in Hhead.
  apply lookup_lt_is_Some_2.
  apply lookup_lt_Some in Hhead.
  destruct (holding c (lock pr0)).
  - injection Hk1 as <-. exact Hhead.
  - apply acquire_proc_spec in Hk1 as (? & _ & _ & ->).
    cbn [proc_table store set_proc_table] in Hhead.
    rewrite length_insert in Hhead. exact Hhead.
Qed.

Lemma put_context c h k k' pr pr' :
  put c (Some h) k = Some k' -> proc_table k !! h = Some pr ->
  proc_table k' !! h = Some pr' -> context pr' = context pr.
Proof.
  intros Hput Hpr Hpr'.
  destruct (put_head _ _ _ _ Hput) as [head Hhead].
  destruct (put_fields _ _ _ _ _ _ Hput Hpr Hhead) as (pr1 & Htbl & H).
  rewrite Htbl, (lookup_insert_Some_eq _ _ _ _ Hpr) in Hpr'.
  injection Hpr' as <-. apply H.
Qed.

Lemma scheduler_back_ok c k cp p pr :
  sched_wf k -> cpus k !! c = Some cp ->
  sched_at cp = SchedResumed p -> cproc cp = Some p ->
  proc_table k !! p = Some pr -> lock pr = Some c ->
  state pr = RUNNABLE ->
  heap_size (proc_sched k) < Z.of_nat NPROC ->
  exists k' pr',
    scheduler_back c k = Some k' /\ sched_wf k' /\
    heap_size (proc_sched k') = heap_size (proc_sched k) + 1 /\
    queue k' ≡ₚ queue k ++ [Some p] /\
    proc_table k' = <[p := pr']> (proc_table k) /\
    state pr' = RUNNABLE /\ exe_time pr' = 0 /\ lock pr' = None /\
    context pr' = context pr /\
    cpus k' = <[c := mkcpu None SchedTop]> (cpus k) /\
    same_policy k k'.
Proof.
  intros Hwf Hcp Hat Hp Hpr Hl Hst Hn.
  destruct (put_ok c p k pr Hwf Hpr (or_intror Hl) Hn)
    as (k1 & pr1 & Hput & Hsz & Hq & Hwf1 & Htbl & Hst1 & Hl1 & Hexe & Hc1
        & Hpol).
  assert (Hpr1 : proc_table k1 !! p = Some pr1).
  { rewrite Htbl. eapply lookup_insert_Some_eq; eauto. }
  exists (store p (set_lock None pr1) (set_cpu c (mkcpu None SchedTop) k1)),
         (set_lock None pr1).
  split.
  { unfold scheduler_back. rewrite Hcp. cbn [mbind option_bind].
    rewrite Hat, Hp, Hpr. cbn [mbind option_bind]. rewrite Hst.
    cbn [procstate_eqb]. rewrite Hput. cbn [mbind option_bind].
    apply release_proc_held; [exact Hpr1|congruence]. }
  split; [apply sched_wf_store, sched_wf_set_cpu, Hwf1|].
  split; [exact Hsz|]. split; [exact Hq|].
  split.
  { cbn [proc_table set_cpu set_cpus store set_proc_table].
    rewrite Htbl, list_insert_insert_eq. reflexivity. }
  split; [exact Hst1|].
  split; [apply Hexe; rewrite Hst; discriminate|].
  split; [reflexivity|].
  split; [exact (put_context _ _ _ _ _ _ Hput Hpr Hpr1)|].
  split; [|exact Hpol].
  cbn [cpus set_cpu set_cpus store set_proc_table]. rewrite Hc1. reflexivity.
Qed.

(** ** The scheduler dispatching a process *)

Lemma scheduler_get_ok c k cp :
  sched_wf k -> cpus k !! c = Some cp -> sched_at cp = SchedTop ->
  heap_size (proc_sched k) <> 0 ->
  exists h pr k',
    heap (proc_sched k) !! 0%nat = Some (Some h) /\
    proc_table k !! h = Some pr /\
    scheduler_get c k = Some k' /\ sched_wf k' /\
    heap_size (proc_sched k') = heap_size (proc_sched k) - 1 /\
    Some h :: queue k' ≡ₚ queue k /\
    proc_table k' =
      <[h := if algorithm (proc_sched k) =? 1
             then set_timeslice (cfs_slice k pr) (set_cpu_burst 0 pr)
             else set_cpu_burst 0 pr]> (proc_table k) /\
    cpus k' = <[c := mkcpu (cproc cp) (SchedGot h)]> (cpus k) /\
    same_policy k k'.
Proof.
  intros Hwf Hcp Hat Hne.
  destruct (get_ok c k Hwf Hne)
    as (h & pr & k1 & Hroot & Hpr & Hget & Hsz & Hq & Hwf1 & Htbl & Hc
        & Hpol).
  exists h, pr, (set_cpu c (mkcpu (cproc cp) (SchedGot h)) k1).
  split; [exact Hroot|]. split; [exact Hpr|]. split.
  { unfold scheduler_get. rewrite Hcp. cbn [mbind option_bind].
    rewrite Hat, Hget. reflexivity. }
  split; [apply sched_wf_set_cpu, Hwf1|].
  split; [exact Hsz|]. split; [exact Hq|]. split; [exact Htbl|].
  split; [|exact Hpol].
  cbn [cpus set_cpu set_cpus]. rewrite Hc. reflexivity.
Qed.

Lemma scheduler_run_ok c k cp p pr :
  cpus k !! c = Some cp -> sched_at cp = SchedGot p ->
  proc_table k !! p = Some pr -> lock pr = None ->
  state pr = RUNNABLE ->
  context pr = CtxYield \/ context pr = CtxForkret ->
  scheduler_run c k
  = Some (store p (set_lock None (set_state RUNNING (set_lock (Some c) pr)))
            (set_cpu c (mkcpu (Some p) (SchedSwitched p))
               (store p (set_state RUNNING (set_lock (Some c) pr))
                  (store p (set_lock (Some c) pr) k)))).
Proof.
  intros Hcp Hat Hpr Hl Hst Hctx.
  unfold scheduler_run. rewrite Hcp. cbn [mbind option_bind]. rewrite Hat.
  rewrite (acquire_proc_free c p k pr Hpr Hl). cbn [mbind option_bind].
  rewrite (lookup_store_eq p pr _ k Hpr). cbn [mbind option_bind].
  change (state (set_lock (Some c) pr)) with (state pr). rewrite Hst.
  cbn [procstate_eqb]. unfold resume.
  set (k1 := store p (set_lock (Some c) pr) k).
  assert (Hpr1 : proc_table k1 !! p = Some (set_lock (Some c) pr))
    by (eapply lookup_store_eq; eauto).
  set (pr2 := set_state RUNNING (set_lock (Some c) pr)).
  set (k2 := set_cpu c _ (store p pr2 k1)).
  assert (Hpr2 : proc_table k2 !! p = Some pr2)
    by (exact (lookup_store_eq p _ pr2 k1 Hpr1)).
  rewrite Hpr2. cbn [mbind option_bind].
  change (context pr2) with (context pr).
  destruct Hctx as [-> | ->];
    apply release_proc_held; try exact Hpr2; reflexivity.
Qed.

(** ** A lone process that keeps being preempted *)

Lemma lone_round c p m k :
  lone c p m k -> Z.of_nat m + 2 <= Z.of_nat NPROC ->
  exists k', run (yield_round c) k = Some k' /\ lone c p (S m) k'.
Proof.
  intros (Hwf & Hcp & (pr & Hpr & Hl & Hst) & Hq & Hsz) Hm.
  destruct (yield_ok c k _ p p pr Hwf Hcp eq_refl eq_refl Hpr Hl)
    as (k1 & pr1 & Hy & Hwf1 & Hsz1 & Hq1 & Htbl1 & Hst1 & Hl1 & Hctx1
        & Hc1 & _); [lia|].
  assert (Hpr1 : proc_table k1 !! p = Some pr1)
    by (rewrite Htbl1; eapply lookup_insert_Some_eq; eauto).
  assert (Hcp1 : cpus k1 !! c = Some (mkcpu (Some p) (SchedResumed p)))
    by (rewrite Hc1; eapply lookup_insert_Some_eq; eauto).
  destruct (scheduler_back_ok c k1 _ p pr1 Hwf1 Hcp1 eq_refl eq_refl Hpr1
              Hl1 Hst1)
    as (k2 & pr2 & Hb & Hwf2 & Hsz2 & Hq2 & Htbl2 & Hst2 & _ & Hl2 & Hctx2
        & Hc2 & _); [lia|].
  assert (Hpr2 : proc_table k2 !! p = Some pr2)
    by (rewrite Htbl2; eapply lookup_insert_Some_eq; eauto).
  assert (Hcp2 : cpus k2 !! c = Some (mkcpu None SchedTop))
    by (rewrite Hc2; eapply lookup_insert_Some_eq; eauto).
  assert (Hq2' : queue k2 = replicate (S (S m)) (Some p)).
  { symmetry. apply replicate_Permutation.
    rewrite Hq2, Hq1, Hq, !replicate_S_end. reflexivity. }
  destruct (scheduler_get_ok c k2 _ Hwf2 Hcp2 eq_refl)
    as (h & prh & k3 & Hroot & Hprh & Hg & Hwf3 & Hsz3 & Hq3 & Htbl3 & Hc3
        & _); [lia|].
  assert (h = p).
  { assert (Hin : Some h ∈ queue k2).
    { unfold queue. apply list_elem_of_lookup. exists 0%nat.
      apply lookup_take_Some. split; [exact Hroot|lia]. }
    rewrite Hq2' in Hin. apply elem_of_replicate_inv in Hin. congruence. }
  subst h. assert (prh = pr2) by congruence. subst prh.
  set (pr3 := if algorithm (proc_sched k2) =? 1
              then set_timeslice (cfs_slice k2 pr2) (set_cpu_burst 0 pr2)
              else set_cpu_burst 0 pr2) in *.
  assert (Hpr3 : proc_table k3 !! p = Some pr3)
    by (rewrite Htbl3; eapply lookup_insert_Some_eq; eauto).
  assert (Hf3 : lock pr3 = None /\ state pr3 = RUNNABLE /\
                context pr3 = CtxYield).
  { unfold pr3. destruct (algorithm (proc_sched k2) =? 1); simpl;
      repeat split; congruence. }
  destruct Hf3 as (Hl3 & Hst3 & Hctx3).
  assert (Hcp3 : cpus k3 !! c = Some (mkcpu None (SchedGot p)))
    by (rewrite Hc3; eapply lookup_insert_Some_eq; eauto).
  pose proof (scheduler_run_ok c k3 _ p pr3 Hcp3 eq_refl Hpr3 Hl3 Hst3
                (or_introl Hctx3)) as Hr.
  eexists. split.
  { unfold yield_round. cbn [run step]. unfold in_process.
    rewrite Hcp. cbn [sched_at]. rewrite Hy. cbn [mbind option_bind].
    rewrite Hb. cbn [mbind option_bind]. rewrite Hg.
    cbn [mbind option_bind]. rewrite Hr. reflexivity. }
  assert (Hq3' : queue k3 = replicate (S m) (Some p)).
  { symmetry. apply replicate_Permutation.
    apply (Permutation_cons_inv (a := Some p)).
    rewrite Hq3, Hq2'. reflexivity. }
  split; [|split; [|split; [|split]]].
  - apply sched_wf_store, sched_wf_set_cpu, sched_wf_store, sched_wf_store.
    exact Hwf3.
  - cbn [cpus store set_proc_table set_cpu set_cpus].
    eapply lookup_insert_Some_eq; eauto.
  - exists (set_lock None (set_state RUNNING (set_lock (Some c) pr3))).
    split; [|split; reflexivity].
    cbn [proc_table store set_proc_table set_cpu set_cpus].
    apply list_lookup_insert_eq. rewrite !length_insert.
    eapply lookup_lt_Some; eauto.
  - exact Hq3'.
  - change (heap_size (proc_sched k3) = Z.of_nat (S m)). lia.
Qed.

Lemma lone_rounds c p n m k :
  lone c p m k -> Z.of_nat m + Z.of_nat n + 1 <= Z.of_nat NPROC ->
  exists k', run (concat (replicate n (yield_round c))) k = Some k' /\
             lone c p (m + n) k'.
Proof.
  revert m k. induction n as [|n IH]; intros m k Hlone Hm.
  - exists k. split; [reflexivity|]. rewrite Nat.add_0_r. exact Hlone.
  - destruct (lone_round c p m k Hlone) as (k1 & Hrun1 & Hlone1); [lia|].
    destruct (IH (S m) k1 Hlone1) as (k2 & Hrun2 & Hlone2); [lia|].
    exists k2. split.
    + cbn [replicate concat]. unfold yield_round in *.
      cbn [app run] in *.
      repeat (apply bind_Some in Hrun1 as (? & -> & Hrun1);
              cbn [mbind option_bind]).
      injection Hrun1 as ->. exact Hrun2.
    + replace (m + S n)%nat with (S m + n)%nat by lia. exact Hlone2.
Qed.
(** ** The loop of [wakeup] *)

Lemma set_lock_roundtrip l pr :
  lock pr = None -> set_lock None (set_lock l pr) = pr.
Proof. destruct pr. simpl. intros ->. reflexivity. Qed.

Lemma store_id h pr k : proc_table k !! h = Some pr -> store h pr k = k.
Proof.
  intros H. unfold store. rewrite list_insert_id by exact H.
  destruct k. reflexivity.
Qed.

Lemma store_store h pr pr' k : store h pr' (store h pr k) = store h pr' k.
Proof.
  unfold store. simpl. rewrite list_insert_insert_eq. reflexivity.
Qed.

(** Taking and dropping the lock of a process leaves the kernel state as
    it was. *)
Lemma acquire_release_id c p k k1 k2 :
  acquire_proc c p k = Some k1 -> release_proc c p k1 = Some k2 -> k2 = k.
Proof.
  intros H1 H2.
  apply acquire_proc_spec in H1 as (pr & Hpr & Hl & ->).
  apply release_proc_spec in H2 as (pr1 & Hpr1 & _ & ->).
  rewrite (lookup_store_eq _ _ _ _ Hpr) in Hpr1. injection Hpr1 as <-.
  rewrite store_store, set_lock_roundtrip by exact Hl.
  apply store_id, Hpr.
Qed.

Lemma wakeup_at_round c ch p k k' me :
  wakeup_at c ch p k = Some k' -> myproc c k = Some me ->
  length (heap (proc_sched k)) = NPROC ->
  cpus k' = cpus k /\ length (heap (proc_sched k')) = NPROC /\
  (forall x, x ∈ queue k -> x ∈ queue k') /\
  (forall q, q <> p -> proc_table k' !! q = proc_table k !! q) /\
  forall pr, proc_table k !! p = Some pr ->
    if wakes ch me p pr
    then exists pr', proc_table k' !! p = Some pr' /\
                     state pr' = RUNNABLE /\ lock pr' = None /\
                     Some p ∈ queue k'
    else proc_table k' !! p = Some pr.
Proof.
  unfold wakeup_at, wakes. intros H Hme Hlen. rewrite Hme in H.
  cbn [mbind option_bind] in H.
  destruct (ptr_eqb (Some p) me).
  { injection H as <-. simpl. auto 10. }
  apply bind_Some in H as (k1 & Hk1 & H).
  apply bind_Some in H as (pr1 & Hpr1 & H).
  apply bind_Some in H as (k2 & Hk2 & H).
  cbn [negb andb].
  destruct (procstate_eqb (state pr1) SLEEPING && (chan pr1 =? ch)) eqn:Hc.
  - apply acquire_proc_spec in Hk1 as (pr & Hpr & Hl & ->).
    rewrite (lookup_store_eq _ _ _ _ Hpr) in Hpr1. injection Hpr1 as <-.
    change (state (set_lock (Some c) pr)) with (state pr) in Hc.
    change (chan (set_lock (Some c) pr)) with (chan pr) in Hc.
    destruct (put_heap _ _ _ _ Hk2 Hlen) as (_ & _ & _ & _ & Hlen2 & Hq & _).
    destruct (put_spec _ _ _ _ Hk2)
      as (pr0 & pr2 & Hpr0 & _ & Htbl & Hl2 & Hst2 & _ & Hc2 & _).
    apply release_proc_spec in H as (pr3 & Hpr3 & _ & ->).
    assert (Hpr2 : proc_table k2 !! p = Some pr2).
    { rewrite Htbl. eapply lookup_insert_Some_eq; eauto. }
    assert (pr3 = pr2) by congruence. subst pr3.
    split; [exact Hc2|]. split; [exact Hlen2|]. split.
    { intros x Hx. change (queue (store p (set_lock None pr2) k2))
        with (queue k2). rewrite Hq. apply elem_of_app. left. exact Hx. }
    split.
    { intros q Hq'. cbn [proc_table store set_proc_table].
      rewrite list_lookup_insert_ne by congruence. rewrite Htbl.
      rewrite list_lookup_insert_ne by congruence.
      cbn [proc_table store set_proc_table].
      apply list_lookup_insert_ne. congruence. }
    intros pr' Hpr'. assert (pr' = pr) by congruence. subst pr'.
    rewrite Hc. exists (set_lock None pr2).
    split; [exact (lookup_store_eq _ _ _ _ Hpr2)|].
    split; [exact Hst2|]. split; [reflexivity|].
    change (queue (store p (set_lock None pr2) k2)) with (queue k2).
    rewrite Hq. apply elem_of_app. right. apply list_elem_of_singleton.
    reflexivity.
  - injection Hk2 as <-.
    pose proof (acquire_release_id _ _ _ _ _ Hk1 H) as ->.
    apply acquire_proc_spec in Hk1 as (pr & Hpr & Hl & ->).
    rewrite (lookup_store_eq _ _ _ _ Hpr) in Hpr1. injection Hpr1 as <-.
    change (state (set_lock (Some c) pr)) with (state pr) in Hc.
    change (chan (set_lock (Some c) pr)) with (chan pr) in Hc.
    split; [reflexivity|]. split; [exact Hlen|]. split; [auto|].
    split; [auto|].
    intros pr' Hpr'. assert (pr' = pr) by congruence. subst pr'.
    rewrite Hc. exact Hpr.
Qed.

Lemma wakeup_loop_spec c ch ps k k' me :
  wakeup_loop c ch ps k = Some k' -> myproc c k = Some me ->
  length (heap (proc_sched k)) = NPROC -> NoDup ps ->
  cpus k' = cpus k /\ length (heap (proc_sched k')) = NPROC /\
  (forall x, x ∈ queue k -> x ∈ queue k') /\
  (forall q, q ∉ ps -> proc_table k' !! q = proc_table k !! q) /\
  forall p pr, p ∈ ps -> proc_table k !! p = Some pr ->
    if wakes ch me p pr
    then exists pr', proc_table k' !! p = Some pr' /\
                     state pr' = RUNNABLE /\ lock pr' = None /\
                     Some p ∈ queue k'
    else proc_table k' !! p = Some pr.
Proof.
  revert k. induction ps as [|p ps IH]; intros k H Hme Hlen Hnd.
  - injection H as <-. split; [reflexivity|]. split; [exact Hlen|].
    split; [auto|]. split; [auto|]. intros p pr Hin.
    apply elem_of_nil in Hin. destruct Hin.
  - cbn [wakeup_loop] in H. apply bind_Some in H as (k1 & Hk1 & H).
    apply NoDup_cons in Hnd as [Hnotin Hnd].
    destruct (wakeup_at_round _ _ _ _ _ _ Hk1 Hme Hlen)
      as (Hc1 & Hlen1 & Hq1 & Hoth1 & Hp1).
    assert (Hme1 : myproc c k1 = Some me)
      by (unfold myproc in *; rewrite Hc1; exact Hme).
    destruct (IH k1 H Hme1 Hlen1 Hnd) as (Hc & Hlen' & Hq & Hoth & Hps).
    split; [congruence|]. split; [exact Hlen'|]. split; [auto|].
    split.
    { intros q Hq'. apply not_elem_of_cons in Hq' as [Hne Hq'].
      rewrite Hoth by exact Hq'. apply Hoth1, Hne. }
    intros q pr Hin Hpr. apply elem_of_cons in Hin as [->|Hin].
    + specialize (Hp1 pr Hpr). destruct (wakes ch me p pr).
      * destruct Hp1 as (pr' & Hpr' & Hst & Hl & Hinq).
        exists pr'. rewrite Hoth by exact Hnotin. auto.
      * rewrite Hoth by exact Hnotin. exact Hp1.
    + assert (Hne : q <> p) by (intros ->; contradiction).
      apply Hps; [exact Hin|]. rewrite Hoth1 by exact Hne. exact Hpr.
Qed.

(** ** The loop of [kill] *)

Lemma kill_at_miss c target p k k' :
  kill_at c target p k = Some (false, k') ->
  k' = k /\ exists pr, proc_table k !! p = Some pr /\ pid pr <> target.
Proof.
  unfold kill_at. intros H.
  apply bind_Some in H as (k1 & Hk1 & H).
  apply bind_Some in H as (pr1 & Hpr1 & H).
  destruct (Z.eqb_spec (pid pr1) target) as [Heq|Hne].
  { apply bind_Some in H as (k2 & _ & H).
    apply bind_Some in H as (k3 & _ & H). discriminate H. }
  apply bind_Some in H as (k3 & Hk3 & H). injection H as <-.
  split; [eapply acquire_release_id; eauto|].
  apply acquire_proc_spec in Hk1 as (pr & Hpr & _ & ->).
  rewrite (lookup_store_eq _ _ _ _ Hpr) in Hpr1. injection Hpr1 as <-.
  exists pr. split; [exact Hpr|exact Hne].
Qed.

Lemma put_heap_size c h k k' :
  put c (Some h) k = Some k' ->
  heap_size (proc_sched k') = C.add (heap_size (proc_sched k)) 1.
Proof.
  unfold put. intros H.
  apply bind_Some in H as (pr0 & Hpr0 & H).
  apply bind_Some in H as (k1 & Hk1 & H).
  apply bind_Some in H as (k2 & Hk2 & H).
  apply bind_Some in H as (head & _ & H).
  apply bind_Some in H as (pr & _ & H).
  apply bind_Some in H as (pra & _ & H).
  apply bind_Some in H as (arr1 & _ & H).
  apply bind_Some in H as (arr2 & _ & H).
  apply bind_Some in H as (k3 & Hk3 & H).
  assert (Hs1 : proc_sched k1 = proc_sched k).
  { destruct (holding c (lock pr0)).
    - injection Hk1 as <-. reflexivity.
    - apply acquire_proc_spec in Hk1 as (? & _ & _ & ->). reflexivity. }
  apply acquire_sched_spec in Hk2 as [_ ->].
  apply release_sched_spec in Hk3 as ->.
  destruct (holding c (lock pr0)).
  - injection H as <-. simpl. rewrite Hs1. reflexivity.
  - apply release_proc_spec in H as (? & _ & _ & ->). simpl.
    rewrite Hs1. reflexivity.
Qed.

Lemma kill_at_hit c target p k k' :
  kill_at c target p k = Some (true, k') ->
  exists pr pr',
    proc_table k !! p = Some pr /\ pid pr = target /\ lock pr = None /\
    proc_table k' = <[p := pr']> (proc_table k) /\
    killed pr' = 1 /\ pid pr' = target /\ lock pr' = None /\
    state pr' = (if procstate_eqb (state pr) SLEEPING then RUNNABLE
                 else state pr) /\
    heap_size (proc_sched k')
    = (if procstate_eqb (state pr) SLEEPING
       then C.add (heap_size (proc_sched k)) 1
       else heap_size (proc_sched k)) /\
    cpus k' = cpus k.
Proof.
  unfold kill_at. intros H.
  apply bind_Some in H as (k1 & Hk1 & H).
  apply bind_Some in H as (pr1 & Hpr1 & H).
  destruct (Z.eqb_spec (pid pr1) target) as [Heq|Hne].
  2:{ apply bind_Some in H as (k3 & _ & H). discriminate H. }
  apply bind_Some in H as (k2 & Hk2 & H).
  apply bind_Some in H as (k3 & Hk3 & H). injection H as <-.
  apply acquire_proc_spec in Hk1 as (pr & Hpr & Hl & ->).
  rewrite (lookup_store_eq _ _ _ _ Hpr) in Hpr1. injection Hpr1 as <-.
  change (pid (set_lock (Some c) pr)) with (pid pr) in Heq.
  change (state (set_lock (Some c) pr)) with (state pr) in Hk2.
  rewrite store_store in Hk2.
  set (prk := set_killed 1 (set_lock (Some c) pr)) in *.
  assert (Hprk : proc_table (store p prk k) !! p = Some prk)
    by (eapply lookup_store_eq; eauto).
  exists pr. destruct (procstate_eqb (state pr) SLEEPING).
  - destruct (put_head _ _ _ _ Hk2) as [head Hhead].
    destruct (put_fields _ _ _ _ _ _ Hk2 Hprk Hhead)
      as (pr2 & Htbl & _ & _ & _ & Hst & Hl2 & _ & Hki & _ & Hpid & _).
    destruct (put_spec _ _ _ _ Hk2) as (_ & _ & _ & _ & _ & _ & _ & _ & Hc
                                         & _).
    pose proof (put_heap_size _ _ _ _ Hk2) as Hsz.
    change (proc_sched (store p prk k)) with (proc_sched k) in Hsz.
    assert (Hpr2 : proc_table k2 !! p = Some pr2).
    { rewrite Htbl. eapply lookup_insert_Some_eq; eauto. }
    apply release_proc_spec in Hk3 as (pr3 & Hpr3 & _ & ->).
    assert (pr3 = pr2) by congruence. subst pr3.
    exists (set_lock None pr2).
    split; [exact Hpr|]. split; [exact Heq|]. split; [exact Hl|].
    split.
    { cbn [proc_table store set_proc_table]. rewrite Htbl.
      cbn [proc_table store set_proc_table].
      rewrite !list_insert_insert_eq. reflexivity. }
    split; [exact Hki|]. split; [simpl; rewrite Hpid; exact Heq|].
    split; [reflexivity|]. split; [exact Hst|].
    split; [exact Hsz|exact Hc].
  - injection Hk2 as <-.
    apply release_proc_spec in Hk3 as (pr3 & Hpr3 & _ & ->).
    assert (pr3 = prk) by congruence. subst pr3.
    exists (set_lock None prk).
    split; [exact Hpr|]. split; [exact Heq|]. split; [exact Hl|].
    split.
    { cbn [proc_table store set_proc_table].
      rewrite list_insert_insert_eq. reflexivity. }
    repeat (split; [reflexivity || exact Heq|]). reflexivity.
Qed.

Lemma kill_scan_spec c target n s k r k' :
  kill_scan c target (seq s n) k = Some (r, k') ->
  (r = -1 /\ k' = k /\
   forall q pq, (s <= q < s + n)%nat -> proc_table k !! q = Some pq ->
                pid pq <> target) \/
  (r = 0 /\ exists p, (s <= p < s + n)%nat /\
     kill_at c target p k = Some (true, k') /\
     forall q pq, (s <= q < p)%nat -> proc_table k !! q = Some pq ->
                  pid pq <> target).
Proof.
  revert s k. induction n as [|n IH]; intros s k H.
  - injection H as <- <-. left. split; [reflexivity|].
    split; [reflexivity|]. intros q pq Hq. lia.
  - cbn [seq kill_scan] in H.
    apply bind_Some in H as ([found k1] & Hk1 & H). destruct found.
    + injection H as <- <-. right. split; [reflexivity|].
      exists s. split; [lia|]. split; [exact Hk1|]. intros q pq Hq. lia.
    + apply kill_at_miss in Hk1 as (-> & pr & Hpr & Hne).
      destruct (IH _ _ H) as [(Hr & Hk & Hall)|(Hr & p & Hp & Hat & Hall)].
      * left. split; [exact Hr|]. split; [exact Hk|].
        intros q pq Hq Hpq. destruct (decide (q = s)) as [->|Hqs].
        -- congruence.
        -- apply (Hall q pq); [lia|exact Hpq].
      * right. split; [exact Hr|]. exists p. split; [lia|].
        split; [exact Hat|].
        intros q pq Hq Hpq. destruct (decide (q = s)) as [->|Hqs].
        -- congruence.
        -- apply (Hall q pq); [lia|exact Hpq].
Qed.

(** ** The search of [allocproc] *)

Lemma allocproc_scan_spec c mem_ok n s k r k' :
  allocproc_scan c mem_ok (seq s n) k = Some (r, k') ->
  (r = None /\ k' = k /\
   forall q pq, (s <= q < s + n)%nat -> proc_table k !! q = Some pq ->
                state pq <> UNUSED) \/
  (exists p pr, (s <= p < s + n)%nat /\
     proc_table k !! p = Some pr /\ state pr = UNUSED /\ lock pr = None /\
     (forall q pq, (s <= q < p)%nat -> proc_table k !! q = Some pq ->
                   state pq <> UNUSED) /\
     allocproc_found c p mem_ok (store p (set_lock (Some c) pr) k)
     = Some (r, k')).
Proof.
  revert s k. induction n as [|n IH]; intros s k H.
  - injection H as <- <-. left. split; [reflexivity|].
    split; [reflexivity|]. intros q pq Hq. lia.
  - cbn [seq allocproc_scan] in H.
    apply bind_Some in H as (k1 & Hk1 & H).
    apply bind_Some in H as (pr1 & Hpr1 & H).
    destruct (procstate_eqb (state pr1) UNUSED) eqn:Hst.
    + apply procstate_eqb_eq in Hst.
      apply acquire_proc_spec in Hk1 as (pr & Hpr & Hl & ->).
      rewrite (lookup_store_eq _ _ _ _ Hpr) in Hpr1. injection Hpr1 as <-.
      right. exists s, pr. split; [lia|]. split; [exact Hpr|].
      split; [exact Hst|]. split; [exact Hl|]. split; [|exact H].
      intros q pq Hq. lia.
    + apply bind_Some in H as (k2 & Hk2 & H).
      pose proof (acquire_release_id _ _ _ _ _ Hk1 Hk2) as ->.
      apply acquire_proc_spec in Hk1 as (pr & Hpr & Hl & ->).
      rewrite (lookup_store_eq _ _ _ _ Hpr) in Hpr1. injection Hpr1 as <-.
      change (state (set_lock (Some c) pr)) with (state pr) in Hst.
      assert (Hne : state pr <> UNUSED)
        by (intros E; rewrite E in Hst; discriminate).
      destruct (IH _ _ H)
        as [(Hr & Hk & Hall)|(p & pr' & Hp & Hpr' & Hst' & Hl' & Hall & Hf)].
      * left. split; [exact Hr|]. split; [exact Hk|].
        intros q pq Hq Hpq. destruct (decide (q = s)) as [->|Hqs].
        -- congruence.
        -- apply (Hall q pq); [lia|exact Hpq].
      * right. exists p, pr'. split; [lia|]. split; [exact Hpr'|].
        split; [exact Hst'|]. split; [exact Hl'|]. split; [|exact Hf].
        intros q pq Hq Hpq. destruct (decide (q = s)) as [->|Hqs].
        -- congruence.
        -- apply (Hall q pq); [lia|exact Hpq].
Qed.

Lemma allocproc_found_spec c p mem_ok k pr r k' :
  proc_table k !! p = Some pr -> lock pr = None ->
  allocproc_found c p mem_ok (store p (set_lock (Some c) pr) k)
  = Some (r, k') ->
  nextpid k' = C.add (nextpid k) 1 /\ cpus k' = cpus k /\
  proc_sched k' = proc_sched k /\ initproc k' = initproc k /\
  ticks k' = ticks k /\
  if mem_ok
  then r = Some p /\
       proc_table k'
       = <[p := mkproc (Some c) USED (chan pr) (killed pr) (xstate pr)
                  (nextpid k) (parent pr) CtxForkret 0 0 0 0 0]>
           (proc_table k)
  else r = None /\ proc_table k' = <[p := free_entry pr]> (proc_table k).
Proof.
  intros Hpr Hl. unfold allocproc_found.
  cbn [proc_table set_nextpid store set_proc_table nextpid].
  rewrite (lookup_insert_Some_eq _ _ _ _ Hpr). cbn [mbind option_bind].
  destruct mem_ok.
  - intros H. injection H as <- <-.
    cbn [nextpid cpus proc_sched initproc ticks store set_proc_table
         set_nextpid proc_table].
    do 5 (split; [reflexivity|]). split; [reflexivity|].
    rewrite !list_insert_insert_eq. destruct pr. reflexivity.
  - intros H. apply bind_Some in H as (k1 & Hk1 & H).
    apply bind_Some in H as (k2 & Hk2 & H). injection H as <- <-.
    unfold freeproc in Hk1.
    cbn [proc_table set_nextpid store set_proc_table] in Hk1.
    rewrite list_insert_insert_eq,
      (lookup_insert_Some_eq _ _ _ _ Hpr) in Hk1.
    cbn [mbind option_bind] in Hk1. injection Hk1 as <-.
    apply release_proc_spec in Hk2 as (pr2 & Hpr2 & _ & ->).
    cbn [proc_table set_nextpid store set_proc_table] in Hpr2.
    rewrite !list_insert_insert_eq,
      (lookup_insert_Some_eq _ _ _ _ Hpr) in Hpr2.
    injection Hpr2 as <-.
    cbn [nextpid cpus proc_sched initproc ticks store set_proc_table
         set_nextpid proc_table].
    do 5 (split; [reflexivity|]). split; [reflexivity|].
    rewrite !list_insert_insert_eq. destruct pr. reflexivity.
Qed.

(** ** [exit] *)

Lemma lookup_reparent p k q pq :
  proc_table (reparent p k) !! q = Some pq ->
  exists pq0, proc_table k !! q = Some pq0 /\
    pq = (if ptr_eqb (parent pq0) (Some p)
          then set_parent (initproc k) pq0 else pq0).
Proof.
  unfold reparent. cbn [proc_table set_proc_table].
  rewrite list_lookup_fmap. intros H.
  destruct (proc_table k !! q) as [pq0|]; [|discriminate].
  injection H as <-. eauto.
Qed.

Lemma ptr_eqb_eq x y : ptr_eqb x y = true <-> x = y.
Proof.
  destruct x as [x|], y as [y|]; simpl; try (split; congruence).
  rewrite Nat.eqb_eq. split; congruence.
Qed.

Lemma exit_spec c status k k' cp :
  exit c status k = Some k' -> cpus k !! c = Some cp ->
  exists p pr0,
    cproc cp = Some p /\ initproc k <> Some p /\
    proc_table (reparent p k) !! p = Some pr0 /\ lock pr0 = None /\
    k' = set_cpu c (mkcpu (Some p) (SchedResumed
                                      match sched_at cp with
                                      | SchedSwitched q => q
                                      | _ => p
                                      end))
           (store p (set_context CtxExit
                       (set_state ZOMBIE
                          (set_xstate status (set_lock (Some c) pr0))))
              (reparent p k)).
Proof.
  unfold exit, myproc. intros H Hcp. rewrite Hcp in H.
  cbn [mbind option_bind] in H.
  destruct (cproc cp) as [p|] eqn:Hp; [|discriminate].
  cbn [mbind option_bind] in H.
  destruct (ptr_eqb (Some p) (initproc k)) eqn:Hinit; [discriminate|].
  apply bind_Some in H as (k1 & Hk1 & H).
  apply bind_Some in H as (pr1 & Hpr1 & H).
  apply acquire_proc_spec in Hk1 as (pr0 & Hpr0 & Hl0 & ->).
  rewrite (lookup_store_eq _ _ _ _ Hpr0) in Hpr1. injection Hpr1 as <-.
  rewrite store_store in H.
  apply sched_spec in H
    as (h & pr & cp' & q & Hcp' & Hh & Hq & Hpr & _ & _ & ->).
  change (cpus (store ?a ?b (reparent ?y ?x))) with (cpus x) in Hcp'.
  assert (cp' = cp) by congruence. subst cp'.
  assert (h = p) by congruence. subst h.
  rewrite (lookup_store_eq _ _ _ _ Hpr0) in Hpr. injection Hpr as <-.
  exists p, pr0. split; [reflexivity|]. split.
  { intros E. rewrite E in Hinit. simpl in Hinit.
    rewrite Nat.eqb_refl in Hinit. discriminate. }
  split; [exact Hpr0|]. split; [exact Hl0|].
  rewrite Hq, store_store. reflexivity.
Qed.
(** ** Timer interrupts *)

Lemma set_cpu_burst_twice v w pr :
  set_cpu_burst v (set_cpu_burst w pr) = set_cpu_burst v pr.
Proof. reflexivity. Qed.

Lemma set_cpu_burst_same pr : set_cpu_burst (cpu_burst pr) pr = pr.
Proof. destruct pr. reflexivity. Qed.

Lemma timer_routine_count c h k pr :
  proc_table k !! h = Some pr ->
  (algorithm (proc_sched k) =? 0) && (is_preemptive (proc_sched k) =? 1)
  = false ->
  timeslice pr = 0 \/ C.add (cpu_burst pr) 1 <> timeslice pr ->
  timer_routine c (Some h) k
  = Some (store h (set_cpu_burst (C.add (cpu_burst pr) 1) pr) k).
Proof.
  intros Hpr Hpol Hts. unfold timer_routine. cbn [mbind option_bind].
  rewrite Hpr. cbn [mbind option_bind].
  cbn [timeslice cpu_burst set_cpu_burst proc_sched store set_proc_table].
  rewrite Hpol, orb_false_r.
  destruct Hts as [-> | Hne]; [reflexivity|].
  destruct (Z.eqb_spec (C.add (cpu_burst pr) 1) (timeslice pr));
    [contradiction|].
  rewrite andb_false_r. reflexivity.
Qed.

Lemma timer_routine_expire c h k pr :
  proc_table k !! h = Some pr ->
  timeslice pr <> 0 -> C.add (cpu_burst pr) 1 = timeslice pr ->
  timer_routine c (Some h) k
  = yield c (store h (set_cpu_burst (timeslice pr) pr) k).
Proof.
  intros Hpr Hnz Heq. unfold timer_routine. cbn [mbind option_bind].
  rewrite Hpr. cbn [mbind option_bind].
  cbn [timeslice cpu_burst set_cpu_burst proc_sched store set_proc_table].
  rewrite Heq, Z.eqb_refl.
  destruct (Z.eqb_spec (timeslice pr) 0); [contradiction|]. reflexivity.
Qed.

Lemma timer_ticks_count n c h k pr :
  proc_table k !! h = Some pr -> cpu_burst pr = 0 ->
  (algorithm (proc_sched k) =? 0) && (is_preemptive (proc_sched k) =? 1)
  = false ->
  timeslice pr <= 0 \/ Z.of_nat n < timeslice pr ->
  Z.of_nat n < C.INT_HALF ->
  timer_ticks n c h k = Some (store h (set_cpu_burst (Z.of_nat n) pr) k).
Proof.
  intros Hpr Hcb Hpol. induction n as [|n IH]; intros Hts Hn.
  - cbn [timer_ticks]. change (Z.of_nat 0) with 0. rewrite <- Hcb.
    rewrite set_cpu_burst_same, store_id by exact Hpr. reflexivity.
  - cbn [timer_ticks]. rewrite IH by lia. cbn [mbind option_bind].
    rewrite (timer_routine_count c h _ (set_cpu_burst (Z.of_nat n) pr)).
    + rewrite store_store. cbn [cpu_burst set_cpu_burst].
      unfold C.add. rewrite to_int_small
        by (unfold C.in_int, C.INT_HALF in *; lia).
      replace (Z.of_nat n + 1) with (Z.of_nat (S n)) by lia. reflexivity.
    + eapply lookup_store_eq; eauto.
    + exact Hpol.
    + cbn [cpu_burst timeslice set_cpu_burst]. unfold C.add.
      rewrite to_int_small by (unfold C.in_int, C.INT_HALF in *; lia).
      destruct (Z.eq_dec (timeslice pr) 0); [left; assumption|right; lia].
Qed.

(** ** [fork] *)

Lemma mul_zero x : C.mul x 0 = 0.
Proof. unfold C.mul. rewrite Z.mul_0_r. reflexivity. Qed.

Lemma put_globals c h k k' :
  put c (Some h) k = Some k' ->
  nextpid k' = nextpid k /\ initproc k' = initproc k /\ ticks k' = ticks k.
Proof.
  unfold put. intros H.
  apply bind_Some in H as (pr0 & Hpr0 & H).
  apply bind_Some in H as (k1 & Hk1 & H).
  apply bind_Some in H as (k2 & Hk2 & H).
  apply bind_Some in H as (head & _ & H).
  apply bind_Some in H as (pr & _ & H).
  apply bind_Some in H as (pra & _ & H).
  apply bind_Some in H as (arr1 & _ & H).
  apply bind_Some in H as (arr2 & _ & H).
  apply bind_Some in H as (k3 & Hk3 & H).
  assert (Hs1 : nextpid k1 = nextpid k /\ initproc k1 = initproc k /\
                ticks k1 = ticks k).
  { destruct (holding c (lock pr0)).
    - injection Hk1 as <-. auto.
    - apply acquire_proc_spec in Hk1 as (? & _ & _ & ->). auto. }
  apply acquire_sched_spec in Hk2 as [_ ->].
  apply release_sched_spec in Hk3 as ->.
  destruct (holding c (lock pr0)).
  - injection H as <-. exact Hs1.
  - apply release_proc_spec in H as (? & _ & _ & ->). exact Hs1.
Qed.

Lemma fork_ok c k cp q p np pr :
  sched_wf k -> cpus k !! c = Some cp ->
  sched_at cp = SchedSwitched q -> cproc cp = Some p ->
  proc_table k !! np = Some pr -> state pr = UNUSED -> lock pr = None ->
  heap_size (proc_sched k) < Z.of_nat NPROC ->
  exists k' pr',
    run [EvForkAlloc c np true true; EvForkPut c np] k = Some k' /\
    proc_table k' = <[np := pr']> (proc_table k) /\
    pid pr' = nextpid k /\ parent pr' = Some p /\
    state pr' = RUNNABLE /\ lock pr' = None /\
    context pr' = CtxForkret /\
    cpu_burst pr' = 0 /\ cpu_burst_aprox pr' = 0 /\ exe_time pr' = 0 /\
    timeslice pr' = 0 /\
    nextpid k' = C.add (nextpid k) 1 /\
    heap_size (proc_sched k') = heap_size (proc_sched k) + 1 /\
    queue k' ≡ₚ queue k ++ [Some np] /\
    sched_wf k' /\ cpus k' = cpus k.
Proof.
  intros Hwf Hcp Hat Hp Hpr Hst Hl Hn.
  set (k1 := store np (set_lock (Some c) pr) k).
  destruct (allocproc_found c np true k1) as [[r k2]|] eqn:Hfound.
  2:{ exfalso. unfold allocproc_found, k1 in Hfound.
      cbn [proc_table set_nextpid store set_proc_table] in Hfound.
      rewrite (lookup_insert_Some_eq _ _ _ _ Hpr) in Hfound.
      discriminate Hfound. }
  destruct (allocproc_found_spec c np true k pr r k2 Hpr Hl Hfound)
    as (Hnp2 & Hc2 & Hs2 & _ & Htk2 & -> & Htbl2).
  set (pr2 := mkproc (Some c) USED (chan pr) (killed pr) (xstate pr)
                (nextpid k) (parent pr) CtxForkret 0 0 0 0 0) in *.
  assert (Hpr2 : proc_table k2 !! np = Some pr2)
    by (rewrite Htbl2; eapply lookup_insert_Some_eq; eauto).
  set (k3 := store np (set_lock None pr2) k2).
  assert (Halloc : fork_alloc c np true true k = Some k3).
  { unfold fork_alloc. rewrite (acquire_proc_free c np k pr Hpr Hl).
    cbn [mbind option_bind]. fold k1.
    assert (Hpr1 : proc_table k1 !! np = Some (set_lock (Some c) pr))
      by (eapply lookup_store_eq; eauto).
    rewrite Hpr1. cbn [mbind option_bind].
    change (state (set_lock (Some c) pr)) with (state pr). rewrite Hst.
    cbn [procstate_eqb]. rewrite Hfound. cbn [mbind option_bind].
    apply release_proc_held; [exact Hpr2|reflexivity]. }
  set (pr3 := set_parent (Some p) (set_lock None pr2)).
  set (k4 := store np pr3 k3).
  assert (Hwf4 : sched_wf k4).
  { apply sched_wf_store, sched_wf_store.
    eapply sched_wf_ext; [exact Hs2| |exact Hwf].
    rewrite Htbl2. apply length_insert. }
  assert (Hpr4 : proc_table k4 !! np = Some pr3).
  { unfold k4, k3. eapply lookup_store_eq. eapply lookup_store_eq; eauto. }
  destruct (put_ok c np k4 pr3 Hwf4 Hpr4 (or_introl eq_refl))
    as (k5 & pr5 & Hput & Hsz & Hq & Hwf5 & Htbl5 & Hst5 & Hl5 & Hexe & Hc5
        & _).
  { change (proc_sched k4) with (proc_sched k2). rewrite Hs2. exact Hn. }
  destruct (put_head _ _ _ _ Hput) as [head Hhead].
  destruct (put_fields _ _ _ _ _ _ Hput Hpr4 Hhead)
    as (pr5' & Htbl5' & Hap & _ & _ & _ & _ & _ & _ & _ & Hpid & Hpar
        & Hctx & Hcb & Hts).
  assert (pr5' = pr5).
  { assert (H1 : proc_table k5 !! np = Some pr5')
      by (rewrite Htbl5'; eapply lookup_insert_Some_eq; eauto).
    rewrite Htbl5, (lookup_insert_Some_eq _ _ _ _ Hpr4) in H1.
    congruence. }
  subst pr5'.
  exists k5, pr5. split.
  { cbn [run step]. unfold in_process. rewrite Hcp, Hat.
    rewrite Halloc. cbn [mbind option_bind].
    change (cpus k3) with (cpus k2). rewrite Hc2, Hcp, Hat.
    unfold fork_put, myproc. change (cpus k3) with (cpus k2).
    rewrite Hc2, Hcp. cbn [mbind option_bind].
    assert (Hpr3 : proc_table k3 !! np = Some (set_lock None pr2))
      by (eapply lookup_store_eq; eauto).
    rewrite Hpr3. cbn [mbind option_bind]. rewrite Hp.
    change (state (set_lock None pr2)) with USED. cbn [procstate_eqb].
    fold pr3. fold k4. rewrite Hput. reflexivity. }
  split.
  { rewrite Htbl5. unfold k4, k3.
    cbn [proc_table store set_proc_table]. rewrite Htbl2.
    rewrite !list_insert_insert_eq. reflexivity. }
  split; [exact Hpid|]. split; [exact Hpar|]. split; [exact Hst5|].
  split; [exact Hl5|]. split; [exact Hctx|]. split; [exact Hcb|].
  split.
  { rewrite Hap. change (cpu_burst pr3) with 0.
    change (cpu_burst_aprox pr3) with 0. rewrite !mul_zero.
    destruct (procstate_eqb (state head) RUNNING); reflexivity. }
  split; [apply Hexe; discriminate|]. split; [exact Hts|].
  split.
  { rewrite (proj1 (put_globals _ _ _ _ Hput)).
    change (nextpid k4) with (nextpid k2). exact Hnp2. }
  split; [rewrite Hsz; change (proc_sched k4) with (proc_sched k2);
          rewrite Hs2; reflexivity|].
  split; [rewrite Hq; change (queue k4) with (queue k2); unfold queue;
          rewrite Hs2; reflexivity|].
  split; [exact Hwf5|]. rewrite Hc5. change (cpus k4) with (cpus k2).
  exact Hc2.
Qed.

(** ** The scheduler's dispatch, [sleep] and [wait] *)

Lemma set_cpu_store c cp p pr k :
  set_cpu c cp (store p pr k) = store p pr (set_cpu c cp k).
Proof. reflexivity. Qed.

Lemma scheduler_run_stale c k cp p pr :
  cpus k !! c = Some cp -> sched_at cp = SchedGot p ->
  proc_table k !! p = Some pr -> lock pr = None ->
  state pr <> RUNNABLE ->
  scheduler_run c k = Some (set_cpu c (mkcpu (cproc cp) SchedTop) k).
Proof.
  intros Hcp Hat Hpr Hl Hst.
  unfold scheduler_run. rewrite Hcp. cbn [mbind option_bind]. rewrite Hat.
  rewrite (acquire_proc_free c p k pr Hpr Hl). cbn [mbind option_bind].
  rewrite (lookup_store_eq p pr _ k Hpr). cbn [mbind option_bind].
  change (state (set_lock (Some c) pr)) with (state pr).
  assert (Hne : procstate_eqb (state pr) RUNNABLE = false)
    by (destruct (state pr); try reflexivity; congruence).
  rewrite Hne.
  rewrite (release_proc_held c p _ (set_lock (Some c) pr)
             (lookup_store_eq p pr _ k Hpr) eq_refl).
  cbn [mbind option_bind].
  rewrite store_store, set_lock_roundtrip by exact Hl.
  rewrite (store_id p pr k Hpr). reflexivity.
Qed.

Lemma scheduler_run_dispatch c k cp p pr :
  cpus k !! c = Some cp -> sched_at cp = SchedGot p ->
  proc_table k !! p = Some pr -> lock pr = None ->
  state pr = RUNNABLE ->
  context pr = CtxYield \/ context pr = CtxForkret \/ context pr = CtxSleep ->
  scheduler_run c k
  = Some (set_cpu c (mkcpu (Some p) (SchedSwitched p))
            (store p (set_state RUNNING
                        (match context pr with
                         | CtxSleep => set_chan 0 pr
                         | _ => pr
                         end)) k)).
Proof.
  intros Hcp Hat Hpr Hl Hst Hctx.
  unfold scheduler_run. rewrite Hcp. cbn [mbind option_bind]. rewrite Hat.
  rewrite (acquire_proc_free c p k pr Hpr Hl). cbn [mbind option_bind].
  rewrite (lookup_store_eq p pr _ k Hpr). cbn [mbind option_bind].
  change (state (set_lock (Some c) pr)) with (state pr). rewrite Hst.
  cbn [procstate_eqb]. unfold resume.
  set (k1 := store p (set_lock (Some c) pr) k).
  assert (Hpr1 : proc_table k1 !! p = Some (set_lock (Some c) pr))
    by (eapply lookup_store_eq; eauto).
  set (pr2 := set_state RUNNING (set_lock (Some c) pr)).
  set (k2 := set_cpu c _ (store p pr2 k1)).
  assert (Hpr2 : proc_table k2 !! p = Some pr2)
    by (exact (lookup_store_eq p _ pr2 k1 Hpr1)).
  rewrite Hpr2. cbn [mbind option_bind].
  change (context pr2) with (context pr).
  assert (Hfin : forall x, lock x = Some c ->
            store p (set_lock None x) (set_cpu c
              (mkcpu (Some p) (SchedSwitched p)) (store p pr2 k1))
            = set_cpu c (mkcpu (Some p) (SchedSwitched p))
                (store p (set_lock None x) k)).
  { intros x _. unfold k1. rewrite !set_cpu_store, !store_store.
    reflexivity. }
  destruct pr as [l st ch ki xs pi pa ctx cb ap ex ts tsl].
  cbn [lock state context] in *. subst l st.
  destruct Hctx as [-> | [-> | ->]].
  - rewrite (release_proc_held c p k2 pr2 Hpr2 eq_refl).
    unfold k2. rewrite (Hfin pr2 eq_refl). reflexivity.
  - rewrite (release_proc_held c p k2 pr2 Hpr2 eq_refl).
    unfold k2. rewrite (Hfin pr2 eq_refl). reflexivity.
  - rewrite (release_proc_held c p _ (set_chan 0 pr2)
               (lookup_store_eq p _ _ k2 Hpr2) eq_refl).
    unfold k2. rewrite store_store, (Hfin (set_chan 0 pr2) eq_refl).
    reflexivity.
Qed.

Lemma sleep_ok c ch k cp q p pr :
  cpus k !! c = Some cp -> sched_at cp = SchedSwitched q ->
  cproc cp = Some p -> proc_table k !! p = Some pr -> lock pr = None ->
  sleep c ch k
  = Some (set_cpu c (mkcpu (Some p) (SchedResumed q))
            (store p (set_context CtxSleep
                        (set_state SLEEPING
                           (set_chan ch (set_lock (Some c) pr)))) k)).
Proof.
  intros Hcp Hat Hp Hpr Hl. unfold sleep, myproc.
  rewrite Hcp. cbn [mbind option_bind]. rewrite Hp. cbn [mbind option_bind].
  rewrite (acquire_proc_free c p k pr Hpr Hl). cbn [mbind option_bind].
  rewrite (lookup_store_eq p pr _ k Hpr). cbn [mbind option_bind].
  rewrite store_store.
  set (prs := set_state SLEEPING (set_chan ch (set_lock (Some c) pr))).
  rewrite (sched_ok CtxSleep c (store p prs k) cp q p prs Hcp Hat Hp
             (lookup_store_eq p pr _ k Hpr) eq_refl);
    [|discriminate].
  rewrite store_store. reflexivity.
Qed.

Lemma scheduler_back_idle c k cp p pr :
  cpus k !! c = Some cp -> sched_at cp = SchedResumed p ->
  cproc cp = Some p -> proc_table k !! p = Some pr ->
  lock pr = Some c -> state pr <> RUNNABLE ->
  scheduler_back c k
  = Some (store p (set_lock None pr) (set_cpu c (mkcpu None SchedTop) k)).
Proof.
  intros Hcp Hat Hp Hpr Hl Hst.
  unfold scheduler_back. rewrite Hcp. cbn [mbind option_bind].
  rewrite Hat, Hp, Hpr. cbn [mbind option_bind].
  assert (Hne : procstate_eqb (state pr) RUNNABLE = false)
    by (destruct (state pr); try reflexivity; congruence).
  rewrite Hne. cbn [mbind option_bind].
  apply release_proc_held; [exact Hpr|exact Hl].
Qed.

Lemma wakeup_at_ok c ch p k cp pr :
  sched_wf k -> cpus k !! c = Some cp -> cproc cp <> Some p ->
  proc_table k !! p = Some pr -> lock pr = None ->
  state pr = SLEEPING -> chan pr = ch ->
  heap_size (proc_sched k) < Z.of_nat NPROC ->
  exists k' pr',
    wakeup_at c ch p k = Some k' /\
    proc_table k' = <[p := pr']> (proc_table k) /\
    state pr' = RUNNABLE /\ lock pr' = None /\
    heap_size (proc_sched k') = heap_size (proc_sched k) + 1 /\
    queue k' ≡ₚ queue k ++ [Some p] /\
    sched_wf k' /\ cpus k' = cpus k.
Proof.
  intros Hwf Hcp Hme Hpr Hl Hst Hch Hn.
  set (k1 := store p (set_lock (Some c) pr) k).
  assert (Hwf1 : sched_wf k1) by (apply sched_wf_store, Hwf).
  assert (Hpr1 : proc_table k1 !! p = Some (set_lock (Some c) pr))
    by (eapply lookup_store_eq; eauto).
  destruct (put_ok c p k1 _ Hwf1 Hpr1 (or_intror eq_refl) Hn)
    as (k2 & pr2 & Hput & Hsz & Hq & Hwf2 & Htbl & Hst2 & Hl2 & _ & Hc2
        & _).
  assert (Hpr2 : proc_table k2 !! p = Some pr2)
    by (rewrite Htbl; eapply lookup_insert_Some_eq; eauto).
  exists (store p (set_lock None pr2) k2), (set_lock None pr2).
  split.
  { unfold wakeup_at, myproc. rewrite Hcp. cbn [mbind option_bind].
    assert (Hneq : ptr_eqb (Some p) (cproc cp) = false).
    { destruct (ptr_eqb (Some p) (cproc cp)) eqn:E; [|reflexivity].
      apply ptr_eqb_eq in E. congruence. }
    rewrite Hneq. rewrite (acquire_proc_free c p k pr Hpr Hl).
    cbn [mbind option_bind]. fold k1. rewrite Hpr1.
    cbn [mbind option_bind].
    change (state (set_lock (Some c) pr)) with (state pr).
    change (chan (set_lock (Some c) pr)) with (chan pr).
    rewrite Hst, Hch, Z.eqb_refl. cbn [procstate_eqb andb].
    rewrite Hput. cbn [mbind option_bind].
    apply release_proc_held; [exact Hpr2|exact Hl2]. }
  split.
  { cbn [proc_table store set_proc_table]. rewrite Htbl. unfold k1.
    cbn [proc_table store set_proc_table].
    rewrite !list_insert_insert_eq. reflexivity. }
  split; [exact Hst2|]. split; [reflexivity|]. split; [exact Hsz|].
  split; [exact Hq|]. split; [apply sched_wf_store, Hwf2|exact Hc2].
Qed.
(** ** The ready heap: invariant, [put], [get], [change_sched] *)

(** X1.  In every state the kernel reaches from boot through events
    that have a result (in particular, without a [put] on a full heap,
    which stores outside the array, see X16), between two events the
    scheduler lock is free, [heap_size] is not negative, and every
    occupied slot of the heap array points to an entry of the process
    table.  No bound on [heap_size] is part of the invariant: [put] does
    not test it. *)
Theorem ready_heap_well_formed k :
  reachable k ->
  sp_lock (proc_sched k) = None /\
  length (heap (proc_sched k)) = NPROC /\
  0 <= heap_size (proc_sched k) /\
  forall i, 0 <= i < heap_size (proc_sched k) -> i < Z.of_nat NPROC ->
    exists h pr, heap (proc_sched k) !! Z.to_nat i = Some (Some h) /\
                 proc_table k !! h = Some pr.
Proof.
  intros Hr. destruct (reachable_sched_wf k Hr) as (Hl & Hlen & Hn & He).
  split; [exact Hl|]. split; [exact Hlen|]. split; [lia|].
  intros i Hi _. destruct (He i Hi) as (h & Hh & Hlt).
  destruct (lookup_lt_is_Some_2 (proc_table k) h Hlt) as [pr Hpr].
  exists h, pr. split; [exact Hh|exact Hpr].
Qed.

Lemma ready_heap_well_formed_witness :
  heap_size (proc_sched (state_after trace_stale_slice)) = 2 /\
  exists h pr,
    heap (proc_sched (state_after trace_stale_slice)) !! 1%nat
    = Some (Some h) /\
    proc_table (state_after trace_stale_slice) !! h = Some pr.
Proof.
  assert (Hsz : heap_size (proc_sched (state_after trace_stale_slice)) = 2)
    by (vm_compute; reflexivity).
  split; [exact Hsz|].
  assert (Hr : reachable (state_after trace_stale_slice)).
  { apply reachable_state_after.
    - vm_compute. reflexivity.
    - vm_compute. reflexivity. }
  destruct (ready_heap_well_formed _ Hr) as (_ & _ & _ & He).
  apply (He 1).
  - rewrite Hsz. lia.
  - vm_compute. reflexivity.
Defined.

(** X2.  [put(p)] with a well-formed, not full heap and [p->lock] free or
    held by the caller returns; it puts [p] in the heap once more
    ([heap_size] grows by one, the occupied slots are those of before and
    [p], in some order), leaves the heap well formed, the CPUs and the
    policy as they were, and [p] RUNNABLE with its lock as before. *)
Theorem put_enqueues c h k pr :
  sched_wf k -> proc_table k !! h = Some pr ->
  lock pr = None \/ lock pr = Some c ->
  heap_size (proc_sched k) < Z.of_nat NPROC ->
  exists k' pr',
    put c (Some h) k = Some k' /\
    heap_size (proc_sched k') = heap_size (proc_sched k) + 1 /\
    queue k' ≡ₚ queue k ++ [Some h] /\
    sched_wf k' /\
    proc_table k' = <[h := pr']> (proc_table k) /\
    state pr' = RUNNABLE /\ lock pr' = lock pr /\
    cpus k' = cpus k /\ same_policy k k'.
Proof.
  intros Hwf Hpr Hlk Hn.
  destruct (put_ok c h k pr Hwf Hpr Hlk Hn)
    as (k' & pr' & Hput & Hsz & Hq & Hwf' & Htbl & Hst & Hl & _ & Hc & Hpol).
  exists k', pr'. auto 10.
Qed.

Lemma put_enqueues_witness :
  exists k',
    put 0 (Some 1%nat) (state_after trace_sleeper) = Some k' /\
    heap_size (proc_sched k') = 1.
Proof.
  assert (Hwf : sched_wf (state_after trace_sleeper))
    by (apply sched_wfb_sound; vm_compute; reflexivity).
  assert (Hpr : proc_table (state_after trace_sleeper) !! 1%nat
                = Some (proc_of (state_after trace_sleeper) 1))
    by (vm_compute; reflexivity).
  assert (Hlk : lock (proc_of (state_after trace_sleeper) 1) = None)
    by (vm_compute; reflexivity).
  assert (Hsz : heap_size (proc_sched (state_after trace_sleeper)) = 0)
    by (vm_compute; reflexivity).
  destruct (put_enqueues 0 1 _ _ Hwf Hpr (or_introl Hlk))
    as (k' & pr' & Hput & Hn & _).
  - rewrite Hsz. vm_compute. reflexivity.
  - exists k'. split; [exact Hput|]. rewrite Hn, Hsz. reflexivity.
Defined.

(** X3.  [get()] on an empty heap returns the null pointer and leaves the
    kernel state as it was. *)
Theorem get_empty c k :
  sp_lock (proc_sched k) = None -> heap_size (proc_sched k) = 0 ->
  get c k = Some (None, k).
Proof.
  intros Hl Hn.
  destruct k as [tbl cs sp ip np tk]. destruct sp as [l hp hs al pre a0].
  simpl in Hl, Hn. subst l hs.
  unfold get, acquire_sched, release_sched, release. simpl.
  rewrite Nat.eqb_refl. reflexivity.
Qed.

Lemma get_empty_witness :
  get 1 (state_after trace_running) = Some (None, state_after trace_running).
Proof.
  apply get_empty.
  - vm_compute. reflexivity.
  - vm_compute. reflexivity.
Defined.

(** X4.  [get()] on a well-formed, nonempty heap returns the process at
    the root; the heap loses exactly that one slot, stays well formed, and
    the only change to the process table is to the returned process: its
    [cpu_burst] is reset to 0 and, under algorithm 1, its [timeslice] is
    set to the CFS slice. *)
Theorem get_removes_root c k :
  sched_wf k -> heap_size (proc_sched k) <> 0 ->
  exists h pr k',
    heap (proc_sched k) !! 0%nat = Some (Some h) /\
    proc_table k !! h = Some pr /\
    get c k = Some (Some h, k') /\
    heap_size (proc_sched k') = heap_size (proc_sched k) - 1 /\
    Some h :: queue k' ≡ₚ queue k /\
    sched_wf k' /\
    proc_table k' =
      <[h := if algorithm (proc_sched k) =? 1
             then set_timeslice (cfs_slice k pr) (set_cpu_burst 0 pr)
             else set_cpu_burst 0 pr]> (proc_table k) /\
    cpus k' = cpus k /\ same_policy k k'.
Proof.
  intros Hwf Hne.
  destruct (get_ok c k Hwf Hne)
    as (h & pr & k' & Hroot & Hpr & Hget & Hsz & Hq & Hwf' & Htbl & Hc
        & Hpol).
  exists h, pr, k'. auto 10.
Qed.

Lemma get_removes_root_witness :
  exists k',
    get 1 (state_after trace_stale_slice) = Some (Some 1%nat, k') /\
    heap_size (proc_sched k') = 1.
Proof.
  assert (Hwf : sched_wf (state_after trace_stale_slice))
    by (apply sched_wfb_sound; vm_compute; reflexivity).
  assert (Hsz : heap_size (proc_sched (state_after trace_stale_slice)) = 2)
    by (vm_compute; reflexivity).
  assert (Hroot : heap (proc_sched (state_after trace_stale_slice)) !! 0%nat
                  = Some (Some 1%nat)) by (vm_compute; reflexivity).
  destruct (get_removes_root 1 _ Hwf)
    as (h & pr & k' & Hh & _ & Hget & Hn & _).
  - rewrite Hsz. lia.
  - exists k'. rewrite Hroot in Hh. injection Hh as <-.
    split; [exact Hget|]. rewrite Hn, Hsz. reflexivity.
Defined.

(** X5.  When the heap is a min-heap under the key of the current
    algorithm, the process [get()] returns has the least key of the
    queued processes. *)
Theorem get_returns_least_key c k h k' :
  sched_wf k ->
  min_heap (proc_table k) (heap (proc_sched k)) (heap_size (proc_sched k))
    (algorithm (proc_sched k)) ->
  get c k = Some (Some h, k') ->
  forall q, Some q ∈ queue k ->
    key (algorithm (proc_sched k)) (proc_of k h)
    <= key (algorithm (proc_sched k)) (proc_of k q).
Proof.
  intros Hwf Hmin Hget q Hq.
  destruct (Z.eq_dec (heap_size (proc_sched k)) 0) as [Hz|Hnz].
  { destruct (get_empty_inv _ _ _ _ Hget Hz) as [? _]. discriminate. }
  destruct (get_heap _ _ _ _ Hget Hwf Hnz)
    as (h' & pr & Hr & Hroot & Hpr & _).
  injection Hr as <-.
  pose proof Hwf as (_ & _ & Hok).
  apply (min_heap_order _ _ _ _ Hok) in Hmin.
  destruct (queue_lookup k q Hq) as (i & Hi & Hqi).
  destruct Hok as [_ He]. destruct (He i Hi) as (q' & Hq' & Hlt).
  assert (q' = q) by congruence. subst q'.
  destruct (lookup_lt_is_Some_2 (proc_table k) q Hlt) as [pq Hpq].
  pose proof (heap_order_root _ _ Hmin i Hi) as Hle.
  rewrite (key_at_lookup _ _ _ 0 h pr) in Hle by (try lia; assumption).
  rewrite (key_at_lookup _ _ _ i q pq) in Hle by (try lia; assumption).
  unfold proc_of. rewrite Hpr, Hpq. exact Hle.
Qed.

Lemma get_returns_least_key_witness :
  key 0 (proc_of (kernel_of [runnable_proc 3 0; runnable_proc 1 0;
                             runnable_proc 2 0] [1; 0; 2]%nat 0) 1)
  <= key 0 (proc_of (kernel_of [runnable_proc 3 0; runnable_proc 1 0;
                                runnable_proc 2 0] [1; 0; 2]%nat 0) 0).
Proof.
  set (k := kernel_of [runnable_proc 3 0; runnable_proc 1 0;
                       runnable_proc 2 0] [1; 0; 2]%nat 0).
  assert (Hwf : sched_wf k)
    by (apply sched_wfb_sound; vm_compute; reflexivity).
  assert (Hmin : min_heap (proc_table k) (heap (proc_sched k))
                   (heap_size (proc_sched k)) (algorithm (proc_sched k)))
    by (apply min_heapb_sound; vm_compute; reflexivity).
  assert (Hget : get 0 k = Some (Some 1%nat, after_get 0 k))
    by (vm_compute; reflexivity).
  apply (get_returns_least_key 0 k 1 _ Hwf Hmin Hget 0%nat).
  apply list_elem_of_lookup. exists 1%nat. vm_compute. reflexivity.
Defined.

(** X6.  A process put into an empty heap is the one the next [get()]
    returns, on whichever CPU, and the heap is empty again. *)
Theorem put_then_get c c' h k k1 :
  sched_wf k -> heap_size (proc_sched k) = 0 ->
  put c (Some h) k = Some k1 ->
  exists k2, get c' k1 = Some (Some h, k2) /\
             heap_size (proc_sched k2) = 0.
Proof.
  intros Hwf Hz Hput.
  pose proof (put_sched_wf _ _ _ _ Hwf Hput) as Hwf1.
  destruct (put_heap _ _ _ _ Hput (proj1 (proj2 Hwf)))
    as (_ & _ & _ & Hsz & _ & Hq & _).
  destruct (put_spec _ _ _ _ Hput)
    as (pr0 & pr' & Hpr0 & _ & Htbl & _).
  assert (Hq0 : queue k = []) by (unfold queue; rewrite Hz; reflexivity).
  rewrite Hq0 in Hq. simpl in Hq. apply Permutation_singleton_r in Hq.
  assert (Hroot : heap (proc_sched k1) !! 0%nat = Some (Some h)).
  { unfold queue in Hq. rewrite Hsz, Hz in Hq.
    change (Z.to_nat (0 + 1)) with 1%nat in Hq.
    destruct (heap (proc_sched k1)) as [|x l]; [discriminate|].
    simpl in Hq. rewrite take_0 in Hq. injection Hq as ->. reflexivity. }
  assert (Hpr1 : proc_table k1 !! h = Some pr').
  { rewrite Htbl. apply list_lookup_insert_eq.
    eapply lookup_lt_Some; eauto. }
  destruct (get_dequeue c' k1 h pr' Hwf1) as (k2 & Hget & Hsz2 & _);
    [lia|exact Hroot|exact Hpr1|].
  exists k2. split; [exact Hget|lia].
Qed.

Lemma put_then_get_witness :
  exists k1 k2,
    put 0 (Some 1%nat) (state_after trace_sleeper) = Some k1 /\
    get 2 k1 = Some (Some 1%nat, k2).
Proof.
  assert (Hwf : sched_wf (state_after trace_sleeper))
    by (apply sched_wfb_sound; vm_compute; reflexivity).
  assert (Hsz : heap_size (proc_sched (state_after trace_sleeper)) = 0)
    by (vm_compute; reflexivity).
  assert (Hput : put 0 (Some 1%nat) (state_after trace_sleeper)
                 = Some (default kernel_init
                           (put 0 (Some 1%nat) (state_after trace_sleeper))))
    by (vm_compute; reflexivity).
  destruct (put_then_get 0 2 1 _ _ Hwf Hsz Hput) as (k2 & Hget & _).
  eexists _, k2. split; [exact Hput|exact Hget].
Defined.

(** X7.  A call of [change_sched] that returns 0 stores its three
    arguments as the policy and permutes the occupied slots of the heap;
    the heap size, the process table, the CPUs and the tick counter are as
    before, and the heap stays well formed. *)
Theorem change_sched_rearranges c algo ip a0 k k' :
  sched_wf k ->
  change_sched c algo ip a0 k = Some (0, k') ->
  algorithm (proc_sched k') = algo /\
  is_preemptive (proc_sched k') = ip /\
  a (proc_sched k') = a0 /\
  heap_size (proc_sched k') = heap_size (proc_sched k) /\
  queue k' ≡ₚ queue k /\
  proc_table k' = proc_table k /\ cpus k' = cpus k /\ ticks k' = ticks k /\
  sched_wf k'.
Proof.
  intros Hwf H.
  pose proof (change_sched_sched_wf _ _ _ _ _ _ _ Hwf H) as Hwf'.
  apply change_sched_inv in H as (arr & Harr & _ & ->).
  unfold rearrange_heap in Harr.
  apply rearrange_loop_queue in Harr as (Hq & _ & _).
  unfold queue. simpl. auto 10.
Qed.

Lemma change_sched_rearranges_witness :
  exists k',
    change_sched 0 1 0 50 (state_after trace_stale_slice) = Some (0, k') /\
    algorithm (proc_sched k') = 1 /\ heap_size (proc_sched k') = 2.
Proof.
  assert (Hwf : sched_wf (state_after trace_stale_slice))
    by (apply sched_wfb_sound; vm_compute; reflexivity).
  assert (Hsz : heap_size (proc_sched (state_after trace_stale_slice)) = 2)
    by (vm_compute; reflexivity).
  assert (Hc : change_sched 0 1 0 50 (state_after trace_stale_slice)
               = Some (0, default kernel_init
                            (snd <$> change_sched 0 1 0 50
                                       (state_after trace_stale_slice))))
    by (vm_compute; reflexivity).
  destruct (change_sched_rearranges _ _ _ _ _ _ Hwf Hc)
    as (Ha & _ & _ & Hn & _).
  eexists. split; [exact Hc|]. split; [exact Ha|]. rewrite Hn. exact Hsz.
Defined.

(** ** Heap order *)

(** X8.  [heapify_up(arr, n, algo)], on an array whose first [n - 1]
    entries are a min-heap under the key of [algo] and whose entry
    [n - 1] is the new one, returns with the first [n] entries a min-heap
    made of the same pointers, when the index [n - 1] of the new entry is
    odd or [n] is at most 3; the entries from [n] on are not touched. *)
Theorem heapify_up_restores_heap tbl arr n algo :
  heap_ok tbl arr n -> 1 <= n ->
  Z.odd (n - 1) = true \/ n <= 3 ->
  min_heap tbl arr (n - 1) algo ->
  exists arr',
    heapify_up tbl arr n algo = Some arr' /\
    min_heap tbl arr' n algo /\
    take (Z.to_nat n) arr' ≡ₚ take (Z.to_nat n) arr /\
    drop (Z.to_nat n) arr' = drop (Z.to_nat n) arr.
Proof.
  intros Hok Hn Hodd Hmin.
  destruct (heapify_up_order tbl arr n algo Hok Hn Hodd Hmin)
    as (arr' & Hup & _ & Hmin').
  destruct (heapify_up_queue tbl arr n algo arr' Hup Hn) as (Hp & Hd & _).
  exists arr'. auto.
Qed.

Lemma heapify_up_restores_heap_witness :
  exists arr',
    heapify_up (table_of [runnable_proc 1 0; runnable_proc 10 0;
                          runnable_proc 2 0; runnable_proc 5 0])
      (heap_of [0; 1; 2; 3]%nat) 4 0 = Some arr' /\
    min_heap (table_of [runnable_proc 1 0; runnable_proc 10 0;
                        runnable_proc 2 0; runnable_proc 5 0]) arr' 4 0.
Proof.
  destruct (heapify_up_restores_heap
              (table_of [runnable_proc 1 0; runnable_proc 10 0;
                         runnable_proc 2 0; runnable_proc 5 0])
              (heap_of [0; 1; 2; 3]%nat) 4 0)
    as (arr' & Hup & Hmin & _).
  - apply heap_okb_sound. vm_compute. reflexivity.
  - lia.
  - left. reflexivity.
  - apply min_heapb_sound. vm_compute. reflexivity.
  - exists arr'. split; [exact Hup|exact Hmin].
Defined.

(** X9.  [put(p)] keeps the heap a min-heap under the key of the current
    algorithm when [p] is not yet queued and the heap size before the
    call is odd or at most 2 (so that [heapify_up] starts from the true
    parent of the new entry). *)
Theorem put_keeps_min_heap c h k k' :
  sched_wf k ->
  put c (Some h) k = Some k' ->
  Some h ∉ queue k ->
  min_heap (proc_table k) (heap (proc_sched k)) (heap_size (proc_sched k))
    (algorithm (proc_sched k)) ->
  Z.odd (heap_size (proc_sched k)) = true \/ heap_size (proc_sched k) <= 2 ->
  min_heap (proc_table k') (heap (proc_sched k'))
    (heap_size (proc_sched k')) (algorithm (proc_sched k')).
Proof.
  intros Hwf Hput Hnq Hmin Hodd.
  pose proof Hwf as (_ & Hlen & Hok).
  destruct (put_heap _ _ _ _ Hput Hlen) as (_ & _ & Hn & Hsz & _).
  destruct (put_spec _ _ _ _ Hput)
    as (pr0 & pr' & Hpr0 & _ & _ & _ & _ & _ & _ & Hpol).
  destruct (put_heapify _ _ _ _ Hput) as (tblx & Hkeys & Hlx & Hoth & Hup).
  assert (Hadd : C.add (heap_size (proc_sched k)) 1
                 = heap_size (proc_sched k) + 1).
  { apply to_int_small. unfold C.in_int, C.INT_HALF, NPROC in *. lia. }
  rewrite Hadd in Hup.
  set (n := heap_size (proc_sched k)) in *.
  set (arr1 := <[Z.to_nat n := Some h]> (heap (proc_sched k))) in *.
  assert (Hok1 : heap_ok tblx arr1 (n + 1)).
  { destruct Hok as [Hr He]. split.
    - unfold arr1. rewrite length_insert. lia.
    - intros i Hi. destruct (Z.eq_dec i n) as [->|Hne].
      + exists h. split.
        * unfold arr1. apply list_lookup_insert_eq. lia.
        * rewrite Hlx. eapply lookup_lt_Some; eauto.
      + destruct (He i) as (q & Hq & Hlt); [lia|].
        exists q. split; [|rewrite Hlx; exact Hlt].
        unfold arr1. rewrite list_lookup_insert_ne by lia. exact Hq. }
  assert (Hmin1 : min_heap tblx arr1 (n + 1 - 1) (algorithm (proc_sched k))).
  { replace (n + 1 - 1) with n by lia.
    apply (min_heap_prefix (proc_table k) _ (heap (proc_sched k)));
      [|exact Hmin].
    intros i Hi. unfold field_at.
    rewrite !arr_get_lookup by lia.
    unfold arr1. rewrite list_lookup_insert_ne by lia.
    destruct Hok as [_ He]. destruct (He i Hi) as (q & Hq & _).
    rewrite Hq. simpl. rewrite Hoth; [reflexivity|].
    intros ->. apply Hnq. unfold queue.
    apply list_elem_of_lookup. exists (Z.to_nat i).
    apply lookup_take_Some. split; [exact Hq|]. fold n. lia. }
  destruct (heapify_up_order tblx arr1 (n + 1)
              (algorithm (proc_sched k)) Hok1)
    as (arr' & Hup' & _ & Hmin'); [lia| |exact Hmin1|].
  { replace (n + 1 - 1) with n by lia.
    destruct Hodd; [left; assumption|right; lia]. }
  rewrite Hup in Hup'. injection Hup' as <-.
  destruct Hpol as (-> & _). rewrite Hsz.
  eapply min_heap_same_keys; eauto.
Qed.

Lemma put_keeps_min_heap_witness :
  min_heap (proc_table (after_put 0 3 sleeper_example))
    (heap (proc_sched (after_put 0 3 sleeper_example))) 4 0.
Proof.
  assert (Hwf : sched_wf sleeper_example)
    by (apply sched_wfb_sound; vm_compute; reflexivity).
  assert (Hput : put 0 (Some 3%nat) sleeper_example
                 = Some (after_put 0 3 sleeper_example))
    by (vm_compute; reflexivity).
  assert (Hsz : heap_size (proc_sched (after_put 0 3 sleeper_example)) = 4)
    by (vm_compute; reflexivity).
  assert (Hal : algorithm (proc_sched (after_put 0 3 sleeper_example)) = 0)
    by (vm_compute; reflexivity).
  rewrite <- Hsz, <- Hal.
  apply (put_keeps_min_heap 0 3 sleeper_example _ Hwf Hput).
  - intros Hin. apply list_elem_of_In in Hin.
    vm_compute in Hin. intuition discriminate.
  - apply min_heapb_sound. vm_compute. reflexivity.
  - left. vm_compute. reflexivity.
Defined.

(** ** What [put] does to the process *)

(** X10.  When the first entry of the process table is not RUNNING and
    the smoothing factor is within 0..100, [put(p)] sets the estimate of
    [p] to [(a * cpu_burst + (100 - a) * cpu_burst_aprox) / 100] without
    overflow, for bursts and estimates up to 2^24 ticks; the new estimate
    lies between the last burst and the old estimate. *)
Theorem put_estimate_between c h k k' pr head :
  put c (Some h) k = Some k' ->
  proc_table k !! h = Some pr -> proc_table k !! 0%nat = Some head ->
  state head <> RUNNING ->
  0 <= a (proc_sched k) <= 100 ->
  0 <= cpu_burst pr <= 16777216 -> 0 <= cpu_burst_aprox pr <= 16777216 ->
  exists pr',
    proc_table k' !! h = Some pr' /\
    cpu_burst_aprox pr' =
      (a (proc_sched k) * cpu_burst pr
       + (100 - a (proc_sched k)) * cpu_burst_aprox pr) / 100 /\
    Z.min (cpu_burst pr) (cpu_burst_aprox pr) <= cpu_burst_aprox pr'
      <= Z.max (cpu_burst pr) (cpu_burst_aprox pr).
Proof.
  intros Hput Hpr Hhead Hst Ha Hcb Hap.
  destruct (put_fields _ _ _ _ _ _ Hput Hpr Hhead) as (pr' & Htbl & Hest & _).
  exists pr'. split.
  { rewrite Htbl. apply list_lookup_insert_eq. eapply lookup_lt_Some; eauto. }
  assert (Hne : procstate_eqb (state head) RUNNING = false)
    by (destruct (state head); try reflexivity; congruence).
  rewrite Hne in Hest. rewrite Hest.
  apply exp_average_between; assumption.
Qed.

Lemma put_estimate_between_witness :
  cpu_burst_aprox (proc_of (after_put 0 3 sleeper_example) 3) = 7.
Proof.
  assert (Hput : put 0 (Some 3%nat) sleeper_example
                 = Some (after_put 0 3 sleeper_example))
    by (vm_compute; reflexivity).
  assert (Hpr : proc_table sleeper_example !! 3%nat
                = Some (proc_of sleeper_example 3))
    by (vm_compute; reflexivity).
  assert (Hhead : proc_table sleeper_example !! 0%nat
                  = Some (proc_of sleeper_example 0))
    by (vm_compute; reflexivity).
  assert (Hst : state (proc_of sleeper_example 0) = RUNNABLE)
    by (vm_compute; reflexivity).
  assert (Ha : a (proc_sched sleeper_example) = 50)
    by (vm_compute; reflexivity).
  assert (Hcb : cpu_burst (proc_of sleeper_example 3) = 10)
    by (vm_compute; reflexivity).
  assert (Hap : cpu_burst_aprox (proc_of sleeper_example 3) = 4)
    by (vm_compute; reflexivity).
  destruct (put_estimate_between 0 3 _ _ _ _ Hput Hpr Hhead)
    as (pr' & Hpr' & Hest & _).
  - rewrite Hst. discriminate.
  - rewrite Ha. lia.
  - rewrite Hcb. lia.
  - rewrite Hap. lia.
  - unfold proc_of. rewrite Hpr'. simpl. rewrite Hest, Ha, Hcb, Hap.
    reflexivity.
Defined.

(** X11.  [put(p)] writes to no process but [p], and of [p] only the
    estimate, [exe_time], [put_timestamp] and the state: the estimate is
    recomputed unless the first table entry is RUNNING, [exe_time] grows
    by the last burst if [p] was RUNNING and is reset to 0 otherwise,
    [put_timestamp] becomes the tick counter and the state RUNNABLE; lock,
    channel, pid, parent, context, [cpu_burst], [timeslice] and the kill
    and exit status are as before, and so are the CPUs and the policy. *)
Theorem put_writes c h k k' pr head :
  put c (Some h) k = Some k' ->
  proc_table k !! h = Some pr -> proc_table k !! 0%nat = Some head ->
  exists pr',
    proc_table k' = <[h := pr']> (proc_table k) /\
    cpu_burst_aprox pr' =
      (if procstate_eqb (state head) RUNNING then cpu_burst_aprox pr
       else C.to_int
              (Z.quot
                 (C.add (C.mul (a (proc_sched k)) (cpu_burst pr))
                    (C.mul (C.sub 100 (a (proc_sched k)))
                       (cpu_burst_aprox pr)))
                 100)) /\
    exe_time pr' =
      (if procstate_eqb (state pr) RUNNING
       then C.add (exe_time pr) (cpu_burst pr) else 0) /\
    put_timestamp pr' = C.to_int (ticks k) /\
    state pr' = RUNNABLE /\
    lock pr' = lock pr /\ chan pr' = chan pr /\ killed pr' = killed pr /\
    xstate pr' = xstate pr /\ pid pr' = pid pr /\ parent pr' = parent pr /\
    context pr' = context pr /\ cpu_burst pr' = cpu_burst pr /\
    timeslice pr' = timeslice pr /\
    cpus k' = cpus k /\ same_policy k k'.
Proof.
  intros Hput Hpr Hhead.
  destruct (put_fields _ _ _ _ _ _ Hput Hpr Hhead) as (pr' & Htbl & Hf).
  destruct (put_spec _ _ _ _ Hput)
    as (_ & _ & _ & _ & _ & _ & _ & _ & Hc & Hpol).
  exists pr'. tauto.
Qed.

Lemma put_writes_witness :
  exe_time (proc_of (after_put 0 3 sleeper_example) 3) = 0 /\
  state (proc_of (after_put 0 3 sleeper_example) 3) = RUNNABLE.
Proof.
  assert (Hput : put 0 (Some 3%nat) sleeper_example
                 = Some (after_put 0 3 sleeper_example))
    by (vm_compute; reflexivity).
  assert (Hpr : proc_table sleeper_example !! 3%nat
                = Some (proc_of sleeper_example 3))
    by (vm_compute; reflexivity).
  assert (Hhead : proc_table sleeper_example !! 0%nat
                  = Some (proc_of sleeper_example 0))
    by (vm_compute; reflexivity).
  assert (Hst : state (proc_of sleeper_example 3) = SLEEPING)
    by (vm_compute; reflexivity).
  assert (Hlen : (3 < length (proc_table sleeper_example))%nat)
    by (vm_compute; lia).
  destruct (put_writes 0 3 _ _ _ _ Hput Hpr Hhead)
    as (pr' & Htbl & _ & Hexe & _ & Hst' & _).
  unfold proc_of. rewrite Htbl, list_lookup_insert_eq by exact Hlen. simpl.
  rewrite Hst in Hexe. split; [exact Hexe|exact Hst'].
Defined.
(** ** Processes and CPUs *)

(** X12.  In every state the kernel reaches from boot, a CPU that runs a
    process has that process in [c->proc] and the process is RUNNING; no
    two CPUs run the same process, although a process can be queued more
    than once; and every RUNNING process is run by some CPU. *)
Theorem one_cpu_per_running_process k :
  reachable k ->
  (forall c cp p, cpus k !! c = Some cp -> sched_at cp = SchedSwitched p ->
     cproc cp = Some p /\
     exists pr, proc_table k !! p = Some pr /\ state pr = RUNNING) /\
  (forall c1 c2 cp1 cp2 p,
     cpus k !! c1 = Some cp1 -> cpus k !! c2 = Some cp2 ->
     sched_at cp1 = SchedSwitched p -> sched_at cp2 = SchedSwitched p ->
     c1 = c2) /\
  (forall p pr, proc_table k !! p = Some pr -> state pr = RUNNING ->
     exists c cp, cpus k !! c = Some cp /\ sched_at cp = SchedSwitched p).
Proof.
  intros Hr. destruct (reachable_running_inv k Hr) as (HA & HD & HE).
  split; [|split; [exact HD|]].
  - intros c cp p Hcp Hat. destruct (HA c cp p Hcp Hat) as [Hp Hs].
    split; [exact Hp|]. unfold states in Hs.
    rewrite list_lookup_fmap in Hs.
    destruct (proc_table k !! p) as [pr|]; [|discriminate].
    exists pr. split; [reflexivity|]. simpl in Hs. congruence.
  - intros p pr Hpr Hst. apply HE. rewrite <- Hst.
    apply states_lookup, Hpr.
Qed.

Lemma one_cpu_per_running_process_witness :
  cproc (default (mkcpu None SchedTop)
           (cpus (state_after trace_sleeper) !! 0%nat)) = Some 0%nat.
Proof.
  assert (Hr : reachable (state_after trace_sleeper)).
  { apply reachable_state_after.
    - vm_compute. reflexivity.
    - vm_compute. reflexivity. }
  assert (Hcp : cpus (state_after trace_sleeper) !! 0%nat
                = Some (mkcpu (Some 0%nat) (SchedSwitched 0)))
    by (vm_compute; reflexivity).
  destruct (proj1 (one_cpu_per_running_process _ Hr) 0%nat _ 0%nat Hcp
              eq_refl) as [Hp _].
  rewrite Hcp. exact Hp.
Defined.

(** X13.  From a reachable state, one event changes the state of at most
    one process, and only along an edge of the state diagram: UNUSED to
    USED (fork), USED to RUNNABLE (fork's put), RUNNABLE to RUNNING
    (scheduler), RUNNING to RUNNABLE (yield), RUNNING to SLEEPING (sleep),
    RUNNING to ZOMBIE (exit), SLEEPING to RUNNABLE (wakeup, kill), ZOMBIE
    to UNUSED (wait). *)
Theorem process_state_diagram ev k k' :
  reachable k -> step ev k = Some k' ->
  states k' = states k \/
  exists h s s',
    states k !! h = Some s /\ edge s s' /\
    states k' = <[h := s']> (states k).
Proof.
  intros Hr Hstep.
  destruct (reachable_running_inv k Hr) as (HA & _ & _).
  destruct (step_effect _ _ _ Hstep) as [c He].
  destruct He as [Hc Hs|h s s' Hc Hh Hs Hs' Hedge Hst|cp cp' Hcp Hc Hn Hn' Hst
                 |cp p Hcp Hat Hc Hp Hst|cp q h s' Hcp Hat Hh Hc He Hst].
  - left. exact Hs.
  - right. exists h, s, s'. auto.
  - left. exact Hst.
  - right. exists p, RUNNABLE, RUNNING. split; [exact Hp|].
    split; [constructor|exact Hst].
  - right. destruct (HA c cp q Hcp Hat) as [Hq Hrun].
    assert (q = h) by congruence. subst q.
    exists h, RUNNING, s'. auto.
Qed.

Lemma process_state_diagram_witness :
  states (state_after (trace_running ++ [EvSleep 0%nat 7]))
  = <[0%nat := SLEEPING]> (states (state_after trace_running)).
Proof.
  assert (Hr : reachable (state_after trace_running)).
  { apply reachable_state_after.
    - vm_compute. reflexivity.
    - vm_compute. reflexivity. }
  assert (Hstep : step (EvSleep 0%nat 7) (state_after trace_running)
                  = Some (state_after (trace_running ++ [EvSleep 0%nat 7])))
    by (vm_compute; reflexivity).
  destruct (process_state_diagram _ _ _ Hr Hstep) as [H|_].
  - vm_compute in H. discriminate H.
  - vm_compute. reflexivity.
Defined.

(** ** Preemption and the size of the heap *)

(** X14.  A process that yields is put in the heap twice: by [yield]
    itself and, once the scheduler thread runs again, by the [put] of
    [scheduler].  With the heap well formed and two slots free, [yield]
    on the CPU that runs [p], followed by the scheduler's return from the
    switch, ends with [heap_size] two larger, [p] in two more slots, [p]
    RUNNABLE with [exe_time] 0 and its lock free, and the CPU at the top
    of the scheduler loop with [c->proc] cleared. *)
Theorem yield_enqueues_twice c k p pr :
  sched_wf k ->
  cpus k !! c = Some (mkcpu (Some p) (SchedSwitched p)) ->
  proc_table k !! p = Some pr -> lock pr = None ->
  heap_size (proc_sched k) + 2 <= Z.of_nat NPROC ->
  exists k' pr',
    run [EvYield c; EvSchedBack c] k = Some k' /\
    heap_size (proc_sched k') = heap_size (proc_sched k) + 2 /\
    queue k' ≡ₚ queue k ++ [Some p; Some p] /\
    proc_table k' = <[p := pr']> (proc_table k) /\
    state pr' = RUNNABLE /\ exe_time pr' = 0 /\ lock pr' = None /\
    cpus k' = <[c := mkcpu None SchedTop]> (cpus k) /\
    sched_wf k'.
Proof.
  intros Hwf Hcp Hpr Hl Hn.
  destruct (yield_ok c k _ p p pr Hwf Hcp eq_refl eq_refl Hpr Hl)
    as (k1 & pr1 & Hy & Hwf1 & Hsz1 & Hq1 & Htbl1 & Hst1 & Hl1 & _
        & Hc1 & _); [lia|].
  assert (Hpr1 : proc_table k1 !! p = Some pr1)
    by (rewrite Htbl1; eapply lookup_insert_Some_eq; eauto).
  assert (Hcp1 : cpus k1 !! c = Some (mkcpu (Some p) (SchedResumed p)))
    by (rewrite Hc1; eapply lookup_insert_Some_eq; eauto).
  destruct (scheduler_back_ok c k1 _ p pr1 Hwf1 Hcp1 eq_refl eq_refl Hpr1
              Hl1 Hst1)
    as (k2 & pr2 & Hb & Hwf2 & Hsz2 & Hq2 & Htbl2 & Hst2 & Hexe2 & Hl2 & _
        & Hc2 & _); [lia|].
  exists k2, pr2. split.
  { cbn [run step]. unfold in_process. rewrite Hcp. cbn [sched_at].
    rewrite Hy. cbn [mbind option_bind]. rewrite Hb. reflexivity. }
  split; [lia|]. split.
  { rewrite Hq2, Hq1, <- app_assoc. reflexivity. }
  split; [rewrite Htbl2, Htbl1, list_insert_insert_eq; reflexivity|].
  split; [exact Hst2|]. split; [exact Hexe2|]. split; [exact Hl2|].
  split; [rewrite Hc2, Hc1, list_insert_insert_eq; reflexivity|exact Hwf2].
Qed.

Lemma yield_enqueues_twice_witness :
  exists k',
    run [EvYield 0%nat; EvSchedBack 0%nat] (state_after trace_running)
    = Some k' /\
    heap_size (proc_sched k') = 2.
Proof.
  assert (Hwf : sched_wf (state_after trace_running))
    by (apply sched_wfb_sound; vm_compute; reflexivity).
  assert (Hcp : cpus (state_after trace_running) !! 0%nat
                = Some (mkcpu (Some 0%nat) (SchedSwitched 0)))
    by (vm_compute; reflexivity).
  assert (Hpr : proc_table (state_after trace_running) !! 0%nat
                = Some (proc_of (state_after trace_running) 0))
    by (vm_compute; reflexivity).
  assert (Hl : lock (proc_of (state_after trace_running) 0) = None)
    by (vm_compute; reflexivity).
  assert (Hsz : heap_size (proc_sched (state_after trace_running)) = 0)
    by (vm_compute; reflexivity).
  destruct (yield_enqueues_twice 0 _ 0 _ Hwf Hcp Hpr Hl)
    as (k' & pr' & Hrun & Hn & _).
  - rewrite Hsz. vm_compute. discriminate.
  - exists k'. split; [exact Hrun|]. rewrite Hn, Hsz. reflexivity.
Defined.

(** X15.  The heap grows by one slot with every round in which a process
    is preempted and dispatched again on a CPU while no other CPU takes
    its duplicates out: from a state where CPU [c] runs [p] and all [m]
    occupied slots point to [p], [n] rounds of [yield], the scheduler's
    [put], [get] and the dispatch of [p] lead to such a state with
    [m + n] occupied slots, as long as they fit. *)
Theorem preempted_process_fills_heap c p n m k :
  lone c p m k -> Z.of_nat m + Z.of_nat n + 1 <= Z.of_nat NPROC ->
  exists k', run (concat (replicate n (yield_round c))) k = Some k' /\
             lone c p (m + n) k' /\
             heap_size (proc_sched k')
             = heap_size (proc_sched k) + Z.of_nat n.
Proof.
  intros Hlone Hm.
  destruct (lone_rounds c p n m k Hlone Hm) as (k' & Hrun & Hlone').
  exists k'. split; [exact Hrun|]. split; [exact Hlone'|].
  destruct Hlone as (_ & _ & _ & _ & ->).
  destruct Hlone' as (_ & _ & _ & _ & ->). lia.
Qed.

Lemma preempted_process_fills_heap_witness :
  exists k',
    run (concat (replicate 5 (yield_round 0))) (state_after trace_running)
    = Some k' /\
    heap_size (proc_sched k') = 5.
Proof.
  assert (Hlone : lone 0 0 0 (state_after trace_running)).
  { split; [apply sched_wfb_sound; vm_compute; reflexivity|].
    split; [vm_compute; reflexivity|].
    split.
    - exists (proc_of (state_after trace_running) 0).
      split; [vm_compute; reflexivity|].
      split; vm_compute; reflexivity.
    - split; vm_compute; reflexivity. }
  assert (Hsz : heap_size (proc_sched (state_after trace_running)) = 0)
    by (vm_compute; reflexivity).
  destruct (preempted_process_fills_heap 0 0 5 0 _ Hlone)
    as (k' & Hrun & _ & Hn).
  - vm_compute. discriminate.
  - exists k'. split; [exact Hrun|]. rewrite Hn, Hsz. reflexivity.
Defined.

(** X16.  [put] does not check for a full heap: with [heap_size] = NPROC
    the store [heap[heap_size] = p] is outside the array and [put] has no
    defined result.  Such a state is reached: init, preempted by 64 ticks
    in a row on CPU 0 while no other CPU calls [get], fills the heap
    before the scheduler's own [put] of the 64th round. *)
Theorem put_on_full_heap c h k :
  length (heap (proc_sched k)) = NPROC ->
  heap_size (proc_sched k) = Z.of_nat NPROC ->
  put c (Some h) k = None.
Proof.
  intros Hlen Hn. destruct (put c (Some h) k) as [k'|] eqn:Hput;
    [|reflexivity].
  destruct (put_heap _ _ _ _ Hput Hlen) as (_ & _ & Hlt & _). lia.
Qed.

Lemma put_on_full_heap_witness :
  reachable full_state /\
  cpus full_state !! 0%nat = Some (mkcpu (Some 0%nat) (SchedResumed 0)) /\
  state (proc_of full_state 0) = RUNNABLE /\
  put 0 (Some 0%nat) full_state = None.
Proof.
  split.
  { apply reachable_state_after.
    - vm_compute. reflexivity.
    - vm_compute. reflexivity. }
  split; [vm_compute; reflexivity|].
  split; [vm_compute; reflexivity|].
  apply put_on_full_heap.
  - vm_compute. reflexivity.
  - vm_compute. reflexivity.
Defined.
(** ** The whole of [exit]: what its wakeups leave alone *)

Lemma settles_refl p k : settles p k k.
Proof.
  split; [reflexivity|]. split; [reflexivity|]. split; [auto|].
  split; [reflexivity|].
  intros q pq pq' H1 H2. assert (pq' = pq) by congruence. subst. auto.
Qed.

Lemma settles_trans p k1 k2 k3 :
  settles p k1 k2 -> settles p k2 k3 -> settles p k1 k3.
Proof.
  intros (Hc1 & Hi1 & Hh1 & Hl1 & Ht1) (Hc2 & Hi2 & Hh2 & Hl2 & Ht2).
  split; [congruence|]. split; [congruence|]. split; [auto|].
  split; [congruence|].
  intros q pq1 pq3 H1 H3.
  destruct (lookup_lt_is_Some_2 (proc_table k2) q) as [pq2 H2].
  { rewrite Hl1. eapply lookup_lt_Some; eauto. }
  destruct (Ht1 _ _ _ H1 H2) as (Hch1 & Hst1 & Hp1).
  destruct (Ht2 _ _ _ H2 H3) as (Hch2 & Hst2 & Hp2).
  split; [congruence|]. split; [auto|].
  rewrite Hi1 in Hp2.
  destruct Hp1 as [Hp1|[Hp1 Hp1']], Hp2 as [Hp2|[Hp2 Hp2']].
  - left. congruence.
  - right. split; congruence.
  - right. split; congruence.
  - right. split; congruence.
Qed.

Lemma settles_store p h x k pr :
  proc_table k !! h = Some pr -> chan x = chan pr ->
  (state x = SLEEPING -> state pr = SLEEPING) ->
  parent x = parent pr \/ (parent pr = Some p /\ parent x = initproc k) ->
  settles p k (store h x k).
Proof.
  intros Hpr Hch Hst Hpa.
  split; [reflexivity|]. split; [reflexivity|]. split; [auto|].
  split; [apply length_insert|].
  intros q pq pq' H1 H2.
  apply lookup_store in H2 as [(-> & -> & _)|(Hne & H2)].
  - assert (pq = pr) by congruence. subst pq. auto.
  - assert (pq' = pq) by congruence. subst. auto.
Qed.

Lemma acquire_proc_settles p c h k k' :
  acquire_proc c h k = Some k' -> settles p k k'.
Proof.
  intros H. apply acquire_proc_spec in H as (pr & Hpr & _ & ->).
  apply (settles_store p h _ k pr Hpr); auto.
Qed.

Lemma release_proc_settles p c h k k' :
  release_proc c h k = Some k' -> settles p k k'.
Proof.
  intros H. apply release_proc_spec in H as (pr & Hpr & _ & ->).
  apply (settles_store p h _ k pr Hpr); auto.
Qed.

Lemma put_settles p c h k k' : put c (Some h) k = Some k' -> settles p k k'.
Proof.
  intros H.
  destruct (put_head _ _ _ _ H) as [head Hhead].
  destruct (put_spec _ _ _ _ H)
    as (pr & pr0 & Hpr & _ & _ & _ & _ & _ & Hc & _).
  destruct (put_fields _ _ _ _ _ _ H Hpr Hhead)
    as (pr' & Htbl & _ & _ & _ & Hst & _ & Hch & _ & _ & _ & Hpa & _).
  split; [exact Hc|]. split; [apply (put_globals _ _ _ _ H)|].
  split; [intros Hlen; destruct (put_heap _ _ _ _ H Hlen) as (_ & _ & _ & _ & Hl & _); exact Hl|].
  split; [rewrite Htbl; apply length_insert|].
  intros q pq pq' H1 H2. rewrite Htbl in H2.
  apply list_lookup_insert_Some in H2 as [(-> & -> & _)|(Hne & H2)].
  - assert (pq = pr) by congruence. subst pq.
    split; [exact Hch|]. split; [|left; exact Hpa].
    rewrite Hst. discriminate.
  - assert (pq' = pq) by congruence. subst. auto.
Qed.

Lemma wakeup_at_settles p c ch q k k' :
  wakeup_at c ch q k = Some k' -> settles p k k'.
Proof.
  unfold wakeup_at. intros H.
  apply bind_Some in H as (me & _ & H).
  destruct (ptr_eqb (Some q) me).
  { injection H as <-. apply settles_refl. }
  apply bind_Some in H as (k1 & Hk1 & H).
  apply bind_Some in H as (pr & _ & H).
  apply bind_Some in H as (k2 & Hk2 & H).
  apply (settles_trans p k k1); [eapply acquire_proc_settles; eauto|].
  apply (settles_trans p k1 k2); [|eapply release_proc_settles; eauto].
  destruct (procstate_eqb (state pr) SLEEPING && (chan pr =? ch)).
  - eapply put_settles; eauto.
  - injection Hk2 as <-. apply settles_refl.
Qed.

Lemma wakeup_loop_settles p c ch ps k k' :
  wakeup_loop c ch ps k = Some k' -> settles p k k'.
Proof.
  revert k. induction ps as [|q ps IH]; intros k H; cbn [wakeup_loop] in H.
  - injection H as <-. apply settles_refl.
  - apply bind_Some in H as (k1 & Hk1 & H).
    apply (settles_trans p k k1); [eapply wakeup_at_settles; eauto|].
    apply IH, H.
Qed.

Lemma no_sleeper_settles p ch me k k' :
  settles p k k' -> no_sleeper ch me k -> no_sleeper ch me k'.
Proof.
  intros (_ & _ & _ & Hlen & Ht) Hno q pq' Hq Hme Hpq' [Hst Hch].
  destruct (lookup_lt_is_Some_2 (proc_table k) q) as [pq Hpq].
  { rewrite <- Hlen. eapply lookup_lt_Some; eauto. }
  destruct (Ht _ _ _ Hpq Hpq') as (Hch' & Hst' & _).
  apply (Hno q pq Hq Hme Hpq). split; [auto|congruence].
Qed.

(** After [wakeup(chan)] no process but the caller sleeps on [chan]. *)
Lemma wakeup_no_sleeper c ch k k' me :
  wakeup c ch k = Some k' -> myproc c k = Some me ->
  length (heap (proc_sched k)) = NPROC -> no_sleeper ch me k'.
Proof.
  unfold wakeup. intros H Hme Hlen q pq' Hq Hne Hpq' [Hst Hch].
  pose proof (wakeup_loop_settles 0 _ _ _ _ _ H) as (_ & _ & _ & Hl & _).
  destruct (lookup_lt_is_Some_2 (proc_table k) q) as [pq Hpq].
  { rewrite <- Hl. eapply lookup_lt_Some; eauto. }
  destruct (wakeup_loop_spec _ _ _ _ _ _ H Hme Hlen (NoDup_seq 0 NPROC))
    as (_ & _ & _ & _ & Hall).
  assert (Hin : q ∈ seq 0 NPROC) by (apply elem_of_seq; lia).
  specialize (Hall q pq Hin Hpq). unfold wakes in Hall.
  assert (Hneq : ptr_eqb (Some q) me = false).
  { destruct (ptr_eqb (Some q) me) eqn:E; [|reflexivity].
    apply ptr_eqb_eq in E. congruence. }
  rewrite Hneq in Hall. cbn [negb andb] in Hall.
  destruct (procstate_eqb (state pq) SLEEPING) eqn:E1; cbn [andb] in Hall.
  - destruct (Z.eqb_spec (chan pq) ch) as [E2|E2].
    + destruct Hall as (pr' & Hpr' & Hrun & _).
      assert (pq' = pr') by congruence. subst pr'.
      rewrite Hst in Hrun. discriminate Hrun.
    + assert (pq' = pq) by congruence. subst pq'. contradiction.
  - assert (pq' = pq) by congruence. subst pq'.
    rewrite Hst in E1. discriminate E1.
Qed.

Section ExitCallSpec.

Variable proc_addr : nat -> Z.

Lemma reparent_loop_spec c p ps k k' me :
  reparent_loop proc_addr c p ps k = Some k' ->
  myproc c k = Some me ->
  length (heap (proc_sched k)) = NPROC ->
  initproc k <> Some p ->
  settles p k k' /\
  (forall q pq', q ∈ ps -> proc_table k' !! q = Some pq' ->
                 parent pq' <> Some p) /\
  (no_sleeper (chan_of proc_addr (initproc k)) me k \/
   (exists q pq, q ∈ ps /\ proc_table k !! q = Some pq /\
                 parent pq = Some p) ->
   no_sleeper (chan_of proc_addr (initproc k)) me k').
Proof.
  revert k. induction ps as [|pp ps IH]; intros k H Hme Hlen Hinit.
  - injection H as <-. split; [apply settles_refl|]. split.
    + intros q pq' Hin. apply elem_of_nil in Hin. destruct Hin.
    + intros [Hno|(q & pq & Hin & _)]; [exact Hno|].
      apply elem_of_nil in Hin. destruct Hin.
  - cbn [reparent_loop] in H.
    apply bind_Some in H as (ppr & Hppr & H).
    apply bind_Some in H as (k1 & Hk1 & H).
    assert (Hstep : settles p k k1 /\
              (forall pq1, proc_table k1 !! pp = Some pq1 ->
                           parent pq1 <> Some p) /\
              (no_sleeper (chan_of proc_addr (initproc k)) me k \/
               parent ppr = Some p ->
               no_sleeper (chan_of proc_addr (initproc k)) me k1)).
    { destruct (ptr_eqb (parent ppr) (Some p)) eqn:E.
      - apply ptr_eqb_eq in E.
        set (k0 := store pp (set_parent (initproc k) ppr) k) in *.
        assert (Hs0 : settles p k k0).
        { apply (settles_store p pp _ k ppr Hppr); auto. }
        pose proof (wakeup_loop_settles p _ _ _ _ _ Hk1) as Hs1.
        split; [eapply settles_trans; eauto|]. split.
        + intros pq1 Hpq1.
          destruct Hs1 as (_ & _ & _ & _ & Ht).
          destruct (Ht pp (set_parent (initproc k) ppr) pq1
                      (lookup_store_eq _ _ _ _ Hppr) Hpq1)
            as (_ & _ & [Hp|[Hp _]]).
          * rewrite Hp. exact Hinit.
          * cbn [parent set_parent] in Hp. congruence.
        + intros _.
          apply (wakeup_no_sleeper c _ k0 k1 me Hk1); [exact Hme|exact Hlen].
      - injection Hk1 as <-. split; [apply settles_refl|]. split.
        + intros pq1 Hpq1 Hp. assert (pq1 = ppr) by congruence. subst pq1.
          rewrite Hp in E. simpl in E. rewrite Nat.eqb_refl in E.
          discriminate E.
        + intros [Hno|Hp]; [exact Hno|].
          rewrite Hp in E. simpl in E. rewrite Nat.eqb_refl in E.
          discriminate E. }
    destruct Hstep as (Hs1 & Hpp & Hno1).
    pose proof Hs1 as (Hc1 & Hi1 & Hh1 & Hl1 & Ht1).
    assert (Hme1 : myproc c k1 = Some me)
      by (unfold myproc in *; rewrite Hc1; exact Hme).
    destruct (IH k1 H Hme1 (Hh1 Hlen)) as (Hs2 & Hps & Hno2).
    { rewrite Hi1. exact Hinit. }
    rewrite Hi1 in Hno2.
    split; [eapply settles_trans; eauto|]. split.
    + intros q pq' Hin Hpq'. apply elem_of_cons in Hin as [->|Hin].
      * destruct (lookup_lt_is_Some_2 (proc_table k1) pp) as [pq1 Hpq1].
        { rewrite Hl1. eapply lookup_lt_Some; eauto. }
        destruct Hs2 as (_ & _ & _ & _ & Ht2).
        destruct (Ht2 _ _ _ Hpq1 Hpq') as (_ & _ & [Hp|[Hp _]]).
        -- rewrite Hp. apply Hpp, Hpq1.
        -- destruct (Hpp _ Hpq1 Hp).
      * eapply Hps; eauto.
    + intros Hcase. apply Hno2.
      destruct Hcase as [Hno|(q & pq & Hin & Hpq & Hp)].
      * left. apply Hno1. left. exact Hno.
      * apply elem_of_cons in Hin as [->|Hin].
        -- left. apply Hno1. right. congruence.
        -- destruct (lookup_lt_is_Some_2 (proc_table k1) q) as [pq1 Hpq1].
           { rewrite Hl1. eapply lookup_lt_Some; eauto. }
           destruct (Ht1 _ _ _ Hpq Hpq1) as (_ & _ & [Hp1|[_ Hp1]]).
           ++ right. exists q, pq1. split; [exact Hin|].
              split; [exact Hpq1|congruence].
           ++ (* already handed to init by this round *)
              destruct (decide (q = pp)) as [->|Hne].
              ** left. apply Hno1. right. congruence.
              ** left. apply Hno1. right.
                 destruct (ptr_eqb (parent ppr) (Some p)) eqn:E.
                 --- apply ptr_eqb_eq in E. exact E.
                 --- exfalso. injection Hk1 as <-.
                     assert (pq1 = pq) by congruence. subst pq1.
                     congruence.
Qed.

Lemma exit_call_spec c status k k' p :
  exit_call proc_addr c status k = Some k' ->
  myproc c k = Some (Some p) -> (p < NPROC)%nat ->
  length (heap (proc_sched k)) = NPROC ->
  initproc k <> Some p /\
  exists k4 pr cp q,
    settles p k k4 /\
    proc_table k4 !! p = Some pr /\
    state pr = ZOMBIE /\ xstate pr = status /\ lock pr = Some c /\
    cpus k !! c = Some cp /\ sched_at cp = SchedSwitched q /\
    k' = set_cpu c (mkcpu (Some p) (SchedResumed q))
           (store p (set_context CtxExit pr) k4) /\
    (forall x pq', (x < NPROC)%nat -> proc_table k4 !! x = Some pq' ->
                   parent pq' <> Some p) /\
    no_sleeper (chan_of proc_addr (parent pr)) (Some p) k4 /\
    ((exists x pq, (x < NPROC)%nat /\ proc_table k !! x = Some pq /\
                   parent pq = Some p) ->
     no_sleeper (chan_of proc_addr (initproc k)) (Some p) k4).
Proof.
  unfold exit_call, reparent_call. intros H Hme Hlt Hlen.
  rewrite Hme in H. cbn [mbind option_bind] in H.
  destruct (ptr_eqb (Some p) (initproc k)) eqn:Hinit; [discriminate|].
  assert (Hinit' : initproc k <> Some p).
  { intros E. rewrite E in Hinit. simpl in Hinit.
    rewrite Nat.eqb_refl in Hinit. discriminate. }
  split; [exact Hinit'|].
  apply bind_Some in H as (k1 & Hk1 & H).
  apply bind_Some in H as (pr1 & Hpr1 & H).
  apply bind_Some in H as (k2 & Hk2 & H).
  apply bind_Some in H as (k3 & Hk3 & H).
  apply bind_Some in H as (pr3 & Hpr3 & H).
  destruct (reparent_loop_spec _ _ _ _ _ _ Hk1 Hme Hlen Hinit')
    as (Hs1 & Hpar1 & Hno1).
  pose proof Hs1 as (Hc1 & Hi1 & Hh1 & Hl1 & _).
  assert (Hme1 : myproc c k1 = Some (Some p))
    by (unfold myproc in *; rewrite Hc1; exact Hme).
  pose proof (wakeup_loop_settles p _ _ _ _ _ Hk2) as Hs2.
  pose proof (wakeup_no_sleeper _ _ _ _ _ Hk2 Hme1 (Hh1 Hlen)) as Hno2.
  pose proof (acquire_proc_settles p _ _ _ _ Hk3) as Hs3.
  apply acquire_proc_spec in Hk3 as (pr2 & Hpr2 & Hl2 & ->).
  rewrite (lookup_store_eq _ _ _ _ Hpr2) in Hpr3. injection Hpr3 as <-.
  rewrite store_store in H.
  set (prz := set_state ZOMBIE (set_xstate status (set_lock (Some c) pr2)))
    in *.
  assert (Hs4 : settles p k2 (store p prz k2)).
  { apply (settles_store p p prz k2 pr2 Hpr2); [reflexivity| |left; reflexivity].
    discriminate. }
  assert (Hs : settles p k (store p prz k2)).
  { eapply settles_trans; [exact Hs1|].
    eapply settles_trans; [exact Hs2|exact Hs4]. }
  apply sched_spec in H
    as (h & pr & cp & q & Hcp & Hh & Hq & Hpr & _ & _ & ->).
  change (cpus (store p prz k2)) with (cpus k2) in Hcp.
  pose proof Hs2 as (Hc2 & Hi2 & Hh2 & Hl2' & Ht2).
  rewrite Hc2, Hc1 in Hcp.
  assert (h = p).
  { unfold myproc in Hme. rewrite Hcp in Hme. simpl in Hme. congruence. }
  subst h.
  rewrite (lookup_store_eq _ _ _ _ Hpr2) in Hpr. injection Hpr as <-.
  assert (Hpar12 : parent pr2 = parent pr1).
  { destruct (Ht2 _ _ _ Hpr1 Hpr2) as (_ & _ & [Hp|[Hp _]]); [exact Hp|].
    exfalso. eapply (Hpar1 p pr1); [apply elem_of_seq; lia|exact Hpr1|exact Hp]. }
  exists (store p prz k2), prz, cp, q.
  split; [exact Hs|].
  split; [exact (lookup_store_eq _ _ _ _ Hpr2)|].
  split; [reflexivity|]. split; [reflexivity|]. split; [reflexivity|].
  split; [exact Hcp|]. split; [exact Hq|]. split; [reflexivity|].
  split; [|split].
  - intros x pq' Hx Hpq'.
    destruct (lookup_lt_is_Some_2 (proc_table k1) x) as [pq1 Hpq1].
    { rewrite <- Hl2'. apply lookup_lt_Some in Hpq'.
      cbn [proc_table store set_proc_table] in Hpq'.
      rewrite length_insert in Hpq'. exact Hpq'. }
    assert (Hs14 : settles p k1 (store p prz k2))
      by (eapply settles_trans; [exact Hs2|exact Hs4]).
    destruct Hs14 as (_ & _ & _ & _ & Ht14).
    destruct (Ht14 _ _ _ Hpq1 Hpq') as (_ & _ & [Hp|[Hp _]]).
    + rewrite Hp. eapply Hpar1; [|exact Hpq1]. apply elem_of_seq. lia.
    + exfalso. eapply Hpar1; [|exact Hpq1|exact Hp]. apply elem_of_seq. lia.
  - apply (no_sleeper_settles p _ _ k2 _ Hs4).
    change (parent prz) with (parent pr2). rewrite Hpar12. exact Hno2.
  - intros (x & pq & Hx & Hpq & Hchild).
    apply (no_sleeper_settles p _ _ k1).
    + eapply settles_trans; [exact Hs2|exact Hs4].
    + apply Hno1. right. exists x, pq. split; [|auto].
      apply elem_of_seq. lia.
Qed.

End ExitCallSpec.
(** ** Process life cycle *)

(** X17.  [wakeup(chan)] makes every process that sleeps on [chan], the
    caller apart, RUNNABLE and puts it in the heap; every other entry of
    the process table is exactly as before, locks included. *)
Theorem wakeup_wakes_sleepers c ch k k' me :
  wakeup c ch k = Some k' -> myproc c k = Some me ->
  length (heap (proc_sched k)) = NPROC ->
  forall p pr, (p < NPROC)%nat -> proc_table k !! p = Some pr ->
    if wakes ch me p pr
    then exists pr', proc_table k' !! p = Some pr' /\
                     state pr' = RUNNABLE /\ lock pr' = None /\
                     Some p ∈ queue k'
    else proc_table k' !! p = Some pr.
Proof.
  unfold wakeup. intros H Hme Hlen p pr Hp Hpr.
  destruct (wakeup_loop_spec _ _ _ _ _ _ H Hme Hlen (NoDup_seq 0 NPROC))
    as (_ & _ & _ & _ & Hall).
  apply Hall; [|exact Hpr]. apply elem_of_seq. lia.
Qed.

Lemma wakeup_wakes_sleepers_witness :
  exists pr',
    proc_table (after_wakeup 0 7 (state_after trace_sleeper)) !! 1%nat
    = Some pr' /\ state pr' = RUNNABLE.
Proof.
  assert (Hw : wakeup 0 7 (state_after trace_sleeper)
               = Some (after_wakeup 0 7 (state_after trace_sleeper)))
    by (vm_compute; reflexivity).
  assert (Hme : myproc 0 (state_after trace_sleeper) = Some (Some 0%nat))
    by (vm_compute; reflexivity).
  assert (Hlen : length (heap (proc_sched (state_after trace_sleeper)))
                 = NPROC) by (vm_compute; reflexivity).
  assert (Hpr : proc_table (state_after trace_sleeper) !! 1%nat
                = Some (proc_of (state_after trace_sleeper) 1))
    by (vm_compute; reflexivity).
  assert (Hwakes : wakes 7 (Some 0%nat) 1
                     (proc_of (state_after trace_sleeper) 1) = true)
    by (vm_compute; reflexivity).
  pose proof (wakeup_wakes_sleepers 0 7 _ _ _ Hw Hme Hlen 1%nat _
                ltac:(vm_compute; lia) Hpr) as H.
  rewrite Hwakes in H. destruct H as (pr' & Hpr' & Hst & _).
  exists pr'. split; [exact Hpr'|exact Hst].
Defined.

(** X18.  [kill(pid)] returns -1 and leaves the kernel state as it was
    when no process has the pid; otherwise it returns 0 after acting on
    the first table entry with the pid only: it sets [killed], and makes
    the process RUNNABLE and puts it in the heap if it was SLEEPING. *)
Theorem kill_first_match c target k r k' :
  kill c target k = Some (r, k') ->
  (r = -1 /\ k' = k /\
   forall q pq, (q < NPROC)%nat -> proc_table k !! q = Some pq ->
                pid pq <> target) \/
  (r = 0 /\ exists p pr pr',
     (p < NPROC)%nat /\ proc_table k !! p = Some pr /\ pid pr = target /\
     (forall q pq, (q < p)%nat -> proc_table k !! q = Some pq ->
                   pid pq <> target) /\
     proc_table k' = <[p := pr']> (proc_table k) /\
     killed pr' = 1 /\ pid pr' = target /\ lock pr' = None /\
     state pr' = (if procstate_eqb (state pr) SLEEPING then RUNNABLE
                  else state pr) /\
     heap_size (proc_sched k')
     = (if procstate_eqb (state pr) SLEEPING
        then C.add (heap_size (proc_sched k)) 1
        else heap_size (proc_sched k)) /\
     cpus k' = cpus k).
Proof.
  unfold kill. intros H.
  destruct (kill_scan_spec _ _ _ _ _ _ _ H)
    as [(Hr & Hk & Hall)|(Hr & p & Hp & Hat & Hall)].
  - left. split; [exact Hr|]. split; [exact Hk|].
    intros q pq Hq. apply Hall. lia.
  - right. split; [exact Hr|].
    destruct (kill_at_hit _ _ _ _ _ Hat)
      as (pr & pr' & Hpr & Hpid & _ & Htbl & Hki & Hpid' & Hl & Hst & Hsz
          & Hc).
    exists p, pr, pr'. split; [lia|]. split; [exact Hpr|].
    split; [exact Hpid|]. split; [intros q pq Hq; apply Hall; lia|].
    auto 10.
Qed.

Lemma kill_first_match_witness :
  killed (proc_of (after_kill 0 2 (state_after trace_sleeper)) 1) = 1 /\
  state (proc_of (after_kill 0 2 (state_after trace_sleeper)) 1) = RUNNABLE.
Proof.
  assert (Hk : kill 0 2 (state_after trace_sleeper)
               = Some (0, after_kill 0 2 (state_after trace_sleeper)))
    by (vm_compute; reflexivity).
  assert (Hp0 : pid (proc_of (state_after trace_sleeper) 0) = 1)
    by (vm_compute; reflexivity).
  assert (Hl0 : proc_table (state_after trace_sleeper) !! 0%nat
                = Some (proc_of (state_after trace_sleeper) 0))
    by (vm_compute; reflexivity).
  assert (Hl1 : proc_table (state_after trace_sleeper) !! 1%nat
                = Some (proc_of (state_after trace_sleeper) 1))
    by (vm_compute; reflexivity).
  assert (Hs1 : procstate_eqb (state (proc_of (state_after trace_sleeper) 1))
                  SLEEPING = true) by (vm_compute; reflexivity).
  assert (Hp1 : pid (proc_of (state_after trace_sleeper) 1) = 2)
    by (vm_compute; reflexivity).
  assert (Hlen : (1 < length (proc_table (state_after trace_sleeper)))%nat)
    by (vm_compute; lia).
  destruct (kill_first_match _ _ _ _ _ Hk) as [(Hr & _)|(_ & H)];
    [discriminate Hr|].
  destruct H as (p & pr & pr' & _ & Hpr & Hpid & Hfirst & Htbl & Hki & _ & _
                 & Hst & _).
  assert (p = 1%nat).
  { destruct p as [|[|p]]; [|reflexivity|].
    - assert (Hpr0 : pr = proc_of (state_after trace_sleeper) 0)
        by congruence.
      rewrite Hpr0, Hp0 in Hpid. discriminate Hpid.
    - exfalso. apply (Hfirst 1%nat _ ltac:(lia) Hl1). exact Hp1. }
  subst p.
  assert (Hpr1 : pr = proc_of (state_after trace_sleeper) 1) by congruence.
  rewrite Hpr1, Hs1 in Hst.
  assert (Hnew : proc_table (after_kill 0 2 (state_after trace_sleeper))
                   !! 1%nat = Some pr')
    by (rewrite Htbl; apply list_lookup_insert_eq; exact Hlen).
  unfold proc_of. rewrite Hnew. split; [exact Hki|exact Hst].
Defined.

(** X19.  [allocproc()] takes the first UNUSED entry of the process
    table.  If there is none it returns 0 and leaves the kernel state as
    it was.  Otherwise it uses up one pid ([nextpid] grows by one) and
    touches that entry only: when the memory allocations succeed it
    returns the entry in state USED, with the old [nextpid] as pid, the
    scheduling fields zeroed, the context set to [forkret] and its lock
    still held; when they fail it returns 0 and the entry is freed and
    unlocked. *)
Theorem allocproc_first_unused c mem_ok k r k' :
  allocproc c mem_ok k = Some (r, k') ->
  (r = None /\ k' = k /\
   forall q pq, (q < NPROC)%nat -> proc_table k !! q = Some pq ->
                state pq <> UNUSED) \/
  (exists p pr,
     (p < NPROC)%nat /\ proc_table k !! p = Some pr /\
     state pr = UNUSED /\
     (forall q pq, (q < p)%nat -> proc_table k !! q = Some pq ->
                   state pq <> UNUSED) /\
     nextpid k' = C.add (nextpid k) 1 /\ cpus k' = cpus k /\
     proc_sched k' = proc_sched k /\
     if mem_ok
     then r = Some p /\
          proc_table k'
          = <[p := mkproc (Some c) USED (chan pr) (killed pr) (xstate pr)
                     (nextpid k) (parent pr) CtxForkret 0 0 0 0 0]>
              (proc_table k)
     else r = None /\
          proc_table k' = <[p := free_entry pr]> (proc_table k)).
Proof.
  unfold allocproc. intros H.
  destruct (allocproc_scan_spec _ _ _ _ _ _ _ H)
    as [(Hr & Hk & Hall)|(p & pr & Hp & Hpr & Hst & Hl & Hall & Hf)].
  - left. split; [exact Hr|]. split; [exact Hk|].
    intros q pq Hq. apply Hall. lia.
  - right. exists p, pr.
    destruct (allocproc_found_spec _ _ _ _ _ _ _ Hpr Hl Hf)
      as (Hn & Hc & Hs & _ & _ & Hres).
    split; [lia|]. split; [exact Hpr|]. split; [exact Hst|].
    split; [intros q pq Hq; apply Hall; lia|]. auto.
Qed.

Lemma allocproc_first_unused_witness :
  exists k',
    allocproc 0 true (state_after trace_running) = Some (Some 1%nat, k') /\
    nextpid k' = 3.
Proof.
  assert (Ha : allocproc 0 true (state_after trace_running)
               = Some (Some 1%nat,
                       default kernel_init
                         (snd <$> allocproc 0 true
                                    (state_after trace_running))))
    by (vm_compute; reflexivity).
  assert (Hn : nextpid (state_after trace_running) = 2)
    by (vm_compute; reflexivity).
  destruct (allocproc_first_unused _ _ _ _ _ Ha) as [(Hr & _)|H];
    [discriminate Hr|].
  destruct H as (p & pr & _ & _ & _ & _ & Hnp & _).
  eexists. split; [exact Ha|]. rewrite Hnp, Hn. reflexivity.
Defined.

(** X20.  [exit(status)], with the wakeups of [reparent] and the
    [wakeup(p->parent)], whatever the addresses of the table entries are:
    it is refused to init; for any other process [p] of the table, in a
    state whose heap array has [NPROC] slots, it ends with the process a
    ZOMBIE holding [status], its lock held by the CPU, which is back in
    its scheduler loop; nobody sleeps any more on the address of the parent
    of [p]; no entry of the table has [p] as parent; every child of [p]
    has been handed to init, and then nobody sleeps on the address of init
    either. *)
Theorem exit_leaves_zombie proc_addr c status k k' p :
  exit_call proc_addr c status k = Some k' ->
  myproc c k = Some (Some p) -> (p < NPROC)%nat ->
  length (heap (proc_sched k)) = NPROC ->
  initproc k <> Some p /\
  (exists pr' q,
     proc_table k' !! p = Some pr' /\ state pr' = ZOMBIE /\
     xstate pr' = status /\ lock pr' = Some c /\
     cpus k' !! c = Some (mkcpu (Some p) (SchedResumed q)) /\
     no_sleeper (chan_of proc_addr (parent pr')) None k') /\
  (forall x pq', (x < NPROC)%nat -> proc_table k' !! x = Some pq' ->
     parent pq' <> Some p) /\
  (forall x pq, (x < NPROC)%nat -> proc_table k !! x = Some pq ->
     parent pq = Some p ->
     (exists pq', proc_table k' !! x = Some pq' /\
                  parent pq' = initproc k) /\
     no_sleeper (chan_of proc_addr (initproc k)) None k').
Proof.
  intros H Hme Hp Hlen.
  destruct (exit_call_spec _ _ _ _ _ _ H Hme Hp Hlen)
    as (Hinit & k4 & pr & cp & q & Hs & Hpr & Hst & Hx & Hl & Hcp & Hq & ->
        & Hpar & Hno & Hnoi).
  set (prz := set_context CtxExit pr).
  assert (Hlook : forall x pq', proc_table (store p prz k4) !! x = Some pq' ->
            exists pq4, proc_table k4 !! x = Some pq4 /\
                        state pq' = state pq4 /\ chan pq' = chan pq4 /\
                        parent pq' = parent pq4).
  { intros x pq' Hx'.
    apply lookup_store in Hx' as [(-> & -> & _)|(Hne & Hx')].
    - exists pr. auto.
    - exists pq'. auto. }
  assert (Hall : forall ch, no_sleeper ch (Some p) k4 ->
                            no_sleeper ch None (store p prz k4)).
  { intros ch Hn x pq' Hx' _ Hpq' [Hs' Hc'].
    destruct (Hlook _ _ Hpq') as (pq4 & Hpq4 & Es & Ec & _).
    destruct (decide (x = p)) as [->|Hne].
    - assert (pq4 = pr) by congruence. subst pq4. congruence.
    - apply (Hn x pq4 Hx'); [congruence|exact Hpq4|].
      split; congruence. }
  split; [exact Hinit|]. split; [|split].
  - exists prz, q.
    split; [exact (lookup_store_eq _ _ _ _ Hpr)|].
    split; [exact Hst|]. split; [exact Hx|]. split; [exact Hl|]. split.
    + cbn [cpus set_cpu set_cpus]. apply list_lookup_insert_eq.
      change (cpus (store p prz k4)) with (cpus k4).
      destruct Hs as (Hc & _). rewrite Hc.
      eapply lookup_lt_Some; eauto.
    + apply (Hall _ Hno).
  - intros x pq' Hx' Hpq'.
    destruct (Hlook _ _ Hpq') as (pq4 & Hpq4 & _ & _ & Ep).
    rewrite Ep. apply (Hpar x pq4 Hx' Hpq4).
  - intros x pq Hx' Hpq Hchild. split.
    + destruct Hs as (_ & _ & _ & Hlen4 & Ht).
      destruct (lookup_lt_is_Some_2 (proc_table k4) x) as [pq4 Hpq4].
      { rewrite Hlen4. eapply lookup_lt_Some; eauto. }
      assert (Ep : parent pq4 = initproc k).
      { destruct (Ht _ _ _ Hpq Hpq4) as (_ & _ & [E|[_ E]]); [|exact E].
        exfalso. apply (Hpar x pq4 Hx' Hpq4). congruence. }
      destruct (decide (x = p)) as [->|Hne].
      * assert (pq4 = pr) by congruence. subst pq4.
        exists prz. split; [exact (lookup_store_eq _ _ _ _ Hpr)|exact Ep].
      * exists pq4. split; [|exact Ep].
        apply lookup_store. right. split; [exact Hne|exact Hpq4].
    + apply Hall, Hnoi. exists x, pq. auto.
Qed.

Lemma exit_leaves_zombie_witness :
  state (proc_of (after_exit 1 5 (state_after trace_waiting_parent)) 1)
  = ZOMBIE /\
  state (proc_of (after_exit 1 5 (state_after trace_waiting_parent)) 0)
  <> SLEEPING.
Proof.
  assert (He : exit_call example_addr 1 5 (state_after trace_waiting_parent)
               = Some (after_exit 1 5 (state_after trace_waiting_parent)))
    by (vm_compute; reflexivity).
  assert (Hme : myproc 1 (state_after trace_waiting_parent)
                = Some (Some 1%nat))
    by (vm_compute; reflexivity).
  assert (Hp : (1 < NPROC)%nat) by (vm_compute; lia).
  assert (Hp0 : (0 < NPROC)%nat) by (vm_compute; lia).
  assert (Hlen : length (heap (proc_sched (state_after trace_waiting_parent)))
                 = NPROC)
    by (vm_compute; reflexivity).
  assert (H0 : proc_table (after_exit 1 5 (state_after trace_waiting_parent))
               !! 0%nat
               = Some (proc_of (after_exit 1 5
                                  (state_after trace_waiting_parent)) 0))
    by (vm_compute; reflexivity).
  assert (H1 : proc_table (after_exit 1 5 (state_after trace_waiting_parent))
               !! 1%nat
               = Some (proc_of (after_exit 1 5
                                  (state_after trace_waiting_parent)) 1))
    by (vm_compute; reflexivity).
  assert (Hc0 : chan (proc_of (after_exit 1 5
                                 (state_after trace_waiting_parent)) 0)
                = chan_of example_addr
                    (parent (proc_of (after_exit 1 5
                               (state_after trace_waiting_parent)) 1)))
    by (vm_compute; reflexivity).
  destruct (exit_leaves_zombie _ _ _ _ _ _ He Hme Hp Hlen)
    as (_ & (pr' & q & Hpr' & Hst & _ & _ & _ & Hno) & _).
  assert (Epr : pr' = proc_of (after_exit 1 5
                                 (state_after trace_waiting_parent)) 1)
    by congruence.
  rewrite Epr in Hst, Hno.
  split; [exact Hst|].
  intros Hs. apply (Hno 0%nat _ Hp0 (Some_ne_None 0%nat) H0).
  split; [exact Hs|exact Hc0].
Defined.

(** X21.  The timer preempts a process by its time slice: after a
    dispatch ([cpu_burst] = 0), unless the policy is preemptive SJF, the
    first calls of [timer_routine] only count the ticks in [cpu_burst], as
    long as the count stays below a positive [timeslice], or for ever
    when [timeslice] is not positive; the call that makes [cpu_burst]
    equal to a positive [timeslice] calls [yield]. *)
Theorem timeslice_expiry c h k pr :
  proc_table k !! h = Some pr -> cpu_burst pr = 0 ->
  (algorithm (proc_sched k) =? 0) && (is_preemptive (proc_sched k) =? 1)
  = false ->
  (forall n, Z.of_nat n < C.INT_HALF ->
     timeslice pr <= 0 \/ Z.of_nat n < timeslice pr ->
     timer_ticks n c h k
     = Some (store h (set_cpu_burst (Z.of_nat n) pr) k)) /\
  (0 < timeslice pr < C.INT_HALF ->
   timer_ticks (Z.to_nat (timeslice pr)) c h k
   = yield c (store h (set_cpu_burst (timeslice pr) pr) k)).
Proof.
  intros Hpr Hcb Hpol. split.
  - intros n Hn Hts. apply timer_ticks_count; assumption.
  - intros Ht.
    destruct (Z.to_nat (timeslice pr)) as [|n] eqn:En; [lia|].
    cbn [timer_ticks].
    rewrite (timer_ticks_count n c h k pr Hpr Hcb Hpol) by lia.
    cbn [mbind option_bind].
    rewrite (timer_routine_expire c h _ (set_cpu_burst (Z.of_nat n) pr)).
    + cbn [timeslice set_cpu_burst]. rewrite store_store. reflexivity.
    + eapply lookup_store_eq; eauto.
    + cbn [timeslice set_cpu_burst]. lia.
    + cbn [timeslice cpu_burst set_cpu_burst]. unfold C.add.
      rewrite to_int_small by (unfold C.in_int, C.INT_HALF in *; lia). lia.
Qed.

Lemma timeslice_expiry_witness :
  timer_ticks 3 1 1 (state_after trace_cfs_dispatched)
  = yield 1 (store 1 (set_cpu_burst 3
                        (proc_of (state_after trace_cfs_dispatched) 1))
               (state_after trace_cfs_dispatched)).
Proof.
  assert (Hpr : proc_table (state_after trace_cfs_dispatched) !! 1%nat
                = Some (proc_of (state_after trace_cfs_dispatched) 1))
    by (vm_compute; reflexivity).
  assert (Hcb : cpu_burst (proc_of (state_after trace_cfs_dispatched) 1) = 0)
    by (vm_compute; reflexivity).
  assert (Hts : timeslice (proc_of (state_after trace_cfs_dispatched) 1) = 3)
    by (vm_compute; reflexivity).
  pose proof (proj2 (timeslice_expiry 1 1 _ _ Hpr Hcb
                       ltac:(vm_compute; reflexivity))) as H.
  rewrite Hts in H. apply H. vm_compute. split; reflexivity.
Defined.

(** X22.  A successful [fork()] by the process [p] on CPU [c], with the
    heap well formed and not full, turns the UNUSED entry it takes into
    a RUNNABLE child in the heap: the child has the next pid, [p] as
    parent, its lock free, its context at [forkret], and a zero burst,
    estimate, [exe_time] and time slice. *)
Theorem fork_queues_child c k cp q p np pr :
  sched_wf k -> cpus k !! c = Some cp ->
  sched_at cp = SchedSwitched q -> cproc cp = Some p ->
  proc_table k !! np = Some pr -> state pr = UNUSED -> lock pr = None ->
  heap_size (proc_sched k) < Z.of_nat NPROC ->
  exists k' pr',
    run [EvForkAlloc c np true true; EvForkPut c np] k = Some k' /\
    proc_table k' = <[np := pr']> (proc_table k) /\
    pid pr' = nextpid k /\ parent pr' = Some p /\
    state pr' = RUNNABLE /\ lock pr' = None /\
    context pr' = CtxForkret /\
    cpu_burst pr' = 0 /\ cpu_burst_aprox pr' = 0 /\ exe_time pr' = 0 /\
    timeslice pr' = 0 /\
    nextpid k' = C.add (nextpid k) 1 /\
    heap_size (proc_sched k') = heap_size (proc_sched k) + 1 /\
    queue k' ≡ₚ queue k ++ [Some np] /\
    sched_wf k' /\ cpus k' = cpus k.
Proof.
  intros Hwf Hcp Hat Hp Hpr Hst Hl Hn.
  destruct (fork_ok c k cp q p np pr Hwf Hcp Hat Hp Hpr Hst Hl Hn)
    as (k' & pr' & H).
  exists k', pr'. exact H.
Qed.

Lemma fork_queues_child_witness :
  exists k',
    run [EvForkAlloc 0 1 true true; EvForkPut 0 1]%nat
      (state_after trace_running) = Some k' /\
    pid (proc_of k' 1) = 2 /\ parent (proc_of k' 1) = Some 0%nat.
Proof.
  assert (Hwf : sched_wf (state_after trace_running))
    by (apply sched_wfb_sound; vm_compute; reflexivity).
  assert (Hcp : cpus (state_after trace_running) !! 0%nat
                = Some (mkcpu (Some 0%nat) (SchedSwitched 0)))
    by (vm_compute; reflexivity).
  assert (Hpr : proc_table (state_after trace_running) !! 1%nat
                = Some proc_zero) by (vm_compute; reflexivity).
  assert (Hnp : nextpid (state_after trace_running) = 2)
    by (vm_compute; reflexivity).
  assert (Hlen : (1 < length (proc_table (state_after trace_running)))%nat)
    by (vm_compute; lia).
  destruct (fork_queues_child 0 _ _ 0%nat 0%nat 1%nat _ Hwf Hcp eq_refl
              eq_refl Hpr eq_refl eq_refl)
    as (k' & pr' & Hrun & Htbl & Hpid & Hpar & _).
  - vm_compute. reflexivity.
  - exists k'. split; [exact Hrun|].
    assert (Hnew : proc_table k' !! 1%nat = Some pr')
      by (rewrite Htbl; apply list_lookup_insert_eq; exact Hlen).
    unfold proc_of. rewrite Hnew. simpl.
    rewrite Hpid, Hpar, Hnp. split; reflexivity.
Defined.

(** ** The user program *)

(** X23.  The program chsched prints the policy only when the kernel
    accepted it.  With valid arguments (algorithm 0 or 1, [is_preemptive]
    not negative, and [a] within 0..100 under algorithm 0) it prints the
    algorithm, under SJF also [is_preemptive] and [a], and then return
    code 0, and the policy is in force; with any other arguments it
    prints only the return code, -2 or -3, and the kernel state is
    unchanged. *)
Theorem chsched_main_prints c algo ip a0 k :
  sched_wf k ->
  (0 <= algo <= 1 -> 0 <= ip -> ~ (algo = 0 /\ (a0 < 0 \/ a0 > 100)) ->
   exists k',
     chsched_main c algo ip a0 k
     = Some (("algorithm: %s\n"%string,
              ArgStr (if algo =? 0 then "SJF"%string else "CFS"%string))
             :: (if algo =? 0
                 then [("is_preemptive: %d\n"%string, ArgInt ip);
                       ("a: %d\n"%string, ArgInt a0)]
                 else [])
             ++ [("return code: %d\n"%string, ArgInt 0)], k') /\
     algorithm (proc_sched k') = algo /\
     is_preemptive (proc_sched k') = ip /\ a (proc_sched k') = a0) /\
  (~ (0 <= algo <= 1 /\ 0 <= ip /\ ~ (algo = 0 /\ (a0 < 0 \/ a0 > 100))) ->
   exists ret,
     (ret = -2 \/ ret = -3) /\
     chsched_main c algo ip a0 k
     = Some ([("return code: %d\n"%string, ArgInt ret)], k)).
Proof.
  intros Hwf. split.
  - intros Halgo Hip Ha.
    destruct (change_sched_accepts c algo ip a0 k Hwf Halgo Hip Ha)
      as (arr & _ & Hc).
    eexists. split.
    + unfold chsched_main, sys_chsched. rewrite Hc. reflexivity.
    + repeat split.
  - intros Hbad. unfold chsched_main, sys_chsched, change_sched.
    destruct ((algo <? 0) || (algo >? 1) || (ip <? 0)) eqn:E1.
    { exists (-2). split; [left; reflexivity|reflexivity]. }
    destruct ((algo =? 0) && ((a0 <? 0) || (a0 >? 100))) eqn:E2.
    { exists (-3). split; [right; reflexivity|reflexivity]. }
    exfalso. apply Hbad.
    apply orb_false_iff in E1 as [E1 E3].
    apply orb_false_iff in E1 as [E1 E4].
    apply Z.ltb_ge in E1, E3. rewrite Z.gtb_ltb in E4.
    apply Z.ltb_ge in E4.
    split; [lia|]. split; [lia|]. intros [-> Ha].
    simpl in E2. apply orb_false_iff in E2 as [E5 E6].
    apply Z.ltb_ge in E5. rewrite Z.gtb_ltb in E6. apply Z.ltb_ge in E6.
    lia.
Qed.

Lemma chsched_main_prints_witness :
  exists k',
    chsched_main 0 0 1 50 (state_after trace_running)
    = Some ([("algorithm: %s\n"%string, ArgStr "SJF"%string);
             ("is_preemptive: %d\n"%string, ArgInt 1);
             ("a: %d\n"%string, ArgInt 50);
             ("return code: %d\n"%string, ArgInt 0)], k').
Proof.
  assert (Hwf : sched_wf (state_after trace_running))
    by (apply sched_wfb_sound; vm_compute; reflexivity).
  destruct (proj1 (chsched_main_prints 0 0 1 50 _ Hwf))
    as (k' & Hmain & _); [lia|lia|lia|].
  exists k'. exact Hmain.
Defined.
(** ** Dispatch, sleep and wait *)

(** X24.  The scheduler acts on a pointer it took from the heap only if
    the process is RUNNABLE.  Otherwise (a stale duplicate) it drops the
    pointer: nothing changes but the position of the CPU in its loop.  A
    RUNNABLE process becomes RUNNING on that CPU with [c->proc] set, its
    lock is free again once it continues, and a process that returns from
    [sleep] has its channel cleared. *)
Theorem scheduler_dispatch c k cp p pr :
  cpus k !! c = Some cp -> sched_at cp = SchedGot p ->
  proc_table k !! p = Some pr -> lock pr = None ->
  (state pr <> RUNNABLE ->
   scheduler_run c k = Some (set_cpu c (mkcpu (cproc cp) SchedTop) k)) /\
  (state pr = RUNNABLE ->
   context pr = CtxYield \/ context pr = CtxForkret \/ context pr = CtxSleep ->
   scheduler_run c k
   = Some (set_cpu c (mkcpu (Some p) (SchedSwitched p))
             (store p (set_state RUNNING
                         (match context pr with
                          | CtxSleep => set_chan 0 pr
                          | _ => pr
                          end)) k))).
Proof.
  intros Hcp Hat Hpr Hl. split.
  - intros Hst. eapply scheduler_run_stale; eauto.
  - intros Hst Hctx. eapply scheduler_run_dispatch; eauto.
Qed.

Lemma scheduler_dispatch_witness :
  scheduler_run 1 (state_after trace_stale_entry)
  = Some (set_cpu 1 (mkcpu None SchedTop) (state_after trace_stale_entry)).
Proof.
  assert (Hcp : cpus (state_after trace_stale_entry) !! 1%nat
                = Some (mkcpu None (SchedGot 0)))
    by (vm_compute; reflexivity).
  assert (Hpr : proc_table (state_after trace_stale_entry) !! 0%nat
                = Some (proc_of (state_after trace_stale_entry) 0))
    by (vm_compute; reflexivity).
  assert (Hl : lock (proc_of (state_after trace_stale_entry) 0) = None)
    by (vm_compute; reflexivity).
  assert (Hst : state (proc_of (state_after trace_stale_entry) 0) = RUNNING)
    by (vm_compute; reflexivity).
  apply (proj1 (scheduler_dispatch 1 _ _ 0%nat _ Hcp eq_refl Hpr Hl)).
  rewrite Hst. discriminate.
Defined.

(** X25.  [sleep] does not put the process in the heap, and the wakeup
    puts it there once: after [sleep(chan)] by [p] and the scheduler's
    return on its CPU, [p] is SLEEPING on [chan] with its lock free and
    the scheduler record is as before; a round of [wakeup(chan)] on
    another CPU then makes [p] RUNNABLE and adds one slot for it. *)
Theorem sleep_then_wakeup c c2 ch k p pr cp2 :
  sched_wf k ->
  cpus k !! c = Some (mkcpu (Some p) (SchedSwitched p)) ->
  proc_table k !! p = Some pr -> lock pr = None ->
  c2 <> c -> cpus k !! c2 = Some cp2 ->
  (forall q, sched_at cp2 <> SchedResumed q) -> cproc cp2 <> Some p ->
  heap_size (proc_sched k) < Z.of_nat NPROC ->
  exists k1 k2 pr2,
    run [EvSleep c ch; EvSchedBack c] k = Some k1 /\
    proc_table k1 !! p
    = Some (set_context CtxSleep (set_state SLEEPING (set_chan ch pr))) /\
    proc_sched k1 = proc_sched k /\
    step (EvWakeup c2 ch p) k1 = Some k2 /\
    proc_table k2 !! p = Some pr2 /\
    state pr2 = RUNNABLE /\ lock pr2 = None /\
    heap_size (proc_sched k2) = heap_size (proc_sched k) + 1 /\
    queue k2 ≡ₚ queue k ++ [Some p].
Proof.
  intros Hwf Hcp Hpr Hl Hc2 Hcp2 Hint Hme Hn.
  set (prs := set_context CtxSleep
                (set_state SLEEPING (set_chan ch (set_lock (Some c) pr)))).
  set (k0 := set_cpu c (mkcpu (Some p) (SchedResumed p)) (store p prs k)).
  assert (Hsleep : sleep c ch k = Some k0)
    by (exact (sleep_ok c ch k _ p p pr Hcp eq_refl eq_refl Hpr Hl)).
  assert (Hcp0 : cpus k0 !! c = Some (mkcpu (Some p) (SchedResumed p))).
  { unfold k0. cbn [cpus set_cpu set_cpus store set_proc_table].
    eapply lookup_insert_Some_eq; eauto. }
  assert (Hpr0 : proc_table k0 !! p = Some prs)
    by (exact (lookup_store_eq p pr prs k Hpr)).
  set (k1 := store p (set_lock None prs) (set_cpu c (mkcpu None SchedTop) k0)).
  assert (Hback : scheduler_back c k0 = Some k1).
  { apply (scheduler_back_idle c k0 _ p prs Hcp0 eq_refl eq_refl Hpr0
             eq_refl). discriminate. }
  assert (Heq : set_lock None prs
                = set_context CtxSleep (set_state SLEEPING (set_chan ch pr))).
  { unfold prs. destruct pr. cbn [lock] in Hl. subst. reflexivity. }
  assert (Hpr1 : proc_table k1 !! p = Some (set_lock None prs)).
  { unfold k1. eapply lookup_store_eq. exact Hpr0. }
  assert (Hwf1 : sched_wf k1).
  { unfold k1, k0. apply sched_wf_store, sched_wf_set_cpu, sched_wf_set_cpu,
      sched_wf_store, Hwf. }
  assert (Hcp1 : cpus k1 !! c2 = Some cp2).
  { unfold k1, k0. cbn [cpus set_cpu set_cpus store set_proc_table].
    rewrite !list_lookup_insert_ne by congruence. exact Hcp2. }
  destruct (wakeup_at_ok c2 ch p k1 cp2 (set_lock None prs) Hwf1 Hcp1 Hme
              Hpr1 eq_refl eq_refl eq_refl Hn)
    as (k2 & pr2 & Hw & Htbl & Hst2 & Hl2 & Hsz & Hq & _).
  exists k1, k2, pr2. split.
  { cbn [run step]. unfold in_process. rewrite Hcp. cbn [sched_at].
    rewrite Hsleep. cbn [mbind option_bind]. rewrite Hback. reflexivity. }
  split; [rewrite Hpr1, Heq; reflexivity|]. split; [reflexivity|].
  split.
  { cbn [step]. unfold interruptible. rewrite Hcp1.
    destruct (sched_at cp2) eqn:E; try exact Hw.
    destruct (Hint _ eq_refl). }
  split; [rewrite Htbl; eapply lookup_insert_Some_eq; eauto|].
  split; [exact Hst2|]. split; [exact Hl2|]. split; [exact Hsz|exact Hq].
Qed.

Lemma sleep_then_wakeup_witness :
  exists k1 k2,
    run [EvSleep 1%nat 7; EvSchedBack 1%nat] (state_after trace_child)
    = Some k1 /\
    step (EvWakeup 0%nat 7 1%nat) k1 = Some k2 /\
    heap_size (proc_sched k2) = 1.
Proof.
  assert (Hwf : sched_wf (state_after trace_child))
    by (apply sched_wfb_sound; vm_compute; reflexivity).
  assert (Hcp : cpus (state_after trace_child) !! 1%nat
                = Some (mkcpu (Some 1%nat) (SchedSwitched 1)))
    by (vm_compute; reflexivity).
  assert (Hpr : proc_table (state_after trace_child) !! 1%nat
                = Some (proc_of (state_after trace_child) 1))
    by (vm_compute; reflexivity).
  assert (Hl : lock (proc_of (state_after trace_child) 1) = None)
    by (vm_compute; reflexivity).
  assert (Hcp2 : cpus (state_after trace_child) !! 0%nat
                 = Some (mkcpu (Some 0%nat) (SchedSwitched 0)))
    by (vm_compute; reflexivity).
  assert (Hsz : heap_size (proc_sched (state_after trace_child)) = 0)
    by (vm_compute; reflexivity).
  destruct (sleep_then_wakeup 1 0 7 _ 1%nat _
              (mkcpu (Some 0%nat) (SchedSwitched 0)) Hwf Hcp Hpr Hl)
    as (k1 & k2 & pr2 & Hrun & _ & _ & Hw & _ & _ & _ & Hn & _).
  - discriminate.
  - exact Hcp2.
  - intros q. discriminate.
  - discriminate.
  - rewrite Hsz. vm_compute. reflexivity.
  - exists k1, k2. split; [exact Hrun|]. split; [exact Hw|].
    rewrite Hn, Hsz. reflexivity.
Defined.

(** X26.  One round of the scan of [wait] changes the kernel state only
    when it reaps: for a ZOMBIE child of the caller whose exit status
    could be copied out it returns the child's pid and leaves the entry
    free and unlocked; when the copy fails it returns -1; for an entry
    that is not a child, or a child that is not a ZOMBIE, it returns
    nothing and the state is as before. *)
Theorem wait_reaps_zombie c np copy_ok k r k' me pr :
  wait_at c np copy_ok k = Some (r, k') -> myproc c k = Some me ->
  proc_table k !! np = Some pr ->
  if ptr_eqb (parent pr) me && procstate_eqb (state pr) ZOMBIE
  then if copy_ok
       then r = Some (pid pr) /\ k' = store np (free_entry pr) k
       else r = Some (-1) /\ k' = k
  else r = None /\ k' = k.
Proof.
  unfold wait_at. intros H Hme Hpr. rewrite Hme, Hpr in H.
  cbn [mbind option_bind] in H.
  destruct (ptr_eqb (parent pr) me); cbn [andb];
    [|injection H as <- <-; auto].
  apply bind_Some in H as (k1 & Hk1 & H).
  apply bind_Some in H as (pr1 & Hpr1 & H).
  pose proof Hk1 as Hacq.
  apply acquire_proc_spec in Hk1 as (pr0 & Hpr0 & Hl & ->).
  assert (pr0 = pr) by congruence. subst pr0.
  rewrite (lookup_store_eq _ _ _ _ Hpr) in Hpr1. injection Hpr1 as <-.
  change (state (set_lock (Some c) pr)) with (state pr) in H.
  change (pid (set_lock (Some c) pr)) with (pid pr) in H.
  destruct (procstate_eqb (state pr) ZOMBIE).
  - destruct copy_ok.
    + apply bind_Some in H as (k2 & Hk2 & H).
      apply bind_Some in H as (k3 & Hk3 & H). injection H as <- <-.
      split; [reflexivity|].
      unfold freeproc in Hk2.
      rewrite (lookup_store_eq _ _ _ _ Hpr) in Hk2.
      cbn [mbind option_bind] in Hk2. injection Hk2 as <-.
      rewrite store_store in Hk3.
      apply release_proc_spec in Hk3 as (pr3 & Hpr3 & _ & ->).
      rewrite (lookup_store_eq _ _ _ _ Hpr) in Hpr3. injection Hpr3 as <-.
      rewrite store_store. reflexivity.
    + apply bind_Some in H as (k3 & Hk3 & H). injection H as <- <-.
      split; [reflexivity|]. eapply acquire_release_id; eauto.
  - apply bind_Some in H as (k3 & Hk3 & H). injection H as <- <-.
    split; [reflexivity|]. eapply acquire_release_id; eauto.
Qed.

Lemma wait_reaps_zombie_witness :
  exists k',
    wait_at 0 1 true (state_after trace_zombie) = Some (Some 2, k') /\
    state (proc_of k' 1) = UNUSED.
Proof.
  assert (Hw : wait_at 0 1 true (state_after trace_zombie)
               = Some (Some 2,
                       default kernel_init
                         (snd <$> wait_at 0 1 true
                                    (state_after trace_zombie))))
    by (vm_compute; reflexivity).
  assert (Hme : myproc 0 (state_after trace_zombie) = Some (Some 0%nat))
    by (vm_compute; reflexivity).
  assert (Hpr : proc_table (state_after trace_zombie) !! 1%nat
                = Some (proc_of (state_after trace_zombie) 1))
    by (vm_compute; reflexivity).
  assert (Hz : ptr_eqb (parent (proc_of (state_after trace_zombie) 1))
                 (Some 0%nat)
               && procstate_eqb (state (proc_of (state_after trace_zombie) 1))
                    ZOMBIE = true) by (vm_compute; reflexivity).
  pose proof (wait_reaps_zombie _ _ _ _ _ _ _ _ Hw Hme Hpr) as H.
  rewrite Hz in H. destruct H as [_ Hk].
  eexists. split; [exact Hw|]. rewrite Hk.
  unfold proc_of. rewrite (lookup_store_eq _ _ _ _ Hpr). reflexivity.
Defined.
